(** * IPC-Toyz: the directory sync and backup engine of [main.go]

    A shallow embedding of the update tab of [main.go] ([tabUpdate]: the
    differ [getFilesToUpdate], the archiver [createBackup], the apply loop
    [performFilesUpdate], the restore loop [doRestore]) and of the hidden
    file scan ([scanFiles], [tabScan]), together with the properties the
    design document states about them.

    The operating system is explicit state: three directory trees (the
    source share, the local installation, the backup directory), a trace
    of the calls the code makes on its widgets, and a clock. *)

From Stdlib Require Import List Bool Arith ZArith QArith Lia.
From Stdlib Require Import Strings.String Strings.Ascii Strings.Byte.
From Stdlib Require Import Permutation Sorted.
Import ListNotations.

Set Implicit Arguments.

(** ** Directory listings *)

(** A listing gives the entries of a directory by name. *)
Section Listing.
Variable A : Type.

Fixpoint entry (name : string) (l : list (string * A)) : option A :=
  match l with
  | [] => None
  | (n, x) :: l' => if String.eqb n name then Some x else entry name l'
  end.

Fixpoint replaceEntry (name : string) (x : A) (l : list (string * A)) : list (string * A) :=
  match l with
  | [] => []
  | (n, y) :: l' =>
      if String.eqb n name then (n, x) :: l' else (n, y) :: replaceEntry name x l'
  end.

Fixpoint insertEntry (name : string) (x : A) (l : list (string * A)) : list (string * A) :=
  match l with
  | [] => [(name, x)]
  | (n, y) :: l' =>
      if String.ltb name n then (name, x) :: (n, y) :: l'
      else (n, y) :: insertEntry name x l'
  end.

(** Replaces the entry [name], or adds it at its place in name order. *)
Definition putEntry (name : string) (x : A) (l : list (string * A)) : list (string * A) :=
  match entry name l with
  | Some _ => replaceEntry name x l
  | None => insertEntry name x l
  end.

Fixpoint delEntry (name : string) (l : list (string * A)) : list (string * A) :=
  match l with
  | [] => []
  | (n, y) :: l' => if String.eqb n name then l' else (n, y) :: delEntry name l'
  end.

(** No two entries have the same name. *)
Fixpoint unique (l : list (string * A)) : bool :=
  match l with
  | [] => true
  | (n, _) :: l' =>
      match entry n l' with
      | Some _ => false
      | None => unique l'
      end
  end.
End Listing.

(** ** Files and directories *)

(** A path is the list of its components below one of the three roots:
    [filepath.Rel] and [filepath.Join] are list operations on it, and the
    empty path is ["."]. *)
Definition path := list string.

(** What the code can observe of a file besides its bytes: whether
    [os.ReadFile] succeeds on it, whether [os.WriteFile] does, the
    [FILE_ATTRIBUTE_HIDDEN] bit, and whether [syscall.GetFileAttributes]
    succeeds on it ([known]): the scan calls it on the files a walk
    lists, and what it makes of a failure is part of what it returns. *)
Record attrs := mkFileAttrs {
  readable : bool; writable : bool; hidden : bool; known : bool
}.

(** The attributes of a file on which [GetFileAttributes] succeeds. *)
Definition mkAttrs (readable writable hidden : bool) : attrs :=
  mkFileAttrs readable writable hidden true.

Definition plain : attrs := mkAttrs true true false.

(** [Dir es ok]: [es] is what [os.ReadDir] returns for the directory, in its
    order, and [ok = false] when it returns it together with an error. *)
Inductive node :=
| File (data : list byte) (a : attrs)
| Dir (entries : list (string * node)) (ok : bool).

Definition IsDir (n : node) : bool :=
  match n with Dir _ _ => true | File _ _ => false end.

(** [FileInfo.Size]: the length in bytes of a regular file; for a directory
    Windows, the only platform of the program, reports 0. *)
Definition Size (n : node) : Z :=
  match n with File d _ => Z.of_nat (List.length d) | Dir _ _ => 0%Z end.

Fixpoint lookup (n : node) (p : path) : option node :=
  match p with
  | [] => Some n
  | c :: p' =>
      match n with
      | Dir es _ =>
          match entry c es with
          | Some x => lookup x p'
          | None => None
          end
      | File _ _ => None
      end
  end.

Fixpoint wf (n : node) : bool :=
  match n with
  | File _ _ => true
  | Dir es _ =>
      unique es &&
      (fix all (l : list (string * node)) : bool :=
         match l with
         | [] => true
         | (_, x) :: l' => wf x && all l'
         end) es
  end.

(** ** The [os] calls of the code, on one tree *)

(** [os.Stat]: [None] is a non-nil error. *)
Definition Stat (root : node) (p : path) : option node := lookup root p.

Definition ReadFile (root : node) (p : path) : option (list byte) :=
  match lookup root p with
  | Some (File d a) => if readable a then Some d else None
  | _ => None
  end.

(** [os.MkdirAll]: creates the missing directories of [p]; fails, changing
    nothing, when a component of [p] is a file. *)
Fixpoint MkdirAll (n : node) (p : path) : option node :=
  match n with
  | File _ _ => None
  | Dir es ok =>
      match p with
      | [] => Some n
      | c :: p' =>
          let sub := match entry c es with Some x => x | None => Dir [] true end in
          match MkdirAll sub p' with
          | Some sub' => Some (Dir (putEntry c sub' es) ok)
          | None => None
          end
      end
  end.

(** [os.WriteFile]: creates the file in an existing directory or replaces
    the bytes of a writable file. *)
Fixpoint WriteFile (n : node) (p : path) (data : list byte) : option node :=
  match p, n with
  | [], File _ a => if writable a then Some (File data a) else None
  | [], Dir _ _ => None
  | c :: p', Dir es ok =>
      match entry c es, p' with
      | None, [] => Some (Dir (putEntry c (File data plain) es) ok)
      | None, _ :: _ => None
      | Some x, _ =>
          match WriteFile x p' data with
          | Some x' => Some (Dir (putEntry c x' es) ok)
          | None => None
          end
      end
  | _ :: _, File _ _ => None
  end.

(** [filepath.Dir] of a path below the root. *)
Definition parent (p : path) : path := removelast p.

(** ** [filepath.WalkDir] and [filepath.Walk] *)

Inductive error := ENOENT | EIO | SkipDir | SkipAll.

Definition is_SkipDir (e : error) : bool :=
  match e with SkipDir => true | _ => false end.

Definition is_Skip (e : error) : bool :=
  match e with SkipDir | SkipAll => true | _ => false end.

Section Walks.
Variable St : Type.

(** The callback: path, entry ([None]: the root could not be examined),
    error reported by the walk, and the variables it captures. *)
Variable fn : path -> option node -> option error -> St -> St * option error.

(** [walkDir] of [path/filepath]: the callback on the entry; for a
    directory the listing, a second call when the listing failed, then
    the entries that were listed. *)
Fixpoint walkDir (p : path) (d : node) (s : St) {struct d} : St * option error :=
  match fn p (Some d) None s with
  | (s1, Some e) =>
      if is_SkipDir e && IsDir d then (s1, None) else (s1, Some e)
  | (s1, None) =>
      match d with
      | File _ _ => (s1, None)
      | Dir es ok =>
          let '(s2, r) := if ok then (s1, None) else fn p (Some d) (Some EIO) s1 in
          match r with
          | Some e => if is_SkipDir e then (s2, None) else (s2, Some e)
          | None =>
              (fix each (l : list (string * node)) (s : St) : St * option error :=
                 match l with
                 | [] => (s, None)
                 | (name, d1) :: l' =>
                     match walkDir (p ++ [name]) d1 s with
                     | (s', Some e) =>
                         if is_SkipDir e then (s', None) else (s', Some e)
                     | (s', None) => each l' s'
                     end
                 end) es s2
          end
      end
  end.

(** [filepath.WalkDir] on a root that is absent ([None]) or present. *)
Definition WalkDir (root : option node) (s : St) : St * option error :=
  let '(s', err) :=
    match root with
    | None => fn [] None (Some ENOENT) s
    | Some d => walkDir [] d s
    end in
  match err with
  | Some e => if is_Skip e then (s', None) else (s', Some e)
  | None => (s', None)
  end.

(** [walk] of [path/filepath]: one call per entry; a directory whose
    names cannot be read is reported in that call and not entered. *)
Fixpoint walk (p : path) (info : node) (s : St) {struct info} : St * option error :=
  match info with
  | File _ _ => fn p (Some info) None s
  | Dir es ok =>
      let err := if ok then None else Some EIO in
      match fn p (Some info) err s with
      | (s1, Some e1) => (s1, Some e1)
      | (s1, None) =>
          if ok then
            (fix each (l : list (string * node)) (s : St) : St * option error :=
               match l with
               | [] => (s, None)
               | (name, x) :: l' =>
                   match walk (p ++ [name]) x s with
                   | (s', Some e) =>
                       if IsDir x && is_SkipDir e then each l' s'
                       else (s', Some e)
                   | (s', None) => each l' s'
                   end
               end) es s1
          else (s1, None)
      end
  end.

Definition Walk (root : option node) (s : St) : St * option error :=
  let '(s', err) :=
    match root with
    | None => fn [] None (Some ENOENT) s
    | Some d => walk [] d s
    end in
  match err with
  | Some e => if is_Skip e then (s', None) else (s', Some e)
  | None => (s', None)
  end.
End Walks.

(** ** [crypto/md5] and [fmt.Sprintf("%x", ...)] *)

(** The value of [md5.Sum]: a [[16]byte]. *)
Inductive digest :=
| Digest (b0 b1 b2 b3 b4 b5 b6 b7 b8 b9 b10 b11 b12 b13 b14 b15 : byte).

Definition digest_bytes (d : digest) : list byte :=
  match d with
  | Digest b0 b1 b2 b3 b4 b5 b6 b7 b8 b9 b10 b11 b12 b13 b14 b15 =>
      [b0; b1; b2; b3; b4; b5; b6; b7; b8; b9; b10; b11; b12; b13; b14; b15]
  end.

Definition hexDigit (n : N) : ascii :=
  ascii_of_N (if (n <? 10)%N then 48 + n else 87 + n).

Fixpoint hexBytes (l : list byte) : string :=
  match l with
  | [] => EmptyString
  | b :: l' =>
      String (hexDigit (Byte.to_N b / 16))
        (String (hexDigit (Byte.to_N b mod 16)) (hexBytes l'))
  end.

(** [fmt.Sprintf("%x", sum)]: two lower-case hexadecimal digits per byte. *)
Definition hex (d : digest) : string := hexBytes (digest_bytes d).

(** Reading the digits back, to show that [hex] loses nothing. *)
Definition unhexDigit (c : ascii) : N :=
  let n := N_of_ascii c in if (n <? 58)%N then n - 48 else n - 87.

Fixpoint unhexBytes (s : string) : list byte :=
  match s with
  | String c1 (String c2 s') =>
      match Byte.of_N (unhexDigit c1 * 16 + unhexDigit c2) with
      | Some b => b :: unhexBytes s'
      | None => []
      end
  | _ => []
  end.

(** ** Widgets, log and messages *)

(** The texts the code passes to [addLog], one constructor per format
    string, with the values it formats. *)
Inductive logmsg :=
| LogConfigSaved                       (* "Đã lưu cấu hình" *)
| LogCheckFrom                         (* "Bắt đầu kiểm tra từ: " + updateSourcePath *)
| LogError (e : error)                 (* "Lỗi: " + err.Error() *)
| LogNothing                           (* "Không có file cần cập nhật" *)
| LogNeed (n : nat)                    (* "Cần cập nhật %d file" *)
| LogHave (n : nat)                    (* "Có %d file cần cập nhật:" *)
| LogItem (f : path)                   (* "  - " + f *)
| LogMore (n : nat)                    (* "  ... và %d file khác" *)
| LogKilled                            (* "Đã tắt ipcas2.exe" *)
| LogLaunched                          (* "Đã mở ipcas2.exe" *)
| LogReadErr (relPath : path)          (* "Lỗi đọc: " + relPath *)
| LogWriteErr (relPath : path)         (* "Lỗi ghi: " + relPath *)
| LogUpdated (relPath : path)          (* "Cập nhật: " + relPath *)
| LogUpdateDone (n : nat) (elapsed : Z) (* "Hoàn tất cập nhật %d file trong %s" *)
| LogBackupFirst                       (* "Đang tạo backup trước khi cập nhật..." *)
| LogBackupErr (e : error)             (* "Lỗi backup: " + err.Error() *)
| LogBackupOk                          (* "Backup hoàn tất" *)
| LogNoBackup                          (* "Cập nhật không backup theo yêu cầu người dùng" *)
| LogCreating (name : string)          (* "Đang tạo backup: " + backupName *)
| LogRemovedOld (name : string)        (* "Xóa backup cũ: " + bkFiles[i] *)
| LogBackupDone (name : string)        (* "Backup hoàn tất: " + backupName *)
| LogRestoring (name : string)         (* "Đang restore từ: " + backupList.Selected *)
| LogOpenBackupErr                     (* "Lỗi mở backup: " + err.Error() *)
| LogOpenErr (name : path)             (* "Lỗi mở file: " + f.Name *)
| LogReadFileErr (name : path)         (* "Lỗi đọc file: " + f.Name *)
| LogRestored (name : path)            (* "Restore: " + f.Name *)
| LogRestoreDone.                      (* "Restore hoàn tất!" *)

(** The texts of [statusLabel.SetText]. *)
Inductive status :=
| StChecking                           (* "Đang kiểm tra..." *)
| StConnError                          (* "Lỗi kết nối" *)
| StUpToDate                           (* "✅ Đã cập nhật mới nhất" *)
| StHave (n : nat)                     (* "⚠️ Có %d file cần cập nhật" *)
| StBackingUp                          (* "Đang backup..." *)
| StUpdating (i n : nat) (remaining : Z) (* "Đang cập nhật... %d/%d (còn ~%s)" *)
| StUpdateDone                         (* "Cập nhật hoàn tất!" *)
| StRestoreDone.                       (* "Restore hoàn tất!" *)

(** The dialogs of [showMsg] and [showUpdateConfirm]. *)
Inductive dialog :=
| MsgChooseBackup                      (* "Lỗi", "Vui lòng chọn bản backup" *)
| MsgUpdated (n : nat)                 (* "Hoàn tất", "Đã cập nhật %d file" *)
| MsgRestored (name : string)          (* "Hoàn tất", "Đã restore từ " + Selected *)
| AskUpdate (n : nat).                 (* "Có %d file cần cập nhật. ..." *)

(** One call of the code on a widget or on a process. *)
Inductive event :=
| AddLog (m : logmsg)
| SetStatus (s : status)
| ProgressShow
| ProgressHide
| SetValue (q : Q)
| SetOptions (names : list string)     (* backupList.Options = backups *)
| ShowMsg (d : dialog)
| Taskkill                             (* taskkill /F /IM ipcas2.exe *)
| Sleep500                             (* time.Sleep(500 * time.Millisecond) *)
| StartIPCAS.                          (* cmd /C start exe *)

(** ** The backup directory *)

(** One file of a zip archive: its name, its bytes, and whether [f.Open]
    and [io.ReadAll] succeed on it. *)
Record zentry := mkZ { Name : path; zdata : list byte; zopen : bool; zread : bool }.

(** One entry of [updateBackupDir]: a zip archive, or anything
    [zip.OpenReader] fails on; [locked] when [os.Remove] and [os.Create]
    fail on it, as on a file another program holds open. *)
Inductive bkfile :=
| Zip (files : list zentry) (locked : bool)
| NotZip (locked : bool).

Definition is_locked (f : bkfile) : bool :=
  match f with Zip _ l => l | NotZip l => l end.

(** ** The state the code runs in *)

Inductive root := Source | Target.

Record world := mkWorld {
  source : option node;               (* the tree at updateSourcePath, if reachable *)
  target : node;                      (* the tree at updateTargetPath, taken to exist *)
  backups : list (string * bkfile);   (* the files of updateBackupDir *)
  selected : string;                  (* backupList.Selected *)
  ui : list event;                    (* the calls made so far, oldest first *)
  reads : list (root * path);         (* the files os.ReadFile was called on *)
  clock : nat -> Z;                   (* the successive readings of the clock *)
  ticks : nat                         (* how many readings were taken *)
}.

Definition emit (e : event) (w : world) : world :=
  mkWorld (source w) (target w) (backups w) (selected w) (ui w ++ [e])
          (reads w) (clock w) (ticks w).

Definition addLog (m : logmsg) (w : world) : world := emit (AddLog m) w.

Definition set_target (t : node) (w : world) : world :=
  mkWorld (source w) t (backups w) (selected w) (ui w) (reads w) (clock w) (ticks w).

Definition set_backups (b : list (string * bkfile)) (w : world) : world :=
  mkWorld (source w) (target w) b (selected w) (ui w) (reads w) (clock w) (ticks w).

Definition set_selected (s : string) (w : world) : world :=
  mkWorld (source w) (target w) (backups w) s (ui w) (reads w) (clock w) (ticks w).

(** [time.Now()]. *)
Definition timeNow (w : world) : world * Z :=
  (mkWorld (source w) (target w) (backups w) (selected w) (ui w) (reads w)
           (clock w) (S (ticks w)),
   clock w (ticks w)).

(** [time.Since(t)]. *)
Definition timeSince (t : Z) (w : world) : world * Z :=
  let '(w', now) := timeNow w in (w', (now - t)%Z).

Definition tree (r : root) (w : world) : option node :=
  match r with Source => source w | Target => Some (target w) end.

(** [os.ReadFile] on a path of one of the two trees. *)
Definition osReadFile (r : root) (p : path) (w : world) : world * option (list byte) :=
  (mkWorld (source w) (target w) (backups w) (selected w) (ui w)
           (reads w ++ [(r, p)]) (clock w) (ticks w),
   match tree r w with
   | Some n => ReadFile n p
   | None => None
   end).

(** ** The update tab: [tabUpdate] *)

Section Update.
(** [md5.Sum]. *)
Variable md5Sum : list byte -> digest.

(** [fileHash]: the empty string when the file cannot be read. *)
Definition fileHash (r : root) (p : path) (w : world) : world * string :=
  match osReadFile r p w with
  | (w', None) => (w', EmptyString)
  | (w', Some data) => (w', hex (md5Sum data))
  end.

(** The three tiers of the callback of [getFilesToUpdate], for the source
    entry [srcInfo] at [relPath]: the value of [needUpdate]. [srcInfo] is
    [d.Info()], which does not fail on the entries a walk lists on
    Windows. *)
Definition needUpdate (relPath : path) (srcInfo : node) (w : world) : world * bool :=
  match Stat (target w) relPath with
  | None => (w, true)
  | Some tgtInfo =>
      if negb (Size srcInfo =? Size tgtInfo)%Z then (w, true)
      else
        let '(w1, srcHash) := fileHash Source relPath w in
        let '(w2, tgtHash) := fileHash Target relPath w1 in
        (w2, negb (String.eqb srcHash EmptyString)
             && negb (String.eqb tgtHash EmptyString)
             && negb (String.eqb srcHash tgtHash))
  end.

(** The callback of [filepath.WalkDir] in [getFilesToUpdate]; it captures
    [toUpdate]. The walk never calls it without an entry and without an
    error. *)
Definition visit (p : path) (d : option node) (err : option error)
           (s : world * list path) : (world * list path) * option error :=
  match err, d with
  | Some _, _ => (s, None)
  | None, None => (s, None)
  | None, Some srcInfo =>
      if IsDir srcInfo then (s, None)
      else
        let '(w, toUpdate) := s in
        let '(w', need) := needUpdate p srcInfo w in
        ((w', if need then toUpdate ++ [p] else toUpdate), None)
  end.

Definition getFilesToUpdate (w : world) : world * list path * option error :=
  let '((w', toUpdate), err) := WalkDir visit (source w) (w, []) in
  (w', toUpdate, err).

(** [saveConfig]: the configuration file is outside the three trees. *)
Definition saveConfig (w : world) : world := addLog LogConfigSaved w.

Fixpoint emits (es : list event) (w : world) : world :=
  match es with
  | [] => w
  | e :: es' => emits es' (emit e w)
  end.

(** [doCheck], with the goroutine run to its end. *)
Definition doCheck (w : world) : world :=
  let w := saveConfig w in
  let w := emits [SetStatus StChecking; ProgressShow; SetValue 0] w in
  let '(w, files, err) := getFilesToUpdate w in
  let w := emit ProgressHide w in
  match err with
  | Some e => emits [AddLog (LogError e); SetStatus StConnError] w
  | None =>
      match files with
      | [] => emits [AddLog LogNothing; SetStatus StUpToDate] w
      | _ =>
          let n := List.length files in
          let w := addLog (LogHave n) w in
          let w := emits (List.map (fun f => AddLog (LogItem f)) (firstn 10 files)) w in
          let w := if (10 <? n)%nat then addLog (LogMore (n - 10)) w else w in
          emit (SetStatus (StHave n)) w
      end
  end.

(** *** The backup directory: [os.Create], [os.Remove], [os.ReadDir] *)

(** [os.Create] in [updateBackupDir]: an empty file, unless a locked file
    has the name. The file is open in the hands of the caller, and until
    it is closed [os.Remove] fails on it as on a locked one. The listing
    [backups] is that of a directory that exists and can be written to:
    [os.MkdirAll(updateBackupDir)], whose error the code drops, has made
    it. *)
Definition osCreate (name : string) (w : world) : world * option error :=
  match entry name (backups w) with
  | Some f =>
      if is_locked f then (w, Some EIO)
      else (set_backups (putEntry name (Zip [] true) (backups w)) w, None)
  | None => (set_backups (putEntry name (Zip [] true) (backups w)) w, None)
  end.

(** [os.Remove] in [updateBackupDir]. *)
Definition osRemove (name : string) (w : world) : world * option error :=
  match entry name (backups w) with
  | Some f =>
      if is_locked f then (w, Some EIO)
      else (set_backups (delEntry name (backups w)) w, None)
  | None => (w, Some ENOENT)
  end.

(** The names [os.ReadDir(updateBackupDir)] lists. *)
Definition readBackupDir (w : world) : list string := List.map fst (backups w).

Definition HasPrefix (s pre : string) : bool := String.prefix pre s.

Definition HasSuffix (s suf : string) : bool :=
  (String.length suf <=? String.length s)%nat &&
  String.eqb (substring (String.length s - String.length suf) (String.length suf) s) suf.

(** The naming convention of the archives. *)
Definition isBackup (name : string) : bool :=
  HasPrefix name "BK_" && HasSuffix name ".zip".

(** [sort.Sort(sort.Reverse(sort.StringSlice(l)))]: the order on strings is
    total and antisymmetric, so the result is the one descending
    arrangement of [l] whatever the algorithm. *)
Fixpoint insertDesc (x : string) (l : list string) : list string :=
  match l with
  | [] => [x]
  | y :: l' => if String.leb y x then x :: y :: l' else y :: insertDesc x l'
  end.

Fixpoint sortDesc (l : list string) : list string :=
  match l with
  | [] => []
  | x :: l' => insertDesc x (sortDesc l')
  end.

(** The archives of the backup directory, newest name first. *)
Definition listBackups (w : world) : list string :=
  sortDesc (List.filter isBackup (readBackupDir w)).

(** [refreshBackups]. *)
Definition refreshBackups (w : world) : world :=
  let backups := listBackups w in
  let w := emit (SetOptions backups) w in
  match backups with
  | b :: _ => set_selected b w
  | [] => w
  end.

(** *** [createBackup] *)

(** [fmt.Sprintf("BK_%s.zip", stamp)], where [stamp] is
    [time.Now().Format("20060102_150405")]. *)
Definition backupName (stamp : string) : string :=
  String.append "BK_" (String.append stamp ".zip").

(** The callback of [filepath.WalkDir] in [createBackup]; it captures the
    zip writer, here the files written to it so far. [w.Create], taken to
    succeed, comes before [os.ReadFile]: a file that cannot be read is
    stored empty. *)
Definition store (p : path) (d : option node) (err : option error)
           (s : world * list zentry) : (world * list zentry) * option error :=
  match err, d with
  | Some _, _ => (s, None)
  | None, None => (s, None)
  | None, Some n =>
      if IsDir n then (s, None)
      else
        let '(w, zw) := s in
        match osReadFile Target p w with
        | (w', None) => ((w', zw ++ [mkZ p [] true true]), None)
        | (w', Some data) => ((w', zw ++ [mkZ p data true true]), None)
        end
  end.

(** The loop that removes the archives after the third. *)
Fixpoint prune (old : list string) (w : world) : world :=
  match old with
  | [] => w
  | name :: old' =>
      let '(w', _) := osRemove name w in
      prune old' (addLog (LogRemovedOld name) w')
  end.

(** The deferred [w.Close()] and [zipFile.Close()] of [createBackup]:
    the file [name] holds what the zip writer was given, and is open no
    more. *)
Definition closeZip (name : string) (zw : list zentry) (w : world) : world :=
  set_backups (putEntry name (Zip zw false) (backups w)) w.

(** [createBackup], at the second [stamp]. The new file is still open
    when the old archives are removed: the two calls of [Close] are
    deferred to the return. *)
Definition createBackup (stamp : string) (w : world) : world * option error :=
  let name := backupName stamp in
  let w := addLog (LogCreating name) w in
  match osCreate name w with
  | (w, Some e) => (w, Some e)
  | (w, None) =>
      let '((w, zw), _) := WalkDir store (Some (target w)) (w, []) in
      let bkFiles := listBackups w in
      let w := prune (skipn 3 bkFiles) w in
      let w := addLog (LogBackupDone name) w in
      (closeZip name zw w, None)
  end.

(** *** [killIPCAS], [launchIPCAS] *)

Definition killIPCAS (w : world) : world :=
  emits [Taskkill; AddLog LogKilled; Sleep500] w.

Definition launchIPCAS (w : world) : world :=
  match Stat (target w) ["ipcas2.exe"%string] with
  | Some _ => emits [StartIPCAS; AddLog LogLaunched] w
  | None => w
  end.

(** *** [performFilesUpdate] *)

(** [float64(k) / float64(n)], as the exact fraction: for [n] below
    [2^53] the rounding of [float64] keeps the order of these values. *)
Definition fraction (k n : nat) : Q := Z.of_nat k # Pos.of_nat n.

(** [Duration.Round(time.Second)], on nanoseconds. *)
Definition roundSecond (d : Z) : Z :=
  let m := 1000000000%Z in
  let r := Z.rem d m in
  if (d <? 0)%Z then
    let r := (- r)%Z in
    if (r + r <? m)%Z then (d + r)%Z else (d - m + r)%Z
  else
    if (r + r <? m)%Z then (d - r)%Z else (d + m - r)%Z.

(** [time.Duration(float64(elapsed) / progress * (1 - progress))]: the
    quotient in exact arithmetic, truncated as the conversion does. *)
Definition remainingTime (elapsed : Z) (progress : Q) : Z :=
  let q := (inject_Z elapsed / progress * (1 - progress))%Q in
  Z.quot (Qnum q) (Z.pos (Qden q)).

(** [os.MkdirAll(filepath.Dir(dst), 0755)], its result dropped. *)
Definition mkParent (relPath : path) (w : world) : world :=
  match MkdirAll (target w) (parent relPath) with
  | Some t => set_target t w
  | None => w
  end.

(** One turn of the loop of [performFilesUpdate], on [files[i]]. *)
Definition updateFile (total : nat) (startTime : Z) (i : nat) (relPath : path)
           (w : world) : world :=
  let w := mkParent relPath w in
  match osReadFile Source relPath w with
  | (w, None) => addLog (LogReadErr relPath) w
  | (w, Some data) =>
      match WriteFile (target w) relPath data with
      | None => addLog (LogWriteErr relPath) w
      | Some t =>
          let w := addLog (LogUpdated relPath) (set_target t w) in
          let progress := fraction (i + 1) total in
          let w := emit (SetValue progress) w in
          let '(w, elapsed) := timeSince startTime w in
          emit (SetStatus (StUpdating (i + 1) total
                             (roundSecond (remainingTime elapsed progress)))) w
      end
  end.

Fixpoint updateLoop (total : nat) (startTime : Z) (i : nat) (rest : list path)
         (w : world) : world :=
  match rest with
  | [] => w
  | relPath :: rest' =>
      updateLoop total startTime (S i) rest' (updateFile total startTime i relPath w)
  end.

Definition performFilesUpdate (files : list path) (w : world) : world :=
  let w := killIPCAS w in
  let w := emits [ProgressShow; SetValue 0] w in
  let '(w, startTime) := timeNow w in
  let w := updateLoop (List.length files) startTime 0 files w in
  let w := emits [SetValue 1; ProgressHide] w in
  let '(w, elapsed) := timeSince startTime w in
  let w := addLog (LogUpdateDone (List.length files) (roundSecond elapsed)) w in
  let w := emit (SetStatus StUpdateDone) w in
  let w := refreshBackups w in
  let w := launchIPCAS w in
  emit (ShowMsg (MsgUpdated (List.length files))) w.

(** *** [doUpdate] *)

(** The button pressed in [showUpdateConfirm]. *)
Inductive choice := BackupThenUpdate | UpdateOnly | Cancel.

(** [doUpdate], with the goroutine run to its end, the answer [c] to the
    dialog and the time stamp [stamp] of a backup taken. *)
Definition doUpdate (c : choice) (stamp : string) (w : world) : world :=
  let w := saveConfig w in
  let w := emits [SetStatus StChecking; ProgressShow; SetValue 0; AddLog LogCheckFrom] w in
  let '(w, files, err) := getFilesToUpdate w in
  let w := emit ProgressHide w in
  match err with
  | Some e => emits [AddLog (LogError e); SetStatus StConnError] w
  | None =>
      match files with
      | [] => emits [AddLog LogNothing; SetStatus StUpToDate] w
      | _ =>
          let w := addLog (LogNeed (List.length files)) w in
          let w := emit (ShowMsg (AskUpdate (List.length files))) w in
          match c with
          | BackupThenUpdate =>
              let w := emits [AddLog LogBackupFirst; SetStatus StBackingUp] w in
              let w :=
                match createBackup stamp w with
                | (w, Some e) => addLog (LogBackupErr e) w
                | (w, None) => refreshBackups (addLog LogBackupOk w)
                end in
              performFilesUpdate files w
          | UpdateOnly => performFilesUpdate files (addLog LogNoBackup w)
          | Cancel => w
          end
      end
  end.

(** *** [doRestore] *)

(** One turn of the loop of [doRestore], on [r.File[i]]. [Name f] is
    [f.Name] component by component, and [dstPath] is the path of these
    components below the target: what
    [filepath.Join(updateTargetPath, f.Name)] gives when no component is
    empty, [.] or [..], as in the archives [createBackup] writes. *)
Definition restoreFile (total : nat) (i : nat) (f : zentry) (w : world) : world :=
  let w := mkParent (Name f) w in
  if negb (zopen f) then addLog (LogOpenErr (Name f)) w
  else if negb (zread f) then addLog (LogReadFileErr (Name f)) w
  else
    let w :=
      match WriteFile (target w) (Name f) (zdata f) with
      | Some t => set_target t w
      | None => w
      end in
    let w := addLog (LogRestored (Name f)) w in
    emit (SetValue (fraction (i + 1) total)) w.

Fixpoint restoreLoop (total : nat) (i : nat) (rest : list zentry) (w : world) : world :=
  match rest with
  | [] => w
  | f :: rest' => restoreLoop total (S i) rest' (restoreFile total i f w)
  end.

Definition doRestore (w : world) : world :=
  if String.eqb (selected w) EmptyString then emit (ShowMsg MsgChooseBackup) w
  else
    let w := addLog (LogRestoring (selected w)) w in
    let w := killIPCAS w in
    match entry (selected w) (backups w) with
    | Some (Zip files _) =>
        let w := emit ProgressShow w in
        let w := restoreLoop (List.length files) 0 files w in
        let w := emits [ProgressHide; AddLog LogRestoreDone; SetStatus StRestoreDone] w in
        let w := launchIPCAS w in
        emit (ShowMsg (MsgRestored (selected w))) w
    | _ => addLog LogOpenBackupErr w
    end.
End Update.

(** ** The walks as sequences of calls *)

(** One call of a walk on its callback. *)
Definition call := (path * option node * option error)%type.

(** The calls of [walkDir] on its callback, in order, as long as the
    callback lets it go on. *)
Fixpoint walkDirCalls (p : path) (d : node) : list call :=
  (p, Some d, None) ::
  match d with
  | File _ _ => []
  | Dir es ok =>
      (if ok then [] else [(p, Some d, Some EIO)]) ++
      flat_map (fun e => walkDirCalls (p ++ [fst e]) (snd e)) es
  end.

(** The calls of [walk]. *)
Fixpoint walkCalls (p : path) (info : node) : list call :=
  match info with
  | File _ _ => [(p, Some info, None)]
  | Dir es ok =>
      if ok then
        (p, Some info, None) :: flat_map (fun e => walkCalls (p ++ [fst e]) (snd e)) es
      else [(p, Some info, Some EIO)]
  end.

(** Calling the callback on each call in turn, up to its first error. *)
Fixpoint run (St : Type) (fn : path -> option node -> option error -> St -> St * option error)
         (calls : list call) (s : St) : St * option error :=
  match calls with
  | [] => (s, None)
  | (p, d, e) :: calls' =>
      match fn p d e s with
      | (s', None) => run fn calls' s'
      | (s', Some x) => (s', Some x)
      end
  end.

(** ** The scan tab: [scanFiles] and [tabScan] *)

Module Scan.

Record FileInfo := mkFileInfo { Path : path; FSize : Z }.

Record FileItem := mkFileItem { info : FileInfo; selected : bool }.

(** [unicode.ToLower] on a character of one byte: the letters [A] to [Z]. *)
Definition lowerAscii (c : ascii) : ascii :=
  let n := nat_of_ascii c in
  if ((65 <=? n) && (n <=? 90))%nat then ascii_of_nat (n + 32) else c.

(** The UTF-8 forms of the two characters of more than one byte that
    [unicode.ToLower] maps to a character of one byte: [U+0130], the
    capital I with a dot ([C4 B0]), to [i], and [U+212A], the Kelvin sign
    ([E2 84 AA]), to [k]. *)
Definition isDottedI (c1 c2 : ascii) : bool :=
  Ascii.eqb c1 "196" && Ascii.eqb c2 "176".

Definition isKelvin (c1 c2 c3 : ascii) : bool :=
  Ascii.eqb c1 "226" && Ascii.eqb c2 "132" && Ascii.eqb c3 "170".

(** [strings.ToLower] on the bytes of a text in UTF-8, up to the
    characters of more than one byte in its result: a character of more
    than one byte other than the two above, and a byte that is not part
    of a character, are left as they are, where [strings.ToLower] gives
    another character of more than one byte. The two results have bytes
    below 128 only on the same texts, and are equal there, so the
    comparisons with ["ipcas2.ini"], ["thumbs.db"] and the like, all the
    code makes of the result, come out as in the program. *)
Fixpoint ToLower (s : string) : string :=
  match s with
  | EmptyString => EmptyString
  | String c1 s1 =>
      match s1 with
      | String c2 s2 =>
          if isDottedI c1 c2 then String "i" (ToLower s2)
          else
            match s2 with
            | String c3 s3 =>
                if isKelvin c1 c2 c3 then String "k" (ToLower s3)
                else String (lowerAscii c1) (ToLower s1)
            | EmptyString => String (lowerAscii c1) (ToLower s1)
            end
      | EmptyString => String (lowerAscii c1) (ToLower s1)
      end
  end.

(** [syscall.GetFileAttributes] on what is at [p] below [root]: the
    hidden bit, or no answer when the call fails, as it does where nothing
    is. A directory of the model carries no hidden bit. *)
Definition GetFileAttributes (root : node) (p : path) : option bool :=
  match lookup root p with
  | Some (File _ a) => if known a then Some (hidden a) else None
  | Some (Dir _ _) => Some false
  | None => None
  end.

(** [isHidden]: the error of [GetFileAttributes] is dropped, and the
    value [0xFFFFFFFF] that comes with it has the hidden bit. *)
Definition isHidden (root : node) (p : path) : bool :=
  match GetFileAttributes root p with
  | Some h => h
  | None => true
  end.

(** The stop channel, as the callback sees it: [None] when it is never
    closed, [Some k] when it is found closed from the [k]-th poll on
    (counting from 0). *)
Definition stopchan := option nat.

(** The [select] on the stop channel: whether it is closed, and the
    channel for the next poll. *)
Definition poll (stop : stopchan) : bool * stopchan :=
  match stop with
  | None => (false, None)
  | Some O => (true, Some O)
  | Some (S k) => (false, Some k)
  end.

Section Walking.
(** The tree at [%USERPROFILE%\AppData\Local\VirtualStore], if any;
    paths are relative to it. *)
Variable store : option node.

(** [info.Name()]: the last component of the path. *)
Definition baseName (p : path) : string := last p "VirtualStore"%string.

(** The callback of [filepath.Walk] in [scanFiles]; it captures the
    channel and the result [r]. *)
Definition found (p : path) (info : option node) (e : option error)
           (s : stopchan * list FileInfo) : (stopchan * list FileInfo) * option error :=
  let '(stop, r) := s in
  match poll stop with
  | (true, stop') => ((stop', r), Some SkipAll)
  | (false, stop') =>
      match e, info with
      | Some _, _ => ((stop', r), None)
      | None, None => ((stop', r), None)
      | None, Some n =>
          if IsDir n then ((stop', r), None)
          else if String.eqb (ToLower (baseName p)) "ipcas2.ini"
                  && match store with Some t => isHidden t p | None => false end
          then ((stop', r ++ [mkFileInfo p (Size n)]), None)
          else ((stop', r), None)
      end
  end.

(** [filepath.Walk(p, ...)] for one of the two roots, skipped when
    [os.Stat(p)] fails. *)
Definition scanRoot (p : path) (s : stopchan * list FileInfo) : stopchan * list FileInfo :=
  match store with
  | None => s
  | Some t =>
      match Stat t p with
      | None => s
      | Some d =>
          let '(s', err) := walk found p d s in s'
      end
  end.

Definition scanFiles (stop : stopchan) : list FileInfo :=
  snd (scanRoot [] (scanRoot ["Windows"%string] (stop, []))).
End Walking.

(** The labels of the tab. *)
Inductive label :=
| Ready                              (* "Sẵn sàng" *)
| Scanning                           (* "Đang quét..." *)
| Stopped                            (* "Đã dừng" *)
| NotFound                           (* "Không tìm thấy file IPCAS2.ini ẩn" *)
| Done.                              (* "Hoàn tất (%.1fs)" *)

(** The variables of the tab: [files], [scanning], and the texts of
    [statusLbl] and [countLbl] ([None] is the dash shown while scanning). *)
Record tab := mkTab {
  files : list FileItem;
  scanning : bool;
  statusLbl : label;
  countLbl : option nat
}.

(** The goroutine of the scan button, once [scanFiles] has returned. *)
Definition scanDone (r : list FileInfo) : tab :=
  let files := List.map (fun f => mkFileItem f false) r in
  match files with
  | [] => mkTab files false NotFound (Some O)
  | _ => mkTab files false Done (Some (List.length files))
  end.

(** The scan button on an idle tab, with the goroutine run to its end;
    [stop] tells when the stop button closes the channel. *)
Definition scanBtn (store : option node) (stop : stopchan) (t : tab) : tab :=
  if scanning t then t else scanDone (scanFiles store stop).

(** *** The scan, observed *)

(** What the callback appends to the result for one call. *)
Definition hit (store : option node) (c : call) : list FileInfo :=
  match c with
  | (p, Some n, None) =>
      if IsDir n then []
      else if String.eqb (ToLower (baseName p)) "ipcas2.ini"
              && match store with Some t => isHidden t p | None => false end
      then [mkFileInfo p (Size n)]
      else []
  | _ => []
  end.

(** The calls of the two walks of [scanFiles] when nothing stops them. *)
Definition scanCalls (store : option node) : list call :=
  match store with
  | None => []
  | Some t =>
      match Stat t ["Windows"%string] with
      | Some d => walkCalls ["Windows"%string] d
      | None => []
      end ++ walkCalls [] t
  end.

(** The tab before a scan. *)
Definition idle : tab := mkTab [] false Ready (Some O).

(** A hidden file. *)
Definition hiddenFile (data : list byte) : node := File data (mkAttrs true true true).

(** A [VirtualStore] with two hidden [IPCAS2.ini], one below [Windows]. *)
Definition sampleStore : option node :=
  Some (Dir [("IPCAS2.ini"%string, hiddenFile [x41]);
             ("Windows"%string, Dir [("ipcas2.ini"%string, hiddenFile [x42; x42])] true)]
            true).

End Scan.

(** The entries of a walk that are not directories, with their paths. *)
Definition leaves (calls : list call) : list (path * node) :=
  flat_map (fun c : call =>
              match c with
              | (p, Some n, None) => if IsDir n then [] else [(p, n)]
              | _ => []
              end) calls.

(** The files of a tree, in the order [filepath.WalkDir] visits them. *)
Definition files_of (d : node) : list (path * node) := leaves (walkDirCalls [] d).

(** The events a run added to the trace of [w0]. *)
Definition added (w0 w : world) : list event := skipn (List.length (ui w0)) (ui w).

(** The files a run read, after those of [w0]. *)
Definition read_since (w0 w : world) : list (root * path) :=
  skipn (List.length (reads w0)) (reads w).

Definition with_reads (l : list (root * path)) (w : world) : world :=
  mkWorld (source w) (target w) (backups w) (selected w) (ui w)
          (reads w ++ l) (clock w) (ticks w).

(** What [fileHash] returns, as a function of the trees. *)
Definition hashOf (md5Sum : list byte -> digest) (t : option node) (p : path) : string :=
  match t with
  | Some n =>
      match ReadFile n p with
      | Some data => hex (md5Sum data)
      | None => EmptyString
      end
  | None => EmptyString
  end.

(** The value of [needUpdate] for a source entry, as a function of the
    trees, and the files hashed to find it. *)
Definition stale (md5Sum : list byte -> digest) (w : world) (e : path * node) : bool :=
  match Stat (target w) (fst e) with
  | None => true
  | Some tgtInfo =>
      if negb (Size (snd e) =? Size tgtInfo)%Z then true
      else
        negb (String.eqb (hashOf md5Sum (source w) (fst e)) EmptyString)
        && negb (String.eqb (hashOf md5Sum (Some (target w)) (fst e)) EmptyString)
        && negb (String.eqb (hashOf md5Sum (source w) (fst e))
                            (hashOf md5Sum (Some (target w)) (fst e)))
  end.

Definition hashed (w : world) (e : path * node) : list (root * path) :=
  match Stat (target w) (fst e) with
  | None => []
  | Some tgtInfo =>
      if negb (Size (snd e) =? Size tgtInfo)%Z then []
      else [(Source, fst e); (Target, fst e)]
  end.

(** The two calls of the branch [err != nil] of [doCheck] and [doUpdate]. *)
Definition isConnError (e : event) : bool :=
  match e with
  | SetStatus StConnError => true
  | AddLog (LogError _) => true
  | _ => false
  end.

(** [w'] continues the trace of [w] without reporting a connection error. *)
Definition calm (w w' : world) : Prop :=
  exists evs, ui w' = ui w ++ evs /\ existsb isConnError evs = false.

(** What [createBackup] stores for a file of the target tree. *)
Definition stored (t : node) (e : path * node) : zentry :=
  mkZ (fst e) (match ReadFile t (fst e) with Some data => data | None => [] end) true true.

(** The archive [createBackup] makes of a tree. *)
Definition archive_of (t : node) : list zentry := List.map (stored t) (files_of t).

(** A stand-in for [md5.Sum] in the worked examples: the first sixteen
    bytes of the data, padded with zeros. *)
Definition sampleSum (data : list byte) : digest :=
  let b i := nth i data x00 in
  Digest (b 0%nat) (b 1%nat) (b 2%nat) (b 3%nat) (b 4%nat) (b 5%nat) (b 6%nat) (b 7%nat)
         (b 8%nat) (b 9%nat) (b 10%nat) (b 11%nat) (b 12%nat) (b 13%nat) (b 14%nat) (b 15%nat).

Definition emptyWorld : world :=
  mkWorld None (Dir [] true) [] EmptyString [] [] (fun k => Z.of_nat k) 0.

Definition with_source (s : option node) (w : world) : world :=
  mkWorld s (target w) (backups w) (selected w) (ui w) (reads w) (clock w) (ticks w).


(** ** Worked examples *)

(** A directory holding the one file [a.txt]. *)
Definition oneFile (data : list byte) (a : attrs) : node :=
  Dir [("a.txt"%string, File data a)] true.

(** A file that exists but that [os.ReadFile] cannot read. *)
Definition unreadable : attrs := mkAttrs false true false.

(** Source and target hold [a.txt] with one byte each, not the same one;
    the target file cannot be read. *)
Definition worldLockedTarget : world :=
  with_source (Some (oneFile [x31] plain))
    (set_target (oneFile [x32] unreadable) emptyWorld).

(** The same, the source file being the one that cannot be read. *)
Definition worldLockedSource : world :=
  with_source (Some (oneFile [x31] unreadable))
    (set_target (oneFile [x32] plain) emptyWorld).

(** The same, both files readable. *)
Definition worldChanged : world :=
  with_source (Some (oneFile [x31] plain))
    (set_target (oneFile [x32] plain) emptyWorld).

(** ** The backup directory, observed *)

(** The archives the log reports as removed, in the order of the log. *)
Definition removedOld (evs : list event) : list string :=
  flat_map (fun e => match e with AddLog (LogRemovedOld n) => [n] | _ => [] end) evs.

(** Strictly descending order of names. *)
Definition desc (a b : string) : Prop := String.ltb b a = true.

(** ** Restoring, observed on the target tree *)

(** [WriteFile] after [MkdirAll] of the parent can write [p]: no component
    of [p] is a file, and [p] itself is absent or a writable file. *)
Fixpoint creatable (n : node) (p : path) : bool :=
  match p, n with
  | [], File _ a => writable a
  | [], Dir _ _ => false
  | c :: p', Dir es _ =>
      match entry c es with
      | Some x => creatable x p'
      | None => true
      end
  | _ :: _, File _ _ => false
  end.

(** [p] is an initial part of [q]. *)
Definition prefix_of (p q : path) : Prop := exists r, q = p ++ r.

(** What one turn of the loop of [doRestore] does to the target tree. *)
Definition restoreStep (t : node) (f : zentry) : node :=
  let t1 := match MkdirAll t (parent (Name f)) with Some t' => t' | None => t end in
  if zopen f && zread f then
    match WriteFile t1 (Name f) (zdata f) with
    | Some t2 => t2
    | None => t1
    end
  else t1.

(** ** Applying and restoring, observed on the trace *)

(** What one turn of the loop of [performFilesUpdate] does to the target
    tree, and the line it logs for the entry. *)
Definition applyStep (src : option node) (t : node) (relPath : path) : node * logmsg :=
  let t1 := match MkdirAll t (parent relPath) with Some t' => t' | None => t end in
  match match src with Some s => ReadFile s relPath | None => None end with
  | None => (t1, LogReadErr relPath)
  | Some data =>
      match WriteFile t1 relPath data with
      | None => (t1, LogWriteErr relPath)
      | Some t2 => (t2, LogUpdated relPath)
      end
  end.

(** The lines logged for the entries of a change set, one per entry. *)
Fixpoint outcomes (src : option node) (t : node) (files : list path) : list logmsg :=
  match files with
  | [] => []
  | relPath :: rest =>
      snd (applyStep src t relPath) :: outcomes src (fst (applyStep src t relPath)) rest
  end.

(** The entry a line of the log is about. *)
Definition subject (m : logmsg) : option path :=
  match m with
  | LogReadErr p | LogWriteErr p | LogUpdated p => Some p
  | LogOpenErr p | LogReadFileErr p | LogRestored p => Some p
  | _ => None
  end.

Definition isReadErr (m : logmsg) : bool :=
  match m with LogReadErr _ => true | _ => false end.

(** [os.ReadFile] fails on the source file [p]. *)
Definition unreadableIn (src : option node) (p : path) : bool :=
  match match src with Some s => ReadFile s p | None => None end with
  | Some _ => false
  | None => true
  end.

Definition isFailure (m : logmsg) : bool :=
  match m with
  | LogReadErr _ | LogWriteErr _ | LogOpenErr _ | LogReadFileErr _ => true
  | _ => false
  end.

(** The lines of a trace that are about one entry. *)
Definition fileLogs (evs : list event) : list logmsg :=
  flat_map (fun e => match e with
                     | AddLog m => match subject m with Some _ => [m] | None => [] end
                     | _ => []
                     end) evs.

(** The values passed to [progressBar.SetValue], in order. *)
Definition progressOf (evs : list event) : list Q :=
  flat_map (fun e => match e with SetValue q => [q] | _ => [] end) evs.

(** The calls that end [performFilesUpdate]: the last line of the log, the
    status and the dialog. *)
Definition report (evs : list event) : list event :=
  List.filter (fun e => match e with
                        | AddLog (LogUpdateDone _ _) => true
                        | SetStatus StUpdateDone => true
                        | ShowMsg (MsgUpdated _) => true
                        | _ => false
                        end) evs.

(** The fractions of the entries that were updated or restored, the first
    line being that of entry [i]. *)
Fixpoint fractionsOf (total i : nat) (lines : list logmsg) : list Q :=
  match lines with
  | [] => []
  | m :: lines' =>
      (if isFailure m then [] else [fraction (i + 1) total])
      ++ fractionsOf total (S i) lines'
  end.

(** The line [doRestore] logs for one file of the archive. *)
Definition restoreLine (f : zentry) : logmsg :=
  if negb (zopen f) then LogOpenErr (Name f)
  else if negb (zread f) then LogReadFileErr (Name f)
  else LogRestored (Name f).

(** What a piece of the code leaves alone, and what it appends to the
    trace. *)
Record step_of (w w' : world) (evs : list event) : Prop := mkStep {
  step_ui : ui w' = ui w ++ evs;
  step_source : source w' = source w;
  step_backups : backups w' = backups w;
  step_clock : clock w' = clock w;
  step_ticks : (ticks w <= ticks w')%nat
}.


(** ** More worked examples *)

Definition archiveNamed (stamp : string) : string * bkfile :=
  (backupName stamp, Zip [] false).

(** A backup directory with four archives, as after a manual copy. *)
Definition worldFour : world :=
  set_backups [archiveNamed "20260101_000001"; archiveNamed "20260101_000002";
               archiveNamed "20260101_000003"; archiveNamed "20260101_000004"]
              (set_target (oneFile [x31] plain) emptyWorld).

(** The same with five, the oldest held open by another program, so that
    [os.Remove] fails on it. *)
Definition worldFive : world :=
  set_backups [(backupName "20260101_000001", Zip [] true);
               archiveNamed "20260101_000002";
               archiveNamed "20260101_000003"; archiveNamed "20260101_000004";
               archiveNamed "20260101_000005"]
              (set_target (oneFile [x31] plain) emptyWorld).

(** The target tree after a backup of [worldFour], changed by hand:
    [a.txt] rewritten and [b.txt] added; the new archive is selected. *)
Definition worldMutated : world :=
  set_selected (backupName "20260101_000009")
    (set_target (Dir [("a.txt"%string, File [x39; x39] plain);
                      ("b.txt"%string, File [x32] plain)] true)
       (fst (createBackup "20260101_000009" worldFour))).

(** ** Induction on trees *)

(** The induction principle of [node] that reaches the entries of a
    directory. *)
Section NodeInd.
Variable P : node -> Prop.
Hypothesis HF : forall d a, P (File d a).
Hypothesis HD : forall es ok, Forall (fun e => P (snd e)) es -> P (Dir es ok).

Fixpoint node_nested_ind (n : node) : P n :=
  match n with
  | File d a => HF d a
  | Dir es ok =>
      @HD es ok
        ((fix go (l : list (string * node)) : Forall (fun e => P (snd e)) l :=
            match l with
            | [] => @Forall_nil _ _
            | e :: l' => @Forall_cons _ _ e l' (node_nested_ind (snd e)) (go l')
            end) es)
  end.
End NodeInd.

(** ** The apply loop, observed on the target tree *)

(** The target tree after the loop of [performFilesUpdate] on a change
    set. *)
Definition applyAll (src : option node) (t : node) (files : list path) : node :=
  fold_left (fun t relPath => fst (applyStep src t relPath)) files t.

(** [os.ReadFile] on the source share. *)
Definition readSource (src : option node) (p : path) : option (list byte) :=
  match src with Some s => ReadFile s p | None => None end.

(** The source holds [a.txt], which cannot be read; the target is empty. *)
Definition worldNewUnreadable : world :=
  with_source (Some (oneFile [x31] unreadable)) emptyWorld.

(** The source holds [a.txt], which cannot be read, and [b.txt]; the
    target is empty. *)
Definition worldTwo : world :=
  with_source (Some (Dir [("a.txt"%string, File [x31] unreadable);
                          ("b.txt"%string, File [x32] plain)] true))
              emptyWorld.

(** [w'] continues [w] on the same two trees, with calls that are neither
    about one file of a change set nor the killing of [ipcas2.exe]. *)
Definition quiet (w w' : world) : Prop :=
  exists evs,
    ui w' = ui w ++ evs
    /\ fileLogs evs = [] /\ ~ In Taskkill evs
    /\ target w' = target w /\ source w' = source w.

(** The files [doCheck] names in the log, in order. *)
Definition itemsOf (evs : list event) : list path :=
  flat_map (fun e => match e with AddLog (LogItem f) => [f] | _ => [] end) evs.

(** [worldChanged] with a backup directory in which a file that cannot be
    replaced has the name of the next archive. *)
Definition worldBackupLocked : world :=
  set_backups [(backupName "20260101_000009", NotZip true)] worldChanged.

(** A name of an archive entry that [filepath.Join(updateTargetPath, _)]
    leaves below the target as it is, component by component: none of
    its components is empty, [.] or [..]. The names [createBackup] gives
    its entries, which come from [filepath.Rel], are such names. *)
Definition plainName (p : path) : bool :=
  forallb (fun c => negb (String.eqb c EmptyString)
                    && negb (String.eqb c ".")
                    && negb (String.eqb c ".."))
          p.

(** A tree as [os.ReadDir] lists it: no entry is called by the empty
    name, [.] or [..]. *)
Fixpoint plainTree (n : node) : bool :=
  match n with
  | File _ _ => true
  | Dir es _ =>
      (fix all (l : list (string * node)) : bool :=
         match l with
         | [] => true
         | (c, x) :: l' => plainName [c] && plainTree x && all l'
         end) es
  end.

(** The entries of the selected archive have such names. *)
Definition plainSelection (w : world) : Prop :=
  forall files l f,
    entry (selected w) (backups w) = Some (Zip files l) -> In f files ->
    plainName (Name f) = true.

(** [worldFour] with a selection that names no file of the backup
    directory, as after the archive was deleted by hand. *)
Definition worldNoArchive : world := set_selected "BK_gone.zip" worldFour.

(** [worldFour] with a source share whose [a.txt] differs from the one
    installed. *)
Definition worldFourChanged : world :=
  with_source (Some (oneFile [x39] plain)) worldFour.

(** ** The scan, observed on the tree *)

(** A walk from [n] gets to [p]: every directory on the way is listed
    without error. *)
Fixpoint reachable (n : node) (p : path) : bool :=
  match p with
  | [] => true
  | c :: p' =>
      match n with
      | Dir es true =>
          match entry c es with
          | Some x => reachable x p'
          | None => false
          end
      | _ => false
      end
  end.

(** The tree of [Scan.sampleStore]. *)
Definition sampleTree : node :=
  Dir [("IPCAS2.ini"%string, Scan.hiddenFile [x41]);
       ("Windows"%string, Dir [("ipcas2.ini"%string, Scan.hiddenFile [x42; x42])] true)]
      true.

(** [IPCAS2.INI] written with the capital I with a dot, [U+0130], whose
    UTF-8 form is the two bytes [C4 B0]. *)
Definition dottedName : string :=
  String "196" (String "176" "PCAS2.INI").

(** A [VirtualStore] with one file of that name: it is not hidden, and
    [GetFileAttributes] fails on it. *)
Definition hazyTree : node :=
  Dir [(dottedName, File [x41] (mkFileAttrs true true false false))] true.

(** ** Deleting what the scan found: [delFile] and the delete button *)

(** [SetFileAttributes] on the file at [p]: [f] is applied to its
    attributes; nothing changes when [p] is not a regular file. *)
Fixpoint setAttrs (f : attrs -> attrs) (n : node) (p : path) : node :=
  match p, n with
  | [], File d a => File d (f a)
  | c :: p', Dir es ok =>
      match entry c es with
      | Some x => Dir (putEntry c (setAttrs f x p') es) ok
      | None => n
      end
  | _, _ => n
  end.

(** The attributes of a file after [SetFileAttributes] has been given
    [a &^ FILE_ATTRIBUTE_HIDDEN], where [a] is what [GetFileAttributes]
    returned: the attributes of the file, or, when the call failed,
    [0xFFFFFFFF], which has the read-only bit. *)
Definition unhide (a : attrs) : attrs :=
  mkFileAttrs (readable a) (if known a then writable a else false) false (known a).

(** What [os.Remove] removes: a file, or a directory that is empty. *)
Definition removable (n : node) : bool :=
  match n with
  | File _ _ => true
  | Dir [] _ => true
  | Dir (_ :: _) _ => false
  end.

(** [os.Remove] of the entry at [p], not the root, of the tree [n]. *)
Fixpoint removeAt (n : node) (p : path) : option node :=
  match p with
  | [] => None
  | c :: p' =>
      match n with
      | File _ _ => None
      | Dir es ok =>
          match entry c es with
          | None => None
          | Some x =>
              match p' with
              | [] => if removable x then Some (Dir (delEntry c es) ok) else None
              | _ :: _ =>
                  match removeAt x p' with
                  | Some x' => Some (Dir (putEntry c x' es) ok)
                  | None => None
                  end
              end
          end
      end
  end.

(** What is at [p] in a folder that may be absent. *)
Definition lookupIn (folder : option node) (p : path) : option node :=
  match folder with
  | Some t => lookup t p
  | None => None
  end.

(** Every regular file of [store'] was one of [store], with the same
    bytes; [GetFileAttributes] fails on it as it did, and it is hidden
    only if it was. *)
Definition fromStore (store store' : option node) : Prop :=
  forall q d a',
    lookupIn store' q = Some (File d a') ->
    exists a, lookupIn store q = Some (File d a)
              /\ known a' = known a /\ (hidden a' = true -> hidden a = true).

Section Deleting.
(** What the operating system lets through: [attrOK p] when
    [SetFileAttributes] succeeds on the file at [p], [removeOK p] when
    [os.Remove] is not refused there, as it is on a file that another
    program holds open. *)
Variable attrOK : path -> bool.
Variable removeOK : path -> bool.

(** [os.Remove] below the [VirtualStore]; the empty path is the
    [VirtualStore] itself. *)
Definition Remove (store : option node) (p : path) : option node * option error :=
  match store with
  | None => (None, Some ENOENT)
  | Some t =>
      if negb (removeOK p) then (store, Some EIO)
      else
        match p with
        | [] => if removable t then (None, None) else (store, Some EIO)
        | _ :: _ =>
            match removeAt t p with
            | Some t' => (Some t', None)
            | None => (store, Some ENOENT)
            end
        end
  end.

(** [delFile]: the hidden bit is cleared first, the result of
    [SetFileAttributes] dropped. The test of the bit is that of
    [isHidden]: the error of [GetFileAttributes] is dropped here too. *)
Definition delFile (store : option node) (p : path) : option node * option error :=
  let store :=
    match store with
    | Some t =>
        if Scan.isHidden t p && attrOK p then Some (setAttrs unhide t p) else store
    | None => None
    end in
  Remove store p.

(** The dialogs of the delete button. *)
Inductive notice :=
| MsgSelectFirst                     (* "Thông báo", "Vui lòng chọn file trước" *)
| AskDelete (cnt : nat)              (* "Bạn có chắc muốn xóa %d file?" *)
| MsgDeleted (del : nat).            (* "Đã xóa %d file thành công" *)

(** The three loops of the delete button: the count of the selection,
    the deletions with the count of those that succeeded, and the new
    list. *)
Definition countSelected (files : list Scan.FileItem) : nat :=
  fold_left (fun cnt f => if Scan.selected f then S cnt else cnt) files 0%nat.

Definition deleteStep (s : option node * nat) (f : Scan.FileItem) : option node * nat :=
  if Scan.selected f then
    match delFile (fst s) (Scan.Path (Scan.info f)) with
    | (store', None) => (store', S (snd s))
    | (store', Some _) => (store', snd s)
    end
  else s.

Definition deleteSelected (files : list Scan.FileItem) (store : option node)
  : option node * nat :=
  fold_left deleteStep files (store, 0%nat).

Definition keepUnselected (files : list Scan.FileItem) : list Scan.FileItem :=
  fold_left (fun nf f => if negb (Scan.selected f) then nf ++ [f] else nf) files [].

(** The delete button, with the answer [confirm] to its dialog. *)
Definition delBtn (confirm : bool) (store : option node) (t : Scan.tab)
  : option node * Scan.tab * list notice :=
  let cnt := countSelected (Scan.files t) in
  if (cnt =? 0)%nat then (store, t, [MsgSelectFirst])
  else if confirm then
    let '(store', del) := deleteSelected (Scan.files t) store in
    let nf := keepUnselected (Scan.files t) in
    (store',
     Scan.mkTab nf (Scan.scanning t) (Scan.statusLbl t) (Some (List.length nf)),
     [AskDelete cnt; MsgDeleted del])
  else (store, t, [AskDelete cnt]).
End Deleting.

(** A [VirtualStore] that is absent, or whose tree is well formed. *)
Definition wfIn (store : option node) : bool :=
  match store with
  | Some t => wf t
  | None => true
  end.

(** A tab that lists the two files of [sampleTree], the first selected. *)
Definition sampleTab : Scan.tab :=
  Scan.mkTab
    [Scan.mkFileItem (Scan.mkFileInfo ["IPCAS2.ini"%string] 1) true;
     Scan.mkFileItem (Scan.mkFileInfo ["Windows"%string; "ipcas2.ini"%string] 2) false]
    false Scan.Done (Some 2%nat).

(** ** The text of the log: [addLog] *)

Definition newline : ascii := "010"%char.

(** [strings.Split(s, "\n")]: the pieces between the line feeds, one more
    than there are line feeds. *)
Fixpoint Split (s : string) : list string :=
  match s with
  | EmptyString => [EmptyString]
  | String c s' =>
      if Ascii.eqb c newline then EmptyString :: Split s'
      else
        match Split s' with
        | x :: r => String c x :: r
        | [] => [String c EmptyString]
        end
  end.

(** [strings.Join(lines, "\n")]. *)
Fixpoint Join (lines : list string) : string :=
  match lines with
  | [] => EmptyString
  | x :: r =>
      match r with
      | [] => x
      | _ :: _ => String.append x (String newline (Join r))
      end
  end.

(** [lines[len(lines)-100:]], taken when there are more than 100. *)
Definition lastLines (lines : list string) : list string :=
  if (100 <? List.length lines)%nat then skipn (List.length lines - 100) lines
  else lines.

(** What [addLog] appends: the time of day, [" - "], the message and a
    line feed. *)
Definition logLine (now msg : string) : string :=
  String.append now (String.append " - " (String.append msg (String newline EmptyString))).

(** [addLog] on the text of [logText]; [now] is
    [time.Now().Format("15:04:05")]. *)
Definition addLogText (now msg text : string) : string :=
  String.append (Join (lastLines (Split text))) (logLine now msg).

(** The number of line feeds of a text. *)
Fixpoint newlines (s : string) : nat :=
  match s with
  | EmptyString => 0%nat
  | String c s' => ((if Ascii.eqb c newline then 1 else 0) + newlines s')%nat
  end.

(** ** The package [scanner] *)

Module Scanner.

Record FileInfo := mkFileInfo { Path : path; IsHidden : bool; FSize : Z }.

(** The function [IsHidden] of the package, whose name the field above
    has taken: false when [GetFileAttributes] fails. *)
Definition IsHiddenPath (root : node) (p : path) : bool :=
  match Scan.GetFileAttributes root p with
  | Some h => h
  | None => false
  end.

(** The state of the callback of [ScanForIPCAS2]: the stop channel, the
    results, and the paths handed to [progressCallback]. *)
Definition state := (Scan.stopchan * list FileInfo * list path)%type.

Section Walking.
(** The tree at [VirtualStore], if any, and whether [progressCallback] is
    not nil. *)
Variable store : option node.
Variable progress : bool.

(** The callback of [filepath.Walk] in [ScanForIPCAS2]. *)
Definition visit (p : path) (info : option node) (err : option error) (s : state)
  : state * option error :=
  let '(stop, results, seen) := s in
  match Scan.poll stop with
  | (true, stop') => ((stop', results, seen), Some SkipAll)
  | (false, stop') =>
      match err, info with
      | Some _, Some n =>
          if IsDir n then ((stop', results, seen), Some SkipDir)
          else ((stop', results, seen), None)
      | Some _, None => ((stop', results, seen), None)
      | None, None => ((stop', results, seen), None)
      | None, Some n =>
          if IsDir n then
            ((stop', results, if progress then seen ++ [p] else seen), None)
          else if String.eqb (Scan.ToLower (Scan.baseName p)) "ipcas2.ini" then
            let isHidden :=
              match store with Some t => IsHiddenPath t p | None => false end in
            if isHidden then
              ((stop', results ++ [mkFileInfo p isHidden (Size n)], seen), None)
            else ((stop', results, seen), None)
          else ((stop', results, seen), None)
      end
  end.

(** [filepath.Walk(scanRoot, ...)] for one of the two roots, skipped when
    [os.Stat] finds that it does not exist. *)
Definition scanRoot (p : path) (s : state) : state :=
  match store with
  | None => s
  | Some t =>
      match Stat t p with
      | None => s
      | Some d => fst (walk visit p d s)
      end
  end.

(** [ScanForIPCAS2]; its error is always nil. *)
Definition ScanForIPCAS2 (stop : Scan.stopchan) : list FileInfo * option error :=
  (snd (fst (scanRoot [] (scanRoot ["Windows"%string] (stop, [], [])))), None).
End Walking.

End Scanner.

(** [GetFileAttributes] succeeds on every regular file of the tree. *)
Fixpoint allKnown (n : node) : bool :=
  match n with
  | File _ a => known a
  | Dir es _ =>
      (fix all (l : list (string * node)) : bool :=
         match l with
         | [] => true
         | (_, x) :: l' => allKnown x && all l'
         end) es
  end.

Definition knownIn (store : option node) : bool :=
  match store with
  | Some t => allKnown t
  | None => true
  end.

(** A result of the package [scanner] as a result of [scanFiles]. *)
Definition asFileInfo (f : Scanner.FileInfo) : Scan.FileInfo :=
  Scan.mkFileInfo (Scanner.Path f) (Scanner.FSize f).

(** The callbacks of [scanFiles] and of [ScanForIPCAS2] have seen the
    same of the stop channel and collected the same files. *)
Definition sameScan (s1 : Scan.stopchan * list Scan.FileInfo) (s2 : Scanner.state) : Prop :=
  fst (fst s2) = fst s1
  /\ List.map asFileInfo (snd (fst s2)) = snd s1
  /\ Forall (fun f => Scanner.IsHidden f = true) (snd (fst s2)).

(** The calls of a trace that stop or start [ipcas2.exe], in order. *)
Definition processCalls (evs : list event) : list event :=
  List.filter (fun e => match e with Taskkill | StartIPCAS => true | _ => false end) evs.

(** ** The picture folder: [cleanupJunk] and [scanJunk] of [tabNetwork] *)

(** [filepath.Ext] on a file name: the suffix from the last dot on, empty
    when there is no dot. *)
Fixpoint Ext (s : string) : string :=
  match s with
  | EmptyString => EmptyString
  | String c s' =>
      match Ext s' with
      | EmptyString => if Ascii.eqb c "." then s else EmptyString
      | e => e
      end
  end.

(** The reasons shown with a file. *)
Inductive reason :=
| Rubbish                            (* "file rác" *)
| OldPhoto (modDate : string)        (* "ảnh cũ (" + modDate + ")" *)
| OldPhotoSeen                       (* "ảnh cũ" *)
| SystemFile.                        (* "file hệ thống" *)

(** The text of [cleanStatusLbl] when a run has ended. *)
Inductive cleanStatus :=
| CleanError (e : error)             (* "Lỗi: " + err.Error() *)
| NoJunk (scanned : nat)             (* "✅ Đã quét %d file, không có file rác" *)
| Deleted (deleted scanned : nat) (shown : list (string * reason)) (more : option nat)
                                     (* "🗑️ Đã xóa %d/%d file:" ... "... và %d file khác" *)
| Found (junk scanned : nat) (shown : list (string * reason)) (more : option nat).
                                     (* "⚠️ Tìm thấy %d file rác trong %d file:" ... *)

Section Junk.
(** [time.Now().Format("2006-01-02")]; the name of the folder that is
    walked; the day [d.Info()] reports for an entry ([None] when it
    fails); and whether [os.Remove] is let through. *)
Variable today : string.
Variable rootName : string.
Variable modDate : path -> option string.
Variable removeOK : path -> bool.

(** [d.Name()]. *)
Definition nameOf (p : path) : string := last p rootName.

(** The three rules of the callback of [cleanupJunk], in its order: the
    value of [shouldDelete] and of [reason], for the file called [fileName]
    whose day of modification is [day]. *)
Definition shouldDelete (fileName : string) (day : option string) : option reason :=
  let ext := Scan.ToLower (Ext fileName) in
  let name := Scan.ToLower fileName in
  let r := None in
  let r := if String.eqb ext ".env" || String.eqb ext ".enk" then Some Rubbish else r in
  let r :=
    if String.eqb ext ".jpg" || String.eqb ext ".jpeg" then
      match day with
      | Some d => if negb (String.eqb d today) then Some (OldPhoto d) else r
      | None => r
      end
    else r in
  if String.eqb name "thumbs.db" || String.eqb name "desktop.ini" || String.eqb ext ".db"
  then Some SystemFile else r.

(** The same for the callback of [scanJunk]: [isJunk] and [reason]. *)
Definition isJunk (fileName : string) (day : option string) : option reason :=
  let ext := Scan.ToLower (Ext fileName) in
  let name := Scan.ToLower fileName in
  let r := None in
  let r := if String.eqb ext ".evn" || String.eqb ext ".enk" then Some Rubbish else r in
  let r :=
    if String.eqb ext ".jpg" || String.eqb ext ".jpeg" then
      match day with
      | Some d => if negb (String.eqb d today) then Some OldPhotoSeen else r
      | None => r
      end
    else r in
  if String.eqb name "thumbs.db" || String.eqb name "desktop.ini" || String.eqb ext ".db"
  then Some SystemFile else r.

(** The variables the callback of [cleanupJunk] works on: the folder as
    it is now, [deleted], [scanned] and [deletedFiles]. *)
Definition cleaning := (option node * nat * nat * list (string * reason))%type.

(** The callback of [filepath.WalkDir] in [cleanupJunk]. *)
Definition cleanStep (p : path) (d : option node) (err : option error) (s : cleaning)
  : cleaning * option error :=
  match err, d with
  | Some _, _ => (s, None)
  | None, None => (s, None)
  | None, Some n =>
      if IsDir n then (s, None)
      else
        let '(folder, deleted, scanned, deletedFiles) := s in
        let scanned := S scanned in
        match shouldDelete (nameOf p) (modDate p) with
        | Some why =>
            match Remove removeOK folder p with
            | (folder', None) =>
                ((folder', S deleted, scanned,
                  if (List.length deletedFiles <? 10)%nat
                  then deletedFiles ++ [(nameOf p, why)] else deletedFiles), None)
            | (folder', Some _) => ((folder', deleted, scanned, deletedFiles), None)
            end
        | None => ((folder, deleted, scanned, deletedFiles), None)
        end
  end.

(** [cleanupJunk] on a folder, with the goroutine run to its end: the
    folder afterwards and the text of the label. *)
Definition cleanupJunk (folder : option node) : option node * cleanStatus :=
  let '((folder', deleted, scanned, deletedFiles), err) :=
    WalkDir cleanStep folder (folder, 0%nat, 0%nat, []) in
  match err with
  | Some e => (folder', CleanError e)
  | None =>
      if (deleted =? 0)%nat then (folder', NoJunk scanned)
      else (folder',
            Deleted deleted scanned deletedFiles
              (if (10 <? deleted)%nat then Some (deleted - 10)%nat else None))
  end.

(** The callback of [filepath.WalkDir] in [scanJunk]; it captures
    [junkCount], [scanned] and [junkFiles]. *)
Definition seeStep (p : path) (d : option node) (err : option error)
           (s : nat * nat * list (string * reason))
  : (nat * nat * list (string * reason)) * option error :=
  match err, d with
  | Some _, _ => (s, None)
  | None, None => (s, None)
  | None, Some n =>
      if IsDir n then (s, None)
      else
        let '(junkCount, scanned, junkFiles) := s in
        let scanned := S scanned in
        match isJunk (nameOf p) (modDate p) with
        | Some why =>
            ((S junkCount, scanned,
              if (List.length junkFiles <? 10)%nat
              then junkFiles ++ [(nameOf p, why)] else junkFiles), None)
        | None => ((junkCount, scanned, junkFiles), None)
        end
  end.

(** [scanJunk]: the text of the label. *)
Definition scanJunk (folder : option node) : cleanStatus :=
  let '((junkCount, scanned, junkFiles), _) :=
    WalkDir seeStep folder (0%nat, 0%nat, []) in
  if (junkCount =? 0)%nat then NoJunk scanned
  else Found junkCount scanned junkFiles
         (if (10 <? junkCount)%nat then Some (junkCount - 10)%nat else None).
End Junk.

(** A picture folder: a photo, a [.env] file, a [.evn] file and a text. *)
Definition pictureFolder : node :=
  Dir [("a.jpg"%string, File [x31] plain);
       ("b.env"%string, File [x32] plain);
       ("c.evn"%string, File [x33] plain);
       ("d.txt"%string, File [x34] plain)] true.

(** * Properties *)

Unset Implicit Arguments.

Lemma run_app (St : Type) (fn : path -> option node -> option error -> St -> St * option error)
      (c1 c2 : list call) (s : St) :
  run fn (c1 ++ c2) s =
  match run fn c1 s with
  | (s', None) => run fn c2 s'
  | (s', Some x) => (s', Some x)
  end.
Proof.
  revert s. induction c1 as [|[[p d] e] c1 IH]; intros s; simpl.
  - reflexivity.
  - destruct (fn p d e s) as [s' [x|]]; [reflexivity | apply IH].
Qed.

Section WalkRun.
Variable St : Type.
Variable fn : path -> option node -> option error -> St -> St * option error.
Hypothesis no_SkipDir :
  forall p d e s s' x, fn p d e s = (s', Some x) -> is_SkipDir x = false.

Lemma run_error (calls : list call) (s s' : St) (x : error) :
  run fn calls s = (s', Some x) -> is_SkipDir x = false.
Proof.
  revert s. induction calls as [|[[p d] e] calls IH]; intros s; simpl.
  - discriminate.
  - destruct (fn p d e s) as [s1 [y|]] eqn:E.
    + intros H. inversion H; subst. eapply no_SkipDir; eauto.
    + apply IH.
Qed.

Lemma walkDir_run (d : node) :
  forall p s, walkDir fn p d s = run fn (walkDirCalls p d) s.
Proof.
  induction d as [data a | es ok IH] using node_nested_ind; intros p s.
  - simpl. destruct (fn p (Some (File data a)) None s) as [s1 [x|]] eqn:E; [|reflexivity].
    erewrite no_SkipDir by eassumption. reflexivity.
  - assert (Hloop : forall s2,
      (fix each (l : list (string * node)) (s : St) : St * option error :=
         match l with
         | [] => (s, None)
         | (name, d1) :: l' =>
             match walkDir fn (p ++ [name]) d1 s with
             | (s', Some e) => if is_SkipDir e then (s', None) else (s', Some e)
             | (s', None) => each l' s'
             end
         end) es s2 =
      run fn (flat_map (fun e => walkDirCalls (p ++ [fst e]) (snd e)) es) s2).
    { induction IH as [|[name d1] l Hd1 _ IHl]; intros s2; simpl.
      - reflexivity.
      - rewrite run_app. simpl in Hd1. rewrite Hd1.
        destruct (run fn (walkDirCalls (p ++ [name]) d1) s2) as [s3 [x|]] eqn:E3.
        + erewrite run_error by eassumption. reflexivity.
        + apply IHl. }
    cbn [walkDir walkDirCalls run].
    destruct (fn p (Some (Dir es ok)) None s) as [s1 [x|]] eqn:E.
    { erewrite no_SkipDir by eassumption. reflexivity. }
    destruct ok.
    + cbn [app]. apply Hloop.
    + cbn [app run].
      destruct (fn p (Some (Dir es false)) (Some EIO) s1) as [s2 [x|]] eqn:E2.
      * erewrite no_SkipDir by eassumption. reflexivity.
      * apply Hloop.
Qed.

Lemma walk_run (d : node) :
  forall p s, walk fn p d s = run fn (walkCalls p d) s.
Proof.
  induction d as [data a | es ok IH] using node_nested_ind; intros p s.
  - simpl. destruct (fn p (Some (File data a)) None s) as [s1 [x|]]; reflexivity.
  - cbn [walk walkCalls]. destruct ok.
    + cbn [run]. destruct (fn p (Some (Dir es true)) None s) as [s1 [x|]] eqn:E; [reflexivity|].
      clear E. revert s1.
      induction IH as [|[name d1] l Hd1 _ IHl]; intros s1; simpl.
      * reflexivity.
      * rewrite run_app. simpl in Hd1. rewrite Hd1.
        destruct (run fn (walkCalls (p ++ [name]) d1) s1) as [s3 [x|]] eqn:E3.
        -- erewrite run_error by eassumption. rewrite andb_false_r. reflexivity.
        -- apply IHl.
    + cbn [run]. destruct (fn p (Some (Dir es false)) (Some EIO) s) as [s1 [x|]]; reflexivity.
Qed.
End WalkRun.

(** ** Trees: names, lookups, leaves *)

Lemma wf_Dir (es : list (string * node)) (ok : bool) :
  wf (Dir es ok) = true <->
  unique es = true /\ Forall (fun e => wf (snd e) = true) es.
Proof.
  cbn [wf]. rewrite andb_true_iff.
  apply and_iff_compat_l.
  induction es as [|[n x] es IH]; simpl.
  - split; [constructor | reflexivity].
  - rewrite andb_true_iff, IH. split.
    + intros [H1 H2]. constructor; assumption.
    + intros H. inversion H; subst. split; assumption.
Qed.

Section ListingFacts.
Variable A : Type.
Implicit Types (l : list (string * A)) (n name : string) (x y : A).

Lemma entry_In n x l : entry n l = Some x -> In (n, x) l.
Proof.
  induction l as [|[m y] l IH]; simpl; [discriminate|].
  destruct (String.eqb_spec m n) as [->|Hne].
  - intros H; inversion H; subst. left; reflexivity.
  - intros H. right. apply IH, H.
Qed.

Lemma entry_None n l : entry n l = None <-> ~ In n (List.map fst l).
Proof.
  induction l as [|[m y] l IH]; simpl; [tauto|].
  destruct (String.eqb_spec m n) as [->|Hne].
  - split; [discriminate | intros H; exfalso; apply H; auto].
  - rewrite IH. tauto.
Qed.

Lemma entry_Some_name n x l : entry n l = Some x -> In n (List.map fst l).
Proof. intros H. apply entry_In in H. apply (in_map fst) in H. exact H. Qed.

Lemma name_entry n l : In n (List.map fst l) -> exists x, entry n l = Some x.
Proof.
  intros H. destruct (entry n l) as [x|] eqn:E; [eauto|].
  apply entry_None in E. contradiction.
Qed.

Lemma unique_NoDup l : unique l = true <-> NoDup (List.map fst l).
Proof.
  induction l as [|[m y] l IH]; simpl.
  - split; [constructor | reflexivity].
  - destruct (entry m l) eqn:E.
    + split; [discriminate|]. intros H. inversion H; subst.
      apply entry_Some_name in E. contradiction.
    + rewrite IH. apply entry_None in E. split.
      * intros H. constructor; assumption.
      * intros H. inversion H; assumption.
Qed.

Lemma In_entry n x l : unique l = true -> In (n, x) l -> entry n l = Some x.
Proof.
  induction l as [|[m y] l IH]; simpl; [tauto|].
  destruct (entry m l) eqn:Em; [discriminate|].
  intros Hu [E|HIn].
  - inversion E; subst. rewrite String.eqb_refl. reflexivity.
  - destruct (String.eqb_spec m n) as [->|Hne].
    + exfalso. apply entry_None in Em. apply Em. apply (in_map fst) in HIn. exact HIn.
    + apply IH; assumption.
Qed.

Lemma replaceEntry_names name x l :
  List.map fst (replaceEntry name x l) = List.map fst l.
Proof.
  induction l as [|[m y] l IH]; simpl; [reflexivity|].
  destruct (String.eqb m name); simpl; [reflexivity|]. rewrite IH. reflexivity.
Qed.

Lemma insertEntry_names name x l n :
  In n (List.map fst (insertEntry name x l)) <-> n = name \/ In n (List.map fst l).
Proof.
  induction l as [|[m y] l IH]; simpl.
  - intuition.
  - destruct (String.ltb name m); simpl; [intuition|]. rewrite IH. intuition.
Qed.

Lemma insertEntry_NoDup name x l :
  ~ In name (List.map fst l) -> NoDup (List.map fst l) ->
  NoDup (List.map fst (insertEntry name x l)).
Proof.
  induction l as [|[m y] l IH]; simpl; intros Hn Hd.
  - constructor; [tauto | constructor].
  - destruct (String.ltb name m); simpl.
    + constructor; [exact Hn | exact Hd].
    + inversion Hd; subst. constructor.
      * rewrite insertEntry_names. intuition.
      * apply IH; [tauto | assumption].
Qed.

Lemma putEntry_names name x l n :
  In n (List.map fst (putEntry name x l)) <-> n = name \/ In n (List.map fst l).
Proof.
  unfold putEntry. destruct (entry name l) as [y|] eqn:E.
  - rewrite replaceEntry_names. apply entry_Some_name in E. split; [tauto|].
    intros [->|H]; assumption.
  - apply insertEntry_names.
Qed.

Lemma putEntry_unique name x l : unique l = true -> unique (putEntry name x l) = true.
Proof.
  rewrite !unique_NoDup. unfold putEntry. destruct (entry name l) as [y|] eqn:E.
  - rewrite replaceEntry_names. auto.
  - apply insertEntry_NoDup. apply entry_None, E.
Qed.

Lemma entry_replaceEntry name x l n :
  entry n (replaceEntry name x l) =
  if String.eqb name n then match entry name l with Some _ => Some x | None => None end
  else entry n l.
Proof.
  induction l as [|[m y] l IH]; simpl.
  - destruct (String.eqb name n); reflexivity.
  - destruct (String.eqb_spec m name) as [->|Hne]; simpl.
    + destruct (String.eqb_spec name n); reflexivity.
    + rewrite IH. destruct (String.eqb_spec m n) as [->|Hmn]; [|reflexivity].
      destruct (String.eqb_spec name n); [congruence | reflexivity].
Qed.

Lemma entry_insertEntry name x l n :
  entry name l = None ->
  entry n (insertEntry name x l) = if String.eqb name n then Some x else entry n l.
Proof.
  induction l as [|[m y] l IH]; simpl; intros Hn.
  - reflexivity.
  - destruct (String.eqb_spec m name) as [->|Hne]; [discriminate|].
    destruct (String.ltb name m); simpl.
    + reflexivity.
    + rewrite (IH Hn). destruct (String.eqb_spec m n) as [->|Hmn]; [|reflexivity].
      destruct (String.eqb_spec name n); [congruence | reflexivity].
Qed.

Lemma entry_putEntry name x l n :
  entry n (putEntry name x l) = if String.eqb name n then Some x else entry n l.
Proof.
  unfold putEntry. destruct (entry name l) as [y|] eqn:E.
  - rewrite entry_replaceEntry, E. reflexivity.
  - apply entry_insertEntry, E.
Qed.

Lemma entry_putEntry_same name x l : entry name (putEntry name x l) = Some x.
Proof. rewrite entry_putEntry, String.eqb_refl. reflexivity. Qed.

Lemma entry_putEntry_other name x l n :
  n <> name -> entry n (putEntry name x l) = entry n l.
Proof.
  intros H. rewrite entry_putEntry.
  destruct (String.eqb_spec name n); [congruence | reflexivity].
Qed.

Lemma delEntry_names name l n :
  unique l = true ->
  (In n (List.map fst (delEntry name l)) <-> n <> name /\ In n (List.map fst l)).
Proof.
  induction l as [|[m y] l IH]; simpl; [tauto|].
  destruct (entry m l) eqn:Em; [discriminate|]. intros Hu.
  apply entry_None in Em.
  destruct (String.eqb_spec m name) as [->|Hne]; simpl.
  - split; [intros H; split; [intros ->; contradiction | auto] | intros [H1 [H2|H2]]; congruence].
  - rewrite (IH Hu). split.
    + intros [->|[H1 H2]]; auto.
    + intros [H1 [H2|H2]]; auto.
Qed.

Lemma delEntry_unique name l : unique l = true -> unique (delEntry name l) = true.
Proof.
  induction l as [|[m y] l IH]; simpl; [reflexivity|].
  destruct (entry m l) eqn:Em; [discriminate|]. intros Hu.
  destruct (String.eqb_spec m name) as [->|Hne]; simpl; [exact Hu|].
  destruct (entry m (delEntry name l)) eqn:E; [|apply IH, Hu].
  exfalso. apply entry_Some_name in E. apply (delEntry_names _ _ _ Hu) in E.
  apply entry_None in Em. tauto.
Qed.

Lemma entry_delEntry name l n :
  n <> name -> entry n (delEntry name l) = entry n l.
Proof.
  intros Hn. induction l as [|[m y] l IH]; simpl; [reflexivity|].
  destruct (String.eqb_spec m name) as [->|Hne]; simpl.
  - destruct (String.eqb_spec name n); [congruence | reflexivity].
  - rewrite IH. reflexivity.
Qed.
End ListingFacts.

Lemma leaves_app (a b : list call) : leaves (a ++ b) = leaves a ++ leaves b.
Proof. unfold leaves. apply flat_map_app. Qed.

Lemma In_leaves_flat_map (A : Type) (f : A -> list call) (l : list A) (x : path * node) :
  In x (leaves (flat_map f l)) <-> exists a, In a l /\ In x (leaves (f a)).
Proof.
  induction l as [|a l IH]; simpl.
  - split; [intros [] | intros [a [[] _]]].
  - rewrite leaves_app, in_app_iff, IH. split.
    + intros [H|[b [Hb H]]]; [exists a; auto | exists b; auto].
    + intros [b [[->|Hb] H]]; [left; assumption | right; exists b; auto].
Qed.

Lemma leaves_cons_dir (p : path) (es : list (string * node)) (ok : bool)
      (e : option error) (l : list call) :
  leaves ((p, Some (Dir es ok), e) :: l) = leaves l.
Proof. destruct e; reflexivity. Qed.

Lemma leaves_lookup (d : node) :
  wf d = true ->
  forall p0 q n,
    In (q, n) (leaves (walkDirCalls p0 d)) <->
    exists rel, q = p0 ++ rel /\ lookup d rel = Some n /\ IsDir n = false.
Proof.
  induction d as [data a | es ok IH] using node_nested_ind; intros Hwf p0 q n.
  - simpl. split.
    + intros [E|[]]. inversion E; subst. exists []. rewrite app_nil_r. auto.
    + intros [rel [-> [Hl Hd]]]. destruct rel; simpl in Hl; [|discriminate].
      inversion Hl; subst. rewrite app_nil_r. left; reflexivity.
  - apply wf_Dir in Hwf. destruct Hwf as [Hu Hall].
    cbn [walkDirCalls].
    rewrite leaves_cons_dir.
    assert (H2 : forall l : list call,
      leaves ((if ok then [] else [(p0, Some (Dir es ok), Some EIO)]) ++ l) = leaves l).
    { intros l. destruct ok; cbn [app]; [reflexivity | apply leaves_cons_dir]. }
    rewrite H2, In_leaves_flat_map. clear H2.
    split.
    + intros [[name d1] [HIn Hq]]. simpl in Hq.
      rewrite Forall_forall in IH, Hall.
      apply (IH _ HIn (Hall _ HIn)) in Hq. destruct Hq as [rel [-> [Hl Hd]]].
      exists (name :: rel). rewrite <- app_assoc. split; [reflexivity|].
      split; [|assumption]. simpl. rewrite (In_entry _ _ _ _ Hu HIn). assumption.
    + intros [rel [-> [Hl Hd]]].
      destruct rel as [|c rel]; simpl in Hl.
      { inversion Hl; subst. discriminate. }
      destruct (entry c es) as [d1|] eqn:Ec; [|discriminate].
      apply entry_In in Ec. exists (c, d1). split; [assumption|].
      rewrite Forall_forall in IH, Hall. simpl.
      apply (IH _ Ec (Hall _ Ec)). exists rel. rewrite <- app_assoc. auto.
Qed.

Lemma files_of_lookup (d : node) (q : path) (n : node) :
  wf d = true ->
  (In (q, n) (files_of d) <-> lookup d q = Some n /\ IsDir n = false).
Proof.
  intros Hwf. unfold files_of. rewrite (leaves_lookup _ Hwf). simpl. split.
  - intros [rel [-> H]]. exact H.
  - intros H. exists q. auto.
Qed.

(** ** The differ *)

Lemma with_reads_nil (w : world) : with_reads [] w = w.
Proof. destruct w. unfold with_reads. simpl. rewrite app_nil_r. reflexivity. Qed.

Lemma with_reads_app (l1 l2 : list (root * path)) (w : world) :
  with_reads l2 (with_reads l1 w) = with_reads (l1 ++ l2) w.
Proof. unfold with_reads. simpl. rewrite app_assoc. reflexivity. Qed.

Lemma stale_with_reads md5Sum l w e : stale md5Sum (with_reads l w) e = stale md5Sum w e.
Proof. reflexivity. Qed.

Lemma hashed_with_reads l w e : hashed (with_reads l w) e = hashed w e.
Proof. reflexivity. Qed.

Lemma needUpdate_eq md5Sum (p : path) (n : node) (w : world) :
  needUpdate md5Sum p n w = (with_reads (hashed w (p, n)) w, stale md5Sum w (p, n)).
Proof.
  unfold needUpdate, stale, hashed. cbn [fst snd].
  destruct (Stat (target w) p) as [t|]; [|rewrite with_reads_nil; reflexivity].
  destruct (negb (Size n =? Size t)%Z); [rewrite with_reads_nil; reflexivity|].
  unfold fileHash, osReadFile, hashOf, with_reads, tree.
  destruct w as [src tgt bk sel u rd ck tk]. cbn [source target backups selected ui reads clock ticks].
  destruct src as [src|]; [destruct (ReadFile src p)|];
    cbn [source target backups selected ui reads clock ticks];
    destruct (ReadFile tgt p);
    cbn [source target backups selected ui reads clock ticks];
    rewrite <- app_assoc; reflexivity.
Qed.

Lemma run_visit md5Sum (calls : list call) (w : world) (acc : list path) :
  run (visit md5Sum) calls (w, acc) =
  ((with_reads (flat_map (hashed w) (leaves calls)) w,
    acc ++ List.map fst (List.filter (stale md5Sum w) (leaves calls))), None).
Proof.
  revert w acc. induction calls as [|[[p d] e] calls IH]; intros w acc.
  - simpl. rewrite with_reads_nil, app_nil_r. reflexivity.
  - change ((p, d, e) :: calls) with ([(p, d, e)] ++ calls).
    rewrite leaves_app. cbn [app].
    destruct e as [e|]; [cbn [run visit]; rewrite IH; destruct d; reflexivity|].
    destruct d as [n|]; [|cbn [run visit]; rewrite IH; reflexivity].
    destruct (IsDir n) eqn:Ed.
    + cbn [run visit]. rewrite Ed, IH. unfold leaves at 1 3. simpl. rewrite Ed. reflexivity.
    + assert (Hl : leaves [(p, Some n, None)] = [(p, n)]).
      { unfold leaves. simpl. rewrite Ed. reflexivity. }
      rewrite Hl. cbn [run visit]. rewrite Ed, needUpdate_eq.
      cbn [app flat_map List.filter List.map].
      destruct (stale md5Sum w (p, n)) eqn:Es; rewrite IH, with_reads_app;
        cbn [List.map fst app]; rewrite <- ?app_assoc;
        repeat f_equal;
        try (apply flat_map_ext; intros; apply hashed_with_reads);
        try (apply filter_ext; intros; apply stale_with_reads).
Qed.


Lemma getFilesToUpdate_eq md5Sum (w : world) :
  getFilesToUpdate md5Sum w =
  match source w with
  | None => (w, [], None)
  | Some d =>
      (with_reads (flat_map (hashed w) (files_of d)) w,
       List.map fst (List.filter (stale md5Sum w) (files_of d)), None)
  end.
Proof.
  unfold getFilesToUpdate, WalkDir. destruct (source w) as [d|].
  - rewrite walkDir_run.
    + rewrite run_visit. reflexivity.
    + intros p d0 e s s' x H. exfalso. revert H. unfold visit.
      destruct e; [discriminate|]. destruct d0 as [n|]; [|discriminate].
      destruct (IsDir n); [discriminate|]. destruct s as [w0 acc].
      destruct (needUpdate md5Sum p n w0). discriminate.
  - reflexivity.
Qed.

Lemma unhex_hex_byte (b : byte) :
  Byte.of_N (unhexDigit (hexDigit (Byte.to_N b / 16)) * 16
             + unhexDigit (hexDigit (Byte.to_N b mod 16))) = Some b.
Proof. destruct b; vm_compute; reflexivity. Qed.


Lemma unhexBytes_hexBytes (l : list byte) : unhexBytes (hexBytes l) = l.
Proof.
  induction l as [|b l IH]; [reflexivity|].
  cbn [hexBytes unhexBytes]. rewrite unhex_hex_byte, IH. reflexivity.
Qed.

Lemma hex_inj (d1 d2 : digest) : hex d1 = hex d2 -> d1 = d2.
Proof.
  unfold hex. intros H. apply (f_equal unhexBytes) in H.
  rewrite !unhexBytes_hexBytes in H.
  destruct d1, d2. cbn [digest_bytes] in H. inversion H. reflexivity.
Qed.

Lemma hex_not_empty (d : digest) : hex d <> EmptyString.
Proof. destruct d. discriminate. Qed.

Lemma hashOf_some md5Sum (n : node) (p : path) (data : list byte) :
  ReadFile n p = Some data -> hashOf md5Sum (Some n) p = hex (md5Sum data).
Proof. unfold hashOf. intros ->. reflexivity. Qed.

Lemma hashOf_none md5Sum (n : node) (p : path) :
  ReadFile n p = None -> hashOf md5Sum (Some n) p = EmptyString.
Proof. unfold hashOf. intros ->. reflexivity. Qed.

Lemma added_with_reads l w : added w (with_reads l w) = [].
Proof. unfold added. simpl. apply skipn_all. Qed.

Lemma read_since_with_reads l w : read_since w (with_reads l w) = l.
Proof.
  unfold read_since. simpl. rewrite skipn_app, skipn_all, Nat.sub_diag. reflexivity.
Qed.

(** ** Traces *)

Lemma added_intro (w0 w : world) (evs : list event) :
  ui w = ui w0 ++ evs -> added w0 w = evs.
Proof.
  intros H. unfold added. rewrite H, skipn_app, skipn_all, Nat.sub_diag. reflexivity.
Qed.

Lemma ui_emits (es : list event) (w : world) : ui (emits es w) = ui w ++ es.
Proof.
  revert w. induction es as [|e es IH]; intros w; simpl.
  - rewrite app_nil_r. reflexivity.
  - rewrite IH. simpl. rewrite <- app_assoc. reflexivity.
Qed.

Lemma calm_refl (w : world) : calm w w.
Proof. exists []. rewrite app_nil_r. auto. Qed.

Lemma calm_same (w w' : world) : ui w' = ui w -> calm w w'.
Proof. intros H. exists []. rewrite app_nil_r. auto. Qed.

Lemma calm_trans (w1 w2 w3 : world) : calm w1 w2 -> calm w2 w3 -> calm w1 w3.
Proof.
  intros [e1 [H1 Q1]] [e2 [H2 Q2]]. exists (e1 ++ e2). split.
  - rewrite H2, H1, app_assoc. reflexivity.
  - rewrite existsb_app, Q1, Q2. reflexivity.
Qed.

Lemma calm_emit (e : event) (w : world) : isConnError e = false -> calm w (emit e w).
Proof. intros H. exists [e]. split; [reflexivity|]. simpl. rewrite H. reflexivity. Qed.

Lemma calm_emits (es : list event) (w : world) :
  existsb isConnError es = false -> calm w (emits es w).
Proof. intros H. exists es. split; [apply ui_emits | exact H]. Qed.

Lemma calm_added (w w' : world) : calm w w' -> existsb isConnError (added w w') = false.
Proof. intros [evs [H Q]]. rewrite (added_intro _ _ _ H). exact Q. Qed.

Lemma calm_emit_r (e : event) (w x : world) :
  calm w x -> isConnError e = false -> calm w (emit e x).
Proof. intros H He. eapply calm_trans; [exact H | apply calm_emit, He]. Qed.

Lemma calm_emits_r (es : list event) (w x : world) :
  calm w x -> existsb isConnError es = false -> calm w (emits es x).
Proof. intros H He. eapply calm_trans; [exact H | apply calm_emits, He]. Qed.

Lemma calm_same_r (w x y : world) : calm w x -> ui y = ui x -> calm w y.
Proof. intros H E. eapply calm_trans; [exact H | apply calm_same, E]. Qed.

Lemma calm_tick_r (w x : world) :
  calm w x ->
  calm w (mkWorld (source x) (target x) (backups x) (selected x) (ui x) (reads x)
                  (clock x) (S (ticks x))).
Proof. intros H. eapply calm_same_r; [exact H | reflexivity]. Qed.

Lemma calm_set_target_r (t : node) (w x : world) : calm w x -> calm w (set_target t x).
Proof. intros H. eapply calm_same_r; [exact H | reflexivity]. Qed.

Lemma calm_set_backups_r b (w x : world) : calm w x -> calm w (set_backups b x).
Proof. intros H. eapply calm_same_r; [exact H | reflexivity]. Qed.

Lemma calm_set_selected_r b (w x : world) : calm w x -> calm w (set_selected b x).
Proof. intros H. eapply calm_same_r; [exact H | reflexivity]. Qed.

Lemma calm_with_reads_r l (w x : world) : calm w x -> calm w (with_reads l x).
Proof. intros H. eapply calm_same_r; [exact H | reflexivity]. Qed.

Ltac calm_step :=
  repeat first
    [ assumption
    | apply calm_refl
    | apply calm_emit_r; [|reflexivity]
    | apply calm_emits_r; [|reflexivity]
    | apply calm_tick_r
    | apply calm_set_target_r
    | apply calm_set_backups_r
    | apply calm_set_selected_r
    | apply calm_with_reads_r ].

Lemma store_no_error p d e s s' x : store p d e s = (s', Some x) -> is_SkipDir x = false.
Proof.
  unfold store. destruct e; [discriminate|]. destruct d as [n|]; [|discriminate].
  destruct (IsDir n); [discriminate|]. destruct s as [w zw].
  destruct (osReadFile Target p w) as [w' [data|]]; discriminate.
Qed.

Lemma run_store (calls : list call) (w : world) (zw : list zentry) :
  run store calls (w, zw) =
  ((with_reads (List.map (fun e => (Target, fst e)) (leaves calls)) w,
    zw ++ List.map (stored (target w)) (leaves calls)), None).
Proof.
  revert w zw. induction calls as [|[[p d] e] calls IH]; intros w zw.
  - simpl. rewrite with_reads_nil, app_nil_r. reflexivity.
  - change ((p, d, e) :: calls) with ([(p, d, e)] ++ calls).
    rewrite leaves_app. cbn [app].
    destruct e as [e|]; [cbn [run store]; rewrite IH; destruct d; reflexivity|].
    destruct d as [n|]; [|cbn [run store]; rewrite IH; reflexivity].
    destruct (IsDir n) eqn:Ed.
    + cbn [run store]. rewrite Ed, IH. unfold leaves at 1 3. simpl. rewrite Ed. reflexivity.
    + assert (Hl : leaves [(p, Some n, None)] = [(p, n)]).
      { unfold leaves. simpl. rewrite Ed. reflexivity. }
      rewrite Hl. cbn [run store]. rewrite Ed.
      change (osReadFile Target p w) with
        (with_reads [(Target, p)] w, ReadFile (target w) p).
      cbn [app List.map fst].
      assert (Hs : stored (target w) (p, n) =
                   mkZ p (match ReadFile (target w) p with
                          | Some data => data
                          | None => []
                          end) true true) by reflexivity.
      rewrite Hs.
      destruct (ReadFile (target w) p) as [data|]; rewrite IH, with_reads_app;
        rewrite <- app_assoc; reflexivity.
Qed.

Lemma calm_osRemove_r (name : string) (w x : world) :
  calm w x -> calm w (fst (osRemove name x)).
Proof.
  intros H. unfold osRemove.
  destruct (entry name (backups x)) as [f|]; [destruct (is_locked f)|]; cbn [fst]; calm_step.
Qed.

Lemma calm_prune_r (old : list string) (w : world) :
  forall x, calm w x -> calm w (prune old x).
Proof.
  induction old as [|name old IH]; intros x H; simpl; [calm_step|].
  pose proof (calm_osRemove_r name w x H) as H'.
  destruct (osRemove name x) as [w' r]. simpl in H'.
  apply IH. calm_step.
Qed.

Lemma calm_createBackup_r (stamp : string) (w x : world) :
  calm w x -> calm w (fst (createBackup stamp x)).
Proof.
  intros H. unfold createBackup, osCreate. set (x1 := addLog _ x).
  assert (H1 : calm w x1) by (subst x1; unfold addLog; calm_step).
  assert (H2 : calm w (set_backups (putEntry (backupName stamp) (Zip [] true) (backups x1)) x1))
    by calm_step.
  set (x2 := set_backups _ x1) in *.
  assert (H3 : calm w
    (fst (let '(w0, zw, _) := WalkDir store (Some (target x2)) (x2, []) in
          (closeZip (backupName stamp) zw
             (addLog (LogBackupDone (backupName stamp))
                (prune (skipn 3 (listBackups w0)) w0)),
           @None error)))).
  { unfold WalkDir. rewrite (walkDir_run _ store store_no_error), run_store.
    cbn [fst]. unfold closeZip. apply calm_set_backups_r.
    unfold addLog. apply calm_emit_r; [|reflexivity].
    apply calm_prune_r. calm_step. }
  destruct (entry (backupName stamp) (backups x1)) as [f|]; [destruct (is_locked f)|];
    [exact H1 | exact H3 | exact H3].
Qed.

Lemma calm_refreshBackups_r (w x : world) : calm w x -> calm w (refreshBackups x).
Proof.
  intros H. unfold refreshBackups. destruct (listBackups x) as [|b l]; calm_step.
Qed.

Lemma calm_killIPCAS_r (w x : world) : calm w x -> calm w (killIPCAS x).
Proof. intros H. unfold killIPCAS. calm_step. Qed.

Lemma calm_launchIPCAS_r (w x : world) : calm w x -> calm w (launchIPCAS x).
Proof. intros H. unfold launchIPCAS. destruct (Stat _ _); calm_step. Qed.

Lemma calm_mkParent_r (p : path) (w x : world) : calm w x -> calm w (mkParent p x).
Proof. intros H. unfold mkParent. destruct (MkdirAll _ _); calm_step. Qed.

Lemma calm_updateFile_r (total : nat) (t0 : Z) (i : nat) (p : path) (w x : world) :
  calm w x -> calm w (updateFile total t0 i p x).
Proof.
  intros H. unfold updateFile.
  pose proof (calm_mkParent_r p w x H) as H1. set (x1 := mkParent p x) in *.
  change (osReadFile Source p x1) with
    (with_reads [(Source, p)] x1, match tree Source x1 with
                                  | Some n => ReadFile n p
                                  | None => None
                                  end).
  assert (H2 : calm w (with_reads [(Source, p)] x1)) by calm_step.
  set (x2 := with_reads _ x1) in *.
  destruct (match tree Source x1 with Some n => ReadFile n p | None => None end) as [data|];
    [|unfold addLog; calm_step].
  destruct (WriteFile (target x2) p data) as [t|]; [|unfold addLog; calm_step].
  unfold timeSince, timeNow, addLog. cbv beta iota zeta. calm_step.
Qed.

Lemma calm_updateLoop_r (total : nat) (t0 : Z) (rest : list path) :
  forall i w x, calm w x -> calm w (updateLoop total t0 i rest x).
Proof.
  induction rest as [|p rest IH]; intros i w x H; simpl; [exact H|].
  apply IH, calm_updateFile_r, H.
Qed.

Lemma calm_performFilesUpdate_r (files : list path) (w x : world) :
  calm w x -> calm w (performFilesUpdate files x).
Proof.
  intros H. unfold performFilesUpdate, timeSince, timeNow, addLog. cbv beta iota zeta.
  apply calm_emit_r; [|reflexivity].
  apply calm_launchIPCAS_r, calm_refreshBackups_r.
  apply calm_emit_r; [|reflexivity]. apply calm_emit_r; [|reflexivity].
  apply calm_tick_r. apply calm_emits_r; [|reflexivity].
  apply calm_updateLoop_r, calm_tick_r. apply calm_emits_r; [|reflexivity].
  apply calm_killIPCAS_r, H.
Qed.

Lemma calm_items (fs : list path) (w x : world) :
  calm w x -> calm w (emits (List.map (fun f => AddLog (LogItem f)) fs) x).
Proof.
  intros H. apply calm_emits_r; [exact H|]. induction fs; simpl; auto.
Qed.

Lemma calm_doCheck md5Sum (w : world) : calm w (doCheck md5Sum w).
Proof.
  unfold doCheck, saveConfig. rewrite getFilesToUpdate_eq.
  set (x := emits _ (addLog _ w)).
  assert (Hx : calm w x) by (subst x; unfold addLog; calm_step).
  assert (H : forall x3 files, calm w x3 ->
    calm w match files with
           | [] => emits [AddLog LogNothing; SetStatus StUpToDate] (emit ProgressHide x3)
           | _ :: _ =>
               emit (SetStatus (StHave (List.length files)))
                 (if (10 <? List.length files)%nat
                  then addLog (LogMore (List.length files - 10))
                         (emits (List.map (fun f => AddLog (LogItem f)) (firstn 10 files))
                            (addLog (LogHave (List.length files)) (emit ProgressHide x3)))
                  else emits (List.map (fun f => AddLog (LogItem f)) (firstn 10 files))
                         (addLog (LogHave (List.length files)) (emit ProgressHide x3)))
           end).
  { intros x3 files Hc. destruct files as [|f files]; [calm_step|].
    apply calm_emit_r; [|reflexivity].
    destruct (10 <? List.length (f :: files))%nat; unfold addLog;
      [apply calm_emit_r; [|reflexivity]|]; apply calm_items; calm_step. }
  destruct (source x) as [d|].
  - apply H. calm_step.
  - apply (H x []). exact Hx.
Qed.

Lemma calm_doUpdate md5Sum (c : choice) (stamp : string) (w : world) :
  calm w (doUpdate md5Sum c stamp w).
Proof.
  unfold doUpdate, saveConfig. rewrite getFilesToUpdate_eq.
  set (x := emits _ (addLog _ w)).
  assert (Hx : calm w x) by (subst x; unfold addLog; calm_step).
  assert (H : forall x3 files, calm w x3 ->
    calm w match files with
           | [] => emits [AddLog LogNothing; SetStatus StUpToDate] (emit ProgressHide x3)
           | _ :: _ =>
               match c with
               | BackupThenUpdate =>
                   performFilesUpdate files
                     match createBackup stamp
                             (emits [AddLog LogBackupFirst; SetStatus StBackingUp]
                                (emit (ShowMsg (AskUpdate (List.length files)))
                                   (addLog (LogNeed (List.length files)) (emit ProgressHide x3))))
                     with
                     | (w, Some e) => addLog (LogBackupErr e) w
                     | (w, None) => refreshBackups (addLog LogBackupOk w)
                     end
               | UpdateOnly =>
                   performFilesUpdate files
                     (addLog LogNoBackup
                        (emit (ShowMsg (AskUpdate (List.length files)))
                           (addLog (LogNeed (List.length files)) (emit ProgressHide x3))))
               | Cancel =>
                   emit (ShowMsg (AskUpdate (List.length files)))
                     (addLog (LogNeed (List.length files)) (emit ProgressHide x3))
               end
           end).
  { intros x3 files Hc. destruct files as [|f files]; [calm_step|].
    destruct c; unfold addLog.
    - apply calm_performFilesUpdate_r.
      match goal with |- context [createBackup stamp ?y] =>
        assert (Hb : calm w (fst (createBackup stamp y)))
          by (apply calm_createBackup_r; calm_step);
        destruct (createBackup stamp y) as [wb [e|]]
      end; simpl in Hb.
      + calm_step.
      + apply calm_refreshBackups_r. calm_step.
    - apply calm_performFilesUpdate_r. calm_step.
    - calm_step. }
  destruct (source x) as [d|].
  - apply H. calm_step.
  - apply (H x []). exact Hx.
Qed.

(** C10. [getFilesToUpdate] returns a nil error in every world, also when
    the source root cannot be reached; so [doCheck] and [doUpdate] never
    take their branch [err != nil]: they add neither its log line nor its
    status. *)
Theorem getFilesToUpdate_error_is_nil md5Sum (w : world) :
  snd (getFilesToUpdate md5Sum w) = None
  /\ existsb isConnError (added w (doCheck md5Sum w)) = false
  /\ (forall c stamp, existsb isConnError (added w (doUpdate md5Sum c stamp w)) = false).
Proof.
  split; [|split].
  - rewrite getFilesToUpdate_eq. destruct (source w); reflexivity.
  - apply calm_added, calm_doCheck.
  - intros c stamp. apply calm_added, calm_doUpdate.
Qed.

(** C2, on the code: with a source root that cannot be reached,
    [getFilesToUpdate] returns no file and a nil error, and [doCheck] ends
    with the status of an installation that is up to date instead of the
    connection error. *)
Example doCheck_unreachable_source :
  source emptyWorld = None
  /\ getFilesToUpdate sampleSum emptyWorld = (emptyWorld, [], None)
  /\ added emptyWorld (doCheck sampleSum emptyWorld) =
     [AddLog LogConfigSaved; SetStatus StChecking; ProgressShow; SetValue 0;
      ProgressHide; AddLog LogNothing; SetStatus StUpToDate].
Proof. repeat split. Qed.

Lemma In_map_filter (A B : Type) (f : A -> B) (g : A -> bool) (l : list A) (b : B) :
  In b (List.map f (List.filter g l)) <-> exists a, In a l /\ g a = true /\ f a = b.
Proof.
  rewrite in_map_iff. split.
  - intros [a [E H]]. apply filter_In in H. exists a. tauto.
  - intros [a [H [G E]]]. exists a. split; [exact E|]. apply filter_In. tauto.
Qed.

Lemma eqb_false_neq (s1 s2 : string) : negb (String.eqb s1 s2) = true <-> s1 <> s2.
Proof. rewrite negb_true_iff. apply String.eqb_neq. Qed.

Lemma stale_file md5Sum (w : world) (src : node) (p : path) (data : list byte) (a : attrs) :
  source w = Some src ->
  lookup src p = Some (File data a) ->
  (stale md5Sum w (p, File data a) = true <->
     Stat (target w) p = None
     \/ (exists t, Stat (target w) p = Some t /\ Size t <> Z.of_nat (List.length data))
     \/ (exists tdata ta, Stat (target w) p = Some (File tdata ta)
           /\ List.length tdata = List.length data
           /\ readable a = true /\ readable ta = true
           /\ md5Sum data <> md5Sum tdata)).
Proof.
  intros Hs Hl. unfold stale. cbn [fst snd]. rewrite Hs.
  destruct (Stat (target w) p) as [t|] eqn:Et; [|split; auto].
  cbn [Size]. destruct (Z.eqb_spec (Z.of_nat (List.length data)) (Size t)) as [Esz|Nsz]; cbn [negb].
  - unfold hashOf, ReadFile. rewrite Hl. unfold Stat in Et. rewrite Et.
    split.
    + intros H. right; right.
      apply andb_true_iff in H. destruct H as [H12 H3].
      apply andb_true_iff in H12. destruct H12 as [H1 H2].
      apply eqb_false_neq in H1, H2, H3.
      destruct t as [tdata ta|]; [|congruence].
      exists tdata, ta. split; [reflexivity|]. cbn [Size] in Esz.
      split; [lia|].
      destruct (readable a); [|congruence].
      destruct (readable ta); [|congruence].
      repeat split. congruence.
    + intros [H|[[t' [H1 H2]]|[tdata [ta [H1 [H2 [H3 [H4 H5]]]]]]]].
      * discriminate.
      * inversion H1; subst. congruence.
      * inversion H1; subst. rewrite H3, H4.
        rewrite !andb_true_iff. repeat split; apply eqb_false_neq.
        -- apply hex_not_empty.
        -- apply hex_not_empty.
        -- intros E. apply hex_inj in E. contradiction.
  - split; [|reflexivity]. intros _. right; left. exists t. split; [reflexivity|]. congruence.
Qed.

Lemma differ_lists_stale md5Sum (w : world) (src : node) (p : path)
      (data : list byte) (a : attrs) :
  wf src = true ->
  lookup src p = Some (File data a) ->
  (In p (List.map fst (List.filter (stale md5Sum w) (files_of src))) <->
   stale md5Sum w (p, File data a) = true).
Proof.
  intros Hwf Hl. rewrite In_map_filter. split.
  - intros [[q n] [HIn [Hst E]]]. simpl in E. subst q.
    apply (files_of_lookup _ _ _ Hwf) in HIn. destruct HIn as [HIn _].
    rewrite Hl in HIn. inversion HIn; subst. exact Hst.
  - intros Hst. exists (p, File data a). split; [|auto].
    apply (files_of_lookup _ _ _ Hwf). auto.
Qed.

(** C1, as amended. For a regular file of a well-formed source tree,
    [getFilesToUpdate] lists its relative path exactly when the target has
    no entry there ([os.Stat] fails), or the two sizes differ, or the sizes
    are equal, both files can be read and their MD5 sums differ. The entry
    is the path alone: the tier that decided is not recorded. When the
    target is absent or the sizes differ, neither file is read, so nothing
    is hashed. *)
Theorem differ_entry_iff md5Sum (w : world) (src : node) (p : path)
        (data : list byte) (a : attrs) :
  source w = Some src -> wf src = true ->
  lookup src p = Some (File data a) ->
  let '(w', toUpdate, err) := getFilesToUpdate md5Sum w in
  (In p toUpdate <->
     Stat (target w) p = None
     \/ (exists t, Stat (target w) p = Some t /\ Size t <> Z.of_nat (List.length data))
     \/ (exists tdata ta, Stat (target w) p = Some (File tdata ta)
           /\ List.length tdata = List.length data
           /\ readable a = true /\ readable ta = true
           /\ md5Sum data <> md5Sum tdata))
  /\ (Stat (target w) p = None
      \/ (exists t, Stat (target w) p = Some t /\ Size t <> Z.of_nat (List.length data)) ->
      ~ In (Source, p) (read_since w w') /\ ~ In (Target, p) (read_since w w')).
Proof.
  intros Hs Hwf Hl. rewrite getFilesToUpdate_eq, Hs. split.
  - rewrite (differ_lists_stale md5Sum w src p data a Hwf Hl).
    apply (stale_file md5Sum w src p data a Hs Hl).
  - intros Hskip. rewrite read_since_with_reads.
    assert (Hno : forall r, ~ In (r, p) (flat_map (hashed w) (files_of src))).
    { intros r HIn. apply in_flat_map in HIn. destruct HIn as [[q n] [HIn Hh]].
      assert (q = p).
      { unfold hashed in Hh. cbn [fst snd] in Hh.
        destruct (Stat (target w) q) as [t|]; [|destruct Hh].
        destruct (negb (Size n =? Size t)%Z); [destruct Hh|].
        destruct Hh as [E|[E|[]]]; inversion E; reflexivity. }
      subst q. apply (files_of_lookup _ _ _ Hwf) in HIn. destruct HIn as [HIn _].
      rewrite Hl in HIn. inversion HIn; subst n.
      unfold hashed in Hh. cbn [fst snd Size] in Hh.
      destruct Hskip as [E|[t [E Hsz]]]; rewrite E in Hh; [destruct Hh|].
      destruct (Z.eqb_spec (Z.of_nat (List.length data)) (Size t)) as [Esz|Nsz];
        [congruence | destruct Hh]. }
    split; apply Hno.
Qed.

(** The theorem of C1 at [worldChanged]: one file, same size, other bytes. *)
Lemma differ_entry_iff_witness :
  source worldChanged = Some (oneFile [x31] plain)
  /\ wf (oneFile [x31] plain) = true
  /\ lookup (oneFile [x31] plain) ["a.txt"%string] = Some (File [x31] plain)
  /\ let '(w', toUpdate, err) := getFilesToUpdate sampleSum worldChanged in
     (In ["a.txt"%string] toUpdate <->
        Stat (target worldChanged) ["a.txt"%string] = None
        \/ (exists t, Stat (target worldChanged) ["a.txt"%string] = Some t
                      /\ Size t <> Z.of_nat (List.length [x31]))
        \/ (exists tdata ta,
               Stat (target worldChanged) ["a.txt"%string] = Some (File tdata ta)
               /\ List.length tdata = List.length [x31]
               /\ readable plain = true /\ readable ta = true
               /\ sampleSum [x31] <> sampleSum tdata))
     /\ (Stat (target worldChanged) ["a.txt"%string] = None
         \/ (exists t, Stat (target worldChanged) ["a.txt"%string] = Some t
                       /\ Size t <> Z.of_nat (List.length [x31])) ->
         ~ In (Source, ["a.txt"%string]) (read_since worldChanged w')
         /\ ~ In (Target, ["a.txt"%string]) (read_since worldChanged w')).
Proof.
  split; [reflexivity|]. split; [reflexivity|]. split; [reflexivity|].
  exact (differ_entry_iff sampleSum worldChanged (oneFile [x31] plain) ["a.txt"%string]
           [x31] plain eq_refl eq_refl eq_refl).
Defined.

(** C1 as stated fails: in [worldLockedTarget] the target file exists,
    cannot be read, has the size of the source file and other bytes, so
    the claim wants an entry (unreadable target, and hashes that differ);
    [getFilesToUpdate] returns none. *)
Lemma differ_misses_unreadable_target :
  ~ (forall p data a,
        lookup (oneFile [x31] plain) p = Some (File data a) ->
        In p (snd (fst (getFilesToUpdate sampleSum worldLockedTarget))) <->
        Stat (target worldLockedTarget) p = None
        \/ ReadFile (target worldLockedTarget) p = None
        \/ (exists t, Stat (target worldLockedTarget) p = Some t
                      /\ Size t <> Z.of_nat (List.length data))
        \/ (exists t, Stat (target worldLockedTarget) p = Some t
                      /\ Size t = Z.of_nat (List.length data)
                      /\ snd (fileHash sampleSum Source p worldLockedTarget)
                         <> snd (fileHash sampleSum Target p worldLockedTarget))).
Proof.
  intros H.
  destruct (H ["a.txt"%string] [x31] plain eq_refl) as [_ H2].
  assert (HIn : In ["a.txt"%string]
                   (snd (fst (getFilesToUpdate sampleSum worldLockedTarget)))).
  { apply H2. right; left. reflexivity. }
  vm_compute in HIn. exact HIn.
Qed.

(** C9, as amended. A source file whose target has the same size, when
    one of the two cannot be read, is left out of the change set; the
    check does not fail, and it adds nothing to the log. *)
Theorem differ_unreadable_skipped_unlogged md5Sum (w : world) (src : node) (p : path)
        (data : list byte) (a : attrs) (t : node) :
  source w = Some src -> wf src = true ->
  lookup src p = Some (File data a) ->
  Stat (target w) p = Some t -> Size t = Z.of_nat (List.length data) ->
  ReadFile src p = None \/ ReadFile (target w) p = None ->
  let '(w', toUpdate, err) := getFilesToUpdate md5Sum w in
  err = None /\ ~ In p toUpdate /\ added w w' = [].
Proof.
  intros Hs Hwf Hl Ht Hsz Hun.
  rewrite getFilesToUpdate_eq, Hs.
  split; [reflexivity|]. split; [|apply added_with_reads].
  intros HIn. apply (differ_lists_stale md5Sum w src p data a Hwf Hl) in HIn.
  apply (stale_file md5Sum w src p data a Hs Hl) in HIn.
  destruct HIn as [E|[[t' [E Hne]]|[tdata [ta [E [_ [Ha [Hta _]]]]]]]].
  - congruence.
  - rewrite Ht in E. inversion E; subst. contradiction.
  - unfold ReadFile in Hun. rewrite Hl in Hun. unfold Stat in E. rewrite E in Hun.
    rewrite Ha, Hta in Hun. destruct Hun; discriminate.
Qed.

(** The theorem of C9 at [worldLockedSource]. *)
Lemma differ_unreadable_skipped_unlogged_witness :
  source worldLockedSource = Some (oneFile [x31] unreadable)
  /\ wf (oneFile [x31] unreadable) = true
  /\ lookup (oneFile [x31] unreadable) ["a.txt"%string] = Some (File [x31] unreadable)
  /\ Stat (target worldLockedSource) ["a.txt"%string] = Some (File [x32] plain)
  /\ Size (File [x32] plain) = Z.of_nat (List.length [x31])
  /\ (ReadFile (oneFile [x31] unreadable) ["a.txt"%string] = None
      \/ ReadFile (target worldLockedSource) ["a.txt"%string] = None)
  /\ let '(w', toUpdate, err) := getFilesToUpdate sampleSum worldLockedSource in
     err = None /\ ~ In ["a.txt"%string] toUpdate /\ added worldLockedSource w' = [].
Proof.
  repeat (split; [reflexivity|]). split; [left; reflexivity|].
  exact (differ_unreadable_skipped_unlogged sampleSum worldLockedSource
           (oneFile [x31] unreadable) ["a.txt"%string] [x31] unreadable (File [x32] plain)
           eq_refl eq_refl eq_refl eq_refl eq_refl (or_introl eq_refl)).
Defined.

(** C9 as stated fails: in [worldLockedSource] the source file cannot be
    read, it is skipped, and no line is logged. *)
Lemma differ_logs_nothing :
  ReadFile (oneFile [x31] unreadable) ["a.txt"%string] = None
  /\ snd (getFilesToUpdate sampleSum worldLockedSource) = None
  /\ ~ In ["a.txt"%string] (snd (fst (getFilesToUpdate sampleSum worldLockedSource)))
  /\ ~ (exists m, In (AddLog m)
                     (added worldLockedSource
                        (fst (fst (getFilesToUpdate sampleSum worldLockedSource))))).
Proof.
  split; [reflexivity|]. split; [reflexivity|]. split.
  - vm_compute. tauto.
  - intros [m H]. vm_compute in H. exact H.
Qed.

(** ** The order of names and [sortDesc] *)

Lemma string_compare_refl (s : string) : String.compare s s = Eq.
Proof.
  induction s as [|c s IH]; [reflexivity|]. simpl.
  unfold Ascii.compare. rewrite N.compare_refl. exact IH.
Qed.

Lemma string_lt_trans (a : string) :
  forall b c, String.compare a b = Lt -> String.compare b c = Lt -> String.compare a c = Lt.
Proof.
  induction a as [|x a IH]; intros [|y b] [|z c]; simpl; try congruence.
  unfold Ascii.compare.
  destruct (N.compare_spec (N_of_ascii x) (N_of_ascii y)) as [Exy|Lxy|Gxy]; try congruence;
    destruct (N.compare_spec (N_of_ascii y) (N_of_ascii z)) as [Eyz|Lyz|Gyz]; try congruence;
    intros H1 H2.
  - rewrite Exy, Eyz, N.compare_refl. eapply IH; eassumption.
  - rewrite Exy. apply N.compare_lt_iff in Lyz. rewrite Lyz. reflexivity.
  - rewrite <- Eyz. apply N.compare_lt_iff in Lxy. rewrite Lxy. reflexivity.
  - assert (L : (N_of_ascii x < N_of_ascii z)%N) by (eapply N.lt_trans; eassumption).
    apply N.compare_lt_iff in L. rewrite L. reflexivity.
Qed.

Lemma ltb_lt (a b : string) : String.ltb a b = true <-> String.compare a b = Lt.
Proof. unfold String.ltb. destruct (String.compare a b); split; congruence. Qed.

Lemma ltb_trans (a b c : string) :
  String.ltb a b = true -> String.ltb b c = true -> String.ltb a c = true.
Proof. rewrite !ltb_lt. apply string_lt_trans. Qed.

Lemma ltb_irrefl (a : string) : String.ltb a a = false.
Proof. unfold String.ltb. rewrite string_compare_refl. reflexivity. Qed.

Lemma leb_false_ltb (a b : string) : String.leb a b = false -> String.ltb b a = true.
Proof.
  unfold String.leb, String.ltb. rewrite (String.compare_antisym b a).
  destruct (String.compare a b); simpl; congruence.
Qed.

Lemma leb_true_ltb (a b : string) : String.leb a b = true -> a <> b -> String.ltb a b = true.
Proof.
  unfold String.leb, String.ltb. intros H Hne.
  destruct (String.compare a b) eqn:E; try congruence.
  apply String.compare_eq_iff in E. contradiction.
Qed.

Lemma insertDesc_In (x y : string) (l : list string) :
  In y (insertDesc x l) <-> y = x \/ In y l.
Proof.
  induction l as [|z l IH]; simpl.
  - intuition.
  - destruct (String.leb z x); simpl; [intuition|]. rewrite IH. intuition.
Qed.

Lemma sortDesc_In (y : string) (l : list string) : In y (sortDesc l) <-> In y l.
Proof.
  induction l as [|x l IH]; simpl; [tauto|].
  rewrite insertDesc_In, IH. intuition.
Qed.

Lemma insertDesc_length (x : string) (l : list string) :
  List.length (insertDesc x l) = S (List.length l).
Proof.
  induction l as [|z l IH]; simpl; [reflexivity|].
  destruct (String.leb z x); simpl; [reflexivity|]. rewrite IH. reflexivity.
Qed.

Lemma sortDesc_length (l : list string) : List.length (sortDesc l) = List.length l.
Proof.
  induction l as [|x l IH]; simpl; [reflexivity|].
  rewrite insertDesc_length, IH. reflexivity.
Qed.

Lemma insertDesc_sorted (x : string) (l : list string) :
  ~ In x l -> StronglySorted desc l -> StronglySorted desc (insertDesc x l).
Proof.
  induction l as [|z l IH]; intros Hx Hs; simpl.
  - constructor; constructor.
  - inversion Hs as [|? ? Hl Hz]; subst.
    destruct (String.leb z x) eqn:E.
    + assert (Hzx : desc x z).
      { apply leb_true_ltb; [exact E|]. intros ->. apply Hx. left; reflexivity. }
      constructor; [exact Hs|]. constructor; [exact Hzx|].
      rewrite Forall_forall in *. intros y Hy. eapply ltb_trans; [apply Hz, Hy | exact Hzx].
    + constructor.
      * apply IH; [|exact Hl]. intros H; apply Hx; right; exact H.
      * rewrite Forall_forall in *. intros y Hy. apply insertDesc_In in Hy.
        destruct Hy as [->|Hy]; [apply leb_false_ltb, E | apply Hz, Hy].
Qed.

Lemma sortDesc_sorted (l : list string) : NoDup l -> StronglySorted desc (sortDesc l).
Proof.
  induction l as [|x l IH]; intros Hn; simpl; [constructor|].
  inversion Hn; subst. apply insertDesc_sorted; [|auto].
  rewrite sortDesc_In. assumption.
Qed.

Lemma desc_sorted_NoDup (l : list string) : StronglySorted desc l -> NoDup l.
Proof.
  induction 1 as [|x l Hs IH Hx]; constructor; [|exact IH].
  intros HIn. rewrite Forall_forall in Hx. specialize (Hx _ HIn).
  unfold desc in Hx. rewrite ltb_irrefl in Hx. discriminate.
Qed.

Lemma desc_sorted_unique (l1 : list string) :
  forall l2, StronglySorted desc l1 -> StronglySorted desc l2 ->
             (forall x, In x l1 <-> In x l2) -> l1 = l2.
Proof.
  induction l1 as [|a l1 IH]; intros [|b l2] H1 H2 Hiff.
  - reflexivity.
  - exfalso. apply (Hiff b). left; reflexivity.
  - exfalso. apply (Hiff a). left; reflexivity.
  - inversion H1 as [|? ? S1 F1]; inversion H2 as [|? ? S2 F2]; subst.
    rewrite Forall_forall in F1, F2.
    assert (a = b).
    { destruct (proj1 (Hiff a) (or_introl eq_refl)) as [E|Ha]; [auto|].
      destruct (proj2 (Hiff b) (or_introl eq_refl)) as [E|Hb]; [auto|].
      specialize (F1 _ Hb). specialize (F2 _ Ha). unfold desc in *.
      pose proof (ltb_trans _ _ _ F1 F2) as C. rewrite ltb_irrefl in C. discriminate. }
    subst b. f_equal. apply IH; [assumption..|].
    pose proof (desc_sorted_NoDup _ H1) as N1. pose proof (desc_sorted_NoDup _ H2) as N2.
    inversion N1; inversion N2; subst.
    intros x. split; intros Hx.
    + destruct (proj1 (Hiff x) (or_intror Hx)) as [E|H]; [subst; contradiction | exact H].
    + destruct (proj2 (Hiff x) (or_intror Hx)) as [E|H]; [subst; contradiction | exact H].
Qed.

Lemma In_firstn (A : Type) (n : nat) (l : list A) (x : A) : In x (firstn n l) -> In x l.
Proof. intros H. rewrite <- (firstn_skipn n l). apply in_or_app. left; exact H. Qed.

Lemma In_skipn (A : Type) (n : nat) (l : list A) (x : A) : In x (skipn n l) -> In x l.
Proof. intros H. rewrite <- (firstn_skipn n l). apply in_or_app. right; exact H. Qed.

Lemma sorted_app (l1 l2 : list string) :
  StronglySorted desc (l1 ++ l2) ->
  StronglySorted desc l1 /\ StronglySorted desc l2
  /\ (forall a b, In a l1 -> In b l2 -> desc a b).
Proof.
  induction l1 as [|x l1 IH]; simpl; intros H.
  - split; [constructor|]. split; [exact H|]. intros a b [].
  - inversion H as [|? ? Hs Hx]; subst. destruct (IH Hs) as [S1 [S2 Hab]].
    rewrite Forall_forall in Hx. split; [|split].
    + constructor; [exact S1|]. rewrite Forall_forall. intros y Hy.
      apply Hx, in_or_app. left; exact Hy.
    + exact S2.
    + intros a b [->|Ha] Hb; [apply Hx, in_or_app; right; exact Hb | apply Hab; assumption].
Qed.

Lemma sorted_firstn (n : nat) (l : list string) :
  StronglySorted desc l -> StronglySorted desc (firstn n l).
Proof.
  intros H. revert n. induction H as [|x l Hs IH Hx]; intros [|n]; simpl; try constructor.
  - apply IH.
  - rewrite Forall_forall in *. intros y Hy. apply Hx. eapply In_firstn. exact Hy.
Qed.


(** ** The backup directory *)

Lemma substring_append (a b : string) :
  substring (String.length a) (String.length b) (String.append a b) = b.
Proof.
  induction a as [|c a IH]; simpl; [|exact IH].
  induction b as [|c b IHb]; simpl; [reflexivity|].
  rewrite IHb. reflexivity.
Qed.

Lemma length_append (a b : string) :
  String.length (String.append a b) = (String.length a + String.length b)%nat.
Proof. induction a as [|c a IH]; simpl; [reflexivity|]. rewrite IH. reflexivity. Qed.

Lemma HasSuffix_append (a b : string) : HasSuffix (String.append a b) b = true.
Proof.
  unfold HasSuffix. rewrite length_append. apply andb_true_iff. split.
  - apply Nat.leb_le. lia.
  - replace (String.length a + String.length b - String.length b)%nat
      with (String.length a) by lia.
    rewrite substring_append. apply String.eqb_refl.
Qed.

Lemma append_assoc (a b c : string) :
  String.append (String.append a b) c = String.append a (String.append b c).
Proof. induction a as [|x a IH]; simpl; [reflexivity|]. rewrite IH. reflexivity. Qed.

Lemma isBackup_backupName (stamp : string) : isBackup (backupName stamp) = true.
Proof.
  unfold isBackup, backupName. apply andb_true_iff. split.
  - unfold HasPrefix. destruct stamp; reflexivity.
  - rewrite <- append_assoc. apply HasSuffix_append.
Qed.

Lemma createBackup_eq (stamp : string) (w : world) :
  createBackup stamp w =
  let name := backupName stamp in
  let w1 := addLog (LogCreating name) w in
  let w2 := set_backups (putEntry name (Zip [] true) (backups w)) w1 in
  let w3 := with_reads (List.map (fun e => (Target, fst e)) (files_of (target w))) w2 in
  let done := (closeZip name (archive_of (target w))
                 (addLog (LogBackupDone name) (prune (skipn 3 (listBackups w3)) w3)),
               None) in
  match entry name (backups w) with
  | Some f => if is_locked f then (w1, Some EIO) else done
  | None => done
  end.
Proof.
  unfold createBackup, osCreate. cbv zeta.
  assert (H :
    (let '(w0, zw, _) :=
       WalkDir store
         (Some (target (set_backups (putEntry (backupName stamp) (Zip [] true) (backups w))
                          (addLog (LogCreating (backupName stamp)) w))))
         (set_backups (putEntry (backupName stamp) (Zip [] true) (backups w))
            (addLog (LogCreating (backupName stamp)) w), []) in
     (closeZip (backupName stamp) zw
        (addLog (LogBackupDone (backupName stamp)) (prune (skipn 3 (listBackups w0)) w0)),
      @None error)) =
    (closeZip (backupName stamp) (archive_of (target w))
       (addLog (LogBackupDone (backupName stamp))
          (prune
             (skipn 3
                (listBackups
                   (with_reads (List.map (fun e => (Target, fst e)) (files_of (target w)))
                      (set_backups (putEntry (backupName stamp) (Zip [] true) (backups w))
                         (addLog (LogCreating (backupName stamp)) w)))))
             (with_reads (List.map (fun e => (Target, fst e)) (files_of (target w)))
                (set_backups (putEntry (backupName stamp) (Zip [] true) (backups w))
                   (addLog (LogCreating (backupName stamp)) w))))), None)).
  { unfold WalkDir. rewrite (walkDir_run _ store store_no_error), run_store. reflexivity. }
  cbn [backups addLog emit] in *.
  destruct (entry (backupName stamp) (backups w)) as [f|]; [destruct (is_locked f)|];
    first [reflexivity | exact H].
Qed.

Lemma entry_delEntry_same (A : Type) (name : string) (l : list (string * A)) :
  unique l = true -> entry name (delEntry name l) = None.
Proof.
  intros Hu. apply entry_None. intros H. apply (delEntry_names _ _ _ _ Hu) in H. tauto.
Qed.

Lemma prune_spec (old : list string) :
  forall w,
    unique (backups w) = true ->
    (forall n f, In n old -> entry n (backups w) = Some f -> is_locked f = false) ->
    ui (prune old w) = ui w ++ List.map (fun n => AddLog (LogRemovedOld n)) old
    /\ unique (backups (prune old w)) = true
    /\ (forall n, In n (readBackupDir (prune old w)) <-> In n (readBackupDir w) /\ ~ In n old)
    /\ (forall n, ~ In n old -> entry n (backups (prune old w)) = entry n (backups w))
    /\ target (prune old w) = target w.
Proof.
  induction old as [|name old IH]; intros w Hu Hl.
  - simpl. rewrite app_nil_r. repeat split; auto; tauto.
  - cbn [prune]. unfold osRemove.
    destruct (entry name (backups w)) as [f|] eqn:E.
    + rewrite (Hl name f (or_introl eq_refl) E).
      set (w1 := addLog (LogRemovedOld name) (set_backups (delEntry name (backups w)) w)).
      assert (Hu1 : unique (backups w1) = true) by (apply delEntry_unique, Hu).
      assert (Hl1 : forall n g, In n old -> entry n (backups w1) = Some g -> is_locked g = false).
      { intros n g Hn Hg. cbn [w1 backups addLog emit set_backups] in Hg.
        destruct (string_dec n name) as [->|Hne].
        - rewrite (entry_delEntry_same _ _ _ Hu) in Hg. discriminate.
        - rewrite entry_delEntry in Hg by exact Hne. eapply Hl; [right; exact Hn | exact Hg]. }
      destruct (IH w1 Hu1 Hl1) as [H1 [H2 [H3 [H4 H5]]]].
      split; [|split; [|split; [|split]]].
      * rewrite H1. cbn [w1 ui addLog emit set_backups List.map]. rewrite <- app_assoc. reflexivity.
      * exact H2.
      * intros n. rewrite H3. unfold readBackupDir.
        cbn [w1 backups addLog emit set_backups]. rewrite (delEntry_names _ _ _ _ Hu).
        simpl. intuition.
      * intros n Hn. rewrite H4 by (intros H; apply Hn; right; exact H).
        cbn [w1 backups addLog emit set_backups]. apply entry_delEntry.
        intros ->. apply Hn. left; reflexivity.
      * rewrite H5. reflexivity.
    + set (w1 := addLog (LogRemovedOld name) w).
      assert (Hl1 : forall n g, In n old -> entry n (backups w1) = Some g -> is_locked g = false).
      { intros n g Hn Hg. eapply Hl; [right; exact Hn | exact Hg]. }
      destruct (IH w1 Hu Hl1) as [H1 [H2 [H3 [H4 H5]]]].
      split; [|split; [|split; [|split]]].
      * rewrite H1. cbn [w1 ui addLog emit List.map]. rewrite <- app_assoc. reflexivity.
      * exact H2.
      * intros n. rewrite H3. unfold readBackupDir. cbn [w1 backups addLog emit].
        apply entry_None in E. simpl. split; [intuition; subst; contradiction | intuition].
      * intros n Hn. rewrite H4 by (intros H; apply Hn; right; exact H). reflexivity.
      * rewrite H5. reflexivity.
Qed.

Lemma NoDup_filter (A : Type) (f : A -> bool) (l : list A) : NoDup l -> NoDup (List.filter f l).
Proof.
  induction 1 as [|x l Hx Hn IH]; simpl; [constructor|].
  destruct (f x); [|exact IH]. constructor; [|exact IH].
  intros H. apply filter_In in H. tauto.
Qed.

Lemma removedOld_app (a b : list event) : removedOld (a ++ b) = removedOld a ++ removedOld b.
Proof. unfold removedOld. apply flat_map_app. Qed.

Lemma removedOld_map (l : list string) :
  removedOld (List.map (fun n => AddLog (LogRemovedOld n)) l) = l.
Proof. induction l as [|x l IH]; simpl; [reflexivity|]. f_equal. exact IH. Qed.

Lemma listBackups_sorted (w : world) :
  unique (backups w) = true -> StronglySorted desc (listBackups w).
Proof.
  intros Hu. unfold listBackups. apply sortDesc_sorted, NoDup_filter.
  apply unique_NoDup, Hu.
Qed.

Lemma listBackups_In (w : world) (n : string) :
  In n (listBackups w) <-> In n (readBackupDir w) /\ isBackup n = true.
Proof. unfold listBackups. rewrite sortDesc_In, filter_In. tauto. Qed.

Lemma NoDup_app_disjoint (A : Type) (l1 l2 : list A) (x : A) :
  NoDup (l1 ++ l2) -> In x l1 -> In x l2 -> False.
Proof.
  induction l1 as [|a l1 IH]; simpl; intros Hd H1 H2; [exact H1|].
  inversion Hd as [|? ? Ha Hd']; subst. destruct H1 as [->|H1].
  - apply Ha, in_or_app. right; exact H2.
  - exact (IH Hd' H1 H2).
Qed.

Lemma sorted_head_max (x y : string) (l : list string) :
  StronglySorted desc (x :: l) -> In y (x :: l) -> y = x \/ String.ltb y x = true.
Proof.
  intros H [->|Hy]; [left; reflexivity|]. right.
  inversion H as [|? ? _ F]; subst. rewrite Forall_forall in F. apply F, Hy.
Qed.

(** C3, as amended. After a [createBackup] that returns nil, in a backup
    directory whose names are distinct and where every [os.Remove] of the
    loop succeeds, which it does not on a file another program holds open
    nor on the new archive, still open in the hands of [createBackup]: the
    archives left are the first three of [all], the descending arrangement
    of the archives present once the new file is created, so at most
    three and each newer by name than each one removed; the new archive is
    one of them; the others are removed in that descending order, the
    newest of them first; and exactly three remain as soon as two archives
    existed under other names. *)
Theorem createBackup_retention (stamp : string) (w w' : world) :
  unique (backups w) = true ->
  createBackup stamp w = (w', None) ->
  (forall n f, In n (skipn 3 (listBackups (fst (osCreate (backupName stamp) w)))) ->
               entry n (backups (fst (osCreate (backupName stamp) w))) = Some f ->
               is_locked f = false) ->
  let name := backupName stamp in
  let all := listBackups (fst (osCreate name w)) in
  listBackups w' = firstn 3 all
  /\ (List.length (listBackups w') <= 3)%nat
  /\ In name (listBackups w')
  /\ (forall n, In n all <-> n = name \/ In n (listBackups w))
  /\ StronglySorted desc all
  /\ removedOld (added w w') = skipn 3 all
  /\ (~ In name (listBackups w) -> (2 <= List.length (listBackups w))%nat ->
      List.length (listBackups w') = 3%nat).
Proof.
  intros Hu Hc Hlock name all.
  rewrite createBackup_eq in Hc. cbv zeta in Hc. fold name in Hc.
  set (w1 := addLog (LogCreating name) w) in Hc.
  set (w2 := set_backups (putEntry name (Zip [] true) (backups w)) w1) in Hc.
  set (w3 := with_reads (List.map (fun e => (Target, fst e)) (files_of (target w))) w2) in Hc.
  (* the directory once the new file is created *)
  assert (Hcreate : fst (osCreate name w) =
                    set_backups (putEntry name (Zip [] true) (backups w)) w
                    /\ w' = closeZip name (archive_of (target w))
                              (addLog (LogBackupDone name)
                                 (prune (skipn 3 (listBackups w3)) w3))).
  { unfold osCreate. destruct (entry name (backups w)) as [f|]; [destruct (is_locked f)|];
      inversion Hc; split; reflexivity. }
  destruct Hcreate as [Hcreate Hw']. clear Hc.
  assert (Hb3 : backups w3 = backups (fst (osCreate name w))).
  { rewrite Hcreate. reflexivity. }
  assert (Hall : listBackups w3 = all).
  { unfold all, listBackups, readBackupDir. rewrite Hb3. reflexivity. }
  assert (Hu3 : unique (backups w3) = true).
  { cbn [w3 w2 w1 backups set_backups with_reads addLog emit]. apply putEntry_unique, Hu. }
  assert (Hl3 : forall n f, In n (skipn 3 (listBackups w3)) ->
                            entry n (backups w3) = Some f -> is_locked f = false).
  { intros n f Hn Hf. rewrite Hall in Hn. rewrite Hb3 in Hf. eapply Hlock; eassumption. }
  destruct (prune_spec (skipn 3 (listBackups w3)) w3 Hu3 Hl3) as [P1 [P2 [P3 [P4 P5]]]].
  (* the new file is open, so it is none of those the loop removes *)
  assert (Hopen : entry name (backups w3) = Some (Zip [] true)).
  { cbn [w3 w2 w1 backups set_backups with_reads addLog emit]. apply entry_putEntry_same. }
  assert (Hnotold : ~ In name (skipn 3 (listBackups w3))).
  { intros H. specialize (Hl3 name _ H Hopen). discriminate. }
  rewrite Hall in *.
  (* closing the file changes no name *)
  assert (Hnames' : readBackupDir w' = readBackupDir (prune (skipn 3 all) w3)).
  { rewrite Hw'. unfold readBackupDir, closeZip. cbn [backups set_backups addLog emit].
    unfold putEntry. rewrite (P4 name Hnotold), Hopen. apply replaceEntry_names. }
  assert (Hu' : unique (backups w') = true).
  { rewrite Hw'. unfold closeZip. cbn [backups set_backups]. apply putEntry_unique.
    exact P2. }
  assert (Hsorted : StronglySorted desc all).
  { rewrite <- Hall. apply listBackups_sorted, Hu3. }
  assert (Hmem : forall n, In n all <-> n = name \/ In n (listBackups w)).
  { intros n. unfold all. rewrite !listBackups_In, Hcreate. unfold readBackupDir.
    cbn [backups set_backups]. rewrite putEntry_names. split.
    - intros [[->|H] Hb]; [left; reflexivity | right; split; assumption].
    - intros [->|[H Hb]]; [split; [left; reflexivity | apply isBackup_backupName] | tauto]. }
  assert (Hkept : listBackups w' = firstn 3 all).
  { apply desc_sorted_unique.
    - apply listBackups_sorted. exact Hu'.
    - apply sorted_firstn, Hsorted.
    - intros n. rewrite listBackups_In. rewrite Hnames'.
      rewrite P3. pose proof (desc_sorted_NoDup _ Hsorted) as Hnd.
      rewrite <- (firstn_skipn 3 all) in Hnd.
      assert (Hin3 : In n (readBackupDir w3) /\ isBackup n = true <-> In n all).
      { rewrite <- Hall. symmetry. apply listBackups_In. }
      split.
      + intros [[H1 H2] H3]. assert (Ha : In n all) by (apply Hin3; tauto).
        rewrite <- (firstn_skipn 3 all) in Ha. apply in_app_or in Ha. tauto.
      + intros H. assert (Ha : In n all) by (eapply In_firstn; exact H).
        apply Hin3 in Ha. split; [split; [tauto|] | tauto].
        intros Hs. exact (NoDup_app_disjoint _ _ _ n Hnd H Hs). }
  assert (Hname : In name (firstn 3 all)).
  { assert (Ha : In name all) by (apply Hmem; left; reflexivity).
    rewrite <- (firstn_skipn 3 all) in Ha. apply in_app_or in Ha. tauto. }
  split; [exact Hkept|]. split; [rewrite Hkept; apply firstn_le_length|].
  split; [rewrite Hkept; exact Hname|].
  split; [exact Hmem|]. split; [exact Hsorted|]. split.
  - assert (Hui : ui w' = ui w ++ ([AddLog (LogCreating name)]
                    ++ List.map (fun n => AddLog (LogRemovedOld n)) (skipn 3 all))
                    ++ [AddLog (LogBackupDone name)]).
    { rewrite Hw'. unfold closeZip. cbn [ui set_backups addLog emit]. rewrite P1.
      cbn [w3 w2 w1 ui set_backups with_reads addLog emit].
      rewrite <- !app_assoc. reflexivity. }
    rewrite (added_intro _ _ _ Hui), !removedOld_app, removedOld_map. simpl.
    apply app_nil_r.
  - intros Hnot H2. rewrite Hkept.
    assert (Hperm : Permutation all (name :: listBackups w)).
    { apply NoDup_Permutation.
      - apply desc_sorted_NoDup, Hsorted.
      - constructor; [exact Hnot|]. apply desc_sorted_NoDup, listBackups_sorted, Hu.
      - intros n. rewrite Hmem. simpl. intuition. }
    apply Permutation_length in Hperm. simpl in Hperm.
    rewrite length_firstn. lia.
Qed.

(** ** Writing into a tree *)

Lemma written_stays_creatable (p : path) :
  forall t d a, lookup t p = Some (File d a) -> writable a = true -> creatable t p = true.
Proof.
  induction p as [|c p IH]; intros t d a Hl Hw; simpl in *.
  - inversion Hl; subst. exact Hw.
  - destruct t as [|es ok]; [discriminate|].
    destruct (entry c es) as [x|]; [|discriminate]. eapply IH; eassumption.
Qed.

Lemma file_survives_MkdirAll (q : path) :
  forall t pp t' d a,
    lookup t q = Some (File d a) -> MkdirAll t pp = Some t' ->
    lookup t' q = Some (File d a).
Proof.
  induction q as [|c q IH]; intros t pp t' d a Hl Hm.
  - simpl in Hl. inversion Hl; subst. destruct pp; discriminate.
  - destruct t as [|es ok]; [discriminate|]. simpl in Hl.
    destruct (entry c es) as [x|] eqn:Ec; [|discriminate].
    destruct pp as [|c2 pp]; simpl in Hm.
    + inversion Hm; subst. simpl. rewrite Ec. exact Hl.
    + destruct (MkdirAll match entry c2 es with Some x0 => x0 | None => Dir [] true end pp)
        as [sub'|] eqn:Es; [|discriminate].
      inversion Hm; subst. simpl. rewrite entry_putEntry.
      destruct (String.eqb_spec c2 c) as [->|Hne].
      * rewrite Ec in Es. eapply IH; eassumption.
      * rewrite Ec. exact Hl.
Qed.

Lemma file_survives_WriteFile (q : path) :
  forall t p t' d a d',
    lookup t q = Some (File d a) -> q <> p -> WriteFile t p d' = Some t' ->
    lookup t' q = Some (File d a).
Proof.
  induction q as [|c q IH]; intros t p t' d a d' Hl Hne Hw.
  - simpl in Hl. inversion Hl; subst. destruct p; [congruence | discriminate].
  - destruct t as [|es ok]; [discriminate|]. simpl in Hl.
    destruct (entry c es) as [x|] eqn:Ec; [|discriminate].
    destruct p as [|c2 p]; [discriminate|]. simpl in Hw.
    destruct (entry c2 es) as [y|] eqn:Ec2.
    + destruct (WriteFile y p d') as [y'|] eqn:Ey; [|discriminate].
      inversion Hw; subst. simpl. rewrite entry_putEntry.
      destruct (String.eqb_spec c2 c) as [->|Hc].
      * rewrite Ec in Ec2. inversion Ec2; subst y.
        eapply IH; [exact Hl | | exact Ey]. congruence.
      * rewrite Ec. exact Hl.
    + destruct p; [|discriminate]. inversion Hw; subst. simpl. rewrite entry_putEntry.
      destruct (String.eqb_spec c2 c) as [->|Hc]; [congruence|].
      rewrite Ec. exact Hl.
Qed.

Lemma file_survives_restoreStep (q : path) (t : node) (f : zentry) (d : list byte) (a : attrs) :
  lookup t q = Some (File d a) -> q <> Name f ->
  lookup (restoreStep t f) q = Some (File d a).
Proof.
  intros Hl Hne. unfold restoreStep.
  set (t1 := match MkdirAll t (parent (Name f)) with Some t' => t' | None => t end).
  assert (H1 : lookup t1 q = Some (File d a)).
  { subst t1. destruct (MkdirAll t (parent (Name f))) eqn:E; [|exact Hl].
    eapply file_survives_MkdirAll; eassumption. }
  destruct (zopen f && zread f); [|exact H1].
  destruct (WriteFile t1 (Name f) (zdata f)) eqn:E; [|exact H1].
  eapply file_survives_WriteFile; eassumption.
Qed.

Lemma prefix_of_cons (c : string) (p q : path) :
  prefix_of (c :: p) (c :: q) <-> prefix_of p q.
Proof.
  split; intros [r H]; exists r.
  - simpl in H. inversion H. reflexivity.
  - simpl. rewrite H. reflexivity.
Qed.

Lemma creatable_MkdirAll (p : path) :
  forall t pp t',
    creatable t p = true -> ~ prefix_of p pp -> MkdirAll t pp = Some t' ->
    creatable t' p = true.
Proof.
  induction p as [|c p IH]; intros t pp t' Hc Hn Hm.
  - exfalso. apply Hn. exists pp. reflexivity.
  - destruct t as [|es ok]; [discriminate|]. simpl in Hc.
    destruct pp as [|c2 pp]; simpl in Hm.
    + inversion Hm; subst. exact Hc.
    + destruct (MkdirAll match entry c2 es with Some x0 => x0 | None => Dir [] true end pp)
        as [sub'|] eqn:Es; [|discriminate].
      inversion Hm; subst. simpl. rewrite entry_putEntry.
      destruct (String.eqb_spec c2 c) as [->|Hne]; [|exact Hc].
      assert (Hn' : ~ prefix_of p pp) by (intros H; apply Hn, prefix_of_cons, H).
      destruct (entry c es) as [x|].
      * eapply IH; eassumption.
      * eapply IH; [| exact Hn' | exact Es].
        destruct p; [exfalso; apply Hn'; exists pp; reflexivity | reflexivity].
Qed.

Lemma creatable_WriteFile (p : path) :
  forall t q t' d,
    creatable t p = true -> ~ prefix_of p q -> ~ prefix_of q p ->
    WriteFile t q d = Some t' -> creatable t' p = true.
Proof.
  induction p as [|c p IH]; intros t q t' d Hc Hpq Hqp Hw.
  - exfalso. apply Hpq. exists q. reflexivity.
  - destruct t as [|es ok]; [discriminate|]. simpl in Hc.
    destruct q as [|c2 q]; [discriminate|]. simpl in Hw.
    destruct (entry c2 es) as [y|] eqn:Ec2.
    + destruct (WriteFile y q d) as [y'|] eqn:Ey; [|discriminate].
      inversion Hw; subst. simpl. rewrite entry_putEntry.
      destruct (String.eqb_spec c2 c) as [->|Hne]; [|exact Hc].
      rewrite Ec2 in Hc. eapply IH; [exact Hc | | | exact Ey].
      * intros H. apply Hpq, prefix_of_cons, H.
      * intros H. apply Hqp, prefix_of_cons, H.
    + destruct q; [|discriminate]. inversion Hw; subst. simpl. rewrite entry_putEntry.
      destruct (String.eqb_spec c2 c) as [->|Hne]; [|exact Hc].
      exfalso. apply Hqp. exists p. reflexivity.
Qed.

Lemma prefix_of_parent (p q : path) : prefix_of p (parent q) -> prefix_of p q.
Proof.
  intros [r H]. unfold parent in H.
  destruct q as [|x q' _] using rev_ind.
  - exists r. exact H.
  - rewrite removelast_last in H. exists (r ++ [x]). rewrite H, app_assoc. reflexivity.
Qed.

Lemma creatable_restoreStep (p : path) (t : node) (f : zentry) :
  creatable t p = true -> ~ prefix_of p (Name f) -> ~ prefix_of (Name f) p ->
  creatable (restoreStep t f) p = true.
Proof.
  intros Hc Hpf Hfp. unfold restoreStep.
  set (t1 := match MkdirAll t (parent (Name f)) with Some t' => t' | None => t end).
  assert (H1 : creatable t1 p = true).
  { subst t1. destruct (MkdirAll t (parent (Name f))) eqn:E; [|exact Hc].
    eapply creatable_MkdirAll; [exact Hc | | exact E].
    intros H. apply Hpf, prefix_of_parent, H. }
  destruct (zopen f && zread f); [|exact H1].
  destruct (WriteFile t1 (Name f) (zdata f)) eqn:E; [|exact H1].
  eapply creatable_WriteFile; eassumption.
Qed.

Lemma MkdirAll_parent_ok (p : path) :
  forall t, creatable t p = true -> p <> [] -> exists t1, MkdirAll t (parent p) = Some t1.
Proof.
  induction p as [|c p IH]; intros t Hc Hne; [congruence|].
  destruct t as [|es ok]; [discriminate|]. simpl in Hc.
  destruct p as [|c' p'].
  - exists (Dir es ok). reflexivity.
  - change (parent (c :: c' :: p')) with (c :: parent (c' :: p')).
    cbn [MkdirAll].
    assert (Hsub : creatable match entry c es with Some x => x | None => Dir [] true end
                     (c' :: p') = true).
    { destruct (entry c es); [exact Hc | reflexivity]. }
    destruct (IH _ Hsub) as [sub1 E]; [discriminate|].
    rewrite E. eauto.
Qed.

Lemma WriteFile_into (c : string) (p : path) (es : list (string * node)) (ok : bool)
      (x : node) (d : list byte) :
  entry c es = Some x ->
  WriteFile (Dir es ok) (c :: p) d =
  match WriteFile x p d with
  | Some x' => Some (Dir (putEntry c x' es) ok)
  | None => None
  end.
Proof. intros H. simpl. rewrite H. destruct p; reflexivity. Qed.

Lemma write_after_mkdir (p : path) :
  forall t d,
    creatable t p = true ->
    exists t2 a',
      WriteFile match MkdirAll t (parent p) with Some t' => t' | None => t end p d = Some t2
      /\ lookup t2 p = Some (File d a') /\ writable a' = true.
Proof.
  induction p as [|c p IH]; intros t d Hc.
  - destruct t as [d0 a|]; [|discriminate]. simpl in Hc. simpl. rewrite Hc.
    exists (File d a), a. auto.
  - destruct t as [|es ok]; [discriminate|]. simpl in Hc.
    destruct p as [|c' p'].
    + change (parent [c]) with (@nil string). cbn [MkdirAll WriteFile].
      destruct (entry c es) as [x|] eqn:Ec.
      * destruct x as [d0 a|]; [|discriminate]. simpl in Hc. simpl. rewrite Hc.
        exists (Dir (putEntry c (File d a) es) ok), a. simpl.
        rewrite entry_putEntry_same. auto.
      * exists (Dir (putEntry c (File d plain) es) ok), plain. simpl.
        rewrite entry_putEntry_same. auto.
    + change (parent (c :: c' :: p')) with (c :: parent (c' :: p')).
      cbn [MkdirAll].
      assert (Hsub : creatable match entry c es with Some x => x | None => Dir [] true end
                       (c' :: p') = true).
      { destruct (entry c es); [exact Hc | reflexivity]. }
      destruct (MkdirAll_parent_ok _ _ Hsub) as [sub1 E]; [discriminate|].
      destruct (IH _ d Hsub) as [x2 [a' [Hw [Hl Ha]]]].
      rewrite E in Hw. rewrite E.
      rewrite (WriteFile_into c (c' :: p') _ ok sub1 d (entry_putEntry_same _ c sub1 es)), Hw.
      exists (Dir (putEntry c x2 (putEntry c sub1 es)) ok), a'.
      split; [reflexivity|]. split; [|exact Ha].
      cbn [lookup]. rewrite entry_putEntry_same. exact Hl.
Qed.

Lemma restoreStep_writes (t : node) (f : zentry) :
  creatable t (Name f) = true -> zopen f = true -> zread f = true ->
  exists a', lookup (restoreStep t f) (Name f) = Some (File (zdata f) a')
             /\ writable a' = true.
Proof.
  intros Hc Ho Hr. unfold restoreStep. rewrite Ho, Hr. cbn [andb].
  destruct (write_after_mkdir (Name f) t (zdata f) Hc) as [t2 [a' [Hw [Hl Ha]]]].
  rewrite Hw. eauto.
Qed.

(** The loop of [doRestore], on the target tree. *)
Lemma target_restoreLoop (total : nat) (files : list zentry) :
  forall i w, target (restoreLoop total i files w) = fold_left restoreStep files (target w).
Proof.
  induction files as [|f files IH]; intros i w; [reflexivity|].
  cbn [restoreLoop fold_left]. rewrite IH. f_equal.
  unfold restoreFile, restoreStep, mkParent.
  destruct (MkdirAll (target w) (parent (Name f))) as [t1|];
    destruct (zopen f); destruct (zread f); cbn [negb andb]; try reflexivity;
    cbn [target set_target];
    match goal with
    | |- context [WriteFile ?t ?p ?d] => destruct (WriteFile t p d)
    end; reflexivity.
Qed.

Lemma files_survive_restore (q : path) (d : list byte) (a : attrs) (files : list zentry) :
  forall t,
    lookup t q = Some (File d a) ->
    (forall f, In f files -> Name f <> q) ->
    lookup (fold_left restoreStep files t) q = Some (File d a).
Proof.
  induction files as [|f files IH]; intros t Hl Hn; [exact Hl|].
  cbn [fold_left]. apply IH.
  - apply file_survives_restoreStep; [exact Hl|]. intros E. apply (Hn f); [left; reflexivity | auto].
  - intros g Hg. apply Hn. right; exact Hg.
Qed.

Lemma restore_writes (p : path) (d : list byte) (files : list zentry) :
  forall t,
    creatable t p = true ->
    (forall f, In f files ->
               zopen f = true /\ zread f = true /\
               ((Name f = p /\ zdata f = d)
                \/ (~ prefix_of p (Name f) /\ ~ prefix_of (Name f) p))) ->
    creatable (fold_left restoreStep files t) p = true
    /\ ((exists a, lookup t p = Some (File d a))
        \/ (exists f, In f files /\ Name f = p) ->
        exists a', lookup (fold_left restoreStep files t) p = Some (File d a')).
Proof.
  induction files as [|f files IH]; intros t Hc Hf.
  - split; [exact Hc|]. intros [H|[f [[] _]]]. exact H.
  - cbn [fold_left].
    destruct (Hf f (or_introl eq_refl)) as [Ho [Hr Hcase]].
    assert (Hrest : forall g, In g files ->
               zopen g = true /\ zread g = true /\
               ((Name g = p /\ zdata g = d)
                \/ (~ prefix_of p (Name g) /\ ~ prefix_of (Name g) p)))
      by (intros g Hg; apply Hf; right; exact Hg).
    destruct Hcase as [[En Ed]|[Hpf Hfp]].
    + (* this entry is the file itself *)
      subst p. destruct (restoreStep_writes t f Hc Ho Hr) as [a' [Hl Ha]].
      rewrite Ed in Hl.
      destruct (IH (restoreStep t f) (written_stays_creatable _ _ _ _ Hl Ha) Hrest) as [I1 I2].
      split; [exact I1|]. intros _. apply I2. left. eauto.
    + (* another file of the archive *)
      destruct (IH (restoreStep t f) (creatable_restoreStep p t f Hc Hpf Hfp) Hrest) as [I1 I2].
      split; [exact I1|]. intros [[a Hl]|[g [[E|Hg] Hn]]].
      * apply I2. left. exists a. apply file_survives_restoreStep; [exact Hl|].
        intros E. apply Hpf. exists []. rewrite app_nil_r. auto.
      * subst g. exfalso. apply Hpf. exists []. rewrite app_nil_r. auto.
      * apply I2. right. eauto.
Qed.

Lemma lookup_app (p r : path) :
  forall t, lookup t (p ++ r) = match lookup t p with
                                | Some n => lookup n r
                                | None => None
                                end.
Proof.
  induction p as [|c p IH]; intros t; [reflexivity|]. simpl.
  destruct t as [|es ok]; [reflexivity|].
  destruct (entry c es); [apply IH | reflexivity].
Qed.

Lemma files_not_nested (t : node) (p q : path) d a d' a' :
  lookup t p = Some (File d a) -> lookup t q = Some (File d' a') ->
  prefix_of p q -> q = p.
Proof.
  intros Hp Hq [r ->]. rewrite lookup_app, Hp in Hq.
  destruct r; [apply app_nil_r | discriminate].
Qed.

Lemma prune_weak (old : list string) :
  forall w,
    unique (backups w) = true ->
    unique (backups (prune old w)) = true
    /\ forall n, In n (readBackupDir (prune old w)) ->
                 In n (readBackupDir w)
                 /\ entry n (backups (prune old w)) = entry n (backups w).
Proof.
  induction old as [|name old IH]; intros w Hu; [auto|].
  cbn [prune]. unfold osRemove.
  destruct (entry name (backups w)) as [f|] eqn:E; [destruct (is_locked f)|].
  - apply (IH (addLog (LogRemovedOld name) w) Hu).
  - set (w1 := addLog (LogRemovedOld name) (set_backups (delEntry name (backups w)) w)).
    assert (Hu1 : unique (backups w1) = true) by (apply delEntry_unique, Hu).
    destruct (IH w1 Hu1) as [I1 I2]. split; [exact I1|].
    intros n Hn. destruct (I2 n Hn) as [J1 J2].
    unfold readBackupDir in J1. cbn [w1 backups addLog emit set_backups] in J1, J2.
    apply (delEntry_names _ _ _ _ Hu) in J1. destruct J1 as [Hne HIn].
    split; [exact HIn|]. rewrite J2. apply entry_delEntry, Hne.
  - apply (IH (addLog (LogRemovedOld name) w) Hu).
Qed.

Lemma createBackup_archive (stamp : string) (w0 w1 : world) :
  createBackup stamp w0 = (w1, None) ->
  entry (backupName stamp) (backups w1) = Some (Zip (archive_of (target w0)) false).
Proof.
  intros Hc. rewrite createBackup_eq in Hc. cbv zeta in Hc.
  set (name := backupName stamp) in *.
  assert (Hw1 : exists x, w1 = closeZip name (archive_of (target w0)) x).
  { destruct (entry name (backups w0)) as [f|]; [destruct (is_locked f)|]; inversion Hc;
      eexists; reflexivity. }
  destruct Hw1 as [x ->]. unfold closeZip. cbn [backups set_backups].
  apply entry_putEntry_same.
Qed.

Lemma target_emits (es : list event) (w : world) : target (emits es w) = target w.
Proof. revert w. induction es as [|e es IH]; intros w; [reflexivity|]. simpl. rewrite IH. reflexivity. Qed.

Lemma target_launchIPCAS (w : world) : target (launchIPCAS w) = target w.
Proof. unfold launchIPCAS. destruct (Stat _ _); [apply target_emits | reflexivity]. Qed.

Lemma target_doRestore (w : world) (files : list zentry) (l : bool) :
  String.eqb (selected w) EmptyString = false ->
  entry (selected w) (backups w) = Some (Zip files l) ->
  target (doRestore w) = fold_left restoreStep files (target w).
Proof.
  intros Hs He. unfold doRestore. rewrite Hs.
  change (selected (killIPCAS (addLog (LogRestoring (selected w)) w))) with (selected w).
  change (backups (killIPCAS (addLog (LogRestoring (selected w)) w))) with (backups w).
  rewrite He. cbn [target emit]. rewrite target_launchIPCAS, target_emits, target_restoreLoop.
  reflexivity.
Qed.

Lemma archive_entry (S : node) (f : zentry) :
  wf S = true -> In f (archive_of S) ->
  zopen f = true /\ zread f = true
  /\ exists d a, lookup S (Name f) = Some (File d a)
                 /\ zdata f = if readable a then d else [].
Proof.
  intros Hwf HIn. unfold archive_of in HIn. apply in_map_iff in HIn.
  destruct HIn as [[q n] [E HIn]]. subst f. cbn [stored Name zopen zread zdata fst].
  apply (files_of_lookup _ _ _ Hwf) in HIn. destruct HIn as [Hl Hd].
  destruct n as [d a|]; [|discriminate].
  split; [reflexivity|]. split; [reflexivity|]. exists d, a. split; [exact Hl|].
  unfold ReadFile. rewrite Hl. destruct (readable a); reflexivity.
Qed.

(** C4, as amended. Back up a well-formed target tree, let the backup
    directory be, change the tree at will, restore from the new archive.
    Then every file of the tree as it was at the backup, which could be
    read then and whose path can still be written in the changed tree,
    has again the bytes it had; and every file of the changed tree that
    was not a file at the backup is left as it is: restoring removes
    nothing. *)
Theorem restore_after_backup (stamp : string) (w0 w1 w2 : world) :
  wf (target w0) = true ->
  createBackup stamp w0 = (w1, None) ->
  backups w2 = backups w1 ->
  selected w2 = backupName stamp ->
  (forall p data a,
      lookup (target w0) p = Some (File data a) ->
      readable a = true ->
      creatable (target w2) p = true ->
      exists a', lookup (target (doRestore w2)) p = Some (File data a'))
  /\ (forall q data a,
         lookup (target w2) q = Some (File data a) ->
         (forall d' a', lookup (target w0) q <> Some (File d' a')) ->
         lookup (target (doRestore w2)) q = Some (File data a)).
Proof.
  intros Hwf Hc Hb Hs.
  pose proof (createBackup_archive stamp w0 w1 Hc) as Ha.
  assert (Ht : target (doRestore w2) =
               fold_left restoreStep (archive_of (target w0)) (target w2)).
  { apply (target_doRestore w2 _ false).
    - rewrite Hs. unfold backupName. reflexivity.
    - rewrite Hs, Hb. exact Ha. }
  rewrite Ht. split.
  - intros p data a Hl Hread Hcr.
    destruct (restore_writes p data (archive_of (target w0)) (target w2) Hcr) as [_ H].
    + intros f Hf. destruct (archive_entry _ f Hwf Hf) as [Ho [Hr [d [a0 [Hlf Hd]]]]].
      split; [exact Ho|]. split; [exact Hr|].
      destruct (list_eq_dec string_dec (Name f) p) as [E|Hne].
      * left. split; [exact E|]. rewrite E, Hl in Hlf. inversion Hlf; subst.
        rewrite Hread in Hd. exact Hd.
      * right. split; intros Hp.
        -- apply Hne. eapply files_not_nested; [exact Hl | exact Hlf | exact Hp].
        -- apply Hne. symmetry. eapply files_not_nested; [exact Hlf | exact Hl | exact Hp].
    + apply H. right.
      exists (stored (target w0) (p, File data a)). split; [|reflexivity].
      unfold archive_of. apply in_map. apply (files_of_lookup _ _ _ Hwf). auto.
  - intros q data a Hl Hnot. apply files_survive_restore; [exact Hl|].
    intros f Hf E. destruct (archive_entry _ f Hwf Hf) as [_ [_ [d [a0 [Hlf _]]]]].
    rewrite E in Hlf. exact (Hnot _ _ Hlf).
Qed.

(** ** The trace of the apply loop *)

Lemma fileLogs_app (a b : list event) : fileLogs (a ++ b) = fileLogs a ++ fileLogs b.
Proof. unfold fileLogs. apply flat_map_app. Qed.

Lemma progressOf_app (a b : list event) : progressOf (a ++ b) = progressOf a ++ progressOf b.
Proof. unfold progressOf. apply flat_map_app. Qed.

Lemma report_app (a b : list event) : report (a ++ b) = report a ++ report b.
Proof. unfold report. apply filter_app. Qed.

Lemma step_refl (w : world) : step_of w w [].
Proof. constructor; auto. rewrite app_nil_r. reflexivity. Qed.

Lemma step_trans (w1 w2 w3 : world) (e1 e2 : list event) :
  step_of w1 w2 e1 -> step_of w2 w3 e2 -> step_of w1 w3 (e1 ++ e2).
Proof.
  intros [U1 S1 B1 C1 T1] [U2 S2 B2 C2 T2]. constructor; try congruence.
  - rewrite U2, U1, app_assoc. reflexivity.
  - lia.
Qed.

Lemma updateFile_step (total : nat) (t0 : Z) (i : nat) (p : path) (w : world) :
  exists evs,
    step_of w (updateFile total t0 i p w) evs
    /\ target (updateFile total t0 i p w) = fst (applyStep (source w) (target w) p)
    /\ fileLogs evs = [snd (applyStep (source w) (target w) p)]
    /\ progressOf evs = fractionsOf total i [snd (applyStep (source w) (target w) p)]
    /\ report evs = [].
Proof.
  unfold updateFile, applyStep, mkParent, osReadFile, timeSince, timeNow.
  destruct w as [src tgt bk sel u rd ck tk]. cbn [source target tree].
  set (t1 := match MkdirAll tgt (parent p) with Some t' => t' | None => tgt end).
  assert (E : match MkdirAll tgt (parent p) with
              | Some t => set_target t (mkWorld src tgt bk sel u rd ck tk)
              | None => mkWorld src tgt bk sel u rd ck tk
              end = mkWorld src t1 bk sel u rd ck tk).
  { subst t1. destruct (MkdirAll tgt (parent p)); reflexivity. }
  rewrite E. cbn [source target backups selected ui reads clock ticks tree].
  destruct (match src with Some n => ReadFile n p | None => None end) as [data|].
  - destruct (WriteFile t1 p data) as [t2|].
    + eexists. split; [|split; [|split; [|split]]].
      * constructor; cbn; try reflexivity; [|lia].
        rewrite <- !app_assoc. reflexivity.
      * reflexivity.
      * reflexivity.
      * reflexivity.
      * reflexivity.
    + exists [AddLog (LogWriteErr p)]. repeat split; cbn; auto.
  - exists [AddLog (LogReadErr p)]. repeat split; cbn; auto.
Qed.

Lemma updateLoop_step (total : nat) (t0 : Z) (rest : list path) :
  forall i w,
  exists evs,
    step_of w (updateLoop total t0 i rest w) evs
    /\ fileLogs evs = outcomes (source w) (target w) rest
    /\ progressOf evs = fractionsOf total i (outcomes (source w) (target w) rest)
    /\ report evs = [].
Proof.
  induction rest as [|p rest IH]; intros i w.
  - exists []. split; [apply step_refl | auto].
  - cbn [updateLoop outcomes].
    destruct (updateFile_step total t0 i p w) as [e1 [S1 [T1 [F1 [P1 R1]]]]].
    destruct (IH (S i) (updateFile total t0 i p w)) as [e2 [S2 [F2 [P2 R2]]]].
    exists (e1 ++ e2). split; [eapply step_trans; eassumption|].
    rewrite fileLogs_app, progressOf_app, report_app, F1, F2, P1, P2, R1, R2, T1.
    rewrite (step_source S1). cbn [fractionsOf]. rewrite app_nil_r.
    repeat split; reflexivity.
Qed.

Lemma step_emits (es : list event) (w : world) : step_of w (emits es w) es.
Proof.
  revert w. induction es as [|e es IH]; intros w; [apply step_refl|].
  change (e :: es) with ([e] ++ es). cbn [emits app].
  change (e :: es) with ([e] ++ es).
  eapply step_trans; [|apply IH]. constructor; auto.
Qed.

Lemma step_emit (e : event) (w : world) : step_of w (emit e w) [e].
Proof. constructor; auto. Qed.

Lemma step_tick (w : world) :
  step_of w (mkWorld (source w) (target w) (backups w) (selected w) (ui w) (reads w)
                     (clock w) (S (ticks w))) [].
Proof. constructor; cbn; auto. rewrite app_nil_r. reflexivity. Qed.

Lemma step_refreshBackups (w : world) :
  step_of w (refreshBackups w) [SetOptions (listBackups w)].
Proof. unfold refreshBackups. destruct (listBackups w) as [|b l]; constructor; auto. Qed.

Lemma launchIPCAS_step (w : world) :
  exists evs, step_of w (launchIPCAS w) evs
              /\ fileLogs evs = [] /\ progressOf evs = [] /\ report evs = [].
Proof.
  unfold launchIPCAS. destruct (Stat (target w) ["ipcas2.exe"%string]).
  - exists [StartIPCAS; AddLog LogLaunched]. split; [apply step_emits | auto].
  - exists []. split; [apply step_refl | auto].
Qed.

Lemma performFilesUpdate_trace (files : list path) (w : world) :
  exists loop tail k,
    added w (performFilesUpdate files w) =
      [Taskkill; AddLog LogKilled; Sleep500; ProgressShow; SetValue 0]
      ++ loop
      ++ [SetValue 1; ProgressHide;
          AddLog (LogUpdateDone (List.length files)
                    (roundSecond (clock w k - clock w (ticks w))));
          SetStatus StUpdateDone]
      ++ tail
      ++ [ShowMsg (MsgUpdated (List.length files))]
    /\ (ticks w < k)%nat
    /\ fileLogs loop = outcomes (source w) (target w) files
    /\ progressOf loop =
       fractionsOf (List.length files) 0 (outcomes (source w) (target w) files)
    /\ report loop = []
    /\ fileLogs tail = [] /\ progressOf tail = [] /\ report tail = [].
Proof.
  unfold performFilesUpdate, killIPCAS, timeSince, timeNow. cbv beta iota zeta.
  set (w1 := emits [ProgressShow; SetValue 0] (emits [Taskkill; AddLog LogKilled; Sleep500] w)).
  assert (S1 : step_of w w1 ([Taskkill; AddLog LogKilled; Sleep500] ++ [ProgressShow; SetValue 0]))
    by (eapply step_trans; apply step_emits).
  pose proof (step_tick w1) as S2.
  set (w2 := mkWorld (source w1) (target w1) (backups w1) (selected w1) (ui w1) (reads w1)
                     (clock w1) (S (ticks w1))) in *.
  destruct (updateLoop_step (List.length files) (clock w1 (ticks w1)) files 0 w2)
    as [loop [SL [FL [PL RL]]]].
  set (w3 := updateLoop (List.length files) (clock w1 (ticks w1)) 0 files w2) in *.
  pose proof (step_emits [SetValue 1; ProgressHide] w3) as S4.
  set (w4 := emits [SetValue 1; ProgressHide] w3) in *.
  pose proof (step_tick w4) as S5.
  set (w5 := mkWorld (source w4) (target w4) (backups w4) (selected w4) (ui w4) (reads w4)
                     (clock w4) (S (ticks w4))) in *.
  set (m := AddLog (LogUpdateDone (List.length files)
                      (roundSecond (clock w4 (ticks w4) - clock w1 (ticks w1))))).
  assert (S6 : step_of w5 (emit (SetStatus StUpdateDone) (emit m w5))
                 ([m] ++ [SetStatus StUpdateDone]))
    by (eapply step_trans; apply step_emit).
  set (w6 := emit (SetStatus StUpdateDone) (emit m w5)) in *.
  pose proof (step_refreshBackups w6) as S7.
  destruct (launchIPCAS_step (refreshBackups w6)) as [le [S8 [FLa [PLa RLa]]]].
  pose proof (step_emit (ShowMsg (MsgUpdated (List.length files)))
                (launchIPCAS (refreshBackups w6))) as S9.
  pose proof (step_trans _ _ _ _ _ S1 (step_trans _ _ _ _ _ S2 (step_trans _ _ _ _ _ SL
                (step_trans _ _ _ _ _ S4 (step_trans _ _ _ _ _ S5 (step_trans _ _ _ _ _ S6
                (step_trans _ _ _ _ _ S7 (step_trans _ _ _ _ _ S8 S9)))))))) as Sall.
  change (source w2) with (source w) in *. change (target w2) with (target w) in *.
  assert (Hck : clock w4 = clock w).
  { rewrite (step_clock S4), (step_clock SL), (step_clock S2), (step_clock S1). reflexivity. }
  assert (Htk : (ticks w < ticks w4)%nat).
  { pose proof (step_ticks S4). pose proof (step_ticks SL). pose proof (step_ticks S1).
    cbn [ticks w2] in *. lia. }
  assert (Hstart : clock w1 (ticks w1) = clock w (ticks w)) by reflexivity.
  exists loop, (SetOptions (listBackups w6) :: le), (ticks w4).
  split; [|split; [exact Htk|]].
  - apply added_intro. unfold addLog. fold m. fold w6.
    rewrite (step_ui Sall). subst m. rewrite Hck, Hstart.
    cbn [app]. rewrite <- ?app_assoc. reflexivity.
  - split; [exact FL|]. split; [exact PL|]. split; [exact RL|].
    change (SetOptions (listBackups w6) :: le) with ([SetOptions (listBackups w6)] ++ le).
    rewrite fileLogs_app, progressOf_app, report_app, FLa, PLa, RLa. auto.
Qed.

Lemma outcomes_subject (src : option node) (files : list path) :
  forall t, List.map subject (outcomes src t files) = List.map Some files.
Proof.
  induction files as [|p files IH]; intros t; [reflexivity|].
  cbn [outcomes List.map]. rewrite IH. f_equal.
  unfold applyStep.
  destruct (match src with Some s => ReadFile s p | None => None end); [|reflexivity].
  destruct (WriteFile _ p l); reflexivity.
Qed.

Lemma outcomes_read_errors (src : option node) (files : list path) :
  forall t, List.map isReadErr (outcomes src t files) = List.map (unreadableIn src) files.
Proof.
  induction files as [|p files IH]; intros t; [reflexivity|].
  cbn [outcomes List.map]. rewrite IH. f_equal.
  unfold applyStep, unreadableIn.
  destruct (match src with Some s => ReadFile s p | None => None end); [|reflexivity].
  destruct (WriteFile _ p l); reflexivity.
Qed.

Lemma fraction_lt (total i j : nat) :
  (i < j)%nat -> Qlt (fraction (i + 1) total) (fraction (j + 1) total).
Proof.
  intros H. unfold fraction, Qlt. cbn [Qnum Qden].
  apply Z.mul_lt_mono_pos_r; lia.
Qed.

Lemma fractionsOf_from (total : nat) (lines : list logmsg) :
  forall i, Forall (fun q => exists j, (i <= j)%nat /\ q = fraction (j + 1) total)
                   (fractionsOf total i lines).
Proof.
  induction lines as [|m lines IH]; intros i; cbn [fractionsOf]; [constructor|].
  apply Forall_app. split.
  - destruct (isFailure m); constructor; [|constructor]. exists i. auto.
  - eapply Forall_impl; [|apply (IH (S i))].
    intros q [j [Hj E]]. exists j. split; [lia | exact E].
Qed.

Lemma fractionsOf_sorted (total : nat) (lines : list logmsg) :
  forall i, StronglySorted Qlt (fractionsOf total i lines).
Proof.
  induction lines as [|m lines IH]; intros i; cbn [fractionsOf]; [constructor|].
  destruct (isFailure m); cbn [app]; [apply IH|].
  constructor; [apply IH|].
  eapply Forall_impl; [|apply (fractionsOf_from total lines (S i))].
  intros q [j [Hj ->]]. apply fraction_lt. lia.
Qed.

Lemma fractionsOf_range (total : nat) (lines : list logmsg) :
  forall i, Forall (fun q => exists j, (j < i + List.length lines)%nat
                                       /\ q = fraction (j + 1) total)
                   (fractionsOf total i lines).
Proof.
  induction lines as [|m lines IH]; intros i; cbn [fractionsOf]; [constructor|].
  apply Forall_app. split.
  - destruct (isFailure m); constructor; [|constructor]. exists i. simpl. split; [lia | auto].
  - eapply Forall_impl; [|apply (IH (S i))].
    intros q [j [Hj E]]. exists j. simpl. split; [lia | exact E].
Qed.

Lemma fraction_nonneg (k n : nat) : Qle 0 (fraction k n).
Proof. unfold fraction, Qle. cbn [Qnum Qden]. lia. Qed.

Lemma fraction_le_1 (k n : nat) : (k <= n)%nat -> Qle (fraction k n) 1.
Proof.
  intros H. unfold fraction, Qle. cbn [Qnum Qden].
  destruct n as [|n]; [assert (k = 0%nat) by lia; subst; simpl; lia|].
  rewrite <- (positive_nat_Z (Pos.of_nat (S n))), Nat2Pos.id by discriminate. lia.
Qed.

Lemma sorted_up_to_one (l : list Q) :
  StronglySorted Qlt l -> Forall (fun q => Qle 0 q /\ Qle q 1) l ->
  StronglySorted Qle ([0] ++ l ++ [1]).
Proof.
  intros Hs Hb. cbn [app]. constructor.
  - induction Hs as [|q l Hs IH Hq]; cbn [app].
    + constructor; constructor.
    + inversion Hb as [|? ? [_ Hq1] Hb']; subst. constructor; [apply IH, Hb'|].
      apply Forall_app. split.
      * eapply Forall_impl; [|exact Hq]. intros r Hr. apply Qlt_le_weak, Hr.
      * constructor; [exact Hq1 | constructor].
  - apply Forall_app. split.
    + eapply Forall_impl; [|exact Hb]. intros q [H _]. exact H.
    + constructor; [|constructor]. unfold Qle. simpl. lia.
Qed.

Lemma outcomes_length (src : option node) (files : list path) :
  forall t, List.length (outcomes src t files) = List.length files.
Proof.
  induction files as [|p files IH]; intros t; [reflexivity|].
  cbn [outcomes List.length]. rewrite IH. reflexivity.
Qed.

Lemma restoreLoop_step (total : nat) (files : list zentry) :
  forall i w,
  exists evs,
    step_of w (restoreLoop total i files w) evs
    /\ selected (restoreLoop total i files w) = selected w
    /\ fileLogs evs = List.map restoreLine files
    /\ progressOf evs = fractionsOf total i (List.map restoreLine files).
Proof.
  induction files as [|f files IH]; intros i w.
  - exists []. split; [apply step_refl | auto].
  - cbn [restoreLoop List.map fractionsOf].
    assert (H1 : exists e1,
      step_of w (restoreFile total i f w) e1
      /\ selected (restoreFile total i f w) = selected w
      /\ fileLogs e1 = [restoreLine f]
      /\ progressOf e1 = if isFailure (restoreLine f) then [] else [fraction (i + 1) total]).
    { unfold restoreFile, restoreLine.
      assert (S0 : step_of w (mkParent (Name f) w) [] /\
                   selected (mkParent (Name f) w) = selected w).
      { unfold mkParent. destruct (MkdirAll _ _); split; try reflexivity;
          constructor; cbn; auto; rewrite app_nil_r; reflexivity. }
      destruct S0 as [S0 L0]. set (w1 := mkParent (Name f) w) in *.
      destruct (zopen f); cbn [negb];
        [destruct (zread f); cbn [negb]|].
      - assert (St : forall t, step_of w1 (set_target t w1) []).
        { intros t. constructor; cbn; auto. rewrite app_nil_r. reflexivity. }
        exists ([] ++ [] ++ [AddLog (LogRestored (Name f))] ++ [SetValue (fraction (i + 1) total)]).
        split; [|split; [|split]]; try reflexivity.
        + eapply step_trans; [exact S0|].
          destruct (WriteFile (target w1) (Name f) (zdata f)) as [t|].
          * eapply step_trans; [apply St|]. eapply step_trans; apply step_emit.
          * eapply (step_trans _ _ _ [] _ (step_refl w1)). eapply step_trans; apply step_emit.
        + destruct (WriteFile (target w1) (Name f) (zdata f)); exact L0.
      - exists ([] ++ [AddLog (LogReadFileErr (Name f))]).
        split; [eapply step_trans; [exact S0 | apply step_emit] | auto].
      - exists ([] ++ [AddLog (LogOpenErr (Name f))]).
        split; [eapply step_trans; [exact S0 | apply step_emit] | auto]. }
    destruct H1 as [e1 [S1 [L1 [F1 P1]]]].
    destruct (IH (S i) (restoreFile total i f w)) as [e2 [S2 [L2 [F2 P2]]]].
    exists (e1 ++ e2). split; [eapply step_trans; eassumption|].
    rewrite fileLogs_app, progressOf_app, F1, F2, P1, P2, L2, L1. auto.
Qed.

Lemma doRestore_trace (w : world) (files : list zentry) (l : bool) :
  String.eqb (selected w) EmptyString = false ->
  entry (selected w) (backups w) = Some (Zip files l) ->
  exists loop tail,
    added w (doRestore w) =
      [AddLog (LogRestoring (selected w)); Taskkill; AddLog LogKilled; Sleep500; ProgressShow]
      ++ loop
      ++ [ProgressHide; AddLog LogRestoreDone; SetStatus StRestoreDone]
      ++ tail
      ++ [ShowMsg (MsgRestored (selected w))]
    /\ fileLogs loop = List.map restoreLine files
    /\ progressOf loop = fractionsOf (List.length files) 0 (List.map restoreLine files)
    /\ fileLogs tail = [] /\ progressOf tail = [].
Proof.
  intros Hs He. unfold doRestore, killIPCAS, addLog. rewrite Hs.
  set (w1 := emits [Taskkill; AddLog LogKilled; Sleep500] (emit (AddLog (LogRestoring (selected w))) w)).
  change (selected w1) with (selected w). change (backups w1) with (backups w).
  rewrite He.
  assert (S1 : step_of w (emit ProgressShow w1)
                 ([AddLog (LogRestoring (selected w))]
                  ++ [Taskkill; AddLog LogKilled; Sleep500] ++ [ProgressShow])).
  { eapply step_trans; [apply step_emit|]. eapply step_trans; [apply step_emits | apply step_emit]. }
  set (w2 := emit ProgressShow w1) in *.
  destruct (restoreLoop_step (List.length files) files 0 w2) as [loop [SL [LL [FL PL]]]].
  set (w3 := restoreLoop (List.length files) 0 files w2) in *.
  pose proof (step_emits [ProgressHide; AddLog LogRestoreDone; SetStatus StRestoreDone] w3) as S4.
  set (w4 := emits _ w3) in *.
  destruct (launchIPCAS_step w4) as [le [S5 [FLa [PLa _]]]].
  assert (Hsel : selected (launchIPCAS w4) = selected w).
  { unfold launchIPCAS. destruct (Stat _ _); exact LL. }
  rewrite Hsel.
  pose proof (step_emit (ShowMsg (MsgRestored (selected w))) (launchIPCAS w4)) as S6.
  pose proof (step_trans _ _ _ _ _ S1 (step_trans _ _ _ _ _ SL (step_trans _ _ _ _ _ S4
                (step_trans _ _ _ _ _ S5 S6)))) as Sall.
  exists loop, le. split.
  - apply added_intro. rewrite (step_ui Sall). cbn [app]. rewrite <- ?app_assoc. reflexivity.
  - auto.
Qed.

(** ** The retention of backups: worked cases *)

(** The theorem of C3 on four archives B1..B4: the new one, B4 and B3 stay;
    B2 then B1 are removed. *)
Lemma createBackup_retention_witness :
  unique (backups worldFour) = true
  /\ createBackup "20260101_000009" worldFour
     = (fst (createBackup "20260101_000009" worldFour), None)
  /\ listBackups (fst (createBackup "20260101_000009" worldFour))
     = [backupName "20260101_000009"; backupName "20260101_000004";
        backupName "20260101_000003"]
  /\ removedOld (added worldFour (fst (createBackup "20260101_000009" worldFour)))
     = [backupName "20260101_000002"; backupName "20260101_000001"].
Proof.
  split; [reflexivity|]. split; [reflexivity|].
  assert (Hlock : forall n f,
            In n (skipn 3 (listBackups (fst (osCreate (backupName "20260101_000009") worldFour)))) ->
            entry n (backups (fst (osCreate (backupName "20260101_000009") worldFour))) = Some f ->
            is_locked f = false).
  { intros n f Hn Hf. vm_compute in Hn.
    destruct Hn as [<-|[<-|[]]]; vm_compute in Hf; inversion Hf; reflexivity. }
  destruct (createBackup_retention "20260101_000009" worldFour
              (fst (createBackup "20260101_000009" worldFour)) eq_refl eq_refl Hlock)
    as [Hkept [_ [_ [_ [_ [Hrem _]]]]]].
  split; [rewrite Hkept | rewrite Hrem]; reflexivity.
Defined.

(** C3 as stated fails: with five archives, the oldest of which cannot be
    removed, a [createBackup] that returns nil leaves four archives, the
    oldest among them; and the loop goes through the archives to remove
    from the newest to the oldest, not oldest first. *)
Lemma createBackup_can_leave_four :
  snd (createBackup "20260101_000009" worldFive) = None
  /\ listBackups (fst (createBackup "20260101_000009" worldFive))
     = [backupName "20260101_000009"; backupName "20260101_000005";
        backupName "20260101_000004"; backupName "20260101_000001"]
  /\ removedOld (added worldFive (fst (createBackup "20260101_000009" worldFive)))
     = [backupName "20260101_000003"; backupName "20260101_000002";
        backupName "20260101_000001"].
Proof. repeat split. Qed.

(** The new archive is still open when the loop comes to it: with three
    archives of greater names, as after the clock was set back, it stays
    as a fourth, and the log says it was removed. *)
Example createBackup_keeps_open_archive :
  snd (createBackup "20260101_000000" worldFour) = None
  /\ listBackups (fst (createBackup "20260101_000000" worldFour))
     = [backupName "20260101_000004"; backupName "20260101_000003";
        backupName "20260101_000002"; backupName "20260101_000000"]
  /\ removedOld (added worldFour (fst (createBackup "20260101_000000" worldFour)))
     = [backupName "20260101_000001"; backupName "20260101_000000"].
Proof. repeat split. Qed.

(** Five backups in a row, at five different seconds, in an empty backup
    directory: the last three are left. *)
Example five_backups_leave_three :
  listBackups
    (fst (createBackup "20260101_000005"
       (fst (createBackup "20260101_000004"
          (fst (createBackup "20260101_000003"
             (fst (createBackup "20260101_000002"
                (fst (createBackup "20260101_000001" emptyWorld))))))))))
  = [backupName "20260101_000005"; backupName "20260101_000004";
     backupName "20260101_000003"].
Proof. reflexivity. Qed.

(** ** Restoring: worked cases *)

(** The theorem of C4 on [worldFour] backed up and [worldMutated]. *)
Lemma restore_after_backup_witness :
  wf (target worldFour) = true
  /\ createBackup "20260101_000009" worldFour
     = (fst (createBackup "20260101_000009" worldFour), None)
  /\ backups worldMutated = backups (fst (createBackup "20260101_000009" worldFour))
  /\ selected worldMutated = backupName "20260101_000009"
  /\ (forall p data a,
         lookup (target worldFour) p = Some (File data a) ->
         readable a = true ->
         creatable (target worldMutated) p = true ->
         exists a', lookup (target (doRestore worldMutated)) p = Some (File data a'))
  /\ (forall q data a,
         lookup (target worldMutated) q = Some (File data a) ->
         (forall d' a', lookup (target worldFour) q <> Some (File d' a')) ->
         lookup (target (doRestore worldMutated)) q = Some (File data a)).
Proof.
  split; [reflexivity|]. split; [reflexivity|]. split; [reflexivity|].
  split; [reflexivity|].
  apply (restore_after_backup "20260101_000009" worldFour
           (fst (createBackup "20260101_000009" worldFour)) worldMutated);
    reflexivity.
Defined.

(** C4 as stated fails: [b.txt], added after the backup, is still there
    after the restore, so the tree is not the one that was backed up. *)
Lemma restore_keeps_added_files :
  lookup (target worldFour) ["b.txt"%string] = None
  /\ lookup (target (doRestore worldMutated)) ["b.txt"%string] = Some (File [x32] plain)
  /\ target (doRestore worldMutated) <> target worldFour.
Proof.
  split; [reflexivity|]. split; [reflexivity|]. vm_compute. discriminate.
Qed.

(** ** Applying a change set *)

(** C8, as amended. [performFilesUpdate] ends with a log line, a status
    and a dialog that carry the number of entries of the change set and
    the time elapsed since the start of the loop, and nothing else: no
    count of successes or of failures. *)
Theorem apply_report_total_and_time (files : list path) (w : world) :
  exists k,
    (ticks w < k)%nat
    /\ report (added w (performFilesUpdate files w)) =
       [AddLog (LogUpdateDone (List.length files)
                  (roundSecond (clock w k - clock w (ticks w))));
        SetStatus StUpdateDone;
        ShowMsg (MsgUpdated (List.length files))].
Proof.
  destruct (performFilesUpdate_trace files w) as [loop [tail [k [E [Hk [_ [_ [RL [_ [_ RT]]]]]]]]]].
  exists k. split; [exact Hk|].
  rewrite E, !report_app, RL, RT. reflexivity.
Qed.

(** C8 as stated fails: a run whose only entry fails and a run whose only
    entry is copied end with the same report. *)
Lemma apply_report_hides_failures :
  List.map isFailure
    (fileLogs (added worldLockedSource
                 (performFilesUpdate [["a.txt"%string]] worldLockedSource))) = [true]
  /\ List.map isFailure
       (fileLogs (added worldChanged
                    (performFilesUpdate [["a.txt"%string]] worldChanged))) = [false]
  /\ report (added worldLockedSource
               (performFilesUpdate [["a.txt"%string]] worldLockedSource))
     = report (added worldChanged (performFilesUpdate [["a.txt"%string]] worldChanged)).
Proof. repeat split. Qed.

(** C7, as amended. [performFilesUpdate] sets the bar to 0, then to
    (i+1)/total after each entry that was copied and to nothing after an
    entry that failed, then to 1; [doRestore] sets it to (i+1)/total after
    each file of the archive that was opened and read. The values set by
    either loop are strictly increasing; those of a whole
    [performFilesUpdate], with its 0 and its 1, never decrease. *)
Theorem progress_after_successes (files : list path) (w : world)
        (w2 : world) (zfiles : list zentry) (l : bool) :
  String.eqb (selected w2) EmptyString = false ->
  entry (selected w2) (backups w2) = Some (Zip zfiles l) ->
  progressOf (added w (performFilesUpdate files w)) =
    [0] ++ fractionsOf (List.length files) 0 (outcomes (source w) (target w) files) ++ [1]
  /\ progressOf (added w2 (doRestore w2)) =
     fractionsOf (List.length zfiles) 0 (List.map restoreLine zfiles)
  /\ fileLogs (added w2 (doRestore w2)) = List.map restoreLine zfiles
  /\ StronglySorted Qlt
       (fractionsOf (List.length files) 0 (outcomes (source w) (target w) files))
  /\ StronglySorted Qle (progressOf (added w (performFilesUpdate files w)))
  /\ StronglySorted Qlt (progressOf (added w2 (doRestore w2))).
Proof.
  intros Hs He.
  destruct (performFilesUpdate_trace files w) as [loop [tail [k [E [_ [_ [PL [_ [_ [PT _]]]]]]]]]].
  destruct (doRestore_trace w2 zfiles l Hs He) as [rl [rt [RE [RF [RP [RTF RTP]]]]]].
  assert (HR : progressOf (added w2 (doRestore w2)) =
               fractionsOf (List.length zfiles) 0 (List.map restoreLine zfiles)).
  { rewrite RE, !progressOf_app, RP, RTP. cbn. rewrite app_nil_r. reflexivity. }
  assert (HA : progressOf (added w (performFilesUpdate files w)) =
               [0] ++ fractionsOf (List.length files) 0
                        (outcomes (source w) (target w) files) ++ [1]).
  { rewrite E, !progressOf_app, PL, PT. reflexivity. }
  split; [exact HA|]. split; [exact HR|]. split; [|split; [|split]].
  - rewrite RE, !fileLogs_app, RF, RTF. cbn. rewrite app_nil_r. reflexivity.
  - apply fractionsOf_sorted.
  - rewrite HA. apply sorted_up_to_one; [apply fractionsOf_sorted|].
    eapply Forall_impl;
      [|apply (fractionsOf_range (List.length files)
                 (outcomes (source w) (target w) files) 0)].
    intros q [j [Hj ->]]. rewrite outcomes_length in Hj.
    split; [apply fraction_nonneg | apply fraction_le_1; lia].
  - rewrite HR. apply fractionsOf_sorted.
Qed.

(** The theorem of C7 on one copied entry and on a restore of one file. *)
Lemma progress_after_successes_witness :
  String.eqb (selected worldMutated) EmptyString = false
  /\ entry (selected worldMutated) (backups worldMutated)
     = Some (Zip (archive_of (target worldFour)) false)
  /\ progressOf (added worldChanged (performFilesUpdate [["a.txt"%string]] worldChanged))
     = [0; fraction 1 1; 1]
  /\ progressOf (added worldMutated (doRestore worldMutated)) = [fraction 1 1].
Proof.
  split; [reflexivity|]. split; [reflexivity|].
  destruct (progress_after_successes [["a.txt"%string]] worldChanged worldMutated
              (archive_of (target worldFour)) false eq_refl eq_refl)
    as [H1 [H2 _]].
  split; [rewrite H1 | rewrite H2]; reflexivity.
Defined.

(** C7 as stated fails: of two entries the first cannot be read and gets
    no fraction (1/2 is never set), and the bar is set to 2/2 and then to
    1, which is not an increase. *)
Lemma progress_skips_failed_entry :
  fileLogs (added worldChanged
              (performFilesUpdate [["missing.txt"%string]; ["a.txt"%string]] worldChanged))
  = [LogReadErr ["missing.txt"%string]; LogUpdated ["a.txt"%string]]
  /\ progressOf (added worldChanged
                   (performFilesUpdate [["missing.txt"%string]; ["a.txt"%string]] worldChanged))
     = [0; fraction 2 2; 1]
  /\ ~ StronglySorted Qlt
         (progressOf (added worldChanged
                        (performFilesUpdate [["missing.txt"%string]; ["a.txt"%string]]
                           worldChanged))).
Proof.
  split; [reflexivity|]. split; [reflexivity|].
  intros H. vm_compute in H.
  inversion H as [|? ? H1 _]; subst. inversion H1 as [|? ? _ H2]; subst.
  inversion H2 as [|? ? H3 _]; subst. vm_compute in H3. discriminate.
Qed.

(** ** The scan and its stop signal *)

Lemma found_no_SkipDir (store : option node) p d e s s' x :
  Scan.found store p d e s = (s', Some x) -> is_SkipDir x = false.
Proof.
  unfold Scan.found. destruct s as [stop r]. destruct (Scan.poll stop) as [[|] stop'].
  - intros H. inversion H. reflexivity.
  - destruct e; [discriminate|]. destruct d as [n|]; [|discriminate].
    destruct (IsDir n); [discriminate|].
    destruct (_ && _); discriminate.
Qed.

Lemma found_running (store : option node) p d e (r : list Scan.FileInfo) :
  Scan.found store p d e (None, r) = ((None, r ++ Scan.hit store (p, d, e)), None).
Proof.
  unfold Scan.found, Scan.hit. cbn [Scan.poll].
  destruct d as [n|]; destruct e; try (rewrite app_nil_r; reflexivity).
  destruct (IsDir n); [rewrite app_nil_r; reflexivity|].
  destruct (_ && _); [reflexivity | rewrite app_nil_r; reflexivity].
Qed.

Lemma found_before_stop (store : option node) p d e (k : nat) (r : list Scan.FileInfo) :
  Scan.found store p d e (Some (S k), r) = ((Some k, r ++ Scan.hit store (p, d, e)), None).
Proof.
  unfold Scan.found, Scan.hit. cbn [Scan.poll].
  destruct d as [n|]; destruct e; try (rewrite app_nil_r; reflexivity).
  destruct (IsDir n); [rewrite app_nil_r; reflexivity|].
  destruct (_ && _); [reflexivity | rewrite app_nil_r; reflexivity].
Qed.

Lemma run_found_never (store : option node) (calls : list call) :
  forall r, run (Scan.found store) calls (None, r)
            = ((None, r ++ flat_map (Scan.hit store) calls), None).
Proof.
  induction calls as [|[[p d] e] calls IH]; intros r.
  - simpl. rewrite app_nil_r. reflexivity.
  - cbn [run flat_map]. rewrite found_running, IH, <- app_assoc. reflexivity.
Qed.

Lemma run_found_stop (store : option node) (calls : list call) :
  forall k r,
    fst (run (Scan.found store) calls (Some k, r))
    = (Some (k - List.length calls)%nat, r ++ flat_map (Scan.hit store) (firstn k calls)).
Proof.
  induction calls as [|[[p d] e] calls IH]; intros k r.
  - simpl. rewrite firstn_nil, app_nil_r, Nat.sub_0_r. reflexivity.
  - destruct k as [|k].
    + cbn. rewrite app_nil_r. reflexivity.
    + cbn [run]. rewrite found_before_stop, IH.
      cbn [firstn flat_map List.length Nat.sub]. rewrite <- app_assoc. reflexivity.
Qed.

Lemma scanRoot_eq (store : option node) (p : path) (s : Scan.stopchan * list Scan.FileInfo) :
  Scan.scanRoot store p s =
  fst (run (Scan.found store)
           match store with
           | Some t => match Stat t p with Some d => walkCalls p d | None => [] end
           | None => []
           end s).
Proof.
  unfold Scan.scanRoot. destruct store as [t|]; [|reflexivity].
  destruct (Stat t p) as [d|]; [|reflexivity].
  rewrite (walk_run _ (Scan.found (Some t)) (found_no_SkipDir (Some t))).
  destruct (run _ _ s). reflexivity.
Qed.

(** C6, as amended. A scan whose stop channel is found closed at the
    [k]-th call of its callback returns the hidden [ipcas2.ini] files among
    the [k] entries visited before, not an empty result, and the scan tab
    shows them as its file list. ([getFilesToUpdate] takes no stop
    signal.) *)
Theorem scan_stop_keeps_collected (store : option node) (k : nat) :
  Scan.scanFiles store (Some k)
  = flat_map (Scan.hit store) (firstn k (Scan.scanCalls store))
  /\ Scan.scanFiles store None = flat_map (Scan.hit store) (Scan.scanCalls store)
  /\ Scan.files (Scan.scanBtn store (Some k) Scan.idle)
     = List.map (fun f => Scan.mkFileItem f false) (Scan.scanFiles store (Some k)).
Proof.
  split; [|split].
  - unfold Scan.scanFiles, Scan.scanCalls. rewrite !scanRoot_eq.
    destruct store as [t|]; [|destruct k; reflexivity].
    change (Stat t []) with (Some t).
    rewrite run_found_stop. cbn [app].
    rewrite run_found_stop. cbn [snd]. rewrite firstn_app, flat_map_app. reflexivity.
  - unfold Scan.scanFiles, Scan.scanCalls. rewrite !scanRoot_eq.
    destruct store as [t|]; [|reflexivity].
    change (Stat t []) with (Some t).
    rewrite run_found_never. cbn [fst app]. rewrite run_found_never. cbn [fst snd].
    rewrite flat_map_app. reflexivity.
  - unfold Scan.scanBtn, Scan.scanDone. cbn [Scan.scanning Scan.idle].
    destruct (List.map _ (Scan.scanFiles store (Some k))); reflexivity.
Qed.

(** C6 as stated fails: stopped after the first file, the scan returns
    that file and the tab shows it under the status of a finished scan. *)
Lemma scan_stop_returns_partial :
  Scan.scanFiles Scan.sampleStore (Some 2%nat)
  = [Scan.mkFileInfo ["Windows"%string; "ipcas2.ini"%string] 2]
  /\ List.length (Scan.scanFiles Scan.sampleStore None) = 3%nat
  /\ Scan.scanBtn Scan.sampleStore (Some 2%nat) Scan.idle
     = Scan.mkTab
         [Scan.mkFileItem (Scan.mkFileInfo ["Windows"%string; "ipcas2.ini"%string] 2) false]
         false Scan.Done (Some 1%nat).
Proof. repeat split. Qed.

(** * Further properties of the update tab *)

(** ** What the apply loop does to the target tree *)

Lemma target_updateLoop (total : nat) (t0 : Z) (rest : list path) :
  forall i w,
    target (updateLoop total t0 i rest w) = applyAll (source w) (target w) rest.
Proof.
  induction rest as [|p rest IH]; intros i w; [reflexivity|].
  cbn [updateLoop]. rewrite IH.
  destruct (updateFile_step total t0 i p w) as [evs [S [Ht _]]].
  rewrite (step_source S), Ht. reflexivity.
Qed.

Lemma target_refreshBackups (w : world) : target (refreshBackups w) = target w.
Proof. unfold refreshBackups. destruct (listBackups w); reflexivity. Qed.

Lemma source_emits (es : list event) (w : world) : source (emits es w) = source w.
Proof. exact (step_source (step_emits es w)). Qed.

Lemma backups_emits (es : list event) (w : world) : backups (emits es w) = backups w.
Proof. exact (step_backups (step_emits es w)). Qed.

Lemma target_performFilesUpdate (files : list path) (w : world) :
  target (performFilesUpdate files w) = applyAll (source w) (target w) files.
Proof.
  unfold performFilesUpdate, killIPCAS, timeNow, timeSince, timeNow, addLog.
  cbn [target emit]. rewrite target_launchIPCAS, target_refreshBackups.
  cbn [target emit]. rewrite target_emits, target_updateLoop.
  cbn [target source]. rewrite !target_emits, !source_emits. reflexivity.
Qed.

Lemma performFilesUpdate_step (files : list path) (w : world) :
  exists evs, step_of w (performFilesUpdate files w) evs.
Proof.
  unfold performFilesUpdate, killIPCAS, timeSince, timeNow, addLog. cbv beta iota zeta.
  set (w1 := emits [ProgressShow; SetValue 0] (emits [Taskkill; AddLog LogKilled; Sleep500] w)).
  assert (S1 : step_of w w1 ([Taskkill; AddLog LogKilled; Sleep500] ++ [ProgressShow; SetValue 0]))
    by (eapply step_trans; apply step_emits).
  pose proof (step_tick w1) as S2.
  set (w2 := mkWorld (source w1) (target w1) (backups w1) (selected w1) (ui w1) (reads w1)
                     (clock w1) (S (ticks w1))) in *.
  destruct (updateLoop_step (List.length files) (clock w1 (ticks w1)) files 0 w2)
    as [loop [SL _]].
  set (w3 := updateLoop (List.length files) (clock w1 (ticks w1)) 0 files w2) in *.
  pose proof (step_emits [SetValue 1; ProgressHide] w3) as S4.
  set (w4 := emits [SetValue 1; ProgressHide] w3) in *.
  pose proof (step_tick w4) as S5.
  set (w5 := mkWorld (source w4) (target w4) (backups w4) (selected w4) (ui w4) (reads w4)
                     (clock w4) (S (ticks w4))) in *.
  set (m := AddLog (LogUpdateDone (List.length files)
                      (roundSecond (clock w4 (ticks w4) - clock w1 (ticks w1))))).
  assert (S6 : step_of w5 (emit (SetStatus StUpdateDone) (emit m w5))
                 ([m] ++ [SetStatus StUpdateDone]))
    by (eapply step_trans; apply step_emit).
  set (w6 := emit (SetStatus StUpdateDone) (emit m w5)) in *.
  pose proof (step_refreshBackups w6) as S7.
  destruct (launchIPCAS_step (refreshBackups w6)) as [le [S8 _]].
  pose proof (step_emit (ShowMsg (MsgUpdated (List.length files)))
                (launchIPCAS (refreshBackups w6))) as S9.
  eexists.
  exact (step_trans _ _ _ _ _ S1 (step_trans _ _ _ _ _ S2 (step_trans _ _ _ _ _ SL
          (step_trans _ _ _ _ _ S4 (step_trans _ _ _ _ _ S5 (step_trans _ _ _ _ _ S6
          (step_trans _ _ _ _ _ S7 (step_trans _ _ _ _ _ S8 S9)))))))).
Qed.

Lemma performFilesUpdate_fileLogs (files : list path) (w : world) :
  fileLogs (added w (performFilesUpdate files w)) = outcomes (source w) (target w) files.
Proof.
  destruct (performFilesUpdate_trace files w)
    as [loop [tail [k [E [_ [FL [_ [_ [FT _]]]]]]]]].
  rewrite E, !fileLogs_app, FL, FT. cbn. rewrite app_nil_r. reflexivity.
Qed.

Lemma fileLogs_In (m : logmsg) (evs : list event) :
  In m (fileLogs evs) <-> In (AddLog m) evs /\ subject m <> None.
Proof.
  unfold fileLogs. rewrite in_flat_map. split.
  - intros [e [He Hm]]. destruct e as [m0| | | | | | | | |]; try contradiction.
    destruct (subject m0) eqn:Es; [|contradiction].
    simpl in Hm. destruct Hm as [Hm|[]]. subst m0. split; [exact He | congruence].
  - intros [He Hs]. exists (AddLog m). split; [exact He|].
    destruct (subject m); [left; reflexivity | congruence].
Qed.

(** ** Writing one file, seen from any path *)

Lemma lookup_MkdirAll (q : path) :
  forall t pp t',
    MkdirAll t pp = Some t' -> ~ prefix_of q pp -> lookup t' q = lookup t q.
Proof.
  induction q as [|c q IH]; intros t pp t' Hm Hp.
  - exfalso. apply Hp. exists pp. reflexivity.
  - destruct t as [|es ok]; [destruct pp; discriminate|].
    destruct pp as [|c2 pp]; simpl in Hm; [inversion Hm; reflexivity|].
    destruct (MkdirAll match entry c2 es with Some x0 => x0 | None => Dir [] true end pp)
      as [sub'|] eqn:Es; [|discriminate].
    inversion Hm; subst. simpl. rewrite entry_putEntry.
    destruct (String.eqb_spec c2 c) as [->|Hne]; [|reflexivity].
    assert (Hq : ~ prefix_of q pp) by (intros H; apply Hp; apply prefix_of_cons; exact H).
    rewrite (IH _ _ _ Es Hq).
    destruct (entry c es) as [x|]; [reflexivity|].
    destruct q as [|c3 q]; [exfalso; apply Hq; exists pp; reflexivity | reflexivity].
Qed.

Lemma lookup_WriteFile (q : path) :
  forall t p t' d,
    WriteFile t p d = Some t' -> ~ prefix_of q p -> lookup t' q = lookup t q.
Proof.
  induction q as [|c q IH]; intros t p t' d Hw Hp.
  - exfalso. apply Hp. exists p. reflexivity.
  - destruct p as [|c2 p].
    + destruct t as [d0 a|es ok]; simpl in Hw; [|discriminate].
      destruct (writable a); [|discriminate]. inversion Hw; reflexivity.
    + destruct t as [|es ok]; [discriminate|]. simpl in Hw.
      assert (Hq : c2 = c -> ~ prefix_of q p).
      { intros -> H. apply Hp. apply prefix_of_cons. exact H. }
      destruct (entry c2 es) as [y|] eqn:Ec2.
      * destruct (WriteFile y p d) as [y'|] eqn:Ey; [|discriminate].
        inversion Hw; subst. simpl. rewrite entry_putEntry.
        destruct (String.eqb_spec c2 c) as [->|Hc]; [|reflexivity].
        rewrite Ec2. eapply IH; [exact Ey | auto].
      * destruct p; [|discriminate]. inversion Hw; subst. simpl. rewrite entry_putEntry.
        destruct (String.eqb_spec c2 c) as [->|Hc]; [|reflexivity].
        rewrite Ec2. destruct q as [|c3 q]; [|reflexivity].
        exfalso. apply (Hq eq_refl). exists []. reflexivity.
Qed.

Lemma WriteFile_lookup (p : path) :
  forall t t' d,
    WriteFile t p d = Some t' ->
    exists a', lookup t' p = Some (File d a')
               /\ forall d0 a, lookup t p = Some (File d0 a) -> a' = a.
Proof.
  induction p as [|c p IH]; intros t t' d Hw.
  - destruct t as [d0 a|es ok]; simpl in Hw; [|discriminate].
    destruct (writable a); [|discriminate]. inversion Hw; subst.
    exists a. split; [reflexivity|]. intros d1 a1 H. simpl in H. congruence.
  - destruct t as [|es ok]; [discriminate|]. simpl in Hw.
    destruct (entry c es) as [y|] eqn:Ec.
    + destruct (WriteFile y p d) as [y'|] eqn:Ey; [|discriminate].
      inversion Hw; subst. simpl. rewrite entry_putEntry_same, Ec.
      exact (IH _ _ _ Ey).
    + destruct p; [|discriminate]. inversion Hw; subst. simpl.
      rewrite entry_putEntry_same, Ec. exists plain. split; [reflexivity|]. discriminate.
Qed.

(** One turn of the loop keeps every file of the target: its attributes
    stay, and its bytes change only when the turn is about it and logs
    that it was updated, to the bytes read from the source. *)
Lemma file_stays_applyStep (src : option node) (t : node) (p q : path)
      (d : list byte) (a : attrs) :
  lookup t q = Some (File d a) ->
  exists d', lookup (fst (applyStep src t p)) q = Some (File d' a)
             /\ (d' = d
                 \/ (q = p /\ snd (applyStep src t p) = LogUpdated p
                     /\ readSource src p = Some d')).
Proof.
  intros Hl. unfold applyStep, readSource.
  set (t1 := match MkdirAll t (parent p) with Some t' => t' | None => t end).
  assert (H1 : lookup t1 q = Some (File d a)).
  { subst t1. destruct (MkdirAll t (parent p)) eqn:E; [|exact Hl].
    eapply file_survives_MkdirAll; eassumption. }
  destruct (match src with Some s => ReadFile s p | None => None end) as [data|] eqn:Er;
    cbn [fst snd]; [|exists d; auto].
  destruct (WriteFile t1 p data) as [t2|] eqn:Ew; cbn [fst snd]; [|exists d; auto].
  destruct (list_eq_dec string_dec q p) as [->|Hne].
  - destruct (WriteFile_lookup _ _ _ _ Ew) as [a' [Hl' Ha]].
    rewrite (Ha _ _ H1) in Hl'. exists data. split; [exact Hl' | right; auto].
  - exists d. split; [|left; reflexivity].
    eapply file_survives_WriteFile; eassumption.
Qed.

Lemma file_stays_applyAll (src : option node) (q : path) (a : attrs) (files : list path) :
  forall t d,
    lookup t q = Some (File d a) ->
    exists d', lookup (applyAll src t files) q = Some (File d' a)
               /\ (d' = d
                   \/ (In (LogUpdated q) (outcomes src t files)
                       /\ readSource src q = Some d')).
Proof.
  induction files as [|p files IH]; intros t d Hl.
  - exists d. auto.
  - cbn [applyAll fold_left outcomes].
    destruct (file_stays_applyStep src t p q d a Hl) as [d1 [H1 Hd1]].
    destruct (IH _ _ H1) as [d2 [H2 Hd2]].
    exists d2. split; [exact H2|].
    destruct Hd2 as [->|[Hin Hr]].
    + destruct Hd1 as [->|[-> [Hs Hr]]]; [left; reflexivity|].
      right. split; [left; exact Hs | exact Hr].
    + right. split; [right; exact Hin | exact Hr].
Qed.

Lemma updated_applyAll (src : option node) (p : path) (files : list path) :
  forall t,
    In (LogUpdated p) (outcomes src t files) ->
    exists data a',
      readSource src p = Some data
      /\ lookup (applyAll src t files) p = Some (File data a').
Proof.
  induction files as [|p0 files IH]; intros t Hin; [contradiction|].
  cbn [outcomes] in Hin. cbn [applyAll fold_left].
  destruct Hin as [Hs|Hin]; [|exact (IH _ Hin)].
  assert (Hw : p0 = p /\ exists data, readSource src p = Some data
               /\ exists a', lookup (fst (applyStep src t p0)) p = Some (File data a')).
  { revert Hs. unfold applyStep, readSource.
    destruct (match src with Some s => ReadFile s p0 | None => None end) as [data|] eqn:Er;
      cbn [snd fst]; [|discriminate].
    destruct (WriteFile _ p0 data) as [t2|] eqn:Ew; cbn [snd fst]; [|discriminate].
    intros E. inversion E; subst p0. split; [reflexivity|].
    exists data. split; [exact Er|].
    destruct (WriteFile_lookup _ _ _ _ Ew) as [a' [Hl _]]. exists a'. exact Hl. }
  destruct Hw as [-> [data [Hrd [a' Hl]]]].
  destruct (file_stays_applyAll src p a' files _ _ Hl) as [d2 [H2 Hd2]].
  exists data, a'. split; [exact Hrd|].
  destruct Hd2 as [->|[_ Hr2]]; [exact H2|].
  rewrite Hrd in Hr2. inversion Hr2; subst. exact H2.
Qed.

Lemma lookup_applyStep (src : option node) (t : node) (p q : path) :
  ~ prefix_of q p -> lookup (fst (applyStep src t p)) q = lookup t q.
Proof.
  intros Hp. unfold applyStep.
  set (t1 := match MkdirAll t (parent p) with Some t' => t' | None => t end).
  assert (H1 : lookup t1 q = lookup t q).
  { subst t1. destruct (MkdirAll t (parent p)) eqn:E; [|reflexivity].
    eapply lookup_MkdirAll; [exact E|]. intros H. apply Hp. apply prefix_of_parent. exact H. }
  destruct (match src with Some s => ReadFile s p | None => None end) as [data|];
    cbn [fst]; [|exact H1].
  destruct (WriteFile t1 p data) as [t2|] eqn:Ew; cbn [fst]; [|exact H1].
  rewrite (lookup_WriteFile q _ _ _ _ Ew Hp). exact H1.
Qed.

Lemma lookup_applyAll (src : option node) (q : path) (files : list path) :
  forall t,
    (forall p, In p files -> ~ prefix_of q p) ->
    lookup (applyAll src t files) q = lookup t q.
Proof.
  induction files as [|p files IH]; intros t H; [reflexivity|].
  cbn [applyAll fold_left]. fold (applyAll src (fst (applyStep src t p)) files).
  rewrite IH by (intros p' Hp'; apply H; right; exact Hp').
  apply lookup_applyStep. apply H. left; reflexivity.
Qed.

Lemma outcomes_In (src : option node) (p : path) (files : list path) :
  forall t,
    In p files ->
    In (LogReadErr p) (outcomes src t files)
    \/ In (LogWriteErr p) (outcomes src t files)
    \/ In (LogUpdated p) (outcomes src t files).
Proof.
  induction files as [|p0 files IH]; intros t Hin; [contradiction|].
  cbn [outcomes]. destruct Hin as [->|Hin].
  - unfold applyStep at 1 3 5.
    destruct (match src with Some s => ReadFile s p | None => None end) as [data|];
      cbn [snd]; [|left; left; reflexivity].
    destruct (WriteFile _ p data); cbn [snd];
      [right; right; left; reflexivity | right; left; left; reflexivity].
  - destruct (IH (fst (applyStep src t p0)) Hin) as [H|[H|H]];
      [left | right; left | right; right]; right; exact H.
Qed.

Lemma stale_ext (md5Sum : list byte -> digest) (w w' : world) (e : path * node) :
  source w' = source w ->
  lookup (target w') (fst e) = lookup (target w) (fst e) ->
  stale md5Sum w' e = stale md5Sum w e.
Proof.
  intros Hs Hl. unfold stale, Stat, hashOf, ReadFile. rewrite Hs, Hl. reflexivity.
Qed.

Lemma In_outcomes_trace (m : logmsg) (files : list path) (w : world) :
  In m (outcomes (source w) (target w) files) ->
  In (AddLog m) (added w (performFilesUpdate files w)).
Proof.
  intros H. rewrite <- performFilesUpdate_fileLogs in H.
  apply fileLogs_In in H. tauto.
Qed.

Lemma outcomes_app (src : option node) (l1 l2 : list path) :
  forall t,
    outcomes src t (l1 ++ l2) = outcomes src t l1 ++ outcomes src (applyAll src t l1) l2.
Proof.
  induction l1 as [|p l1 IH]; intros t; [reflexivity|].
  cbn [app outcomes applyAll fold_left]. rewrite IH. reflexivity.
Qed.

Lemma applyAll_app (src : option node) (t : node) (l1 l2 : list path) :
  applyAll src t (l1 ++ l2) = applyAll src (applyAll src t l1) l2.
Proof. unfold applyAll. apply fold_left_app. Qed.

Lemma creatable_applyStep (src : option node) (t : node) (p q : path) :
  creatable t p = true -> ~ prefix_of p q -> ~ prefix_of q p ->
  creatable (fst (applyStep src t q)) p = true.
Proof.
  intros Hc H1 H2. unfold applyStep.
  set (t1 := match MkdirAll t (parent q) with Some t' => t' | None => t end).
  assert (Hc1 : creatable t1 p = true).
  { subst t1. destruct (MkdirAll t (parent q)) as [t'|] eqn:E; [|exact Hc].
    eapply creatable_MkdirAll; [exact Hc | | exact E].
    intros H. apply H1. apply prefix_of_parent. exact H. }
  destruct (match src with Some s => ReadFile s q | None => None end) as [data|];
    cbn [fst]; [|exact Hc1].
  destruct (WriteFile t1 q data) as [t2|] eqn:Ew; cbn [fst]; [|exact Hc1].
  eapply creatable_WriteFile; eassumption.
Qed.

Lemma creatable_applyAll (src : option node) (p : path) (files : list path) :
  forall t,
    creatable t p = true ->
    (forall q, In q files -> ~ prefix_of p q /\ ~ prefix_of q p) ->
    creatable (applyAll src t files) p = true.
Proof.
  induction files as [|q files IH]; intros t Hc H; [exact Hc|].
  cbn [applyAll fold_left]. fold (applyAll src (fst (applyStep src t q)) files).
  apply IH.
  - destruct (H q (or_introl eq_refl)) as [H1 H2]. apply creatable_applyStep; assumption.
  - intros q' Hq'. apply H. right; exact Hq'.
Qed.

(** A turn of the loop on an entry that can be read and written copies
    it. *)
Lemma applyStep_writes (src : option node) (t : node) (p : path) (data : list byte) :
  creatable t p = true -> readSource src p = Some data ->
  snd (applyStep src t p) = LogUpdated p
  /\ exists a', lookup (fst (applyStep src t p)) p = Some (File data a').
Proof.
  intros Hc Hr. unfold applyStep. unfold readSource in Hr. rewrite Hr.
  destruct (write_after_mkdir p t data Hc) as [t2 [a' [Hw [Hl _]]]].
  rewrite Hw. cbn [fst snd]. split; [reflexivity|]. exists a'. exact Hl.
Qed.

(** C5. [performFilesUpdate] goes through the whole change set, whatever
    fails on the way. Every entry gets its line in the log, in order: a
    read failure its ["Lỗi đọc"] line, a write failure its ["Lỗi ghi"]
    line, a copy its ["Cập nhật"] line; the lines that report a read
    failure are those of the entries the source cannot give. The
    operation always reaches its final status and never reports an error
    of the whole. The target tree is, at the end, what the turns of the
    loop on all the entries, one after the other, make of it; and an entry
    that can be read on the source and written in the target is copied
    and logged as updated whatever happened to the entries before it,
    each of which may have failed: it has the bytes of the source when
    the loop has ended. *)
Theorem apply_logs_failures_and_goes_on (files : list path) (w : world) :
  let w' := performFilesUpdate files w in
  let evs := added w w' in
  fileLogs evs = outcomes (source w) (target w) files
  /\ List.map subject (fileLogs evs) = List.map Some files
  /\ List.map isReadErr (fileLogs evs) = List.map (unreadableIn (source w)) files
  /\ In (SetStatus StUpdateDone) evs
  /\ existsb isConnError evs = false
  /\ target w' = applyAll (source w) (target w) files
  /\ (forall before p after data,
         files = before ++ p :: after ->
         readSource (source w) p = Some data ->
         creatable (target w) p = true ->
         (forall q, In q before -> ~ prefix_of p q /\ ~ prefix_of q p) ->
         In (AddLog (LogUpdated p)) evs
         /\ exists a', lookup (target w') p = Some (File data a')).
Proof.
  cbv zeta.
  destruct (performFilesUpdate_trace files w) as [loop [tail [k [E [_ [FL [_ [_ [FT _]]]]]]]]].
  assert (HF : fileLogs (added w (performFilesUpdate files w))
               = outcomes (source w) (target w) files).
  { rewrite E, !fileLogs_app, FL, FT. cbn. rewrite app_nil_r. reflexivity. }
  split; [exact HF|]. split; [rewrite HF; apply outcomes_subject|].
  split; [rewrite HF; apply outcomes_read_errors|]. split.
  { rewrite E. apply in_or_app. right. apply in_or_app. right.
    apply in_or_app. left. simpl. auto. }
  split; [apply calm_added, calm_performFilesUpdate_r, calm_refl|].
  (* the target tree *)
  assert (HT : target (performFilesUpdate files w) = applyAll (source w) (target w) files).
  { unfold performFilesUpdate, killIPCAS, timeNow, timeSince, timeNow, addLog.
    cbn [target emit]. rewrite target_launchIPCAS, target_refreshBackups.
    cbn [target emit]. rewrite target_emits, target_updateLoop.
    cbn [target source]. rewrite !target_emits, !source_emits. reflexivity. }
  split; [exact HT|].
  intros before p after data Hfiles Hread Hcr Hbefore.
  set (tb := applyAll (source w) (target w) before).
  assert (Hcb : creatable tb p = true) by (apply creatable_applyAll; assumption).
  destruct (applyStep_writes (source w) tb p data Hcb Hread) as [Hlog [a' Hl]].
  split.
  - assert (Hin : In (LogUpdated p) (outcomes (source w) (target w) files)).
    { rewrite Hfiles, outcomes_app. apply in_or_app. right. cbn [outcomes].
      left. exact Hlog. }
    rewrite <- HF in Hin. unfold fileLogs in Hin. apply in_flat_map in Hin.
    destruct Hin as [e [He Hm]].
    destruct e as [m0| | | | | | | | |]; try contradiction.
    destruct (subject m0); [|contradiction].
    destruct Hm as [Hm|[]]. subst m0. exact He.
  - rewrite HT, Hfiles, applyAll_app. cbn [applyAll fold_left].
    fold (applyAll (source w) (target w) before). fold tb.
    fold (applyAll (source w) (fst (applyStep (source w) tb p)) after).
    destruct (file_stays_applyAll (source w) p a' after _ _ Hl) as [d' [H2 Hd']].
    exists a'. destruct Hd' as [->|[_ Hr2]]; [exact H2|].
    rewrite Hread in Hr2. inversion Hr2; subst. exact H2.
Qed.

(** The theorem of C5 on the change set of [worldTwo], two entries in
    the order of the walk: [a.txt] cannot be read, and [b.txt], the next
    entry, is copied. *)
Lemma apply_logs_failures_and_goes_on_witness :
  snd (fst (getFilesToUpdate sampleSum worldTwo)) = [["a.txt"%string]; ["b.txt"%string]]
  /\ fileLogs (added worldTwo
              (performFilesUpdate [["a.txt"%string]; ["b.txt"%string]] worldTwo))
  = [LogReadErr ["a.txt"%string]; LogUpdated ["b.txt"%string]]
  /\ lookup (target (performFilesUpdate [["a.txt"%string]; ["b.txt"%string]] worldTwo))
            ["a.txt"%string] = None
  /\ In (AddLog (LogUpdated ["b.txt"%string]))
        (added worldTwo (performFilesUpdate [["a.txt"%string]; ["b.txt"%string]] worldTwo))
  /\ exists a',
       lookup (target (performFilesUpdate [["a.txt"%string]; ["b.txt"%string]] worldTwo))
              ["b.txt"%string] = Some (File [x32] a').
Proof.
  destruct (apply_logs_failures_and_goes_on [["a.txt"%string]; ["b.txt"%string]] worldTwo)
    as [HF [_ [_ [_ [_ [HT Hgo]]]]]].
  split; [reflexivity|].
  split; [rewrite HF; reflexivity|]. split; [rewrite HT; reflexivity|].
  apply (Hgo [["a.txt"%string]] ["b.txt"%string] [] [x32]); try reflexivity.
  intros q [<-|[]]. split; intros [r Hr]; discriminate.
Defined.

(** ** The apply loop and the files of the target *)

(** X1. [performFilesUpdate] removes no file: whatever the change set,
    every regular file of the target is a regular file with the same
    attributes afterwards; its bytes are the ones it had, unless the log
    says that the file was updated, and then they are the bytes read
    from the source file of the same path. *)
Theorem apply_removes_no_file (files : list path) (w : world) (q : path)
        (d : list byte) (a : attrs) :
  lookup (target w) q = Some (File d a) ->
  exists d',
    lookup (target (performFilesUpdate files w)) q = Some (File d' a)
    /\ (d' = d
        \/ (In (AddLog (LogUpdated q)) (added w (performFilesUpdate files w))
            /\ readSource (source w) q = Some d')).
Proof.
  intros Hl. rewrite target_performFilesUpdate.
  destruct (file_stays_applyAll (source w) q a files _ _ Hl) as [d' [H1 H2]].
  exists d'. split; [exact H1|].
  destruct H2 as [->|[Hin Hr]]; [left; reflexivity|].
  right. split; [apply In_outcomes_trace; exact Hin | exact Hr].
Qed.

Lemma apply_removes_no_file_witness :
  lookup (target worldChanged) ["a.txt"%string] = Some (File [x32] plain)
  /\ exists d',
       lookup (target (performFilesUpdate [["a.txt"%string]] worldChanged)) ["a.txt"%string]
       = Some (File d' plain)
       /\ (d' = [x32]
           \/ (In (AddLog (LogUpdated ["a.txt"%string]))
                  (added worldChanged (performFilesUpdate [["a.txt"%string]] worldChanged))
               /\ readSource (source worldChanged) ["a.txt"%string] = Some d')).
Proof.
  split; [reflexivity|].
  apply (apply_removes_no_file [["a.txt"%string]] worldChanged ["a.txt"%string] [x32] plain).
  reflexivity.
Defined.

(** X2. Every file the log of [performFilesUpdate] reports as updated
    can be read on the source, and when the loop has ended the target
    holds a regular file at that path with exactly the bytes read from the
    source, whatever the later turns of the loop did. *)
Theorem updated_file_has_source_bytes (files : list path) (w : world) (p : path) :
  In (AddLog (LogUpdated p)) (added w (performFilesUpdate files w)) ->
  exists data a',
    readSource (source w) p = Some data
    /\ lookup (target (performFilesUpdate files w)) p = Some (File data a').
Proof.
  intros Hin. rewrite target_performFilesUpdate.
  apply updated_applyAll.
  rewrite <- performFilesUpdate_fileLogs. apply fileLogs_In.
  split; [exact Hin | discriminate].
Qed.

Lemma updated_file_has_source_bytes_witness :
  In (AddLog (LogUpdated ["a.txt"%string]))
     (added worldChanged (performFilesUpdate [["a.txt"%string]] worldChanged))
  /\ exists data a',
       readSource (source worldChanged) ["a.txt"%string] = Some data
       /\ lookup (target (performFilesUpdate [["a.txt"%string]] worldChanged)) ["a.txt"%string]
          = Some (File data a').
Proof.
  assert (H : In (AddLog (LogUpdated ["a.txt"%string]))
                (added worldChanged (performFilesUpdate [["a.txt"%string]] worldChanged))).
  { vm_compute. do 5 right. left. reflexivity. }
  split; [exact H|].
  exact (updated_file_has_source_bytes [["a.txt"%string]] worldChanged ["a.txt"%string] H).
Defined.

(** ** Checking again after an update *)

(** A world that went through [getFilesToUpdate] differs by the files
    read only. *)
Lemma getFilesToUpdate_world (md5Sum : list byte -> digest) (w : world) :
  source (fst (fst (getFilesToUpdate md5Sum w))) = source w
  /\ target (fst (fst (getFilesToUpdate md5Sum w))) = target w
  /\ backups (fst (fst (getFilesToUpdate md5Sum w))) = backups w
  /\ selected (fst (fst (getFilesToUpdate md5Sum w))) = selected w
  /\ ui (fst (fst (getFilesToUpdate md5Sum w))) = ui w.
Proof.
  rewrite getFilesToUpdate_eq. destruct (source w) eqn:E; cbn; auto.
Qed.

(** X3. Check, apply the change set, check again: the second check lists
    only files whose copy failed in between, with a read or a write error
    in the log. After an update without such an error the two trees
    compare as equal. *)
Theorem recheck_after_apply (md5Sum : list byte -> digest) (w w1 : world) (src : node)
        (files : list path) (p : path) :
  source w = Some src -> wf src = true ->
  getFilesToUpdate md5Sum w = (w1, files, None) ->
  In p (snd (fst (getFilesToUpdate md5Sum (performFilesUpdate files w1)))) ->
  In (AddLog (LogReadErr p)) (added w1 (performFilesUpdate files w1))
  \/ In (AddLog (LogWriteErr p)) (added w1 (performFilesUpdate files w1)).
Proof.
  intros Hsrc Hwf Hg Hin.
  pose proof (getFilesToUpdate_world md5Sum w) as [Hs1 [Ht1 _]].
  assert (Hfiles : files = List.map fst (List.filter (stale md5Sum w) (files_of src))).
  { rewrite getFilesToUpdate_eq, Hsrc in Hg. inversion Hg. reflexivity. }
  rewrite Hg in Hs1, Ht1. cbn [fst] in Hs1, Ht1.
  set (wF := performFilesUpdate files w1) in *.
  assert (HsF : source wF = Some src).
  { destruct (performFilesUpdate_step files w1) as [evs S].
    fold wF in S. rewrite (step_source S), Hs1. exact Hsrc. }
  assert (HtF : target wF = applyAll (Some src) (target w) files).
  { unfold wF. rewrite target_performFilesUpdate, Hs1, Hsrc, Ht1. reflexivity. }
  rewrite getFilesToUpdate_eq, HsF in Hin. cbn [fst snd] in Hin.
  apply In_map_filter in Hin. destruct Hin as [[p' n] [Hn [Hst Hp]]].
  cbn [fst] in Hp. subst p'.
  pose proof Hn as Hn'. apply (files_of_lookup _ _ _ Hwf) in Hn'. destruct Hn' as [Hl Hd].
  destruct n as [data a|]; [|discriminate].
  assert (Hout : forall m, In m (outcomes (Some src) (target w) files) ->
                           In (AddLog m) (added w1 wF)).
  { intros m Hm. apply In_outcomes_trace. rewrite Hs1, Hsrc, Ht1. exact Hm. }
  assert (Hup : ~ In (LogUpdated p) (outcomes (Some src) (target w) files)).
  { intros Hu. destruct (updated_applyAll _ _ _ _ Hu) as [data' [a' [Hr Hl']]].
    cbn [readSource] in Hr. unfold ReadFile in Hr. rewrite Hl in Hr.
    destruct (readable a) eqn:Era; [|discriminate]. inversion Hr; subst data'.
    revert Hst. unfold stale, Stat, hashOf. cbn [fst snd]. rewrite HsF, HtF, Hl'.
    cbn [Size]. rewrite Z.eqb_refl. cbn [negb].
    unfold ReadFile. rewrite Hl, Hl', Era.
    destruct (readable a').
    + rewrite String.eqb_refl, !andb_false_r. discriminate.
    + rewrite andb_false_r. discriminate. }
  destruct (in_dec (list_eq_dec string_dec) p files) as [Hpf|Hpf].
  - destruct (outcomes_In (Some src) p files (target w) Hpf) as [H|[H|H]];
      [left; apply Hout; exact H | right; apply Hout; exact H | contradiction].
  - exfalso.
    assert (Hold : stale md5Sum w (p, File data a) = false).
    { destruct (stale md5Sum w (p, File data a)) eqn:E; [|reflexivity].
      exfalso. apply Hpf. rewrite Hfiles. apply In_map_filter.
      exists (p, File data a). auto. }
    rewrite (stale_ext md5Sum w wF) in Hst; [congruence | congruence |].
    cbn [fst]. rewrite HtF. apply lookup_applyAll.
    intros p' Hp' Hpre. apply Hpf.
    pose proof Hp' as Hp2. rewrite Hfiles in Hp2. apply In_map_filter in Hp2.
    destruct Hp2 as [[p2 n2] [Hn2 [_ E2]]]. cbn [fst] in E2. subst p2.
    apply (files_of_lookup _ _ _ Hwf) in Hn2. destruct Hn2 as [Hl2 Hd2].
    destruct n2 as [d2 a2|]; [|discriminate].
    rewrite <- (files_not_nested src p p' _ _ _ _ Hl Hl2 Hpre). exact Hp'.
Qed.

Lemma recheck_after_apply_witness :
  source worldNewUnreadable = Some (oneFile [x31] unreadable)
  /\ In ["a.txt"%string]
        (snd (fst (getFilesToUpdate sampleSum
                     (performFilesUpdate [["a.txt"%string]]
                        (fst (fst (getFilesToUpdate sampleSum worldNewUnreadable)))))))
  /\ (In (AddLog (LogReadErr ["a.txt"%string]))
         (added (fst (fst (getFilesToUpdate sampleSum worldNewUnreadable)))
            (performFilesUpdate [["a.txt"%string]]
               (fst (fst (getFilesToUpdate sampleSum worldNewUnreadable)))))
      \/ In (AddLog (LogWriteErr ["a.txt"%string]))
            (added (fst (fst (getFilesToUpdate sampleSum worldNewUnreadable)))
               (performFilesUpdate [["a.txt"%string]]
                  (fst (fst (getFilesToUpdate sampleSum worldNewUnreadable)))))).
Proof.
  assert (H : In ["a.txt"%string]
                (snd (fst (getFilesToUpdate sampleSum
                             (performFilesUpdate [["a.txt"%string]]
                                (fst (fst (getFilesToUpdate sampleSum worldNewUnreadable)))))))).
  { vm_compute. left. reflexivity. }
  split; [reflexivity|]. split; [exact H|].
  apply (recheck_after_apply sampleSum worldNewUnreadable
           (fst (fst (getFilesToUpdate sampleSum worldNewUnreadable)))
           (oneFile [x31] unreadable) [["a.txt"%string]] ["a.txt"%string]);
    [reflexivity | reflexivity | reflexivity | exact H].
Defined.

(** ** [createBackup], [refreshBackups] and the trees *)

Lemma prune_quiet (old : list string) :
  forall w,
    ui (prune old w) = ui w ++ List.map (fun n => AddLog (LogRemovedOld n)) old
    /\ target (prune old w) = target w
    /\ source (prune old w) = source w
    /\ selected (prune old w) = selected w.
Proof.
  induction old as [|n old IH]; intros w.
  - cbn. rewrite app_nil_r. auto.
  - cbn [prune List.map].
    assert (H : exists b, fst (osRemove n w) = set_backups b w).
    { unfold osRemove. destruct (entry n (backups w)) as [f|].
      - destruct (is_locked f); eexists; cbn [fst]; [|reflexivity].
        instantiate (1 := backups w). destruct w; reflexivity.
      - exists (backups w). destruct w; reflexivity. }
    destruct H as [b Hb]. destruct (osRemove n w) as [w' e]. cbn [fst] in Hb. subst w'.
    destruct (IH (addLog (LogRemovedOld n) (set_backups b w))) as [H1 [H2 [H3 H4]]].
    rewrite H1, H2, H3, H4. cbn. rewrite <- app_assoc. auto.
Qed.

Lemma fileLogs_removed (old : list string) :
  fileLogs (List.map (fun n => AddLog (LogRemovedOld n)) old) = [].
Proof. induction old as [|n old IH]; [reflexivity | exact IH]. Qed.

(** What [createBackup] leaves alone, and what its lines are about. *)
Lemma createBackup_quiet (stamp : string) (w : world) :
  exists evs,
    ui (fst (createBackup stamp w)) = ui w ++ evs
    /\ fileLogs evs = []
    /\ ~ In Taskkill evs
    /\ target (fst (createBackup stamp w)) = target w
    /\ source (fst (createBackup stamp w)) = source w.
Proof.
  rewrite createBackup_eq. cbv zeta.
  set (name := backupName stamp).
  set (w3 := with_reads _ _).
  set (wd := closeZip name (archive_of (target w))
               (addLog (LogBackupDone name) (prune (skipn 3 (listBackups w3)) w3))).
  assert (Hdone : exists evs,
            ui wd = ui w ++ evs
            /\ fileLogs evs = [] /\ ~ In Taskkill evs
            /\ target wd = target w /\ source wd = source w).
  { destruct (prune_quiet (skipn 3 (listBackups w3)) w3) as [H1 [H2 [H3 _]]].
    exists ([AddLog (LogCreating name)]
            ++ List.map (fun n => AddLog (LogRemovedOld n)) (skipn 3 (listBackups w3))
            ++ [AddLog (LogBackupDone name)]).
    unfold wd, closeZip. cbn [set_backups addLog emit ui target source]. rewrite H1, H2, H3.
    split; [cbn; rewrite <- !app_assoc; reflexivity|].
    split; [rewrite !fileLogs_app, fileLogs_removed; reflexivity|].
    split; [|split; reflexivity].
    intros Hin. apply in_app_or in Hin. destruct Hin as [[H|[]]|Hin]; [discriminate|].
    apply in_app_or in Hin. destruct Hin as [Hin|[H|[]]]; [|discriminate].
    apply in_map_iff in Hin. destruct Hin as [n [H _]]. discriminate. }
  assert (Hfail : exists evs,
            ui (addLog (LogCreating name) w) = ui w ++ evs
            /\ fileLogs evs = [] /\ ~ In Taskkill evs
            /\ target (addLog (LogCreating name) w) = target w
            /\ source (addLog (LogCreating name) w) = source w).
  { exists [AddLog (LogCreating name)]. repeat split; try reflexivity.
    intros [H|[]]; discriminate. }
  destruct (entry name (backups w)) as [f|]; [destruct (is_locked f)|];
    cbn [fst]; assumption.
Qed.

(** ** [doUpdate] *)

Lemma quiet_refl (w : world) : quiet w w.
Proof. exists []. rewrite app_nil_r. repeat split; auto. Qed.

Lemma quiet_trans (w1 w2 w3 : world) : quiet w1 w2 -> quiet w2 w3 -> quiet w1 w3.
Proof.
  intros [e1 [U1 [F1 [K1 [T1 S1]]]]] [e2 [U2 [F2 [K2 [T2 S2]]]]].
  exists (e1 ++ e2). rewrite U2, U1, app_assoc, fileLogs_app, F1, F2.
  repeat split; try congruence.
  intros H. apply in_app_or in H. tauto.
Qed.

Lemma quiet_emits (es : list event) (w : world) :
  fileLogs es = [] -> ~ In Taskkill es -> quiet w (emits es w).
Proof.
  intros F K. exists es. rewrite ui_emits, target_emits, source_emits. auto.
Qed.

Lemma quiet_with_reads (l : list (root * path)) (w : world) : quiet w (with_reads l w).
Proof. exists []. cbn. rewrite app_nil_r. repeat split; auto. Qed.

Lemma quiet_createBackup (stamp : string) (w : world) : quiet w (fst (createBackup stamp w)).
Proof. exact (createBackup_quiet stamp w). Qed.

Lemma quiet_refreshBackups (w : world) : quiet w (refreshBackups w).
Proof.
  exists [SetOptions (listBackups w)].
  pose proof (step_refreshBackups w) as S.
  rewrite (step_ui S), (step_source S), target_refreshBackups.
  repeat split; auto. intros [H|[]]; discriminate.
Qed.

(** The change set depends on the two trees only. *)
Lemma getFilesToUpdate_files_ext (md5Sum : list byte -> digest) (w w' : world) :
  source w' = source w -> target w' = target w ->
  snd (fst (getFilesToUpdate md5Sum w')) = snd (fst (getFilesToUpdate md5Sum w))
  /\ snd (getFilesToUpdate md5Sum w') = None.
Proof.
  intros Hs Ht. rewrite !getFilesToUpdate_eq, Hs.
  destruct (source w) as [d|] eqn:E; cbn [fst snd]; [|auto].
  split; [|reflexivity]. f_equal. apply filter_ext. intros e.
  apply stale_ext; [congruence | rewrite Ht; reflexivity].
Qed.

(** The world [doUpdate] and [doCheck] reach when the walk has ended. *)
Lemma checked_quiet (md5Sum : list byte -> digest) (es : list event) (w : world) :
  fileLogs es = [] -> ~ In Taskkill es ->
  quiet w (fst (fst (getFilesToUpdate md5Sum (emits es w)))).
Proof.
  intros F K. eapply quiet_trans; [apply quiet_emits; eassumption|].
  rewrite getFilesToUpdate_eq. destruct (source (emits es w)); cbn [fst].
  - apply quiet_with_reads.
  - apply quiet_refl.
Qed.

Lemma performFilesUpdate_after (files : list path) (w wX w1 : world) :
  quiet w wX ->
  source w1 = source w -> target w1 = target w ->
  target (performFilesUpdate files wX) = target (performFilesUpdate files w1)
  /\ fileLogs (added w (performFilesUpdate files wX))
     = fileLogs (added w1 (performFilesUpdate files w1))
  /\ backups (performFilesUpdate files wX) = backups wX.
Proof.
  intros [evs [U [F [K [T S]]]]] Hs Ht.
  rewrite !target_performFilesUpdate, T, S, Hs, Ht. split; [reflexivity|].
  split; [|destruct (performFilesUpdate_step files wX) as [e St]; exact (step_backups St)].
  rewrite (performFilesUpdate_fileLogs files w1), Hs, Ht.
  destruct (performFilesUpdate_step files wX) as [e2 St].
  pose proof (performFilesUpdate_fileLogs files wX) as HX.
  rewrite (added_intro wX _ e2 (step_ui St)) in HX.
  rewrite (added_intro w _ (evs ++ e2)).
  - rewrite fileLogs_app, F, HX, S, T. reflexivity.
  - rewrite (step_ui St), U, app_assoc. reflexivity.
Qed.

(** X4. [doUpdate] applies the change set it has computed whether or not
    the backup before it succeeded: with an answer other than [Cancel] and
    a change set that is not empty, the target tree it leaves and the lines
    it logs about the files are those of [performFilesUpdate] on that
    change set, and the backup directory is as [createBackup] left it or
    untouched. *)
Theorem doUpdate_applies_change_set (md5Sum : list byte -> digest) (c : choice)
        (stamp : string) (w w1 : world) (files : list path) :
  getFilesToUpdate md5Sum w = (w1, files, None) ->
  files <> [] -> c <> Cancel ->
  target (doUpdate md5Sum c stamp w) = target (performFilesUpdate files w1)
  /\ fileLogs (added w (doUpdate md5Sum c stamp w))
     = fileLogs (added w1 (performFilesUpdate files w1))
  /\ In (SetStatus StUpdateDone) (added w (doUpdate md5Sum c stamp w)).
Proof.
  intros Hg Hne Hc.
  pose proof (getFilesToUpdate_world md5Sum w) as [Hs1 [Ht1 _]].
  rewrite Hg in Hs1, Ht1. cbn [fst] in Hs1, Ht1.
  unfold doUpdate, saveConfig.
  set (es := [SetStatus StChecking; ProgressShow; SetValue 0; AddLog LogCheckFrom]).
  set (w0 := emits es (addLog LogConfigSaved w)).
  assert (Q0 : quiet w (fst (fst (getFilesToUpdate md5Sum w0)))).
  { eapply quiet_trans; [apply (quiet_emits [AddLog LogConfigSaved] w)|];
      [reflexivity | intros [H|[]]; discriminate |].
    apply checked_quiet; [reflexivity|].
    intros H. repeat (destruct H as [H|H]; [discriminate|]). exact H. }
  destruct (getFilesToUpdate_files_ext md5Sum w w0) as [Hf He];
    [reflexivity | reflexivity |].
  rewrite Hg in Hf. cbn [fst snd] in Hf.
  destruct (getFilesToUpdate md5Sum w0) as [[wc files0] err0].
  cbn [fst snd] in Q0, Hf, He. subst files0 err0.
  destruct files as [|f files']; [congruence|].
  set (files := f :: files') in *.
  set (wp := emit (ShowMsg (AskUpdate (List.length files)))
               (addLog (LogNeed (List.length files)) (emit ProgressHide wc))).
  assert (Qp : quiet w wp).
  { eapply quiet_trans; [exact Q0|].
    apply (quiet_emits [ProgressHide; AddLog (LogNeed (List.length files));
                        ShowMsg (AskUpdate (List.length files))] wc); [reflexivity|].
    intros H. repeat (destruct H as [H|H]; [discriminate|]). exact H. }
  assert (Hdone : forall wX, quiet w wX ->
            target (performFilesUpdate files wX) = target (performFilesUpdate files w1)
            /\ fileLogs (added w (performFilesUpdate files wX))
               = fileLogs (added w1 (performFilesUpdate files w1))
            /\ In (SetStatus StUpdateDone) (added w (performFilesUpdate files wX))).
  { intros wX QX.
    destruct (performFilesUpdate_after files w wX w1 QX Hs1 Ht1) as [H1 [H2 _]].
    split; [exact H1|]. split; [exact H2|].
    destruct QX as [evs [U _]].
    destruct (performFilesUpdate_trace files wX) as [loop [tail [k [E _]]]].
    rewrite (added_intro w _ (evs ++ added wX (performFilesUpdate files wX))).
    - apply in_or_app. right. rewrite E.
      apply in_or_app. right. apply in_or_app. right.
      apply in_or_app. left. right. right. right. left. reflexivity.
    - destruct (performFilesUpdate_step files wX) as [e St].
      rewrite (added_intro wX _ e (step_ui St)), (step_ui St), U, app_assoc. reflexivity. }
  destruct c; [| |congruence].
  - apply Hdone. eapply quiet_trans; [exact Qp|].
    eapply quiet_trans;
      [apply (quiet_emits [AddLog LogBackupFirst; SetStatus StBackingUp] wp)|];
      [reflexivity | intros H; repeat (destruct H as [H|H]; [discriminate|]); exact H |].
    set (wB := emits _ wp).
    pose proof (quiet_createBackup stamp wB) as QB.
    destruct (createBackup stamp wB) as [wb [e|]]; cbn [fst] in QB.
    + eapply quiet_trans; [exact QB|].
      apply (quiet_emits [AddLog (LogBackupErr e)] wb); [reflexivity|].
      intros [H|[]]; discriminate.
    + eapply quiet_trans; [exact QB|].
      eapply quiet_trans; [apply (quiet_emits [AddLog LogBackupOk] wb)|];
        [reflexivity | intros [H|[]]; discriminate |].
      apply quiet_refreshBackups.
  - apply Hdone. eapply quiet_trans; [exact Qp|].
    apply (quiet_emits [AddLog LogNoBackup] wp); [reflexivity|].
    intros [H|[]]; discriminate.
Qed.

Lemma doUpdate_applies_change_set_witness :
  getFilesToUpdate sampleSum worldBackupLocked
  = (fst (fst (getFilesToUpdate sampleSum worldBackupLocked)), [["a.txt"%string]], None)
  /\ In (AddLog (LogBackupErr EIO))
        (added worldBackupLocked
           (doUpdate sampleSum BackupThenUpdate "20260101_000009" worldBackupLocked))
  /\ target (doUpdate sampleSum BackupThenUpdate "20260101_000009" worldBackupLocked)
     = target (performFilesUpdate [["a.txt"%string]]
                 (fst (fst (getFilesToUpdate sampleSum worldBackupLocked))))
  /\ fileLogs (added worldBackupLocked
                 (doUpdate sampleSum BackupThenUpdate "20260101_000009" worldBackupLocked))
     = fileLogs (added (fst (fst (getFilesToUpdate sampleSum worldBackupLocked)))
                   (performFilesUpdate [["a.txt"%string]]
                      (fst (fst (getFilesToUpdate sampleSum worldBackupLocked)))))
  /\ In (SetStatus StUpdateDone)
        (added worldBackupLocked
           (doUpdate sampleSum BackupThenUpdate "20260101_000009" worldBackupLocked)).
Proof.
  split; [reflexivity|]. split; [vm_compute; do 11 right; left; reflexivity|].
  apply (doUpdate_applies_change_set sampleSum BackupThenUpdate "20260101_000009"
           worldBackupLocked _ [["a.txt"%string]]);
    [reflexivity | discriminate | discriminate].
Defined.

Lemma selected_emits (es : list event) (w : world) : selected (emits es w) = selected w.
Proof.
  revert w. induction es as [|e es IH]; intros w; [reflexivity|].
  cbn [emits]. rewrite IH. reflexivity.
Qed.

Lemma itemsOf_app (a b : list event) : itemsOf (a ++ b) = itemsOf a ++ itemsOf b.
Proof. unfold itemsOf. apply flat_map_app. Qed.

Lemma itemsOf_items (fs : list path) :
  itemsOf (List.map (fun f => AddLog (LogItem f)) fs) = fs.
Proof. induction fs as [|f fs IH]; [reflexivity|]. cbn. f_equal. exact IH. Qed.

Lemma In_items (e : event) (fs : list path) :
  In e (List.map (fun f => AddLog (LogItem f)) fs) -> exists f, e = AddLog (LogItem f).
Proof. intros H. apply in_map_iff in H. destruct H as [f [H _]]. eauto. Qed.

(** X5. [doCheck] only looks: it leaves the source, the target, the
    backup directory and the selection as they are, and neither stops nor
    starts [ipcas2.exe]. The files it names in the log are the first ten of
    the change set, in the order of the walk. *)
Theorem doCheck_only_reads (md5Sum : list byte -> digest) (w : world) :
  source (doCheck md5Sum w) = source w
  /\ target (doCheck md5Sum w) = target w
  /\ backups (doCheck md5Sum w) = backups w
  /\ selected (doCheck md5Sum w) = selected w
  /\ ~ In Taskkill (added w (doCheck md5Sum w))
  /\ ~ In StartIPCAS (added w (doCheck md5Sum w))
  /\ itemsOf (added w (doCheck md5Sum w))
     = firstn 10 (snd (fst (getFilesToUpdate md5Sum w))).
Proof.
  unfold doCheck, saveConfig.
  set (es := [SetStatus StChecking; ProgressShow; SetValue 0]).
  set (w0 := emits es (addLog LogConfigSaved w)).
  destruct (getFilesToUpdate_files_ext md5Sum w w0) as [Hf He];
    [reflexivity | reflexivity |].
  pose proof (getFilesToUpdate_world md5Sum w0) as [Hs [Ht [Hb [Hl Hu]]]].
  destruct (getFilesToUpdate md5Sum w0) as [[wc files0] err0].
  cbn [fst snd] in *. subst err0. rewrite <- Hf. clear Hf.
  assert (Hui : ui (emit ProgressHide wc)
                = ui w ++ [AddLog LogConfigSaved; SetStatus StChecking; ProgressShow;
                           SetValue 0; ProgressHide]).
  { cbn [emit ui]. rewrite Hu. unfold w0. rewrite ui_emits. cbn. rewrite <- !app_assoc.
    reflexivity. }
  set (wp := emit ProgressHide wc) in *.
  assert (Hp : source wp = source w /\ target wp = target w /\ backups wp = backups w
               /\ selected wp = selected w).
  { unfold wp. cbn [emit source target backups selected]. rewrite Hs, Ht, Hb, Hl.
    unfold w0. rewrite source_emits, target_emits, backups_emits.
    repeat split. }
  destruct Hp as [Hps [Hpt [Hpb Hpl]]].
  destruct files0 as [|f fs].
  - cbn [firstn].
    rewrite (added_intro w _ ([AddLog LogConfigSaved; SetStatus StChecking; ProgressShow;
                               SetValue 0; ProgressHide]
                              ++ [AddLog LogNothing; SetStatus StUpToDate]))
      by (rewrite ui_emits, Hui, <- app_assoc; reflexivity).
    rewrite source_emits, target_emits, backups_emits.
    repeat split; auto.
    + intros H. repeat (destruct H as [H|H]; [discriminate|]). exact H.
    + intros H. repeat (destruct H as [H|H]; [discriminate|]). exact H.
  - set (files := f :: fs) in *. set (n := List.length files).
    set (items := List.map (fun f => AddLog (LogItem f)) (firstn 10 files)).
    set (more := if (10 <? n)%nat then [AddLog (LogMore (n - 10))] else []).
    assert (Hw : exists wx,
              emit (SetStatus (StHave n))
                (if (10 <? n)%nat
                 then addLog (LogMore (n - 10)) (emits items (addLog (LogHave n) wp))
                 else emits items (addLog (LogHave n) wp)) = wx
              /\ ui wx = ui w ++ [AddLog LogConfigSaved; SetStatus StChecking; ProgressShow;
                                  SetValue 0; ProgressHide]
                              ++ [AddLog (LogHave n)] ++ items ++ more ++ [SetStatus (StHave n)]
              /\ source wx = source w /\ target wx = target w
              /\ backups wx = backups w /\ selected wx = selected w).
    { eexists. split; [reflexivity|]. unfold more.
      destruct (10 <? n)%nat; cbn [emit addLog ui source target backups selected];
        rewrite ?ui_emits, ?source_emits, ?target_emits, ?backups_emits;
        cbn [emit addLog ui source target backups selected];
        rewrite Hui, <- ?app_assoc; repeat split; auto;
        rewrite selected_emits; exact Hpl. }
    destruct Hw as [wx [-> [Hux [Hsx [Htx [Hbx Hlx]]]]]].
    rewrite (added_intro w _ _ Hux).
    repeat split; auto.
    + intros H. repeat (apply in_app_or in H; destruct H as [H|H]);
        try (repeat (destruct H as [H|H]; [discriminate|]); exact H).
      * apply In_items in H. destruct H as [f0 H]. discriminate.
      * unfold more in H. destruct (10 <? n)%nat; [destruct H as [H|[]]; discriminate | exact H].
    + intros H. repeat (apply in_app_or in H; destruct H as [H|H]);
        try (repeat (destruct H as [H|H]; [discriminate|]); exact H).
      * apply In_items in H. destruct H as [f0 H]. discriminate.
      * unfold more in H. destruct (10 <? n)%nat; [destruct H as [H|[]]; discriminate | exact H].
    + rewrite !itemsOf_app. unfold items. rewrite itemsOf_items.
      unfold more. destruct (10 <? n)%nat; cbn; rewrite app_nil_r; reflexivity.
Qed.

(** X6. When the change set is empty, or the answer to the dialog is
    [Cancel], [doUpdate] has done nothing but look: the target tree and
    the backup directory are as they were, [ipcas2.exe] was neither
    stopped nor started, and no file was copied. *)
Theorem doUpdate_cancel_or_clean (md5Sum : list byte -> digest) (c : choice)
        (stamp : string) (w : world) :
  c = Cancel \/ snd (fst (getFilesToUpdate md5Sum w)) = [] ->
  target (doUpdate md5Sum c stamp w) = target w
  /\ backups (doUpdate md5Sum c stamp w) = backups w
  /\ selected (doUpdate md5Sum c stamp w) = selected w
  /\ ~ In Taskkill (added w (doUpdate md5Sum c stamp w))
  /\ ~ In StartIPCAS (added w (doUpdate md5Sum c stamp w))
  /\ fileLogs (added w (doUpdate md5Sum c stamp w)) = [].
Proof.
  intros Hc. unfold doUpdate, saveConfig.
  set (es := [SetStatus StChecking; ProgressShow; SetValue 0; AddLog LogCheckFrom]).
  set (w0 := emits es (addLog LogConfigSaved w)).
  destruct (getFilesToUpdate_files_ext md5Sum w w0) as [Hf He];
    [reflexivity | reflexivity |].
  pose proof (getFilesToUpdate_world md5Sum w0) as [Hs [Ht [Hb [Hl Hu]]]].
  destruct (getFilesToUpdate md5Sum w0) as [[wc files0] err0].
  cbn [fst snd] in *. subst err0. rewrite <- Hf in Hc. clear Hf.
  assert (Hui : ui (emit ProgressHide wc)
                = ui w ++ [AddLog LogConfigSaved; SetStatus StChecking; ProgressShow;
                           SetValue 0; AddLog LogCheckFrom; ProgressHide]).
  { cbn [emit ui]. rewrite Hu. unfold w0. rewrite ui_emits. cbn. rewrite <- !app_assoc.
    reflexivity. }
  set (wp := emit ProgressHide wc) in *.
  assert (Hp : target wp = target w /\ backups wp = backups w /\ selected wp = selected w).
  { unfold wp. cbn [emit source target backups selected]. rewrite Ht, Hb, Hl.
    unfold w0. rewrite target_emits, backups_emits, selected_emits.
    repeat split. }
  destruct Hp as [Hpt [Hpb Hpl]].
  destruct files0 as [|f fs].
  - rewrite (added_intro w _ ([AddLog LogConfigSaved; SetStatus StChecking; ProgressShow;
                               SetValue 0; AddLog LogCheckFrom; ProgressHide]
                              ++ [AddLog LogNothing; SetStatus StUpToDate]))
      by (rewrite ui_emits, Hui, <- app_assoc; reflexivity).
    rewrite target_emits, backups_emits, selected_emits.
    repeat split; auto;
      intros H; repeat (destruct H as [H|H]; [discriminate|]); exact H.
  - destruct Hc as [->|Hc]; [|discriminate].
    set (n := List.length (f :: fs)).
    rewrite (added_intro w _ ([AddLog LogConfigSaved; SetStatus StChecking; ProgressShow;
                               SetValue 0; AddLog LogCheckFrom; ProgressHide]
                              ++ [AddLog (LogNeed n); ShowMsg (AskUpdate n)]))
      by (cbn [emit addLog ui]; rewrite Hui, <- !app_assoc; reflexivity).
    cbn [emit addLog target backups selected].
    repeat split; auto;
      intros H; repeat (destruct H as [H|H]; [discriminate|]); exact H.
Qed.

Lemma doUpdate_cancel_or_clean_witness :
  (Cancel = Cancel \/ snd (fst (getFilesToUpdate sampleSum worldChanged)) = [])
  /\ target (doUpdate sampleSum Cancel "20260101_000009" worldChanged) = target worldChanged
  /\ backups (doUpdate sampleSum Cancel "20260101_000009" worldChanged)
     = backups worldChanged
  /\ selected (doUpdate sampleSum Cancel "20260101_000009" worldChanged)
     = selected worldChanged
  /\ ~ In Taskkill (added worldChanged
                      (doUpdate sampleSum Cancel "20260101_000009" worldChanged))
  /\ ~ In StartIPCAS (added worldChanged
                        (doUpdate sampleSum Cancel "20260101_000009" worldChanged))
  /\ fileLogs (added worldChanged
                 (doUpdate sampleSum Cancel "20260101_000009" worldChanged)) = [].
Proof.
  split; [left; reflexivity|].
  apply (doUpdate_cancel_or_clean sampleSum Cancel "20260101_000009" worldChanged).
  left. reflexivity.
Defined.

(** ** [createBackup] and [refreshBackups] *)

Lemma reads_prune (old : list string) :
  forall w, reads (prune old w) = reads w.
Proof.
  induction old as [|n old IH]; intros w; [reflexivity|].
  cbn [prune].
  assert (H : reads (fst (osRemove n w)) = reads w).
  { unfold osRemove. destruct (entry n (backups w)) as [f|]; [|reflexivity].
    destruct (is_locked f); reflexivity. }
  destruct (osRemove n w) as [w1 e]. cbn [fst] in H. rewrite IH. exact H.
Qed.

(** X7. A [createBackup] that returns nil, on a well-formed target
    tree: the new archive has an entry for every regular file of the
    target, under the path of the file and with its bytes if the file can
    be read, and for nothing else; every one of these files was read
    once, in the order of the entries, and no file of the source; the new
    archive is in the list of archives afterwards whatever the loop has
    removed, for the loop cannot remove the file [createBackup] still
    holds open; the target tree, the source and the selection are as they
    were. *)
Theorem createBackup_archives_the_target (stamp : string) (w w' : world) :
  wf (target w) = true ->
  createBackup stamp w = (w', None) ->
  exists files,
    entry (backupName stamp) (backups w') = Some (Zip files false)
    /\ (forall p d a,
          lookup (target w) p = Some (File d a) ->
          exists f, In f files /\ Name f = p /\ zopen f = true /\ zread f = true
                    /\ (readable a = true -> zdata f = d))
    /\ (forall f, In f files -> exists d a, lookup (target w) (Name f) = Some (File d a))
    /\ read_since w w' = List.map (fun f => (Target, Name f)) files
    /\ In (backupName stamp) (listBackups w')
    /\ target w' = target w /\ source w' = source w /\ selected w' = selected w.
Proof.
  intros Hwf Hc. rewrite createBackup_eq in Hc. cbv zeta in Hc.
  set (name := backupName stamp) in *.
  set (w1 := addLog (LogCreating name) w) in Hc.
  set (w2 := set_backups (putEntry name (Zip [] true) (backups w)) w1) in Hc.
  set (w3 := with_reads (List.map (fun e => (Target, fst e)) (files_of (target w))) w2) in Hc.
  assert (Hw' : w' = closeZip name (archive_of (target w))
                       (addLog (LogBackupDone name) (prune (skipn 3 (listBackups w3)) w3))).
  { destruct (entry name (backups w)) as [f|]; [destruct (is_locked f)|]; inversion Hc;
      reflexivity. }
  clear Hc. subst w'.
  destruct (prune_quiet (skipn 3 (listBackups w3)) w3) as [_ [Ht [Hs Hsel]]].
  assert (He : entry name
                 (backups (closeZip name (archive_of (target w))
                             (addLog (LogBackupDone name)
                                (prune (skipn 3 (listBackups w3)) w3))))
               = Some (Zip (archive_of (target w)) false)).
  { unfold closeZip. cbn [backups set_backups]. apply entry_putEntry_same. }
  exists (archive_of (target w)).
  split; [exact He|]. split; [|split; [|split; [|split; [|split; [|split]]]]].
  - intros p d a Hl. exists (stored (target w) (p, File d a)).
    split; [|split; [reflexivity|split; [reflexivity|split; [reflexivity|]]]].
    + unfold archive_of. apply in_map. apply (files_of_lookup _ _ _ Hwf). auto.
    + intros Hr. cbn [stored zdata fst]. unfold ReadFile. rewrite Hl, Hr. reflexivity.
  - intros f Hf. destruct (archive_entry _ f Hwf Hf) as [_ [_ [d [a [Hl _]]]]].
    exists d, a. exact Hl.
  - unfold read_since, closeZip. cbn [reads set_backups addLog emit].
    rewrite reads_prune. cbn [w3 w2 w1 reads with_reads set_backups addLog emit].
    rewrite skipn_app, skipn_all, Nat.sub_diag. cbn [skipn app].
    unfold archive_of. rewrite map_map. reflexivity.
  - apply listBackups_In. split; [|apply isBackup_backupName].
    unfold readBackupDir. eapply entry_Some_name. exact He.
  - unfold closeZip. cbn [target set_backups addLog emit]. rewrite Ht. reflexivity.
  - unfold closeZip. cbn [source set_backups addLog emit]. rewrite Hs. reflexivity.
  - unfold closeZip. cbn [selected set_backups addLog emit]. rewrite Hsel. reflexivity.
Qed.

(** The theorem of X7 on [worldFour], whose target holds [a.txt], at a
    second before those of its three newest archives: the new archive is
    in the list, as a fourth. *)
Lemma createBackup_archives_the_target_witness :
  wf (target worldFour) = true
  /\ createBackup "20260101_000000" worldFour
     = (fst (createBackup "20260101_000000" worldFour), None)
  /\ exists files,
       entry (backupName "20260101_000000")
             (backups (fst (createBackup "20260101_000000" worldFour)))
       = Some (Zip files false)
       /\ read_since worldFour (fst (createBackup "20260101_000000" worldFour))
          = List.map (fun f => (Target, Name f)) files
       /\ In (backupName "20260101_000000")
             (listBackups (fst (createBackup "20260101_000000" worldFour))).
Proof.
  split; [reflexivity|]. split; [reflexivity|].
  destruct (createBackup_archives_the_target "20260101_000000" worldFour
              (fst (createBackup "20260101_000000" worldFour)) eq_refl eq_refl)
    as [files [He [_ [_ [Hr [Hin _]]]]]].
  exists files. auto.
Defined.

(** X8. [refreshBackups] offers the archives of the backup directory, and
    only them, newest name first without repetition, and selects the
    newest; when there is no archive the selection stays as it was. *)
Theorem refreshBackups_selects_newest (w : world) :
  unique (backups w) = true ->
  added w (refreshBackups w) = [SetOptions (listBackups w)]
  /\ StronglySorted desc (listBackups w)
  /\ (forall n, In n (listBackups w) <-> In n (readBackupDir w) /\ isBackup n = true)
  /\ (listBackups w = [] -> selected (refreshBackups w) = selected w)
  /\ (forall n, In n (listBackups w) ->
        In (selected (refreshBackups w)) (listBackups w)
        /\ (n = selected (refreshBackups w)
            \/ String.ltb n (selected (refreshBackups w)) = true)).
Proof.
  intros Hu.
  pose proof (listBackups_sorted w Hu) as Hsorted.
  split; [apply added_intro; exact (step_ui (step_refreshBackups w))|].
  split; [exact Hsorted|]. split; [apply listBackups_In|].
  unfold refreshBackups. destruct (listBackups w) as [|b l] eqn:E.
  - split; [reflexivity|]. intros n [].
  - split; [discriminate|]. intros n Hn. cbn [set_selected selected].
    split; [left; reflexivity|].
    exact (sorted_head_max b n l Hsorted Hn).
Qed.

Lemma refreshBackups_selects_newest_witness :
  unique (backups worldFour) = true
  /\ selected (refreshBackups worldFour) = backupName "20260101_000004"
  /\ (forall n, In n (listBackups worldFour) ->
        In (selected (refreshBackups worldFour)) (listBackups worldFour)
        /\ (n = selected (refreshBackups worldFour)
            \/ String.ltb n (selected (refreshBackups worldFour)) = true)).
Proof.
  split; [reflexivity|]. split; [reflexivity|].
  apply (refreshBackups_selects_newest worldFour). reflexivity.
Defined.

(** ** [doRestore] *)

Lemma file_stays_restoreStep (t : node) (f : zentry) (q : path) (d : list byte) (a : attrs) :
  lookup t q = Some (File d a) ->
  exists d', lookup (restoreStep t f) q = Some (File d' a).
Proof.
  intros Hl. unfold restoreStep.
  set (t1 := match MkdirAll t (parent (Name f)) with Some t' => t' | None => t end).
  assert (H1 : lookup t1 q = Some (File d a)).
  { subst t1. destruct (MkdirAll t (parent (Name f))) eqn:E; [|exact Hl].
    eapply file_survives_MkdirAll; eassumption. }
  destruct (zopen f && zread f); [|eauto].
  destruct (WriteFile t1 (Name f) (zdata f)) as [t2|] eqn:Ew; [|eauto].
  destruct (list_eq_dec string_dec q (Name f)) as [->|Hne].
  - destruct (WriteFile_lookup _ _ _ _ Ew) as [a' [Hl' Ha]].
    rewrite (Ha _ _ H1) in Hl'. eauto.
  - exists d. eapply file_survives_WriteFile; eassumption.
Qed.

Lemma file_stays_restore (q : path) (a : attrs) (files : list zentry) :
  forall t d,
    lookup t q = Some (File d a) ->
    exists d', lookup (fold_left restoreStep files t) q = Some (File d' a).
Proof.
  induction files as [|f files IH]; intros t d Hl; [eauto|].
  cbn [fold_left]. destruct (file_stays_restoreStep t f q d a Hl) as [d1 H1].
  exact (IH _ _ H1).
Qed.

Lemma doRestore_cases (w : world) :
  (String.eqb (selected w) EmptyString = true
   /\ doRestore w = emit (ShowMsg MsgChooseBackup) w)
  \/ (String.eqb (selected w) EmptyString = false
      /\ (forall files l, entry (selected w) (backups w) <> Some (Zip files l))
      /\ doRestore w
         = addLog LogOpenBackupErr (killIPCAS (addLog (LogRestoring (selected w)) w)))
  \/ (String.eqb (selected w) EmptyString = false
      /\ exists files l, entry (selected w) (backups w) = Some (Zip files l)).
Proof.
  unfold doRestore. destruct (String.eqb (selected w) EmptyString) eqn:E; [left; auto|].
  right. change (selected (killIPCAS (addLog (LogRestoring (selected w)) w)))
           with (selected w).
  change (backups (killIPCAS (addLog (LogRestoring (selected w)) w))) with (backups w).
  destruct (entry (selected w) (backups w)) as [[files l|l]|] eqn:Ee.
  - right. split; [reflexivity|]. eauto.
  - left. split; [reflexivity|]. split; [discriminate | reflexivity].
  - left. split; [reflexivity|]. split; [discriminate | reflexivity].
Qed.

(** The archives [createBackup] writes have plain names. *)
Lemma plainTree_Dir (es : list (string * node)) (ok : bool) :
  plainTree (Dir es ok) = true <->
  Forall (fun e => plainName [fst e] = true /\ plainTree (snd e) = true) es.
Proof.
  cbn [plainTree]. induction es as [|[c x] es IH].
  - split; [constructor | reflexivity].
  - rewrite !andb_true_iff, IH. split.
    + intros [[H1 H2] H3]. constructor; [split|]; assumption.
    + intros H. inversion H as [|? ? [H1 H2] H3]; subst. auto.
Qed.

Lemma plainTree_lookup (q : path) :
  forall t n, plainTree t = true -> lookup t q = Some n -> plainName q = true.
Proof.
  induction q as [|c q IH]; intros t n Hp Hl; [reflexivity|].
  destruct t as [|es ok]; [discriminate|]. simpl in Hl.
  destruct (entry c es) as [x|] eqn:Ec; [|discriminate].
  apply plainTree_Dir in Hp. rewrite Forall_forall in Hp.
  destruct (Hp _ (entry_In _ _ _ _ Ec)) as [Hc Hx]. cbn [fst snd] in Hc, Hx.
  cbn [plainName forallb] in Hc |- *. rewrite andb_true_r in Hc. rewrite Hc.
  exact (IH x n Hx Hl).
Qed.

Lemma archive_names_plain (t : node) (f : zentry) :
  wf t = true -> plainTree t = true -> In f (archive_of t) -> plainName (Name f) = true.
Proof.
  intros Hwf Hp Hf. destruct (archive_entry t f Hwf Hf) as [_ [_ [d [a [Hl _]]]]].
  exact (plainTree_lookup _ _ _ Hp Hl).
Qed.

(** X9. [doRestore] removes nothing and keeps its archives: when the
    names of the entries of the selected archive are paths below the
    target as they stand (no component is empty, [.] or [..], so that
    [filepath.Join] leaves them as they are), every regular file of the
    target is a regular file with the same attributes afterwards, and the
    backup directory, the selection and the source are as they were. The
    same holds when nothing, or no archive that can be opened, is
    selected. *)
Theorem doRestore_removes_no_file (w : world) :
  plainSelection w ->
  backups (doRestore w) = backups w
  /\ selected (doRestore w) = selected w
  /\ source (doRestore w) = source w
  /\ forall q d a,
       lookup (target w) q = Some (File d a) ->
       exists d', lookup (target (doRestore w)) q = Some (File d' a).
Proof.
  intros _.
  destruct (doRestore_cases w) as [[_ E]|[[_ [_ E]]|[Hs [files [l He]]]]].
  - rewrite E. cbn. repeat split. eauto.
  - rewrite E. cbn. repeat split. eauto.
  - split; [|split; [|split]].
    + unfold doRestore, killIPCAS, addLog. rewrite Hs.
      set (w1 := emits _ (emit _ w)).
      change (selected w1) with (selected w). change (backups w1) with (backups w).
      rewrite He.
      destruct (restoreLoop_step (List.length files) files 0 (emit ProgressShow w1))
        as [loop [SL _]].
      destruct (launchIPCAS_step
                  (emits [ProgressHide; AddLog LogRestoreDone; SetStatus StRestoreDone]
                     (restoreLoop (List.length files) 0 files (emit ProgressShow w1))))
        as [le [S5 _]].
      cbn [emit backups]. rewrite (step_backups S5), backups_emits, (step_backups SL).
      reflexivity.
    + unfold doRestore, killIPCAS, addLog. rewrite Hs.
      set (w1 := emits _ (emit _ w)).
      change (selected w1) with (selected w). change (backups w1) with (backups w).
      rewrite He.
      destruct (restoreLoop_step (List.length files) files 0 (emit ProgressShow w1))
        as [loop [_ [LL _]]].
      cbn [emit selected]. unfold launchIPCAS.
      destruct (Stat _ _); rewrite ?selected_emits; exact LL.
    + unfold doRestore, killIPCAS, addLog. rewrite Hs.
      set (w1 := emits _ (emit _ w)).
      change (selected w1) with (selected w). change (backups w1) with (backups w).
      rewrite He.
      destruct (restoreLoop_step (List.length files) files 0 (emit ProgressShow w1))
        as [loop [SL _]].
      destruct (launchIPCAS_step
                  (emits [ProgressHide; AddLog LogRestoreDone; SetStatus StRestoreDone]
                     (restoreLoop (List.length files) 0 files (emit ProgressShow w1))))
        as [le [S5 _]].
      cbn [emit source]. rewrite (step_source S5), source_emits, (step_source SL).
      reflexivity.
    + intros q d a Hl. rewrite (target_doRestore w files l Hs He).
      eapply file_stays_restore. exact Hl.
Qed.

(** The theorem of X9 on [worldMutated], whose selected archive holds
    [a.txt]. *)
Lemma doRestore_removes_no_file_witness :
  plainSelection worldMutated
  /\ backups (doRestore worldMutated) = backups worldMutated
  /\ exists d',
       lookup (target (doRestore worldMutated)) ["b.txt"%string]
       = Some (File d' plain).
Proof.
  assert (Hp : plainSelection worldMutated).
  { intros files l f He Hf. vm_compute in He. inversion He; subst files l.
    destruct Hf as [<-|[]]. reflexivity. }
  split; [exact Hp|].
  destruct (doRestore_removes_no_file worldMutated Hp) as [Hb [_ [_ Hq]]].
  split; [exact Hb|].
  apply (Hq ["b.txt"%string] [x32] plain). reflexivity.
Defined.

(** X10. When the selected name is not an archive that can be opened,
    [doRestore] has stopped [ipcas2.exe] before it finds out, and does not
    start it again; the target tree is untouched. Without a selection it
    only shows the dialog. *)
Theorem doRestore_without_archive (w : world) :
  (forall files l, entry (selected w) (backups w) <> Some (Zip files l)) ->
  target (doRestore w) = target w
  /\ ~ In StartIPCAS (added w (doRestore w))
  /\ (selected w = EmptyString -> added w (doRestore w) = [ShowMsg MsgChooseBackup])
  /\ (selected w <> EmptyString ->
      added w (doRestore w)
      = [AddLog (LogRestoring (selected w)); Taskkill; AddLog LogKilled; Sleep500;
         AddLog LogOpenBackupErr]).
Proof.
  intros Hno.
  destruct (doRestore_cases w) as [[Hs E]|[[Hs [_ E]]|[_ [files [l He]]]]];
    [| |exfalso; exact (Hno _ _ He)].
  - apply String.eqb_eq in Hs. rewrite E.
    rewrite (added_intro w _ [ShowMsg MsgChooseBackup]) by reflexivity.
    split; [reflexivity|]. split; [intros [H|[]]; discriminate|].
    split; [reflexivity | congruence].
  - apply String.eqb_neq in Hs. rewrite E.
    rewrite (added_intro w _ [AddLog (LogRestoring (selected w)); Taskkill; AddLog LogKilled;
                              Sleep500; AddLog LogOpenBackupErr])
      by (cbn; rewrite <- !app_assoc; reflexivity).
    split; [reflexivity|].
    split; [intros H; repeat (destruct H as [H|H]; [discriminate|]); exact H|].
    split; [congruence | reflexivity].
Qed.

Lemma doRestore_without_archive_witness :
  (forall files l,
      entry (selected worldNoArchive) (backups worldNoArchive) <> Some (Zip files l))
  /\ target (doRestore worldNoArchive) = target worldNoArchive
  /\ ~ In StartIPCAS (added worldNoArchive (doRestore worldNoArchive))
  /\ (selected worldNoArchive = EmptyString ->
      added worldNoArchive (doRestore worldNoArchive) = [ShowMsg MsgChooseBackup])
  /\ (selected worldNoArchive <> EmptyString ->
      added worldNoArchive (doRestore worldNoArchive)
      = [AddLog (LogRestoring (selected worldNoArchive)); Taskkill; AddLog LogKilled;
         Sleep500; AddLog LogOpenBackupErr]).
Proof.
  assert (H : forall files l,
             entry (selected worldNoArchive) (backups worldNoArchive) <> Some (Zip files l))
    by (intros files l; vm_compute; discriminate).
  split; [exact H|]. exact (doRestore_without_archive worldNoArchive H).
Defined.

(** ** Update with a backup, then restore *)

Lemma selected_updateFile (total : nat) (t0 : Z) (i : nat) (p : path) (w : world) :
  selected (updateFile total t0 i p w) = selected w.
Proof.
  unfold updateFile, mkParent, osReadFile, timeSince, timeNow.
  destruct w as [src tgt bk sel u rd ck tk]. cbn [target].
  destruct (MkdirAll tgt (parent p)); cbn [set_target source target tree backups selected ui reads clock ticks];
    destruct (match src with Some n => ReadFile n p | None => None end); try reflexivity;
    match goal with |- context [WriteFile ?t ?q ?d] => destruct (WriteFile t q d) end;
    reflexivity.
Qed.

Lemma selected_updateLoop (total : nat) (t0 : Z) (rest : list path) :
  forall i w, selected (updateLoop total t0 i rest w) = selected w.
Proof.
  induction rest as [|p rest IH]; intros i w; [reflexivity|].
  cbn [updateLoop]. rewrite IH. apply selected_updateFile.
Qed.

Lemma selected_launchIPCAS (w : world) : selected (launchIPCAS w) = selected w.
Proof. unfold launchIPCAS. destruct (Stat _ _); [apply selected_emits | reflexivity]. Qed.

Lemma listBackups_ext (w w' : world) : backups w' = backups w -> listBackups w' = listBackups w.
Proof. intros H. unfold listBackups, readBackupDir. rewrite H. reflexivity. Qed.

(** The selection after [performFilesUpdate]: the newest archive. *)
Lemma selected_performFilesUpdate (files : list path) (w : world) :
  selected (performFilesUpdate files w) = hd (selected w) (listBackups w).
Proof.
  unfold performFilesUpdate, killIPCAS, timeSince, timeNow, addLog. cbv beta iota zeta.
  set (w1 := emits [ProgressShow; SetValue 0] (emits [Taskkill; AddLog LogKilled; Sleep500] w)).
  set (w2 := mkWorld (source w1) (target w1) (backups w1) (selected w1) (ui w1) (reads w1)
                     (clock w1) (S (ticks w1))).
  destruct (updateLoop_step (List.length files) (clock w1 (ticks w1)) files 0 w2)
    as [loop [SL _]].
  pose proof (selected_updateLoop (List.length files) (clock w1 (ticks w1)) files 0 w2) as HL.
  set (w3 := updateLoop (List.length files) (clock w1 (ticks w1)) 0 files w2) in *.
  set (w4 := emits [SetValue 1; ProgressHide] w3).
  set (w5 := mkWorld (source w4) (target w4) (backups w4) (selected w4) (ui w4) (reads w4)
                     (clock w4) (S (ticks w4))).
  set (m := AddLog (LogUpdateDone (List.length files)
                      (roundSecond (clock w4 (ticks w4) - clock w1 (ticks w1))))).
  set (w6 := emit (SetStatus StUpdateDone) (emit m w5)).
  cbn [emit selected]. rewrite selected_launchIPCAS.
  assert (Hb : backups w6 = backups w).
  { cbn [w6 w5 emit backups]. unfold w4. rewrite backups_emits, (step_backups SL).
    cbn [w2 backups]. unfold w1. rewrite !backups_emits. reflexivity. }
  assert (Hs : selected w6 = selected w).
  { cbn [w6 w5 emit selected]. unfold w4. rewrite selected_emits, HL.
    cbn [w2 selected]. unfold w1. rewrite !selected_emits. reflexivity. }
  unfold refreshBackups. rewrite (listBackups_ext w w6 Hb).
  destruct (listBackups w) as [|b l]; [exact Hs | reflexivity].
Qed.

Lemma prune_keeps (old : list string) (n : string) :
  forall w, ~ In n old -> entry n (backups (prune old w)) = entry n (backups w).
Proof.
  induction old as [|x old IH]; intros w Hn; [reflexivity|].
  cbn [prune].
  assert (Hx : x <> n) by (intros E; apply Hn; left; exact E).
  assert (H : entry n (backups (fst (osRemove x w))) = entry n (backups w)).
  { unfold osRemove. destruct (entry x (backups w)) as [f|]; [|reflexivity].
    destruct (is_locked f); [reflexivity|]. cbn [fst set_backups backups].
    apply entry_delEntry. congruence. }
  destruct (osRemove x w) as [w' e]. cbn [fst] in H.
  rewrite IH by (intros Hin; apply Hn; right; exact Hin).
  exact H.
Qed.

(** A backup whose name is greater than those of the archives present is
    made, kept, and becomes the first of the list. *)
Lemma createBackup_newest (stamp : string) (w : world) :
  unique (backups w) = true ->
  (forall n, In n (listBackups w) -> String.ltb n (backupName stamp) = true) ->
  exists w',
    createBackup stamp w = (w', None)
    /\ entry (backupName stamp) (backups w') = Some (Zip (archive_of (target w)) false)
    /\ hd EmptyString (listBackups w') = backupName stamp.
Proof.
  intros Hu Hnew. set (name := backupName stamp) in *.
  assert (Hnot : ~ In name (listBackups w)).
  { intros H. apply Hnew in H. rewrite ltb_irrefl in H. discriminate. }
  assert (Hfree : entry name (backups w) = None).
  { destruct (entry name (backups w)) as [f|] eqn:E; [|reflexivity].
    exfalso. apply Hnot. apply listBackups_In. split.
    - unfold readBackupDir. eapply entry_Some_name. exact E.
    - apply isBackup_backupName. }
  rewrite createBackup_eq. cbv zeta. fold name. rewrite Hfree.
  set (w1 := addLog (LogCreating name) w).
  set (w2 := set_backups (putEntry name (Zip [] true) (backups w)) w1).
  set (w3 := with_reads (List.map (fun e => (Target, fst e)) (files_of (target w))) w2).
  set (wp := prune (skipn 3 (listBackups w3)) w3).
  eexists. split; [reflexivity|].
  split; [unfold closeZip; cbn [backups set_backups]; apply entry_putEntry_same|].
  set (w' := closeZip name (archive_of (target w)) (addLog (LogBackupDone name) wp)).
  assert (Hu3 : unique (backups w3) = true).
  { cbn [w3 w2 w1 backups set_backups with_reads addLog emit]. apply putEntry_unique, Hu. }
  destruct (prune_weak (skipn 3 (listBackups w3)) w3 Hu3) as [Hup Hsub]. fold wp in Hup, Hsub.
  assert (Hu' : unique (backups w') = true).
  { unfold w', closeZip. cbn [backups set_backups addLog emit]. apply putEntry_unique, Hup. }
  assert (Hmax : forall x, In x (listBackups w') -> x = name \/ String.ltb x name = true).
  { intros x Hx. apply listBackups_In in Hx. destruct Hx as [Hx Hb].
    unfold readBackupDir, w', closeZip in Hx. cbn [backups set_backups addLog emit] in Hx.
    apply putEntry_names in Hx. destruct Hx as [->|Hx]; [left; reflexivity|].
    destruct (Hsub x Hx) as [Hx3 _].
    unfold readBackupDir in Hx3.
    cbn [w3 w2 w1 backups set_backups with_reads addLog emit] in Hx3.
    apply putEntry_names in Hx3. destruct Hx3 as [->|Hx3]; [left; reflexivity|].
    right. apply Hnew. apply listBackups_In. split; assumption. }
  assert (Hin : In name (listBackups w')).
  { apply listBackups_In. split; [|apply isBackup_backupName].
    unfold readBackupDir, w', closeZip. cbn [backups set_backups addLog emit].
    apply putEntry_names. left; reflexivity. }
  pose proof (listBackups_sorted _ Hu') as Hs'.
  destruct (listBackups w') as [|x l] eqn:El; [contradiction|].
  cbn [hd].
  destruct (Hmax x (or_introl eq_refl)) as [E|Hx]; [exact E|].
  destruct (sorted_head_max x name l Hs' Hin) as [E|Hlt]; [symmetry; exact E|].
  pose proof (ltb_trans _ _ _ Hx Hlt) as C. rewrite ltb_irrefl in C. discriminate.
Qed.

(** Restoring the archive of a tree writes back every file of that tree
    whose path can be written. *)
Lemma restore_archive_writes (S t : node) (p : path) (data : list byte) (a : attrs) :
  wf S = true ->
  lookup S p = Some (File data a) ->
  creatable t p = true ->
  exists a', lookup (fold_left restoreStep (archive_of S) t) p
             = Some (File (if readable a then data else []) a').
Proof.
  intros Hwf Hl Hcr.
  destruct (restore_writes p (if readable a then data else []) (archive_of S) t Hcr)
    as [_ H].
  - intros f Hf. destruct (archive_entry _ f Hwf Hf) as [Ho [Hr [d [a0 [Hlf Hd]]]]].
    split; [exact Ho|]. split; [exact Hr|].
    destruct (list_eq_dec string_dec (Name f) p) as [E|Hne].
    + left. split; [exact E|]. rewrite E, Hl in Hlf. inversion Hlf; subst. exact Hd.
    + right. split; intros Hp.
      * apply Hne. eapply files_not_nested; [exact Hl | exact Hlf | exact Hp].
      * apply Hne. symmetry. eapply files_not_nested; [exact Hlf | exact Hl | exact Hp].
  - apply H. right.
    exists (stored S (p, File data a)). split; [|reflexivity].
    unfold archive_of. apply in_map. apply (files_of_lookup _ _ _ Hwf). auto.
Qed.

Lemma doUpdate_backup_eq (md5Sum : list byte -> digest) (stamp : string) (w : world) :
  snd (fst (getFilesToUpdate md5Sum w)) <> [] ->
  exists wB,
    quiet w wB /\ backups wB = backups w
    /\ doUpdate md5Sum BackupThenUpdate stamp w
       = performFilesUpdate (snd (fst (getFilesToUpdate md5Sum w)))
           match createBackup stamp wB with
           | (wb, Some e) => addLog (LogBackupErr e) wb
           | (wb, None) => refreshBackups (addLog LogBackupOk wb)
           end.
Proof.
  intros Hne. unfold doUpdate, saveConfig.
  set (es := [SetStatus StChecking; ProgressShow; SetValue 0; AddLog LogCheckFrom]).
  set (w0 := emits es (addLog LogConfigSaved w)).
  assert (Q0 : quiet w (fst (fst (getFilesToUpdate md5Sum w0)))).
  { eapply quiet_trans; [apply (quiet_emits [AddLog LogConfigSaved] w)|];
      [reflexivity | intros [H|[]]; discriminate |].
    apply checked_quiet; [reflexivity|].
    intros H. repeat (destruct H as [H|H]; [discriminate|]). exact H. }
  destruct (getFilesToUpdate_files_ext md5Sum w w0) as [Hf He];
    [reflexivity | reflexivity |].
  pose proof (getFilesToUpdate_world md5Sum w0) as [_ [_ [Hb _]]].
  destruct (getFilesToUpdate md5Sum w0) as [[wc files0] err0].
  cbn [fst snd] in Q0, Hf, He, Hb. subst err0. rewrite <- Hf in *. clear Hf.
  destruct files0 as [|f files']; [congruence|].
  set (files := f :: files') in *.
  set (wB := emits [AddLog LogBackupFirst; SetStatus StBackingUp]
               (emit (ShowMsg (AskUpdate (List.length files)))
                  (addLog (LogNeed (List.length files)) (emit ProgressHide wc)))).
  exists wB. split; [|split].
  - eapply quiet_trans; [exact Q0|].
    apply (quiet_emits [ProgressHide; AddLog (LogNeed (List.length files));
                        ShowMsg (AskUpdate (List.length files));
                        AddLog LogBackupFirst; SetStatus StBackingUp] wc); [reflexivity|].
    intros H. repeat (destruct H as [H|H]; [discriminate|]). exact H.
  - unfold wB. rewrite backups_emits. cbn [emit addLog backups]. rewrite Hb.
    unfold w0. rewrite backups_emits. reflexivity.
  - fold wB. destruct (createBackup stamp wB) as [wb [e|]]; reflexivity.
Qed.

(** X11. Update with a backup, then restore at once: every regular file
    the target had before the update, if it could be written, has its
    bytes again (none, if it could not be read when the archive was made)
    and its attributes. The time stamp of the backup is taken to be later
    than those of the archives present, and the change set not to be
    empty, so that the backup is made and selected. *)
Theorem update_then_restore (md5Sum : list byte -> digest) (stamp : string) (w : world)
        (p : path) (data : list byte) (a : attrs) :
  wf (target w) = true ->
  unique (backups w) = true ->
  (forall n, In n (listBackups w) -> String.ltb n (backupName stamp) = true) ->
  snd (fst (getFilesToUpdate md5Sum w)) <> [] ->
  lookup (target w) p = Some (File data a) ->
  writable a = true ->
  lookup (target (doRestore (doUpdate md5Sum BackupThenUpdate stamp w))) p
  = Some (File (if readable a then data else []) a).
Proof.
  intros Hwf Hu Hnew Hne Hl Hwr.
  destruct (doUpdate_backup_eq md5Sum stamp w Hne) as [wB [QB [HbB ->]]].
  set (files := snd (fst (getFilesToUpdate md5Sum w))).
  destruct QB as [evB [_ [_ [_ [HtB HsB]]]]].
  destruct (createBackup_newest stamp wB) as [wb [Hc [Hentry Hhd]]].
  { rewrite HbB. exact Hu. }
  { intros n Hn. apply Hnew. rewrite <- (listBackups_ext w wB HbB). exact Hn. }
  pose proof (createBackup_quiet stamp wB) as [evb [_ [_ [_ [Htb Hsb]]]]].
  rewrite Hc in *. cbn [fst] in Htb, Hsb.
  set (wX := refreshBackups (addLog LogBackupOk wb)).
  assert (HbX : backups wX = backups wb)
    by exact (step_backups (step_refreshBackups (addLog LogBackupOk wb))).
  assert (HtX : target wX = target w).
  { unfold wX. rewrite target_refreshBackups. cbn [addLog emit target]. congruence. }
  set (wU := performFilesUpdate files wX).
  assert (HbU : backups wU = backups wb).
  { destruct (performFilesUpdate_step files wX) as [e St].
    fold wU in St. rewrite (step_backups St). exact HbX. }
  assert (Hname : String.eqb (backupName stamp) EmptyString = false) by reflexivity.
  assert (HsU : selected wU = backupName stamp).
  { unfold wU. rewrite selected_performFilesUpdate, (listBackups_ext wb wX HbX).
    destruct (listBackups wb) as [|b l]; [|exact Hhd].
    cbn [hd] in Hhd. rewrite <- Hhd in Hname. discriminate. }
  assert (HtU : target wU = applyAll (source wX) (target w) files).
  { unfold wU. rewrite target_performFilesUpdate, HtX. reflexivity. }
  destruct (file_stays_applyAll (source wX) p a files (target w) data Hl) as [d1 [H1 _]].
  rewrite <- HtU in H1.
  assert (Hcr : creatable (target wU) p = true)
    by (eapply written_stays_creatable; eassumption).
  assert (HR : target (doRestore wU)
               = fold_left restoreStep (archive_of (target w)) (target wU)).
  { apply (target_doRestore wU _ false).
    - rewrite HsU. exact Hname.
    - rewrite HsU, HbU, Hentry, HtB. reflexivity. }
  rewrite HR.
  destruct (restore_archive_writes (target w) (target wU) p data a Hwf Hl Hcr) as [a' Ha'].
  destruct (file_stays_restore p a (archive_of (target w)) (target wU) d1 H1) as [d2 H2].
  rewrite H2 in Ha'. inversion Ha'; subst. exact H2.
Qed.

Lemma update_then_restore_witness :
  lookup (target worldFourChanged) ["a.txt"%string] = Some (File [x31] plain)
  /\ lookup (target (doUpdate sampleSum BackupThenUpdate "20260101_000009" worldFourChanged))
            ["a.txt"%string] = Some (File [x39] plain)
  /\ lookup (target (doRestore
                       (doUpdate sampleSum BackupThenUpdate "20260101_000009"
                          worldFourChanged)))
            ["a.txt"%string] = Some (File [x31] plain).
Proof.
  split; [reflexivity|]. split; [reflexivity|].
  apply (update_then_restore sampleSum "20260101_000009" worldFourChanged ["a.txt"%string]
           [x31] plain);
    [reflexivity | reflexivity | | vm_compute; discriminate | reflexivity | reflexivity].
  intros n H. vm_compute in H.
  repeat (destruct H as [H|H]; [rewrite <- H; reflexivity|]). contradiction.
Defined.

(** * Further properties of the scan tab *)

Lemma wf_lookup (p : path) :
  forall t n, wf t = true -> lookup t p = Some n -> wf n = true.
Proof.
  induction p as [|c p IH]; intros t n Hwf Hl; simpl in Hl.
  - inversion Hl; subst. exact Hwf.
  - destruct t as [|es ok]; [discriminate|].
    destruct (entry c es) as [x|] eqn:Ec; [|discriminate].
    apply wf_Dir in Hwf. destruct Hwf as [_ Hall]. rewrite Forall_forall in Hall.
    apply (IH x n); [|exact Hl]. exact (Hall _ (entry_In _ _ _ _ Ec)).
Qed.

(** The files a walk of [filepath.Walk] reports: those it can get to. *)
Lemma walk_leaves_lookup (d : node) :
  wf d = true ->
  forall p0 q n,
    In (q, n) (leaves (walkCalls p0 d)) <->
    exists rel, q = p0 ++ rel /\ lookup d rel = Some n /\ IsDir n = false
                /\ reachable d rel = true.
Proof.
  induction d as [data a | es ok IH] using node_nested_ind; intros Hwf p0 q n.
  - simpl. split.
    + intros [E|[]]. inversion E; subst. exists []. rewrite app_nil_r. auto.
    + intros [rel [-> [Hl [Hd _]]]]. destruct rel; simpl in Hl; [|discriminate].
      inversion Hl; subst. rewrite app_nil_r. left; reflexivity.
  - apply wf_Dir in Hwf. destruct Hwf as [Hu Hall].
    cbn [walkCalls]. destruct ok.
    + rewrite leaves_cons_dir, In_leaves_flat_map. split.
      * intros [[name d1] [HIn Hq]]. simpl in Hq.
        rewrite Forall_forall in IH, Hall.
        apply (IH _ HIn (Hall _ HIn)) in Hq. destruct Hq as [rel [-> [Hl [Hd Hr]]]].
        exists (name :: rel). rewrite <- app_assoc. split; [reflexivity|].
        simpl. rewrite (In_entry _ _ _ _ Hu HIn). auto.
      * intros [rel [-> [Hl [Hd Hr]]]].
        destruct rel as [|c rel]; simpl in Hl, Hr.
        { inversion Hl; subst. discriminate. }
        destruct (entry c es) as [d1|] eqn:Ec; [|discriminate].
        apply entry_In in Ec. exists (c, d1). split; [assumption|].
        rewrite Forall_forall in IH, Hall. simpl.
        apply (IH _ Ec (Hall _ Ec)). exists rel. rewrite <- app_assoc. auto.
    + rewrite leaves_cons_dir. split; [intros []|].
      intros [rel [-> [Hl [Hd Hr]]]]. destruct rel as [|c rel]; simpl in Hl, Hr.
      * inversion Hl; subst. discriminate.
      * discriminate.
Qed.

(** [isHidden] on a regular file: the bit, or the failure of
    [GetFileAttributes]. *)
Lemma isHidden_file (t : node) (q : path) (d : list byte) (a : attrs) :
  lookup t q = Some (File d a) -> Scan.isHidden t q = hidden a || negb (known a).
Proof.
  intros Hl. unfold Scan.isHidden, Scan.GetFileAttributes. rewrite Hl.
  destruct (known a); [rewrite orb_false_r | rewrite orb_true_r]; reflexivity.
Qed.

(** What the callback of [scanFiles] appends, in terms of the files
    visited. *)
Lemma In_hits (store : option node) (calls : list call) (f : Scan.FileInfo) :
  In f (flat_map (Scan.hit store) calls) <->
  exists q n t,
    In (q, n) (leaves calls) /\ store = Some t
    /\ f = Scan.mkFileInfo q (Size n)
    /\ Scan.ToLower (Scan.baseName q) = "ipcas2.ini"%string
    /\ Scan.isHidden t q = true.
Proof.
  rewrite in_flat_map. unfold leaves. split.
  - intros [[[q d] e] [Hc Hf]]. unfold Scan.hit in Hf.
    destruct d as [n|]; [|contradiction]. destruct e; [contradiction|].
    destruct (IsDir n) eqn:Ed; [contradiction|].
    destruct (String.eqb (Scan.ToLower (Scan.baseName q)) "ipcas2.ini") eqn:En;
      [|contradiction].
    destruct store as [t|]; [|contradiction]. cbn [andb] in Hf.
    destruct (Scan.isHidden t q) eqn:Eh; [|contradiction].
    destruct Hf as [<-|[]]. exists q, n, t.
    split; [|split; [reflexivity|split; [reflexivity|split; [apply String.eqb_eq; exact En|exact Eh]]]].
    apply in_flat_map. exists (q, Some n, None). split; [exact Hc|].
    rewrite Ed. left; reflexivity.
  - intros [q [n [t [Hl [-> [-> [Hn Hh]]]]]]].
    apply in_flat_map in Hl. destruct Hl as [[[q' d] e] [Hc Hx]].
    destruct d as [n'|]; [|contradiction]. destruct e; [contradiction|].
    destruct (IsDir n') eqn:Ed; [contradiction|].
    destruct Hx as [E|[]]. inversion E; subst q' n'.
    exists (q, Some n, None). split; [exact Hc|].
    unfold Scan.hit. rewrite Ed, Hn, Hh. left; reflexivity.
Qed.

Lemma scanFiles_hits (store : option node) (stop : Scan.stopchan) :
  Scan.scanFiles store stop
  = flat_map (Scan.hit store)
      match stop with
      | Some k => firstn k (Scan.scanCalls store)
      | None => Scan.scanCalls store
      end.
Proof.
  unfold Scan.scanFiles, Scan.scanCalls. rewrite !scanRoot_eq.
  destruct stop as [k|].
  - destruct store as [t|]; [|destruct k; reflexivity].
    change (Stat t []) with (Some t).
    rewrite run_found_stop. cbn [app].
    rewrite run_found_stop. cbn [snd]. rewrite firstn_app, flat_map_app. reflexivity.
  - destruct store as [t|]; [|reflexivity].
    change (Stat t []) with (Some t).
    rewrite run_found_never. cbn [fst app]. rewrite run_found_never. cbn [fst snd].
    rewrite flat_map_app. reflexivity.
Qed.

Lemma In_scanCalls_leaves (t : node) (q : path) (n : node) :
  wf t = true ->
  In (q, n) (leaves (Scan.scanCalls (Some t))) ->
  lookup t q = Some n /\ IsDir n = false.
Proof.
  intros Hwf. unfold Scan.scanCalls. rewrite leaves_app, in_app_iff. intros [H|H].
  - unfold Stat in H. destruct (lookup t ["Windows"%string]) as [dW|] eqn:EW; [|contradiction].
    apply (walk_leaves_lookup dW (wf_lookup _ _ _ Hwf EW)) in H.
    destruct H as [rel [-> [Hl [Hd _]]]]. rewrite lookup_app, EW. auto.
  - apply (walk_leaves_lookup t Hwf) in H.
    destruct H as [rel [-> [Hl [Hd _]]]]. auto.
Qed.

Lemma leaves_firstn (k : nat) (calls : list call) (x : path * node) :
  In x (leaves (firstn k calls)) -> In x (leaves calls).
Proof.
  unfold leaves. rewrite !in_flat_map. intros [c [Hc Hx]].
  exists c. split; [eapply In_firstn; exact Hc | exact Hx].
Qed.

(** X12. Whatever the scan returns, and whenever it is stopped, is a
    regular file of the [VirtualStore] whose name is [ipcas2.ini] up to
    the case of its letters, reported with its size; it is hidden, or its
    attributes cannot be read: [isHidden] drops the error of
    [GetFileAttributes] and finds the bit in the value that comes with
    it. *)
Theorem scan_finds_only_hidden_ini (t : node) (stop : Scan.stopchan) (f : Scan.FileInfo) :
  wf t = true ->
  In f (Scan.scanFiles (Some t) stop) ->
  exists d a,
    lookup t (Scan.Path f) = Some (File d a)
    /\ (hidden a = true \/ known a = false)
    /\ Scan.ToLower (Scan.baseName (Scan.Path f)) = "ipcas2.ini"%string
    /\ Scan.FSize f = Z.of_nat (List.length d).
Proof.
  intros Hwf Hin. rewrite scanFiles_hits in Hin. apply In_hits in Hin.
  destruct Hin as [q [n [t' [Hl [Ht [-> [Hn Hh]]]]]]]. inversion Ht; subst t'. clear Ht.
  assert (Hl' : In (q, n) (leaves (Scan.scanCalls (Some t)))).
  { destruct stop as [k|]; [eapply leaves_firstn; exact Hl | exact Hl]. }
  destruct (In_scanCalls_leaves t q n Hwf Hl') as [Hq Hd].
  destruct n as [d a|]; [|discriminate].
  exists d, a. cbn [Scan.Path Scan.FSize Size].
  rewrite (isHidden_file t q d a Hq) in Hh. apply orb_true_iff in Hh.
  split; [exact Hq|]. split; [|auto].
  destruct Hh as [Hh|Hh]; [left; exact Hh | right].
  destruct (known a); [discriminate | reflexivity].
Qed.

(** The theorem of X12 on two stores: a hidden [IPCAS2.ini], and a file
    named with the capital I with a dot, not hidden, whose attributes
    cannot be read. *)
Lemma scan_finds_only_hidden_ini_witness :
  wf (Dir [("IPCAS2.ini"%string, Scan.hiddenFile [x41])] true) = true
  /\ (exists d a,
        lookup (Dir [("IPCAS2.ini"%string, Scan.hiddenFile [x41])] true)
               ["IPCAS2.ini"%string] = Some (File d a)
        /\ (hidden a = true \/ known a = false)
        /\ Scan.ToLower (Scan.baseName ["IPCAS2.ini"%string]) = "ipcas2.ini"%string
        /\ 1%Z = Z.of_nat (List.length d))
  /\ Scan.scanFiles (Some hazyTree) None = [Scan.mkFileInfo [dottedName] 1]
  /\ exists d a,
       lookup hazyTree [dottedName] = Some (File d a)
       /\ (hidden a = true \/ known a = false)
       /\ Scan.ToLower (Scan.baseName [dottedName]) = "ipcas2.ini"%string
       /\ 1%Z = Z.of_nat (List.length d).
Proof.
  split; [reflexivity|]. split; [|split; [reflexivity|]].
  - apply (scan_finds_only_hidden_ini
             (Dir [("IPCAS2.ini"%string, Scan.hiddenFile [x41])] true) None
             (Scan.mkFileInfo ["IPCAS2.ini"%string] 1)); [reflexivity|].
    left. reflexivity.
  - apply (scan_finds_only_hidden_ini hazyTree None (Scan.mkFileInfo [dottedName] 1));
      [reflexivity|].
    left. reflexivity.
Defined.

(** X13. A scan that is not stopped misses nothing it can get to: every
    hidden regular file named [ipcas2.ini], in any case of the letters,
    below directories that can be listed, is in the result with its
    size. *)
Theorem scan_finds_every_hidden_ini (t : node) (p : path) (d : list byte) (a : attrs) :
  wf t = true ->
  lookup t p = Some (File d a) ->
  hidden a = true ->
  Scan.ToLower (Scan.baseName p) = "ipcas2.ini"%string ->
  reachable t p = true ->
  In (Scan.mkFileInfo p (Z.of_nat (List.length d))) (Scan.scanFiles (Some t) None).
Proof.
  intros Hwf Hl Hh Hn Hr. rewrite scanFiles_hits. apply In_hits.
  exists p, (File d a), t. split; [|split; [reflexivity|split; [reflexivity|split; [exact Hn|]]]].
  - unfold Scan.scanCalls. rewrite leaves_app. apply in_or_app. right.
    apply (walk_leaves_lookup t Hwf). exists p. auto.
  - rewrite (isHidden_file t p d a Hl), Hh. reflexivity.
Qed.

Lemma scan_finds_every_hidden_ini_witness :
  lookup sampleTree ["Windows"%string; "ipcas2.ini"%string]
  = Some (File [x42; x42] (mkAttrs true true true))
  /\ In (Scan.mkFileInfo ["Windows"%string; "ipcas2.ini"%string] 2)
        (Scan.scanFiles (Some sampleTree) None).
Proof.
  split; [reflexivity|].
  apply (scan_finds_every_hidden_ini sampleTree ["Windows"%string; "ipcas2.ini"%string]
           [x42; x42] (mkAttrs true true true)); reflexivity.
Defined.

(** X14. The two roots of the scan overlap: a hidden [ipcas2.ini] below
    [VirtualStore\Windows] that the walk can get to is met by both walks,
    and a scan that is not stopped lists it twice. *)
Theorem scan_lists_windows_files_twice (t : node) (rel : path) (d : list byte) (a : attrs) :
  wf t = true ->
  lookup t ("Windows"%string :: rel) = Some (File d a) ->
  hidden a = true ->
  Scan.ToLower (Scan.baseName ("Windows"%string :: rel)) = "ipcas2.ini"%string ->
  reachable t ("Windows"%string :: rel) = true ->
  exists l1 l2 l3,
    Scan.scanFiles (Some t) None
    = l1 ++ Scan.mkFileInfo ("Windows"%string :: rel) (Z.of_nat (List.length d))
         :: l2 ++ Scan.mkFileInfo ("Windows"%string :: rel) (Z.of_nat (List.length d)) :: l3.
Proof.
  intros Hwf Hl Hh Hn Hr. rewrite scanFiles_hits. unfold Scan.scanCalls.
  rewrite flat_map_app.
  set (f := Scan.mkFileInfo ("Windows"%string :: rel) (Z.of_nat (List.length d))).
  assert (Hhid : Scan.isHidden t ("Windows"%string :: rel) = true)
    by (rewrite (isHidden_file _ _ d a Hl), Hh; reflexivity).
  assert (H2 : In f (flat_map (Scan.hit (Some t)) (walkCalls [] t))).
  { apply In_hits. exists ("Windows"%string :: rel), (File d a), t.
    split; [|auto].
    apply (walk_leaves_lookup t Hwf). exists ("Windows"%string :: rel). auto. }
  assert (H1 : In f (flat_map (Scan.hit (Some t))
                       match Stat t ["Windows"%string] with
                       | Some dW => walkCalls ["Windows"%string] dW
                       | None => []
                       end)).
  { unfold Stat. destruct t as [|es ok]; [discriminate|]. simpl in Hl, Hr |- *.
    destruct ok; [|discriminate].
    destruct (entry "Windows" es) as [dW|] eqn:EW; [|discriminate].
    apply In_hits. exists ("Windows"%string :: rel), (File d a), (Dir es true).
    split; [|auto].
    assert (HwW : wf dW = true).
    { apply (wf_lookup ["Windows"%string] (Dir es true) dW Hwf). simpl. rewrite EW.
      reflexivity. }
    apply (walk_leaves_lookup dW HwW). exists rel. auto. }
  apply in_split in H1. destruct H1 as [a1 [b1 E1]].
  apply in_split in H2. destruct H2 as [a2 [b2 E2]].
  exists a1, (b1 ++ a2), b2. rewrite E1, E2.
  rewrite <- !app_assoc. reflexivity.
Qed.

Lemma scan_lists_windows_files_twice_witness :
  lookup sampleTree ["Windows"%string; "ipcas2.ini"%string]
  = Some (File [x42; x42] (mkAttrs true true true))
  /\ exists l1 l2 l3,
       Scan.scanFiles (Some sampleTree) None
       = l1 ++ Scan.mkFileInfo ["Windows"%string; "ipcas2.ini"%string] 2
            :: l2 ++ Scan.mkFileInfo ["Windows"%string; "ipcas2.ini"%string] 2 :: l3.
Proof.
  split; [reflexivity|].
  apply (scan_lists_windows_files_twice sampleTree ["ipcas2.ini"%string]
           [x42; x42] (mkAttrs true true true)); reflexivity.
Defined.

(** ** Deleting files of the [VirtualStore] *)

Lemma In_replaceEntry (A : Type) (name : string) (x : A) (l : list (string * A)) (e : string * A) :
  In e (replaceEntry name x l) -> e = (name, x) \/ In e l.
Proof.
  induction l as [|[n y] l IH]; simpl; [tauto|].
  destruct (String.eqb_spec n name) as [->|Hne]; simpl.
  - intros [<-|H]; auto.
  - intros [<-|H]; auto. destruct (IH H); auto.
Qed.

Lemma In_insertEntry (A : Type) (name : string) (x : A) (l : list (string * A)) (e : string * A) :
  In e (insertEntry name x l) -> e = (name, x) \/ In e l.
Proof.
  induction l as [|[n y] l IH]; simpl.
  - intros [<-|[]]; auto.
  - destruct (String.ltb name n); simpl.
    + intros [<-|[<-|H]]; auto.
    + intros [<-|H]; auto. destruct (IH H); auto.
Qed.

Lemma In_putEntry (A : Type) (name : string) (x : A) (l : list (string * A)) (e : string * A) :
  In e (putEntry name x l) -> e = (name, x) \/ In e l.
Proof.
  unfold putEntry. destruct (entry name l); [apply In_replaceEntry | apply In_insertEntry].
Qed.

Lemma In_delEntry (A : Type) (name : string) (l : list (string * A)) (e : string * A) :
  In e (delEntry name l) -> In e l.
Proof.
  induction l as [|[n y] l IH]; simpl; [tauto|].
  destruct (String.eqb n name); simpl; [auto|]. intros [<-|H]; auto.
Qed.

Lemma wf_putEntry (c : string) (x : node) (es : list (string * node)) (ok : bool) :
  wf (Dir es ok) = true -> wf x = true -> wf (Dir (putEntry c x es) ok) = true.
Proof.
  intros Hwf Hx. apply wf_Dir in Hwf. destruct Hwf as [Hu Hall]. apply wf_Dir.
  split; [apply putEntry_unique; exact Hu|].
  rewrite Forall_forall in *. intros e He. apply In_putEntry in He.
  destruct He as [->|He]; [exact Hx | exact (Hall _ He)].
Qed.

Lemma wf_delEntry (c : string) (es : list (string * node)) (ok : bool) :
  wf (Dir es ok) = true -> wf (Dir (delEntry c es) ok) = true.
Proof.
  intros Hwf. apply wf_Dir in Hwf. destruct Hwf as [Hu Hall]. apply wf_Dir.
  split; [apply delEntry_unique; exact Hu|].
  rewrite Forall_forall in *. intros e He. apply In_delEntry in He. exact (Hall _ He).
Qed.

Lemma wf_entry (c : string) (x : node) (es : list (string * node)) (ok : bool) :
  wf (Dir es ok) = true -> entry c es = Some x -> wf x = true.
Proof.
  intros Hwf Hc. apply (wf_lookup [c] (Dir es ok) x Hwf). simpl. rewrite Hc. reflexivity.
Qed.

Lemma wf_setAttrs (f : attrs -> attrs) (p : path) :
  forall t, wf t = true -> wf (setAttrs f t p) = true.
Proof.
  induction p as [|c p IH]; intros t Hwf.
  - destruct t; [reflexivity | exact Hwf].
  - destruct t as [|es ok]; [reflexivity|]. simpl.
    destruct (entry c es) as [x|] eqn:Ec; [|exact Hwf].
    apply wf_putEntry; [exact Hwf|]. apply IH. eapply wf_entry; eassumption.
Qed.

Lemma lookup_setAttrs_same (f : attrs -> attrs) (p : path) :
  forall t,
    lookup (setAttrs f t p) p
    = match lookup t p with
      | Some (File d a) => Some (File d (f a))
      | x => x
      end.
Proof.
  induction p as [|c p IH]; intros t.
  - destruct t; reflexivity.
  - destruct t as [|es ok]; [reflexivity|]. simpl.
    destruct (entry c es) as [x|] eqn:Ec; simpl.
    + rewrite entry_putEntry_same. apply IH.
    + rewrite Ec. reflexivity.
Qed.

(** A file seen after [setAttrs] was there before, with the same bytes,
    and with the same attributes unless it is the file changed. *)
Lemma lookup_setAttrs_file (f : attrs -> attrs) (q : path) :
  forall t p d a',
    lookup (setAttrs f t p) q = Some (File d a') ->
    exists a, lookup t q = Some (File d a) /\ (a' = a \/ (q = p /\ a' = f a)).
Proof.
  induction q as [|c' q IH]; intros t p d a' Hl.
  - simpl in Hl. inversion Hl as [E]. clear Hl.
    destruct p as [|c p]; destruct t as [d0 a0|es ok]; simpl in E.
    + inversion E; subst. exists a0. split; [reflexivity | right; auto].
    + discriminate.
    + inversion E; subst. exists a'. auto.
    + destruct (entry c es); discriminate.
  - destruct p as [|c p]; destruct t as [d0 a0|es ok]; simpl in Hl; try discriminate.
    + exists a'. auto.
    + destruct (entry c es) as [x|] eqn:Ec.
      * simpl in Hl. rewrite entry_putEntry in Hl.
        destruct (String.eqb_spec c c') as [->|Hne].
        -- destruct (IH _ _ _ _ Hl) as [a [Ha Hor]]. exists a. simpl. rewrite Ec.
           split; [exact Ha|]. destruct Hor as [->|[-> ->]]; auto.
        -- exists a'. auto.
      * exists a'. auto.
Qed.

Lemma file_survives_setAttrs (f : attrs -> attrs) (q : path) :
  forall t p d a,
    lookup t q = Some (File d a) -> q <> p ->
    lookup (setAttrs f t p) q = Some (File d a).
Proof.
  induction q as [|c' q IH]; intros t p d a Hl Hne.
  - simpl in Hl. inversion Hl; subst. destruct p; [congruence | reflexivity].
  - destruct t as [|es ok]; [discriminate|]. simpl in Hl.
    destruct (entry c' es) as [y|] eqn:Ec'; [|discriminate].
    destruct p as [|c p]; simpl; [rewrite Ec'; exact Hl|].
    destruct (entry c es) as [x|] eqn:Ec; simpl.
    + rewrite entry_putEntry. destruct (String.eqb_spec c c') as [->|Hc].
      * rewrite Ec' in Ec. inversion Ec; subst x. apply IH; [exact Hl | congruence].
      * rewrite Ec'. exact Hl.
    + rewrite Ec'. exact Hl.
Qed.

Lemma removeAt_Dir (c : string) (p' : path) (es : list (string * node)) (ok : bool) :
  removeAt (Dir es ok) (c :: p')
  = match entry c es with
    | None => None
    | Some x =>
        match p' with
        | [] => if removable x then Some (Dir (delEntry c es) ok) else None
        | _ :: _ =>
            match removeAt x p' with
            | Some x' => Some (Dir (putEntry c x' es) ok)
            | None => None
            end
        end
    end.
Proof. reflexivity. Qed.

(** What is seen after a removal was there before. *)
Lemma lookup_removeAt_file (p : path) :
  forall t t' q d a,
    wf t = true -> removeAt t p = Some t' ->
    lookup t' q = Some (File d a) -> lookup t q = Some (File d a).
Proof.
  induction p as [|c p IH]; intros t t' q d a Hwf Hr Hl; [discriminate|].
  destruct t as [|es ok]; [discriminate|]. rewrite removeAt_Dir in Hr.
  destruct (entry c es) as [x|] eqn:Ec; [|discriminate].
  pose proof Hwf as Hwf'. apply wf_Dir in Hwf'. destruct Hwf' as [Hu _].
  destruct p as [|c2 p2].
  - destruct (removable x); [|discriminate]. inversion Hr; subst t'. clear Hr.
    destruct q as [|c' q]; [discriminate|]. simpl in Hl |- *.
    destruct (String.eqb_spec c' c) as [->|Hne].
    + rewrite (entry_delEntry_same _ c es Hu) in Hl. discriminate.
    + rewrite entry_delEntry in Hl by exact Hne. exact Hl.
  - destruct (removeAt x (c2 :: p2)) as [x'|] eqn:Ex; [|discriminate].
    inversion Hr; subst t'. clear Hr.
    destruct q as [|c' q]; [discriminate|]. simpl in Hl |- *.
    rewrite entry_putEntry in Hl. destruct (String.eqb_spec c c') as [->|Hne].
    + rewrite Ec. eapply IH; [eapply wf_entry; eassumption | exact Ex | exact Hl].
    + exact Hl.
Qed.

Lemma lookup_removeAt_same (p : path) :
  forall t t', wf t = true -> removeAt t p = Some t' -> lookup t' p = None.
Proof.
  induction p as [|c p IH]; intros t t' Hwf Hr; [discriminate|].
  destruct t as [|es ok]; [discriminate|]. rewrite removeAt_Dir in Hr.
  destruct (entry c es) as [x|] eqn:Ec; [|discriminate].
  pose proof Hwf as Hwf'. apply wf_Dir in Hwf'. destruct Hwf' as [Hu _].
  destruct p as [|c2 p2].
  - destruct (removable x); [|discriminate]. inversion Hr; subst t'. simpl.
    rewrite (entry_delEntry_same _ c es Hu). reflexivity.
  - destruct (removeAt x (c2 :: p2)) as [x'|] eqn:Ex; [|discriminate].
    inversion Hr; subst t'. cbn [lookup]. rewrite entry_putEntry_same.
    eapply IH; [eapply wf_entry; eassumption | exact Ex].
Qed.

Lemma wf_removeAt (p : path) :
  forall t t', wf t = true -> removeAt t p = Some t' -> wf t' = true.
Proof.
  induction p as [|c p IH]; intros t t' Hwf Hr; [discriminate|].
  destruct t as [|es ok]; [discriminate|]. rewrite removeAt_Dir in Hr.
  destruct (entry c es) as [x|] eqn:Ec; [|discriminate].
  destruct p as [|c2 p2].
  - destruct (removable x); [|discriminate]. inversion Hr; subst t'.
    apply wf_delEntry. exact Hwf.
  - destruct (removeAt x (c2 :: p2)) as [x'|] eqn:Ex; [|discriminate].
    inversion Hr; subst t'. apply wf_putEntry; [exact Hwf|].
    eapply IH; [eapply wf_entry; eassumption | exact Ex].
Qed.

Lemma file_survives_removeAt (q : path) :
  forall t p t' d a,
    lookup t q = Some (File d a) -> q <> p -> removeAt t p = Some t' ->
    lookup t' q = Some (File d a).
Proof.
  induction q as [|c' q IH]; intros t p t' d a Hl Hne Hr.
  - simpl in Hl. inversion Hl; subst. destruct p; discriminate.
  - destruct t as [|es ok]; [discriminate|]. simpl in Hl.
    destruct (entry c' es) as [y|] eqn:Ec'; [|discriminate].
    destruct p as [|c p]; [discriminate|]. rewrite removeAt_Dir in Hr.
    destruct (entry c es) as [x|] eqn:Ec; [|discriminate].
    destruct p as [|c2 p2].
    + destruct (removable x) eqn:Erm; [|discriminate]. inversion Hr; subst t'. simpl.
      destruct (String.eqb_spec c' c) as [->|Hc].
      * exfalso. rewrite Ec' in Ec. inversion Ec; subst y.
        destruct q as [|c3 q]; [congruence|].
        destruct x as [d0 a0|[|e0 es0] ok0]; simpl in Hl, Erm; discriminate.
      * rewrite entry_delEntry by exact Hc. rewrite Ec'. exact Hl.
    + destruct (removeAt x (c2 :: p2)) as [x'|] eqn:Ex; [|discriminate].
      inversion Hr; subst t'. simpl. rewrite entry_putEntry.
      destruct (String.eqb_spec c c') as [->|Hc].
      * rewrite Ec' in Ec. inversion Ec; subst y.
        eapply IH; [exact Hl | | exact Ex]. congruence.
      * rewrite Ec'. exact Hl.
Qed.

Section DeletingFacts.
Variable attrOK : path -> bool.
Variable removeOK : path -> bool.

Lemma Remove_cases (store : option node) (p : path) :
  fst (Remove removeOK store p) = store
  \/ (exists t t', store = Some t /\ removeAt t p = Some t'
                   /\ Remove removeOK store p = (Some t', None))
  \/ (exists t, store = Some t /\ p = [] /\ removable t = true
                /\ Remove removeOK store p = (None, None)).
Proof.
  unfold Remove. destruct store as [t|]; [|left; reflexivity].
  destruct (removeOK p); cbn [negb]; [|left; reflexivity].
  destruct p as [|c p].
  - destruct (removable t) eqn:E; [|left; reflexivity].
    right. right. exists t. auto.
  - destruct (removeAt t (c :: p)) as [t'|] eqn:E; [|left; reflexivity].
    right. left. exists t, t'. auto.
Qed.

(** The tree [delFile] hands to [os.Remove]. *)
Lemma delFile_eq (t : node) (p : path) :
  delFile attrOK removeOK (Some t) p
  = Remove removeOK
      (Some (if Scan.isHidden t p && attrOK p then setAttrs unhide t p else t)) p.
Proof. unfold delFile. destruct (Scan.isHidden t p && attrOK p); reflexivity. Qed.

Lemma fromStore_refl (store : option node) : fromStore store store.
Proof. intros q d a' H. exists a'. auto. Qed.

Lemma fromStore_trans (s1 s2 s3 : option node) :
  fromStore s1 s2 -> fromStore s2 s3 -> fromStore s1 s3.
Proof.
  intros H12 H23 q d a3 H3.
  destruct (H23 q d a3 H3) as [a2 [H2 [K2 I2]]].
  destruct (H12 q d a2 H2) as [a1 [H1 [K1 I1]]].
  exists a1. split; [exact H1|]. split; [congruence | auto].
Qed.

(** One call of [delFile]: the tree stays well formed, every file left
    was there, none has become hidden, and the file itself, if it is
    still there, has lost the hidden bit when its attributes could be
    set. *)
Lemma delFile_from (store : option node) (p : path) :
  wfIn store = true ->
  wfIn (fst (delFile attrOK removeOK store p)) = true
  /\ fromStore store (fst (delFile attrOK removeOK store p))
  /\ (attrOK p = true ->
      forall d a', lookupIn (fst (delFile attrOK removeOK store p)) p = Some (File d a') ->
                   hidden a' = false).
Proof.
  intros Hwf. destruct store as [t|];
    [|cbn; split; [reflexivity|]; split;
      [intros q d a' H; discriminate | intros _ d a' H; discriminate]].
  cbn [wfIn] in Hwf. rewrite delFile_eq.
  set (t1 := if Scan.isHidden t p && attrOK p then setAttrs unhide t p else t).
  assert (Hwf1 : wf t1 = true).
  { unfold t1. destruct (_ && _); [apply wf_setAttrs|]; exact Hwf. }
  assert (H1 : fromStore (Some t) (Some t1)).
  { intros q d a' Hl. cbn [lookupIn] in *. unfold t1 in Hl.
    destruct (Scan.isHidden t p && attrOK p); [|exists a'; auto].
    destruct (lookup_setAttrs_file _ _ _ _ _ _ Hl) as [a [Ha Hor]].
    exists a. split; [exact Ha|].
    destruct Hor as [->|[_ ->]]; [auto|]. cbn. split; [reflexivity | discriminate]. }
  assert (H2 : attrOK p = true ->
               forall d a', lookup t1 p = Some (File d a') -> hidden a' = false).
  { intros Hok d a' Hl. unfold t1 in Hl. rewrite Hok, andb_true_r in Hl.
    destruct (Scan.isHidden t p) eqn:E.
    - rewrite lookup_setAttrs_same in Hl.
      destruct (lookup t p) as [[d0 a0|]|]; inversion Hl; reflexivity.
    - rewrite (isHidden_file t p d a' Hl) in E. apply orb_false_iff in E. tauto. }
  destruct (Remove_cases (Some t1) p) as [E|[[t2 [t' [E2 [Hr E]]]]|[t2 [_ [_ [_ E]]]]]].
  - rewrite E. cbn [wfIn lookupIn]. auto.
  - inversion E2; subst t2. rewrite E. cbn [fst wfIn].
    split; [eapply wf_removeAt; eassumption|]. split.
    + apply (fromStore_trans _ (Some t1)); [exact H1|].
      intros q d a' Hl. cbn [lookupIn] in *. exists a'.
      split; [eapply lookup_removeAt_file; eassumption | auto].
    + intros _ d a' Hl. cbn [lookupIn] in Hl.
      rewrite (lookup_removeAt_same p t1 t' Hwf1 Hr) in Hl. discriminate.
  - rewrite E. cbn. split; [reflexivity|]. split; [intros q d a' H; discriminate|].
    intros _ d a' H. discriminate.
Qed.

Lemma delFile_spares (t : node) (p q : path) (d : list byte) (a : attrs) :
  lookup t q = Some (File d a) -> q <> p ->
  exists t', fst (delFile attrOK removeOK (Some t) p) = Some t'
             /\ lookup t' q = Some (File d a).
Proof.
  intros Hl Hne. rewrite delFile_eq.
  set (t1 := if Scan.isHidden t p && attrOK p then setAttrs unhide t p else t).
  assert (H1 : lookup t1 q = Some (File d a)).
  { unfold t1. destruct (_ && _); [apply file_survives_setAttrs; assumption | exact Hl]. }
  destruct (Remove_cases (Some t1) p) as [E|[[t2 [t' [E2 [Hr E]]]]|[t2 [E2 [Hp [Hrm E]]]]]].
  - exists t1. auto.
  - inversion E2; subst t2. rewrite E. exists t'. split; [reflexivity|].
    eapply file_survives_removeAt; eassumption.
  - exfalso. inversion E2; subst t2. subst p.
    destruct q as [|c q]; [congruence|].
    destruct t1 as [d0 a0|[|e0 es0] ok0]; simpl in H1, Hrm; discriminate.
Qed.

(** The three loops of the delete button. *)
Lemma countSelected_eq (files : list Scan.FileItem) :
  countSelected files = List.length (List.filter Scan.selected files).
Proof.
  unfold countSelected.
  assert (H : forall n, fold_left (fun cnt f => if Scan.selected f then S cnt else cnt) files n
                        = (n + List.length (List.filter Scan.selected files))%nat).
  { induction files as [|f files IH]; intros n; cbn [fold_left List.filter].
    - simpl. lia.
    - rewrite IH. destruct (Scan.selected f); simpl; lia. }
  apply H.
Qed.

Lemma keepUnselected_eq (files : list Scan.FileItem) :
  keepUnselected files = List.filter (fun f => negb (Scan.selected f)) files.
Proof.
  unfold keepUnselected.
  assert (H : forall acc,
            fold_left (fun nf f => if negb (Scan.selected f) then nf ++ [f] else nf) files acc
            = acc ++ List.filter (fun f => negb (Scan.selected f)) files).
  { induction files as [|f files IH]; intros acc; cbn [fold_left List.filter].
    - rewrite app_nil_r. reflexivity.
    - rewrite IH. destruct (negb (Scan.selected f)); [|reflexivity].
      rewrite <- app_assoc. reflexivity. }
  apply H.
Qed.

Lemma deleteStep_facts (s : option node * nat) (f : Scan.FileItem) :
  wfIn (fst s) = true ->
  wfIn (fst (deleteStep attrOK removeOK s f)) = true
  /\ fromStore (fst s) (fst (deleteStep attrOK removeOK s f))
  /\ (Scan.selected f = true -> attrOK (Scan.Path (Scan.info f)) = true ->
      forall d a', lookupIn (fst (deleteStep attrOK removeOK s f)) (Scan.Path (Scan.info f))
                   = Some (File d a') ->
                   hidden a' = false).
Proof.
  intros Hwf. unfold deleteStep. destruct (Scan.selected f).
  - destruct (delFile_from (fst s) (Scan.Path (Scan.info f)) Hwf) as [H1 [H2 H3]].
    destruct (delFile attrOK removeOK (fst s) (Scan.Path (Scan.info f))) as [store' [e|]];
      cbn [fst snd] in *; auto.
  - split; [exact Hwf|]. split; [apply fromStore_refl | discriminate].
Qed.

Lemma deleteLoop_facts (files : list Scan.FileItem) :
  forall s,
    wfIn (fst s) = true ->
    wfIn (fst (fold_left (deleteStep attrOK removeOK) files s)) = true
    /\ fromStore (fst s) (fst (fold_left (deleteStep attrOK removeOK) files s))
    /\ (forall f, In f files -> Scan.selected f = true ->
                  attrOK (Scan.Path (Scan.info f)) = true ->
                  forall d a',
                    lookupIn (fst (fold_left (deleteStep attrOK removeOK) files s))
                             (Scan.Path (Scan.info f)) = Some (File d a') ->
                    hidden a' = false).
Proof.
  induction files as [|f files IH]; intros s Hwf.
  - cbn. split; [exact Hwf|]. split; [apply fromStore_refl | contradiction].
  - cbn [fold_left].
    destruct (deleteStep_facts s f Hwf) as [W1 [M1 C1]].
    destruct (IH _ W1) as [W2 [M2 C2]].
    split; [exact W2|]. split; [exact (fromStore_trans _ _ _ M1 M2)|].
    intros g [<-|Hg] Hs Ha d a' Hl; [|exact (C2 g Hg Hs Ha d a' Hl)].
    destruct (M2 _ _ _ Hl) as [a1 [Hl1 [_ Hh]]].
    destruct (hidden a') eqn:E; [|reflexivity].
    rewrite (C1 Hs Ha d a1 Hl1) in Hh. symmetry. apply Hh. reflexivity.
Qed.

Lemma deleteLoop_count (files : list Scan.FileItem) :
  forall s,
    (snd (fold_left (deleteStep attrOK removeOK) files s)
     <= snd s + List.length (List.filter Scan.selected files))%nat.
Proof.
  induction files as [|f files IH]; intros s; cbn [fold_left List.filter].
  - simpl. lia.
  - specialize (IH (deleteStep attrOK removeOK s f)).
    assert (snd (deleteStep attrOK removeOK s f)
            <= snd s + (if Scan.selected f then 1 else 0))%nat.
    { unfold deleteStep. destruct (Scan.selected f); [|lia].
      destruct (delFile _ _ _ _) as [s' [e|]]; cbn [snd]; lia. }
    destruct (Scan.selected f); cbn [List.length] in *; lia.
Qed.

Lemma deleteLoop_spares (q : path) (d : list byte) (a : attrs) (files : list Scan.FileItem) :
  (forall f, In f files -> Scan.selected f = true -> Scan.Path (Scan.info f) <> q) ->
  forall t n,
    lookup t q = Some (File d a) ->
    exists t', fst (fold_left (deleteStep attrOK removeOK) files (Some t, n)) = Some t'
               /\ lookup t' q = Some (File d a).
Proof.
  induction files as [|f files IH]; intros Hsel t n Hl; [exists t; auto|].
  cbn [fold_left].
  assert (H1 : exists t1 n1, deleteStep attrOK removeOK (Some t, n) f = (Some t1, n1)
                             /\ lookup t1 q = Some (File d a)).
  { unfold deleteStep. destruct (Scan.selected f) eqn:Es; [|exists t, n; auto].
    cbn [fst snd].
    destruct (delFile_spares t (Scan.Path (Scan.info f)) q d a Hl) as [t1 [E1 L1]].
    { intros E. apply (Hsel f); [left; reflexivity | exact Es | auto]. }
    destruct (delFile attrOK removeOK (Some t) (Scan.Path (Scan.info f))) as [s1 [e|]];
      cbn [fst] in E1; subst s1; eauto. }
  destruct H1 as [t1 [n1 [E1 L1]]]. rewrite E1.
  apply IH; [|exact L1]. intros g Hg. apply Hsel. right; exact Hg.
Qed.

Lemma delBtn_confirmed (store : option node) (t : Scan.tab) :
  existsb Scan.selected (Scan.files t) = true ->
  delBtn attrOK removeOK true store t
  = (fst (deleteSelected attrOK removeOK (Scan.files t) store),
     Scan.mkTab (List.filter (fun f => negb (Scan.selected f)) (Scan.files t))
       (Scan.scanning t) (Scan.statusLbl t)
       (Some (List.length (List.filter (fun f => negb (Scan.selected f)) (Scan.files t)))),
     [AskDelete (List.length (List.filter Scan.selected (Scan.files t)));
      MsgDeleted (snd (deleteSelected attrOK removeOK (Scan.files t) store))]).
Proof.
  intros Hsel. unfold delBtn. rewrite countSelected_eq, keepUnselected_eq.
  assert (Hpos : (List.length (List.filter Scan.selected (Scan.files t)) =? 0)%nat = false).
  { apply Nat.eqb_neq. apply existsb_exists in Hsel. destruct Hsel as [f [Hf Hs]].
    assert (Hin : In f (List.filter Scan.selected (Scan.files t)))
      by (apply filter_In; auto).
    destruct (List.filter Scan.selected (Scan.files t)); [contradiction | discriminate]. }
  rewrite Hpos. destruct (deleteSelected attrOK removeOK (Scan.files t) store). reflexivity.
Qed.

(** X15. The delete button, confirmed, with a selection: the list keeps
    the items that were not selected, in their order, and drops every
    selected item, also one whose file could not be deleted; the counter
    shows the length of the new list, and the number of deletions reported
    is at most the number of items selected. *)
Theorem delBtn_drops_selection (store : option node) (t : Scan.tab) :
  existsb Scan.selected (Scan.files t) = true ->
  Scan.files (snd (fst (delBtn attrOK removeOK true store t)))
  = List.filter (fun f => negb (Scan.selected f)) (Scan.files t)
  /\ Scan.countLbl (snd (fst (delBtn attrOK removeOK true store t)))
     = Some (List.length (List.filter (fun f => negb (Scan.selected f)) (Scan.files t)))
  /\ exists del,
       snd (delBtn attrOK removeOK true store t)
       = [AskDelete (List.length (List.filter Scan.selected (Scan.files t)));
          MsgDeleted del]
       /\ (del <= List.length (List.filter Scan.selected (Scan.files t)))%nat.
Proof.
  intros Hsel. rewrite (delBtn_confirmed store t Hsel). cbn [fst snd Scan.files Scan.countLbl].
  split; [reflexivity|]. split; [reflexivity|].
  eexists. split; [reflexivity|].
  unfold deleteSelected.
  exact (deleteLoop_count (Scan.files t) (store, 0%nat)).
Qed.

(** X16. After the delete button, a new scan lists none of the files
    that were selected and whose attributes can be read and could be set,
    whether or not the file was removed: [delFile] clears the hidden bit
    before it tries to remove the file. What the new scan finds was a
    file of the [VirtualStore] before, hidden or with attributes that
    cannot be read. *)
Theorem rescan_after_delete (t0 : node) (t : Scan.tab) (f : Scan.FileItem)
        (stop : Scan.stopchan) (g : Scan.FileInfo) :
  wf t0 = true ->
  In f (Scan.files t) -> Scan.selected f = true ->
  attrOK (Scan.Path (Scan.info f)) = true ->
  (forall d a, lookup t0 (Scan.Path (Scan.info f)) = Some (File d a) -> known a = true) ->
  In g (Scan.scanFiles (fst (fst (delBtn attrOK removeOK true (Some t0) t))) stop) ->
  Scan.Path g <> Scan.Path (Scan.info f)
  /\ exists d a,
       lookup t0 (Scan.Path g) = Some (File d a)
       /\ (hidden a = true \/ known a = false).
Proof.
  intros Hwf Hf Hs Ha Hk Hg.
  assert (Hsel : existsb Scan.selected (Scan.files t) = true)
    by (apply existsb_exists; exists f; auto).
  rewrite (delBtn_confirmed (Some t0) t Hsel) in Hg. cbn [fst] in Hg.
  unfold deleteSelected in Hg.
  destruct (deleteLoop_facts (Scan.files t) (Some t0, 0%nat) Hwf) as [W [M C]].
  cbn [fst] in W, M.
  destruct (fst (fold_left (deleteStep attrOK removeOK) (Scan.files t) (Some t0, 0%nat)))
    as [t'|] eqn:Et'; [|destruct stop as [[|k]|]; contradiction].
  cbn [wfIn] in W.
  rewrite scanFiles_hits in Hg. apply In_hits in Hg.
  destruct Hg as [q [n [t2 [Hl [Ht2 [-> [_ Hh]]]]]]]. inversion Ht2; subst t2. clear Ht2.
  cbn [Scan.Path].
  assert (Hl' : In (q, n) (leaves (Scan.scanCalls (Some t')))).
  { destruct stop as [k|]; [eapply leaves_firstn; exact Hl | exact Hl]. }
  destruct (In_scanCalls_leaves t' q n W Hl') as [Hq Hd].
  destruct n as [d a'|]; [|discriminate].
  rewrite (isHidden_file t' q d a' Hq) in Hh.
  destruct (M q d a' Hq) as [a [Hq0 [Hkn Hhid]]]. cbn [lookupIn] in Hq0.
  split.
  - intros E. subst q.
    rewrite (C f Hf Hs Ha d a' Hq) in Hh. cbn [orb] in Hh.
    rewrite Hkn, (Hk d a Hq0) in Hh. discriminate.
  - exists d, a. split; [exact Hq0|].
    apply orb_true_iff in Hh. destruct Hh as [Hh|Hh]; [left; auto | right].
    rewrite <- Hkn. destruct (known a'); [discriminate | reflexivity].
Qed.

(** X17. The delete button leaves every other file as it is: a regular
    file of the [VirtualStore] whose path is not the path of a selected
    item is there afterwards with the same bytes and attributes, whatever
    the answer to the dialog. *)
Theorem delBtn_spares_other_files (confirm : bool) (t0 : node) (t : Scan.tab)
        (q : path) (d : list byte) (a : attrs) :
  lookup t0 q = Some (File d a) ->
  (forall f, In f (Scan.files t) -> Scan.selected f = true ->
             Scan.Path (Scan.info f) <> q) ->
  exists t',
    fst (fst (delBtn attrOK removeOK confirm (Some t0) t)) = Some t'
    /\ lookup t' q = Some (File d a).
Proof.
  intros Hl Hsel. unfold delBtn.
  destruct (countSelected (Scan.files t) =? 0)%nat; [exists t0; auto|].
  destruct confirm; [|exists t0; auto].
  destruct (deleteLoop_spares q d a (Scan.files t) Hsel t0 0%nat Hl) as [t' [E L]].
  unfold deleteSelected.
  destruct (fold_left _ _ _) as [s' del]. cbn [fst] in E |- *. exists t'. auto.
Qed.
End DeletingFacts.

Lemma delBtn_drops_selection_witness :
  existsb Scan.selected (Scan.files sampleTab) = true
  /\ Scan.files (snd (fst (delBtn (fun _ => true) (fun _ => false) true
                             (Some sampleTree) sampleTab)))
     = [Scan.mkFileItem (Scan.mkFileInfo ["Windows"%string; "ipcas2.ini"%string] 2) false]
  /\ snd (delBtn (fun _ => true) (fun _ => false) true (Some sampleTree) sampleTab)
     = [AskDelete 1; MsgDeleted 0].
Proof.
  split; [reflexivity|].
  destruct (delBtn_drops_selection (fun _ => true) (fun _ => false)
              (Some sampleTree) sampleTab eq_refl) as [H1 _].
  split; [exact H1 | reflexivity].
Defined.

Lemma rescan_after_delete_witness :
  In (Scan.mkFileInfo ["Windows"%string; "ipcas2.ini"%string] 2)
     (Scan.scanFiles (fst (fst (delBtn (fun _ => true) (fun _ => false) true
                                  (Some sampleTree) sampleTab))) None)
  /\ ["Windows"%string; "ipcas2.ini"%string] <> ["IPCAS2.ini"%string]
  /\ exists d a,
       lookup sampleTree ["Windows"%string; "ipcas2.ini"%string] = Some (File d a)
       /\ (hidden a = true \/ known a = false).
Proof.
  assert (H : In (Scan.mkFileInfo ["Windows"%string; "ipcas2.ini"%string] 2)
                (Scan.scanFiles (fst (fst (delBtn (fun _ => true) (fun _ => false) true
                                             (Some sampleTree) sampleTab))) None)).
  { vm_compute. left. reflexivity. }
  split; [exact H|].
  apply (rescan_after_delete (fun _ => true) (fun _ => false) sampleTree sampleTab
           (Scan.mkFileItem (Scan.mkFileInfo ["IPCAS2.ini"%string] 1) true) None
           (Scan.mkFileInfo ["Windows"%string; "ipcas2.ini"%string] 2));
    [reflexivity | left; reflexivity | reflexivity | reflexivity | | exact H].
  intros d a Hl. vm_compute in Hl. inversion Hl. reflexivity.
Defined.

Lemma delBtn_spares_other_files_witness :
  lookup sampleTree ["Windows"%string; "ipcas2.ini"%string]
  = Some (File [x42; x42] (mkAttrs true true true))
  /\ exists t',
       fst (fst (delBtn (fun _ => true) (fun _ => true) true (Some sampleTree) sampleTab))
       = Some t'
       /\ lookup t' ["Windows"%string; "ipcas2.ini"%string]
          = Some (File [x42; x42] (mkAttrs true true true)).
Proof.
  split; [reflexivity|].
  apply (delBtn_spares_other_files (fun _ => true) (fun _ => true) true sampleTree sampleTab
           ["Windows"%string; "ipcas2.ini"%string] [x42; x42] (mkAttrs true true true));
    [reflexivity|].
  intros f [<-|[<-|[]]] Hs; cbn in Hs |- *; [discriminate | discriminate].
Defined.

(** * The text of the log *)

Lemma Split_nonempty (s : string) : Split s <> [].
Proof.
  induction s as [|c s IH]; simpl; [discriminate|].
  destruct (Ascii.eqb c newline); [discriminate|].
  destruct (Split s); discriminate.
Qed.

Lemma Join_cons (x : string) (r : list string) :
  r <> [] -> Join (x :: r) = String.append x (String newline (Join r)).
Proof. destruct r; [congruence | reflexivity]. Qed.

Lemma Join_Split (s : string) : Join (Split s) = s.
Proof.
  induction s as [|c s IH]; [reflexivity|]. cbn [Split].
  pose proof (Split_nonempty s) as Hne.
  destruct (Ascii.eqb_spec c newline) as [->|Hc].
  - rewrite Join_cons by exact Hne. rewrite IH. reflexivity.
  - destruct (Split s) as [|x r]; [congruence|].
    rewrite <- IH. destruct r as [|y r]; reflexivity.
Qed.

Lemma Join_app (l1 l2 : list string) :
  l1 <> [] -> l2 <> [] ->
  Join (l1 ++ l2) = String.append (Join l1) (String newline (Join l2)).
Proof.
  intros H1 H2. induction l1 as [|x l1 IH]; [congruence|].
  destruct l1 as [|y l1].
  - cbn [app]. rewrite Join_cons by exact H2. reflexivity.
  - change ((x :: y :: l1) ++ l2) with (x :: (y :: l1) ++ l2).
    rewrite !Join_cons by discriminate. rewrite IH by discriminate.
    rewrite append_assoc. reflexivity.
Qed.

Lemma newlines_append (a b : string) :
  newlines (String.append a b) = (newlines a + newlines b)%nat.
Proof. induction a as [|c a IH]; [reflexivity|]. simpl. rewrite IH. lia. Qed.

Lemma Split_length (s : string) : List.length (Split s) = S (newlines s).
Proof.
  induction s as [|c s IH]; [reflexivity|]. cbn [Split newlines].
  destruct (Ascii.eqb c newline).
  - cbn [List.length]. rewrite IH. reflexivity.
  - pose proof (Split_nonempty s). destruct (Split s) as [|x r]; [congruence|].
    cbn [List.length] in *. lia.
Qed.

Lemma Split_lines (s : string) : Forall (fun x => newlines x = 0%nat) (Split s).
Proof.
  induction s as [|c s IH]; [repeat constructor|]. cbn [Split].
  destruct (Ascii.eqb c newline) eqn:Ec.
  - constructor; [reflexivity | exact IH].
  - destruct (Split s) as [|x r]; [repeat constructor; simpl; rewrite Ec; reflexivity|].
    inversion IH; subst. constructor; [|assumption]. simpl. rewrite Ec. assumption.
Qed.

Lemma newlines_Join (l : list string) :
  Forall (fun x => newlines x = 0%nat) l ->
  newlines (Join l) = (List.length l - 1)%nat.
Proof.
  induction l as [|x l IH]; intros H; [reflexivity|].
  inversion H as [|? ? Hx Hl]; subst.
  destruct l as [|y l]; [simpl; rewrite Hx; reflexivity|].
  rewrite Join_cons by discriminate. rewrite newlines_append. cbn [newlines].
  rewrite Ascii.eqb_refl, Hx, (IH Hl). cbn [List.length]. lia.
Qed.

(** X18. [addLog] appends one line to the text of the log and cuts the
    text only at the front, after a line feed: below 100 line feeds
    nothing is dropped, from 100 on the last 99 lines are kept together
    with what follows the last line feed. *)
Theorem addLog_keeps_last_lines (now msg text : string) :
  exists dropped kept,
    text = String.append dropped kept
    /\ addLogText now msg text = String.append kept (logLine now msg)
    /\ (newlines kept <= 99)%nat
    /\ ((newlines text < 100)%nat -> dropped = EmptyString)
    /\ ((100 <= newlines text)%nat ->
        newlines kept = 99%nat
        /\ exists d, dropped = String.append d (String newline EmptyString)).
Proof.
  unfold addLogText, lastLines.
  pose proof (Split_length text) as Hlen. pose proof (Split_lines text) as Hlines.
  pose proof (Join_Split text) as Hjoin.
  destruct (Nat.ltb_spec 100 (List.length (Split text))) as [Hgt|Hle].
  - set (l := Split text) in *. set (k := (List.length l - 100)%nat).
    assert (Hl2 : List.length (skipn k l) = 100%nat) by (rewrite length_skipn; lia).
    assert (Hl1 : List.length (firstn k l) = k) by (rewrite length_firstn; lia).
    assert (N1 : firstn k l <> []).
    { intros E. rewrite E in Hl1. simpl in Hl1. lia. }
    assert (N2 : skipn k l <> []).
    { intros E. rewrite E in Hl2. discriminate. }
    assert (F2 : Forall (fun x => newlines x = 0%nat) (skipn k l)).
    { rewrite Forall_forall in *. intros x Hx. apply Hlines. eapply In_skipn. exact Hx. }
    exists (String.append (Join (firstn k l)) (String newline EmptyString)), (Join (skipn k l)).
    split; [|split; [reflexivity|split; [|split]]].
    + rewrite <- Hjoin. rewrite <- (firstn_skipn k l) at 1.
      rewrite (Join_app _ _ N1 N2), append_assoc. reflexivity.
    + rewrite (newlines_Join _ F2), Hl2. lia.
    + lia.
    + intros _. split; [rewrite (newlines_Join _ F2), Hl2; reflexivity|].
      eexists. reflexivity.
  - exists EmptyString, text. rewrite Hjoin.
    split; [reflexivity|]. split; [reflexivity|]. split; [lia|]. split; [reflexivity|]. lia.
Qed.

(** X19. However long the log was: after [addLog] of a message without a
    line feed the text ends with the new line and has at most 100 line
    feeds. *)
Theorem addLog_bounds_the_log (now msg text : string) :
  newlines now = 0%nat -> newlines msg = 0%nat ->
  (newlines (addLogText now msg text) <= 100)%nat
  /\ exists before, addLogText now msg text = String.append before (logLine now msg).
Proof.
  intros Hnow Hmsg. split; [|eexists; reflexivity].
  unfold addLogText, lastLines, logLine.
  rewrite !newlines_append, Hnow, Hmsg. cbn [newlines]. rewrite Ascii.eqb_refl.
  change (Ascii.eqb " " newline) with false. change (Ascii.eqb "-" newline) with false.
  cbn [Nat.add].
  pose proof (Split_lines text) as Hlines.
  destruct (Nat.ltb_spec 100 (List.length (Split text))) as [Hgt|Hle].
  - rewrite newlines_Join.
    + rewrite length_skipn. lia.
    + rewrite Forall_forall in *. intros x Hx. apply Hlines. eapply In_skipn. exact Hx.
  - rewrite (newlines_Join _ Hlines). lia.
Qed.

Lemma addLog_bounds_the_log_witness :
  newlines "12:00:00" = 0%nat /\ newlines "ok" = 0%nat
  /\ (newlines (addLogText "12:00:00" "ok" EmptyString) <= 100)%nat
  /\ exists before,
       addLogText "12:00:00" "ok" EmptyString
       = String.append before (logLine "12:00:00" "ok").
Proof.
  split; [reflexivity|]. split; [reflexivity|].
  apply (addLog_bounds_the_log "12:00:00" "ok" EmptyString); reflexivity.
Defined.

(** * The package [scanner] against [scanFiles] *)

Lemma IsHiddenPath_file (t : node) (q : path) (d : list byte) (a : attrs) :
  lookup t q = Some (File d a) -> Scanner.IsHiddenPath t q = hidden a && known a.
Proof.
  intros Hl. unfold Scanner.IsHiddenPath, Scan.GetFileAttributes. rewrite Hl.
  destruct (known a); [rewrite andb_true_r | rewrite andb_false_r]; reflexivity.
Qed.

Lemma allKnown_Dir (es : list (string * node)) (ok : bool) :
  allKnown (Dir es ok) = true <-> Forall (fun e => allKnown (snd e) = true) es.
Proof.
  cbn [allKnown]. induction es as [|[n x] es IH].
  - split; [constructor | reflexivity].
  - rewrite andb_true_iff, IH. split.
    + intros [H1 H2]. constructor; assumption.
    + intros H. inversion H; subst. auto.
Qed.

Lemma allKnown_lookup (p : path) :
  forall t d a, allKnown t = true -> lookup t p = Some (File d a) -> known a = true.
Proof.
  induction p as [|c p IH]; intros t d a Hk Hl; simpl in Hl.
  - inversion Hl; subst. exact Hk.
  - destruct t as [|es ok]; [discriminate|].
    destruct (entry c es) as [x|] eqn:Ec; [|discriminate].
    apply allKnown_Dir in Hk. rewrite Forall_forall in Hk.
    apply (IH x d a); [|exact Hl]. exact (Hk _ (entry_In _ _ _ _ Ec)).
Qed.

Section ScannerFacts.
Variable store : option node.
Variable progress : bool.
Hypothesis store_wf : wfIn store = true.
Hypothesis store_known : knownIn store = true.

(** One call of the two callbacks on an entry of the [VirtualStore]. *)
Lemma visit_sim (p : path) (info : option node) (err : option error)
      (s1 : Scan.stopchan * list Scan.FileInfo) (s2 : Scanner.state) :
  (forall d a, info = Some (File d a) -> lookupIn store p = info) ->
  sameScan s1 s2 ->
  sameScan (fst (Scan.found store p info err s1))
           (fst (Scanner.visit store progress p info err s2))
  /\ (snd (Scanner.visit store progress p info err s2) = snd (Scan.found store p info err s1)
      \/ (snd (Scan.found store p info err s1) = None
          /\ snd (Scanner.visit store progress p info err s2) = Some SkipDir
          /\ err <> None)).
Proof.
  destruct s1 as [stop r1]. destruct s2 as [[stop2 r2] seen].
  unfold sameScan. cbn [fst snd]. intros Hinfo [-> [<- HF]].
  unfold Scan.found, Scanner.visit.
  destruct (Scan.poll stop) as [[|] stop']; cbn [fst snd]; [auto|].
  destruct err as [e|]; destruct info as [n|]; cbn [fst snd]; auto.
  - destruct (IsDir n); cbn [fst snd]; [|auto].
    split; [auto|]. right. repeat split. discriminate.
  - destruct n as [d a|es ok]; cbn [IsDir fst snd]; [|auto].
    specialize (Hinfo d a eq_refl).
    destruct (String.eqb (Scan.ToLower (Scan.baseName p)) "ipcas2.ini"); cbn [andb fst snd];
      [|auto].
    assert (Hh : match store with Some t => Scan.isHidden t p | None => false end
                 = match store with Some t => Scanner.IsHiddenPath t p | None => false end).
    { revert Hinfo store_known. destruct store as [t|]; [|reflexivity].
      cbn [lookupIn knownIn]. intros Hl Hk.
      rewrite (isHidden_file t p d a Hl), (IsHiddenPath_file t p d a Hl).
      rewrite (allKnown_lookup p t d a Hk Hl). destruct (hidden a); reflexivity. }
    rewrite Hh.
    destruct (match store with Some t => Scanner.IsHiddenPath t p | None => false end) eqn:E;
      cbn [fst snd]; [|auto].
    split; [|auto]. split; [reflexivity|]. split.
    + rewrite map_app. reflexivity.
    + apply Forall_app. split; [exact HF|]. constructor; [reflexivity | constructor].
Qed.

Lemma walk_found_error (d : node) (p : path) (s : Scan.stopchan * list Scan.FileInfo)
      (x : error) :
  snd (walk (Scan.found store) p d s) = Some x -> is_SkipDir x = false.
Proof.
  rewrite (walk_run _ (Scan.found store) (found_no_SkipDir store)).
  destruct (run (Scan.found store) (walkCalls p d) s) as [s' e] eqn:E. cbn [snd].
  intros ->. eapply (run_error _ (Scan.found store) (found_no_SkipDir store)). exact E.
Qed.

Lemma lookupIn_child (p : path) (es : list (string * node)) (ok : bool)
      (name : string) (d1 : node) :
  lookupIn store p = Some (Dir es ok) -> unique es = true -> In (name, d1) es ->
  lookupIn store (p ++ [name]) = Some d1.
Proof.
  intros Hl Hu HIn. destruct store as [t|]; [|discriminate]. cbn [lookupIn] in *.
  rewrite lookup_app, Hl. simpl. rewrite (In_entry _ _ _ _ Hu HIn). reflexivity.
Qed.

(** The two walks, step by step: the only difference is that the
    callback of [ScanForIPCAS2] answers [SkipDir] for a directory that
    cannot be listed, which the walk does not enter anyway. *)
Lemma walk_sim (d : node) :
  forall p s1 s2,
    wf d = true ->
    lookupIn store p = Some d ->
    sameScan s1 s2 ->
    sameScan (fst (walk (Scan.found store) p d s1))
             (fst (walk (Scanner.visit store progress) p d s2))
    /\ (snd (walk (Scanner.visit store progress) p d s2)
        = snd (walk (Scan.found store) p d s1)
        \/ (snd (walk (Scan.found store) p d s1) = None
            /\ snd (walk (Scanner.visit store progress) p d s2) = Some SkipDir
            /\ IsDir d = true)).
Proof.
  induction d as [data a | es ok IH] using node_nested_ind; intros p s1 s2 Hwf Hlook Hs.
  - cbn [walk].
    assert (Hinfo : forall d0 a0, Some (File data a) = Some (File d0 a0) ->
                                  lookupIn store p = Some (File data a))
      by (intros; exact Hlook).
    destruct (visit_sim p (Some (File data a)) None s1 s2 Hinfo Hs) as [H1 [H2|[_ [_ H]]]];
      [auto | congruence].
  - cbn [walk].
    assert (Hinfo : forall d0 a0, Some (Dir es ok) = Some (File d0 a0) ->
                                  lookupIn store p = Some (Dir es ok))
      by (intros; exact Hlook).
    pose proof (visit_sim p (Some (Dir es ok)) (if ok then None else Some EIO) s1 s2 Hinfo Hs)
      as [H1 H2].
    apply wf_Dir in Hwf. destruct Hwf as [Hu Hall].
    assert (Hch : forall name d1, In (name, d1) es ->
                    wf d1 = true /\ lookupIn store (p ++ [name]) = Some d1).
    { intros name d1 HIn. split.
      - rewrite Forall_forall in Hall. exact (Hall _ HIn).
      - eapply lookupIn_child; eassumption. }
    clear Hinfo Hlook Hu Hall.
    destruct (Scan.found store p (Some (Dir es ok)) (if ok then None else Some EIO) s1)
      as [t1 [x1|]];
      destruct (Scanner.visit store progress p (Some (Dir es ok))
                  (if ok then None else Some EIO) s2) as [t2 [x2|]];
      cbn [fst snd] in H1, H2.
    + destruct H2 as [H2|[H2 _]]; [|discriminate]. cbn [fst snd]. auto.
    + destruct H2 as [H2|[H2 _]]; discriminate.
    + destruct H2 as [H2|[_ [H2 Hok]]]; [discriminate|]. inversion H2; subst x2.
      destruct ok; [congruence|]. cbn [fst snd]. auto.
    + destruct ok; [|cbn [fst snd]; auto]. clear H2 Hs.
      revert t1 t2 H1 Hch.
      induction IH as [|[name d1] l Hd1 _ IHl]; intros t1 t2 H1 Hch.
      * cbn [fst snd]. auto.
      * cbn [fst snd] in Hd1.
        destruct (Hch name d1 (or_introl eq_refl)) as [Hw1 Hl1].
        assert (Hch' : forall name0 d0, In (name0, d0) l ->
                         wf d0 = true /\ lookupIn store (p ++ [name0]) = Some d0)
          by (intros name0 d0 H0; apply Hch; right; exact H0).
        destruct (Hd1 (p ++ [name]) t1 t2 Hw1 Hl1 H1) as [Hsame Herr].
        pose proof (walk_found_error d1 (p ++ [name]) t1) as Hno.
        destruct (walk (Scan.found store) (p ++ [name]) d1 t1) as [u1 [y1|]];
          destruct (walk (Scanner.visit store progress) (p ++ [name]) d1 t2) as [u2 [y2|]];
          cbn [fst snd] in Hsame, Herr, Hno.
        -- destruct Herr as [Herr|[Herr _]]; [|discriminate]. inversion Herr; subst y2.
           rewrite (Hno y1 eq_refl), andb_false_r. cbn [fst snd]. auto.
        -- destruct Herr as [Herr|[Herr _]]; discriminate.
        -- destruct Herr as [Herr|[_ [Herr Hdir]]]; [discriminate|].
           inversion Herr; subst y2. rewrite Hdir. cbn [andb is_SkipDir].
           apply IHl; assumption.
        -- apply IHl; assumption.
Qed.

Lemma scanRoot_sim (p : path) (s1 : Scan.stopchan * list Scan.FileInfo) (s2 : Scanner.state) :
  sameScan s1 s2 ->
  sameScan (Scan.scanRoot store p s1) (Scanner.scanRoot store progress p s2).
Proof.
  intros Hs. unfold Scan.scanRoot, Scanner.scanRoot.
  pose proof store_wf as Hwf. pose proof (walk_sim) as Hsim.
  destruct store as [t|] eqn:Es; [|exact Hs].
  unfold Stat. destruct (lookup t p) as [d|] eqn:Ed; [|exact Hs].
  cbn [wfIn] in Hwf.
  destruct (Hsim d p s1 s2 (wf_lookup p t d Hwf Ed) Ed Hs) as [H _].
  destruct (walk (Scan.found (Some t)) p d s1) as [u1 e1]. exact H.
Qed.

(** X20. The package [scanner] and [scanFiles] agree on a
    [VirtualStore] where [GetFileAttributes] succeeds on every file: with
    or without a progress callback, and whenever the stop channel is
    closed, [ScanForIPCAS2] returns the files of [scanFiles], in the same
    order and with the same sizes, each marked hidden, and no error. *)
Theorem ScanForIPCAS2_agrees_with_scanFiles (stop : Scan.stopchan) :
  List.map asFileInfo (fst (Scanner.ScanForIPCAS2 store progress stop))
  = Scan.scanFiles store stop
  /\ Forall (fun f => Scanner.IsHidden f = true)
            (fst (Scanner.ScanForIPCAS2 store progress stop))
  /\ snd (Scanner.ScanForIPCAS2 store progress stop) = None.
Proof.
  unfold Scanner.ScanForIPCAS2, Scan.scanFiles. cbn [fst snd].
  assert (H0 : sameScan (stop, []) (stop, [], [])).
  { unfold sameScan. cbn. auto. }
  pose proof (scanRoot_sim [] _ _ (scanRoot_sim ["Windows"%string] _ _ H0)) as [_ [H2 H3]].
  auto.
Qed.
End ScannerFacts.

(** The theorem of X20 on the sample store; and a store on which the
    two scans differ: on a file whose attributes cannot be read, which
    [scanFiles] takes for hidden and [ScanForIPCAS2] leaves out. *)
Lemma ScanForIPCAS2_agrees_with_scanFiles_witness :
  wfIn Scan.sampleStore = true
  /\ knownIn Scan.sampleStore = true
  /\ List.map asFileInfo (fst (Scanner.ScanForIPCAS2 Scan.sampleStore true None))
     = Scan.scanFiles Scan.sampleStore None
  /\ Scan.scanFiles (Some hazyTree) None = [Scan.mkFileInfo [dottedName] 1]
  /\ fst (Scanner.ScanForIPCAS2 (Some hazyTree) true None) = [].
Proof.
  split; [reflexivity|]. split; [reflexivity|].
  destruct (ScanForIPCAS2_agrees_with_scanFiles Scan.sampleStore true eq_refl eq_refl None)
    as [H _].
  split; [exact H|]. split; reflexivity.
Defined.


(** * Stopping and starting [ipcas2.exe] *)

Lemma processCalls_app (a b : list event) :
  processCalls (a ++ b) = processCalls a ++ processCalls b.
Proof. unfold processCalls. apply filter_app. Qed.

Lemma updateFile_calls (total : nat) (t0 : Z) (i : nat) (p : path) (w : world) :
  exists evs, ui (updateFile total t0 i p w) = ui w ++ evs /\ processCalls evs = [].
Proof.
  unfold updateFile, mkParent, osReadFile, timeSince, timeNow.
  destruct w as [src tgt bk sel u rd ck tk]. cbn [target].
  destruct (MkdirAll tgt (parent p));
    cbn [set_target source target tree backups selected ui reads clock ticks];
    (destruct (match src with Some n => ReadFile n p | None => None end);
     [match goal with |- context [WriteFile ?t ?q ?d] => destruct (WriteFile t q d) end|]);
    cbn [addLog emit set_target source target tree backups selected ui reads clock ticks];
    rewrite <- ?app_assoc; eexists; (split; [reflexivity | reflexivity]).
Qed.

Lemma updateLoop_calls (total : nat) (t0 : Z) (rest : list path) :
  forall i w,
    exists evs, ui (updateLoop total t0 i rest w) = ui w ++ evs /\ processCalls evs = [].
Proof.
  induction rest as [|p rest IH]; intros i w.
  - exists []. rewrite app_nil_r. auto.
  - cbn [updateLoop].
    destruct (updateFile_calls total t0 i p w) as [e1 [U1 P1]].
    destruct (IH (S i) (updateFile total t0 i p w)) as [e2 [U2 P2]].
    exists (e1 ++ e2). rewrite U2, U1, app_assoc, processCalls_app, P1, P2. auto.
Qed.

Lemma launchIPCAS_calls (w : world) :
  ui (launchIPCAS w)
  = ui w ++ match Stat (target w) ["ipcas2.exe"%string] with
            | Some _ => [StartIPCAS; AddLog LogLaunched]
            | None => []
            end.
Proof.
  unfold launchIPCAS. destruct (Stat (target w) ["ipcas2.exe"%string]).
  - apply ui_emits.
  - rewrite app_nil_r. reflexivity.
Qed.

(** X21. [performFilesUpdate] stops [ipcas2.exe] once, before the first
    file is copied, and starts it once at the end exactly when the target
    tree then holds [ipcas2.exe]: also when the update has just brought
    it, and not when it is missing. *)
Theorem update_restarts_iff_installed (files : list path) (w : world) :
  processCalls (added w (performFilesUpdate files w))
  = Taskkill ::
    match Stat (target (performFilesUpdate files w)) ["ipcas2.exe"%string] with
    | Some _ => [StartIPCAS]
    | None => []
    end
  /\ hd_error (added w (performFilesUpdate files w)) = Some Taskkill.
Proof.
  unfold performFilesUpdate, killIPCAS, timeSince, timeNow, addLog. cbv beta iota zeta.
  set (w1 := emits [ProgressShow; SetValue 0] (emits [Taskkill; AddLog LogKilled; Sleep500] w)).
  set (w2 := mkWorld (source w1) (target w1) (backups w1) (selected w1) (ui w1) (reads w1)
                     (clock w1) (S (ticks w1))).
  destruct (updateLoop_calls (List.length files) (clock w1 (ticks w1)) files 0 w2)
    as [loop [UL PL]].
  set (w3 := updateLoop (List.length files) (clock w1 (ticks w1)) 0 files w2) in *.
  set (w4 := emits [SetValue 1; ProgressHide] w3).
  set (w5 := mkWorld (source w4) (target w4) (backups w4) (selected w4) (ui w4) (reads w4)
                     (clock w4) (S (ticks w4))).
  set (m := AddLog (LogUpdateDone (List.length files)
                      (roundSecond (clock w4 (ticks w4) - clock w1 (ticks w1))))).
  set (w6 := emit (SetStatus StUpdateDone) (emit m w5)).
  set (w7 := refreshBackups w6).
  cbn [emit target]. rewrite target_launchIPCAS.
  assert (Hui : ui (emit (ShowMsg (MsgUpdated (List.length files))) (launchIPCAS w7))
                = ui w ++ ([Taskkill; AddLog LogKilled; Sleep500; ProgressShow; SetValue 0]
                           ++ loop
                           ++ [SetValue 1; ProgressHide; m; SetStatus StUpdateDone;
                               SetOptions (listBackups w6)]
                           ++ match Stat (target w7) ["ipcas2.exe"%string] with
                              | Some _ => [StartIPCAS; AddLog LogLaunched]
                              | None => []
                              end
                           ++ [ShowMsg (MsgUpdated (List.length files))])).
  { cbn [emit ui]. rewrite launchIPCAS_calls.
    unfold w7. rewrite (step_ui (step_refreshBackups w6)).
    cbn [w6 w5 emit ui]. unfold w4. rewrite ui_emits, UL.
    cbn [w2 ui]. unfold w1. rewrite !ui_emits. rewrite <- !app_assoc. reflexivity. }
  rewrite (added_intro w _ _ Hui). split; [|reflexivity].
  rewrite !processCalls_app, PL.
  destruct (Stat (target w7) ["ipcas2.exe"%string]); reflexivity.
Qed.

Lemma restoreFile_calls (total : nat) (i : nat) (f : zentry) (w : world) :
  exists evs, ui (restoreFile total i f w) = ui w ++ evs /\ processCalls evs = [].
Proof.
  unfold restoreFile, mkParent.
  destruct w as [src tgt bk sel u rd ck tk]. cbn [target].
  destruct (MkdirAll tgt (parent (Name f)));
    cbn [set_target source target backups selected ui reads clock ticks];
    destruct (zopen f); cbn [negb];
    try (destruct (zread f); cbn [negb]);
    try match goal with |- context [WriteFile ?t ?q ?d] => destruct (WriteFile t q d) end;
    cbn [addLog emit set_target source target backups selected ui reads clock ticks];
    rewrite <- ?app_assoc; eexists; (split; [reflexivity | reflexivity]).
Qed.

Lemma restoreLoop_calls (total : nat) (rest : list zentry) :
  forall i w,
    exists evs, ui (restoreLoop total i rest w) = ui w ++ evs /\ processCalls evs = [].
Proof.
  induction rest as [|f rest IH]; intros i w.
  - exists []. rewrite app_nil_r. auto.
  - cbn [restoreLoop].
    destruct (restoreFile_calls total i f w) as [e1 [U1 P1]].
    destruct (IH (S i) (restoreFile total i f w)) as [e2 [U2 P2]].
    exists (e1 ++ e2). rewrite U2, U1, app_assoc, processCalls_app, P1, P2. auto.
Qed.

(** X22. [doRestore] stops [ipcas2.exe] once as soon as something is
    selected, and starts it again only after it has gone through an
    archive, and then exactly when the target tree holds [ipcas2.exe]. *)
Theorem restore_restarts_iff_installed (w : world) :
  processCalls (added w (doRestore w))
  = if String.eqb (selected w) EmptyString then []
    else
      Taskkill ::
      match entry (selected w) (backups w) with
      | Some (Zip _ _) =>
          match Stat (target (doRestore w)) ["ipcas2.exe"%string] with
          | Some _ => [StartIPCAS]
          | None => []
          end
      | _ => []
      end.
Proof.
  destruct (doRestore_cases w) as [[Hs E]|[[Hs [Hno E]]|[Hs [files [l He]]]]].
  - rewrite Hs, E. rewrite (added_intro w _ [ShowMsg MsgChooseBackup]) by reflexivity.
    reflexivity.
  - rewrite Hs, E.
    rewrite (added_intro w _ [AddLog (LogRestoring (selected w)); Taskkill; AddLog LogKilled;
                              Sleep500; AddLog LogOpenBackupErr])
      by (cbn; rewrite <- !app_assoc; reflexivity).
    destruct (entry (selected w) (backups w)) as [[fs l|l]|]; [|reflexivity|reflexivity].
    exfalso. exact (Hno fs l eq_refl).
  - rewrite Hs, He. unfold doRestore, killIPCAS, addLog. rewrite Hs.
    set (w1 := emits [Taskkill; AddLog LogKilled; Sleep500]
                 (emit (AddLog (LogRestoring (selected w))) w)).
    change (selected w1) with (selected w). change (backups w1) with (backups w).
    rewrite He.
    destruct (restoreLoop_calls (List.length files) files 0 (emit ProgressShow w1))
      as [loop [UL PL]].
    set (w3 := restoreLoop (List.length files) 0 files (emit ProgressShow w1)) in *.
    set (w4 := emits [ProgressHide; AddLog LogRestoreDone; SetStatus StRestoreDone] w3).
    cbn [emit target]. rewrite target_launchIPCAS.
    assert (Hui : ui (emit (ShowMsg (MsgRestored (selected (launchIPCAS w4)))) (launchIPCAS w4))
                  = ui w ++ ([AddLog (LogRestoring (selected w)); Taskkill; AddLog LogKilled;
                              Sleep500; ProgressShow]
                             ++ loop
                             ++ [ProgressHide; AddLog LogRestoreDone; SetStatus StRestoreDone]
                             ++ match Stat (target w4) ["ipcas2.exe"%string] with
                                | Some _ => [StartIPCAS; AddLog LogLaunched]
                                | None => []
                                end
                             ++ [ShowMsg (MsgRestored (selected (launchIPCAS w4)))])).
    { cbn [emit ui]. rewrite launchIPCAS_calls. unfold w4. rewrite ui_emits, UL.
      cbn [emit ui]. unfold w1. rewrite ui_emits. cbn [emit ui].
      rewrite <- !app_assoc. reflexivity. }
    rewrite (added_intro w _ _ Hui).
    rewrite !processCalls_app, PL.
    destruct (Stat (target w4) ["ipcas2.exe"%string]); reflexivity.
Qed.

(** * The names of the archives *)

Lemma prefix_append (p : string) :
  forall s, String.prefix p s = true -> exists r, s = String.append p r.
Proof.
  induction p as [|a p IH]; intros s H.
  - exists s. reflexivity.
  - destruct s as [|b s]; simpl in H; [discriminate|].
    destruct (ascii_dec a b) as [->|]; [|discriminate].
    destruct (IH s H) as [r ->]. exists r. reflexivity.
Qed.

Lemma substring_all (s : string) : substring 0 (String.length s) s = s.
Proof. induction s as [|c s IH]; [reflexivity|]. simpl. rewrite IH. reflexivity. Qed.

Lemma substring_split (n : nat) :
  forall s, (n <= String.length s)%nat ->
            s = String.append (substring 0 n s) (substring n (String.length s - n) s).
Proof.
  induction n as [|n IH]; intros s H.
  - rewrite Nat.sub_0_r, substring_all. destruct s; reflexivity.
  - destruct s as [|c s]; simpl in H; [lia|].
    simpl. f_equal. apply IH. lia.
Qed.

Lemma suffix_append (s suf : string) :
  HasSuffix s suf = true -> exists m, s = String.append m suf.
Proof.
  unfold HasSuffix. intros H. apply andb_prop in H. destruct H as [Hlen Heq].
  apply Nat.leb_le in Hlen. apply String.eqb_eq in Heq.
  exists (substring 0 (String.length s - String.length suf) s).
  rewrite (substring_split (String.length s - String.length suf) s) at 1 by lia.
  replace (String.length s - (String.length s - String.length suf))%nat
    with (String.length suf) by lia.
  rewrite Heq. reflexivity.
Qed.

(** X23. The files [refreshBackups] offers and [createBackup] counts and
    removes are those whose name is ["BK_"], anything, [".zip"]: the names
    [createBackup] gives, with any text in the place of the time stamp. *)
Theorem isBackup_iff (name : string) :
  isBackup name = true <-> exists stamp, name = backupName stamp.
Proof.
  split; [|intros [stamp ->]; apply isBackup_backupName].
  unfold isBackup, HasPrefix. intros H. apply andb_prop in H. destruct H as [Hp Hs].
  apply prefix_append in Hp. destruct Hp as [r ->].
  assert (Hr : HasSuffix r ".zip" = true).
  { destruct r as [|c1 [|c2 [|c3 [|c4 r']]]];
      try (unfold HasSuffix in Hs; simpl in Hs; discriminate).
    unfold HasSuffix in Hs |- *.
    change (String.length (String.append "BK_" (String c1 (String c2 (String c3 (String c4 r')))))
            - String.length ".zip")%nat
      with (S (S (S (String.length r')))) in Hs.
    replace (String.length (String c1 (String c2 (String c3 (String c4 r'))))
             - String.length ".zip")%nat
      with (String.length r') by (simpl; lia).
    change (substring (S (S (S (String.length r')))) (String.length ".zip")
              (String.append "BK_" (String c1 (String c2 (String c3 (String c4 r'))))))
      with (substring (String.length r') (String.length ".zip")
              (String c1 (String c2 (String c3 (String c4 r'))))) in Hs.
    apply andb_prop in Hs. destruct Hs as [_ Hs]. rewrite Hs. reflexivity. }
  destruct (suffix_append r ".zip" Hr) as [m ->]. exists m. reflexivity.
Qed.

(** * The change set, once more *)

Lemma unique_cons (A : Type) (n : string) (x : A) (l : list (string * A)) :
  unique ((n, x) :: l) = true -> ~ In n (List.map fst l) /\ unique l = true.
Proof.
  simpl. destruct (entry n l) eqn:E; [discriminate|]. intros H.
  split; [apply entry_None; exact E | exact H].
Qed.

(** The paths of the files a walk meets are distinct. *)
Lemma leaves_paths_NoDup (d : node) :
  wf d = true -> forall p0, NoDup (List.map fst (leaves (walkDirCalls p0 d))).
Proof.
  induction d as [data a | es ok IH] using node_nested_ind; intros Hwf p0.
  - simpl. constructor; [intros [] | constructor].
  - apply wf_Dir in Hwf. destruct Hwf as [Hu Hall].
    cbn [walkDirCalls]. rewrite leaves_cons_dir.
    assert (H2 : forall l : list call,
      leaves ((if ok then [] else [(p0, Some (Dir es ok), Some EIO)]) ++ l) = leaves l).
    { intros l. destruct ok; cbn [app]; [reflexivity | apply leaves_cons_dir]. }
    rewrite H2. clear H2.
    induction IH as [|[name d1] l Hd1 _ IHl]; [constructor|].
    apply unique_cons in Hu. destruct Hu as [Hname Hu].
    inversion Hall as [|? ? Hw1 Hall']; subst. cbn [fst snd] in Hd1, Hw1.
    cbn [flat_map fst snd]. rewrite leaves_app, map_app.
    apply NoDup_app; [apply Hd1; exact Hw1 | apply IHl; assumption |].
    intros q Hq1 Hq2.
    apply in_map_iff in Hq1. destruct Hq1 as [[q1 n1] [E1 Hq1]]. cbn [fst] in E1. subst q1.
    apply in_map_iff in Hq2. destruct Hq2 as [[q2 n2] [E2 Hq2]]. cbn [fst] in E2. subst q2.
    apply (leaves_lookup d1 Hw1) in Hq1. destruct Hq1 as [rel1 [E1 _]].
    apply In_leaves_flat_map in Hq2. destruct Hq2 as [[name' d'] [He Hq2]].
    rewrite Forall_forall in Hall'. cbn [fst snd] in Hq2.
    apply (leaves_lookup d' (Hall' _ He)) in Hq2. destruct Hq2 as [rel2 [E2 _]].
    rewrite E1, <- !app_assoc in E2. apply app_inv_head in E2. inversion E2; subst name'.
    apply Hname. apply in_map_iff. exists (name, d'). auto.
Qed.

Lemma NoDup_map_filter (A B : Type) (g : A -> B) (f : A -> bool) (l : list A) :
  NoDup (List.map g l) -> NoDup (List.map g (List.filter f l)).
Proof.
  induction l as [|x l IH]; intros H; [constructor|].
  inversion H as [|? ? Hx Hl]; subst. simpl. destruct (f x); [|exact (IH Hl)].
  simpl. constructor; [|exact (IH Hl)].
  intros Hin. apply Hx. apply in_map_iff in Hin. destruct Hin as [y [E Hy]].
  apply filter_In in Hy. apply in_map_iff. exists y. tauto.
Qed.

(** X24. The change set of [getFilesToUpdate] names regular files of the
    source only, each of them at most once: the number of files that
    [doCheck] and [doUpdate] announce counts distinct files. *)
Theorem change_set_lists_each_file_once (md5Sum : list byte -> digest) (w : world)
        (src : node) :
  source w = Some src -> wf src = true ->
  NoDup (snd (fst (getFilesToUpdate md5Sum w)))
  /\ forall p, In p (snd (fst (getFilesToUpdate md5Sum w))) ->
               exists data a, lookup src p = Some (File data a).
Proof.
  intros Hs Hwf. rewrite getFilesToUpdate_eq, Hs. cbn [fst snd]. split.
  - apply NoDup_map_filter. apply leaves_paths_NoDup. exact Hwf.
  - intros p Hp. apply In_map_filter in Hp. destruct Hp as [[q n] [Hn [_ E]]].
    cbn [fst] in E. subst q. apply (files_of_lookup _ _ _ Hwf) in Hn.
    destruct Hn as [Hl Hd]. destruct n as [data a|]; [eauto | discriminate].
Qed.

Lemma change_set_lists_each_file_once_witness :
  source worldChanged = Some (oneFile [x31] plain)
  /\ NoDup (snd (fst (getFilesToUpdate sampleSum worldChanged)))
  /\ forall p, In p (snd (fst (getFilesToUpdate sampleSum worldChanged))) ->
               exists data a, lookup (oneFile [x31] plain) p = Some (File data a).
Proof.
  split; [reflexivity|].
  apply (change_set_lists_each_file_once sampleSum worldChanged (oneFile [x31] plain));
    reflexivity.
Defined.

(** * What the loops leave alone *)

(** X25. [performFilesUpdate] touches nothing outside its change set: a
    path that is not an initial part of a path of the change set names
    the same file, the same directory or nothing before and after. *)
Theorem apply_touches_only_the_change_set (files : list path) (w : world) (q : path) :
  (forall p, In p files -> ~ prefix_of q p) ->
  lookup (target (performFilesUpdate files w)) q = lookup (target w) q.
Proof.
  intros H. rewrite target_performFilesUpdate. apply lookup_applyAll. exact H.
Qed.

Lemma apply_touches_only_the_change_set_witness :
  lookup (target (performFilesUpdate [["a.txt"%string]] worldChanged)) ["b.txt"%string]
  = lookup (target worldChanged) ["b.txt"%string].
Proof.
  apply (apply_touches_only_the_change_set [["a.txt"%string]] worldChanged ["b.txt"%string]).
  intros p [<-|[]] [r Hr]. discriminate.
Defined.





(** * The picture folder *)

Lemma lowerAscii_dot (c : ascii) :
  Ascii.eqb (Scan.lowerAscii c) "." = Ascii.eqb c ".".
Proof. destruct c as [[] [] [] [] [] [] [] []]; reflexivity. Qed.

(** The three cases of [ToLower] on a text that is not empty. *)
Lemma ToLower_cases (c1 : ascii) (s1 : string) :
  (exists c2 s2,
      s1 = String c2 s2 /\ Scan.isDottedI c1 c2 = true
      /\ Scan.ToLower (String c1 s1) = String "i" (Scan.ToLower s2))
  \/ (exists c2 c3 s3,
         s1 = String c2 (String c3 s3) /\ Scan.isKelvin c1 c2 c3 = true
         /\ Scan.ToLower (String c1 s1) = String "k" (Scan.ToLower s3))
  \/ Scan.ToLower (String c1 s1) = String (Scan.lowerAscii c1) (Scan.ToLower s1).
Proof.
  destruct s1 as [|c2 s2]; [right; right; reflexivity|].
  change (Scan.ToLower (String c1 (String c2 s2)))
    with (if Scan.isDottedI c1 c2 then String "i" (Scan.ToLower s2)
          else match s2 with
               | String c3 s3 =>
                   if Scan.isKelvin c1 c2 c3 then String "k" (Scan.ToLower s3)
                   else String (Scan.lowerAscii c1) (Scan.ToLower (String c2 s2))
               | EmptyString => String (Scan.lowerAscii c1) (Scan.ToLower (String c2 s2))
               end).
  destruct (Scan.isDottedI c1 c2) eqn:Ed.
  - left. exists c2, s2. auto.
  - destruct s2 as [|c3 s3]; [right; right; reflexivity|].
    destruct (Scan.isKelvin c1 c2 c3) eqn:Ek.
    + right. left. exists c2, c3, s3. auto.
    + right. right. reflexivity.
Qed.

Lemma ToLower_empty (s : string) : Scan.ToLower s = EmptyString -> s = EmptyString.
Proof.
  destruct s as [|c s]; [reflexivity|]. intros H. exfalso.
  destruct (ToLower_cases c s) as [[c2 [s2 [_ [_ E]]]]|[[c2 [c3 [s3 [_ [_ E]]]]]|E]];
    rewrite E in H; discriminate.
Qed.

Lemma Ext_skip (c : ascii) (s : string) :
  Ascii.eqb c "." = false -> Ext (String c s) = Ext s.
Proof. intros H. cbn [Ext]. rewrite H. destruct (Ext s); reflexivity. Qed.

Lemma isDottedI_dots (c1 c2 : ascii) :
  Scan.isDottedI c1 c2 = true -> Ascii.eqb c1 "." = false /\ Ascii.eqb c2 "." = false.
Proof.
  unfold Scan.isDottedI. rewrite andb_true_iff, !Ascii.eqb_eq. intros [-> ->].
  split; reflexivity.
Qed.

Lemma isKelvin_dots (c1 c2 c3 : ascii) :
  Scan.isKelvin c1 c2 c3 = true ->
  Ascii.eqb c1 "." = false /\ Ascii.eqb c2 "." = false /\ Ascii.eqb c3 "." = false.
Proof.
  unfold Scan.isKelvin. rewrite !andb_true_iff, !Ascii.eqb_eq. intros [[-> ->] ->].
  repeat split; reflexivity.
Qed.

(** Lowering keeps the dots where they are: the extension of the lowered
    name is the lowered extension. *)
Lemma Ext_ToLower_upto (n : nat) :
  forall s, (String.length s <= n)%nat -> Ext (Scan.ToLower s) = Scan.ToLower (Ext s).
Proof.
  induction n as [|n IH]; intros s Hn.
  - destruct s; [reflexivity | simpl in Hn; lia].
  - destruct s as [|c1 s1]; [reflexivity|]. simpl in Hn.
    destruct (ToLower_cases c1 s1) as [[c2 [s2 [-> [Hd E]]]]|[[c2 [c3 [s3 [-> [Hk E]]]]]|E]].
    + destruct (isDottedI_dots _ _ Hd) as [H1 H2]. simpl in Hn.
      rewrite E, (Ext_skip "i") by reflexivity. rewrite IH by lia.
      rewrite (Ext_skip c1) by exact H1. rewrite (Ext_skip c2) by exact H2. reflexivity.
    + destruct (isKelvin_dots _ _ _ Hk) as [H1 [H2 H3]]. simpl in Hn.
      rewrite E, (Ext_skip "k") by reflexivity. rewrite IH by lia.
      rewrite (Ext_skip c1) by exact H1. rewrite (Ext_skip c2) by exact H2.
      rewrite (Ext_skip c3) by exact H3. reflexivity.
    + rewrite E. cbn [Ext]. rewrite IH by lia. rewrite lowerAscii_dot.
      destruct (Ext s1) as [|c' e] eqn:Ee.
      * change (Scan.ToLower EmptyString) with EmptyString. cbv iota.
        destruct (Ascii.eqb c1 "."); [symmetry; exact E | reflexivity].
      * destruct (Scan.ToLower (String c' e)) eqn:El; [|reflexivity].
        apply ToLower_empty in El. discriminate.
Qed.

Lemma Ext_ToLower (s : string) : Ext (Scan.ToLower s) = Scan.ToLower (Ext s).
Proof. apply (Ext_ToLower_upto (String.length s)). apply Nat.le_refl. Qed.

Section JunkFacts.
Variable today : string.
Variable rootName : string.
Variable modDate : path -> option string.
Variable removeOK : path -> bool.

(** X27. The preview and the cleanup do not look for the same files:
    [cleanupJunk] deletes the files whose extension is [.env], which
    [scanJunk] does not announce, and [scanJunk] announces the files whose
    extension is [.evn], which [cleanupJunk] does not delete; on every
    other file the two agree. *)
Theorem preview_and_cleanup_differ (fileName : string) (day : option string) :
  (Scan.ToLower (Ext fileName) = ".env"%string ->
   shouldDelete today fileName day = Some Rubbish /\ isJunk today fileName day = None)
  /\ (Scan.ToLower (Ext fileName) = ".evn"%string ->
      isJunk today fileName day = Some Rubbish /\ shouldDelete today fileName day = None)
  /\ (Scan.ToLower (Ext fileName) <> ".env"%string ->
      Scan.ToLower (Ext fileName) <> ".evn"%string ->
      (isJunk today fileName day = None <-> shouldDelete today fileName day = None)).
Proof.
  unfold shouldDelete, isJunk.
  assert (Hname : forall n : string,
            Scan.ToLower fileName = n -> Scan.ToLower (Ext fileName) = Ext n).
  { intros n <-. symmetry. apply Ext_ToLower. }
  destruct (String.eqb_spec (Scan.ToLower fileName) "thumbs.db") as [E1|N1].
  { rewrite (Hname _ E1). cbv. repeat split; try discriminate; auto. }
  destruct (String.eqb_spec (Scan.ToLower fileName) "desktop.ini") as [E2|N2].
  { rewrite (Hname _ E2). cbv. repeat split; try discriminate; auto. }
  clear Hname. cbn [orb].
  set (ext := Scan.ToLower (Ext fileName)).
  split; [|split].
  - intros ->. cbn. auto.
  - intros ->. cbn. auto.
  - intros Hn1 Hn2.
    destruct (String.eqb_spec ext ".env") as [|_]; [contradiction|].
    destruct (String.eqb_spec ext ".evn") as [|_]; [contradiction|].
    cbn [orb].
    destruct (ext =? ".enk")%string; destruct (ext =? ".db")%string;
      destruct (ext =? ".jpg")%string; destruct (ext =? ".jpeg")%string; cbn [orb];
      try (split; intros; (discriminate || reflexivity));
      destruct day as [d|]; try (split; intros; (discriminate || reflexivity));
      destruct (negb (d =? today)%string);
      split; intros; (discriminate || reflexivity).
Qed.

Lemma cleanStep_no_error p d e s : snd (cleanStep today rootName modDate removeOK p d e s) = None.
Proof.
  unfold cleanStep. destruct e; [reflexivity|]. destruct d as [n|]; [|reflexivity].
  destruct (IsDir n); [reflexivity|]. destruct s as [[[folder deleted] scanned] files].
  destruct (shouldDelete today (nameOf rootName p) (modDate p)); [|reflexivity].
  destruct (Remove removeOK folder p) as [f' [x|]]; reflexivity.
Qed.

Lemma cleanStep_no_SkipDir p d e s s' x :
  cleanStep today rootName modDate removeOK p d e s = (s', Some x) -> is_SkipDir x = false.
Proof.
  intros H. pose proof (cleanStep_no_error p d e s) as H0. rewrite H in H0. discriminate.
Qed.

Lemma seeStep_no_SkipDir p d e s s' x :
  seeStep today rootName modDate p d e s = (s', Some x) -> is_SkipDir x = false.
Proof.
  unfold seeStep. destruct e; [discriminate|]. destruct d as [n|]; [|discriminate].
  destruct (IsDir n); [discriminate|]. destruct s as [[junk scanned] files].
  destruct (isJunk today (nameOf rootName p) (modDate p)); discriminate.
Qed.

Lemma run_cleanStep_no_error (calls : list call) :
  forall s, snd (run (cleanStep today rootName modDate removeOK) calls s) = None.
Proof.
  induction calls as [|[[p d] e] calls IH]; intros s; [reflexivity|].
  cbn [run]. pose proof (cleanStep_no_error p d e s) as H.
  destruct (cleanStep today rootName modDate removeOK p d e s) as [s1 [x|]];
    [discriminate | apply IH].
Qed.

Lemma run_seeStep_no_error (calls : list call) :
  forall s, snd (run (seeStep today rootName modDate) calls s) = None.
Proof.
  induction calls as [|[[p d] e] calls IH]; intros s; [reflexivity|].
  cbn [run].
  destruct (seeStep today rootName modDate p d e s) as [s1 [x|]] eqn:E; [|apply IH].
  exfalso. revert E. unfold seeStep. destruct e; [discriminate|].
  destruct d as [n|]; [|discriminate]. destruct (IsDir n); [discriminate|].
  destruct s as [[junk scanned] files].
  destruct (isJunk today (nameOf rootName p) (modDate p)); discriminate.
Qed.

(** The two walks as runs over the calls. *)
Lemma cleanupJunk_run (folder : option node) :
  WalkDir (cleanStep today rootName modDate removeOK) folder (folder, 0%nat, 0%nat, [])
  = (fst (run (cleanStep today rootName modDate removeOK)
            match folder with Some d => walkDirCalls [] d | None => [] end
            (folder, 0%nat, 0%nat, [])), None).
Proof.
  unfold WalkDir. destruct folder as [d|].
  - rewrite (walkDir_run _ _ cleanStep_no_SkipDir).
    pose proof (run_cleanStep_no_error (walkDirCalls [] d) (Some d, 0%nat, 0%nat, [])) as H.
    destruct (run _ _ _) as [s e]. cbn [snd] in H. subst e. reflexivity.
  - reflexivity.
Qed.

(** X28. [cleanupJunk] never shows an error: its callback answers nil to
    every error of the walk, so the branch ["Lỗi: ..."] is dead, and for a
    folder that does not exist the label says that 0 files were scanned
    and that there is no junk; [scanJunk] says the same. *)
Theorem cleanupJunk_never_reports_error (folder : option node) :
  (forall e, snd (cleanupJunk today rootName modDate removeOK folder) <> CleanError e)
  /\ cleanupJunk today rootName modDate removeOK None = (None, NoJunk 0)
  /\ scanJunk today rootName modDate None = NoJunk 0.
Proof.
  split; [|split; reflexivity].
  intros e. unfold cleanupJunk. rewrite cleanupJunk_run.
  destruct (fst (run _ _ _)) as [[[f' deleted] scanned] files].
  destruct (deleted =? 0)%nat; discriminate.
Qed.
End JunkFacts.

Lemma removeAt_file (p : path) :
  forall t d a, lookup t p = Some (File d a) -> p <> [] -> exists t', removeAt t p = Some t'.
Proof.
  induction p as [|c p IH]; intros t d a Hl Hp; [congruence|].
  destruct t as [|es ok]; [discriminate|]. simpl in Hl. rewrite removeAt_Dir.
  destruct (entry c es) as [x|] eqn:Ec; [|discriminate].
  destruct p as [|c2 p2].
  - simpl in Hl. inversion Hl; subst x. cbn [removable]. eauto.
  - destruct (IH x d a Hl) as [x' Hx]; [discriminate|]. rewrite Hx. eauto.
Qed.

(** What is seen after a removal was there before. *)
Lemma lookup_removeAt_some (p : path) :
  forall t t' q n,
    wf t = true -> removeAt t p = Some t' ->
    lookup t' q = Some n -> exists n', lookup t q = Some n'.
Proof.
  induction p as [|c p IH]; intros t t' q n Hwf Hr Hl; [discriminate|].
  destruct t as [|es ok]; [discriminate|]. rewrite removeAt_Dir in Hr.
  destruct (entry c es) as [x|] eqn:Ec; [|discriminate].
  pose proof Hwf as Hwf'. apply wf_Dir in Hwf'. destruct Hwf' as [Hu _].
  destruct q as [|c' q]; [simpl; eauto|].
  destruct p as [|c2 p2].
  - destruct (removable x); [|discriminate]. inversion Hr; subst t'. clear Hr.
    simpl in Hl |- *. destruct (String.eqb_spec c' c) as [->|Hne].
    + rewrite (entry_delEntry_same _ c es Hu) in Hl. discriminate.
    + rewrite entry_delEntry in Hl by exact Hne. eauto.
  - destruct (removeAt x (c2 :: p2)) as [x'|] eqn:Ex; [|discriminate].
    inversion Hr; subst t'. clear Hr. simpl in Hl |- *.
    rewrite entry_putEntry in Hl. destruct (String.eqb_spec c c') as [->|Hne].
    + rewrite Ec. eapply IH; [eapply wf_entry; eassumption | exact Ex | exact Hl].
    + eauto.
Qed.

Section RemoveFacts.
Variable removeOK : path -> bool.

Lemma Remove_spares (t : node) (p q : path) (d : list byte) (a : attrs) :
  lookup t q = Some (File d a) -> q <> p ->
  lookupIn (fst (Remove removeOK (Some t) p)) q = Some (File d a).
Proof.
  intros Hl Hne.
  destruct (Remove_cases removeOK (Some t) p)
    as [E|[[t2 [t' [E2 [Hr E]]]]|[t2 [E2 [Hp [Hrm E]]]]]].
  - rewrite E. exact Hl.
  - inversion E2; subst t2. rewrite E. cbn [fst lookupIn].
    eapply file_survives_removeAt; eassumption.
  - exfalso. inversion E2; subst t2. subst p.
    destruct q as [|c q]; [congruence|].
    destruct t as [d0 a0|[|e0 es0] ok0]; simpl in Hl, Hrm; discriminate.
Qed.

Lemma Remove_facts (folder : option node) (p : path) :
  wfIn folder = true ->
  wfIn (fst (Remove removeOK folder p)) = true
  /\ (forall q, lookupIn folder q = None ->
                lookupIn (fst (Remove removeOK folder p)) q = None)
  /\ (forall q d a, lookupIn folder q = Some (File d a) ->
                    lookupIn (fst (Remove removeOK folder p)) q = Some (File d a)
                    \/ lookupIn (fst (Remove removeOK folder p)) q = None)
  /\ (removeOK p = true ->
      forall d a, lookupIn folder p = Some (File d a) ->
                  lookupIn (fst (Remove removeOK folder p)) p = None).
Proof.
  intros Hwf.
  destruct (Remove_cases removeOK folder p)
    as [E|[[t [t' [E2 [Hr E]]]]|[t [E2 [Hp [Hrm E]]]]]].
  - rewrite E. split; [exact Hwf|]. split; [auto|]. split; [auto|].
    intros Hok d a Hl. exfalso. revert E. unfold Remove.
    destruct folder as [t|]; [|discriminate]. rewrite Hok. cbn [negb].
    cbn [lookupIn] in Hl. destruct p as [|c p].
    + simpl in Hl. inversion Hl; subst t. cbn [removable fst]. discriminate.
    + destruct (removeAt_file (c :: p) t d a Hl) as [t' Ht']; [discriminate|].
      rewrite Ht'. cbn [fst]. intros E. inversion E; subst t'.
      pose proof (lookup_removeAt_same _ _ _ Hwf Ht') as Hn. congruence.
  - subst folder. rewrite E. cbn [fst wfIn lookupIn] in *.
    split; [eapply wf_removeAt; eassumption|]. split; [|split].
    + intros q Hq. destruct (lookup t' q) as [n|] eqn:El; [|reflexivity].
      destruct (lookup_removeAt_some _ _ _ _ _ Hwf Hr El) as [n' Hn']. congruence.
    + intros q d a Hl. destruct (list_eq_dec string_dec q p) as [->|Hne].
      * right. eapply lookup_removeAt_same; eassumption.
      * left. eapply file_survives_removeAt; eassumption.
    + intros _ d a _. eapply lookup_removeAt_same; eassumption.
  - rewrite E. cbn. repeat split; auto.
Qed.
End RemoveFacts.

Section CleanFacts.
Variable today : string.
Variable rootName : string.
Variable modDate : path -> option string.
Variable removeOK : path -> bool.

Lemma run_clean_spares (q : path) (d : list byte) (a : attrs) (calls : list call) :
  shouldDelete today (nameOf rootName q) (modDate q) = None ->
  forall s,
    lookupIn (fst (fst (fst s))) q = Some (File d a) ->
    lookupIn (fst (fst (fst (fst (run (cleanStep today rootName modDate removeOK) calls s)))))
             q = Some (File d a).
Proof.
  intros Hq. induction calls as [|[[p n] e] calls IH]; intros s Hl; [exact Hl|].
  cbn [run].
  assert (H1 : lookupIn (fst (fst (fst (fst (cleanStep today rootName modDate removeOK
                                                p n e s))))) q = Some (File d a)).
  { unfold cleanStep. destruct e; [exact Hl|]. destruct n as [n|]; [|exact Hl].
    destruct (IsDir n); [exact Hl|]. destruct s as [[[folder deleted] scanned] files].
    cbn [fst] in Hl.
    destruct (shouldDelete today (nameOf rootName p) (modDate p)) eqn:Ep; [|exact Hl].
    assert (Hne : q <> p) by (intros ->; congruence).
    destruct folder as [t|]; [|discriminate].
    pose proof (Remove_spares removeOK t p q d a Hl Hne) as Hs.
    destruct (Remove removeOK (Some t) p) as [f' [x|]]; exact Hs. }
  pose proof (cleanStep_no_error today rootName modDate removeOK p n e s) as Hn.
  destruct (cleanStep today rootName modDate removeOK p n e s) as [s1 [x|]];
    [discriminate|].
  apply IH. exact H1.
Qed.

(** X29. [cleanupJunk] deletes nothing but junk: a regular file of the
    folder that none of its three rules names (among them a photo of
    today) is there afterwards with the same bytes and attributes, whatever
    [os.Remove] does. *)
Theorem cleanupJunk_keeps_other_files (t : node) (q : path) (d : list byte) (a : attrs) :
  lookup t q = Some (File d a) ->
  shouldDelete today (nameOf rootName q) (modDate q) = None ->
  lookupIn (fst (cleanupJunk today rootName modDate removeOK (Some t))) q
  = Some (File d a).
Proof.
  intros Hl Hq. unfold cleanupJunk. rewrite cleanupJunk_run.
  pose proof (run_clean_spares q d a (walkDirCalls [] t) Hq (Some t, 0%nat, 0%nat, []) Hl)
    as H.
  destruct (fst (run _ _ _)) as [[[f' deleted] scanned] files]. cbn [fst] in H.
  destruct (deleted =? 0)%nat; exact H.
Qed.

Lemma cleanStep_facts (p : path) (n : option node) (e : option error)
      (s : option node * nat * nat * list (string * reason)) :
  wfIn (fst (fst (fst s))) = true ->
  let s' := fst (cleanStep today rootName modDate removeOK p n e s) in
  wfIn (fst (fst (fst s'))) = true
  /\ (forall q, lookupIn (fst (fst (fst s))) q = None ->
                lookupIn (fst (fst (fst s'))) q = None)
  /\ (forall q d a, lookupIn (fst (fst (fst s))) q = Some (File d a) ->
                    lookupIn (fst (fst (fst s'))) q = Some (File d a)
                    \/ lookupIn (fst (fst (fst s'))) q = None)
  /\ (removeOK p = true -> e = None ->
      forall x, n = Some x -> IsDir x = false ->
      shouldDelete today (nameOf rootName p) (modDate p) <> None ->
      forall d a, lookupIn (fst (fst (fst s))) p = Some (File d a) ->
                  lookupIn (fst (fst (fst s'))) p = None).
Proof.
  intros Hwf. cbv zeta. unfold cleanStep.
  destruct e as [e|]; [repeat split; auto; discriminate|].
  destruct n as [x|]; [|repeat split; auto; discriminate].
  destruct (IsDir x) eqn:Ed;
    [repeat split; auto; intros; match goal with H : Some _ = Some _ |- _ =>
        inversion H; subst; congruence end|].
  destruct s as [[[folder deleted] scanned] files]. cbn [fst] in Hwf |- *.
  destruct (shouldDelete today (nameOf rootName p) (modDate p)) eqn:Ep;
    [|cbn [fst]; repeat split; auto; intros; congruence].
  destruct (Remove_facts removeOK folder p Hwf) as [R1 [R2 [R3 R4]]].
  destruct (Remove removeOK folder p) as [f' [y|]]; cbn [fst] in *;
    (split; [exact R1|]; split; [exact R2|]; split; [exact R3|]);
    intros Hok _ x0 _ _ _ d a Hl; exact (R4 Hok d a Hl).
Qed.

Lemma run_clean_facts (calls : list call) :
  forall s,
    wfIn (fst (fst (fst s))) = true ->
    let s' := fst (run (cleanStep today rootName modDate removeOK) calls s) in
    wfIn (fst (fst (fst s'))) = true
    /\ (forall q, lookupIn (fst (fst (fst s))) q = None ->
                  lookupIn (fst (fst (fst s'))) q = None)
    /\ (forall q d a, lookupIn (fst (fst (fst s))) q = Some (File d a) ->
                      lookupIn (fst (fst (fst s'))) q = Some (File d a)
                      \/ lookupIn (fst (fst (fst s'))) q = None)
    /\ ((forall p, removeOK p = true) ->
        forall q x d a,
          In (q, Some x, None) calls -> IsDir x = false ->
          shouldDelete today (nameOf rootName q) (modDate q) <> None ->
          lookupIn (fst (fst (fst s))) q = Some (File d a) ->
          lookupIn (fst (fst (fst s'))) q = None).
Proof.
  induction calls as [|[[p n] e] calls IH]; intros s Hwf; cbv zeta.
  - cbn [run fst]. repeat split; auto. intros _ q x d a [].
  - cbn [run].
    destruct (cleanStep_facts p n e s Hwf) as [W1 [N1 [F1 D1]]].
    pose proof (cleanStep_no_error today rootName modDate removeOK p n e s) as Hn.
    destruct (cleanStep today rootName modDate removeOK p n e s) as [s1 [y|]];
      [discriminate|]. cbn [fst] in W1, N1, F1, D1.
    destruct (IH s1 W1) as [W2 [N2 [F2 D2]]].
    split; [exact W2|]. split; [intros q Hq; apply N2, N1, Hq|]. split.
    + intros q d a Hl. destruct (F1 q d a Hl) as [H|H]; [exact (F2 q d a H)|].
      right. apply N2. exact H.
    + intros Hok q x d a [Hin|Hin] Hd Hj Hl.
      * inversion Hin; subst p n e. apply N2.
        exact (D1 (Hok q) eq_refl x eq_refl Hd Hj d a Hl).
      * destruct (F1 q d a Hl) as [H|H]; [|apply N2; exact H].
        exact (D2 Hok q x d a Hin Hd Hj H).
Qed.

(** X30. When [os.Remove] is let through everywhere, [cleanupJunk] on a
    well formed folder leaves none of the regular files that one of its
    three rules names. *)
Theorem cleanupJunk_removes_the_junk (t : node) (q : path) (d : list byte) (a : attrs) :
  wf t = true ->
  (forall p, removeOK p = true) ->
  lookup t q = Some (File d a) ->
  shouldDelete today (nameOf rootName q) (modDate q) <> None ->
  lookupIn (fst (cleanupJunk today rootName modDate removeOK (Some t))) q = None.
Proof.
  intros Hwf Hok Hl Hj. unfold cleanupJunk. rewrite cleanupJunk_run.
  destruct (run_clean_facts (walkDirCalls [] t) (Some t, 0%nat, 0%nat, []) Hwf)
    as [_ [_ [_ D]]].
  assert (Hin : In (q, Some (File d a), None) (walkDirCalls [] t)).
  { assert (Hf : In (q, File d a) (files_of t))
      by (apply (files_of_lookup _ _ _ Hwf); auto).
    unfold files_of, leaves in Hf. apply in_flat_map in Hf.
    destruct Hf as [[[q' n'] e'] [Hc Hx]].
    destruct n' as [n'|]; [|contradiction]. destruct e'; [contradiction|].
    destruct (IsDir n'); [contradiction|]. destruct Hx as [E|[]]. inversion E; subst.
    exact Hc. }
  pose proof (D Hok q (File d a) d a Hin eq_refl Hj Hl) as H.
  destruct (fst (run _ _ _)) as [[[f' deleted] scanned] files]. cbn [fst] in H.
  destruct (deleted =? 0)%nat; exact H.
Qed.
End CleanFacts.

Lemma cleanupJunk_keeps_other_files_witness :
  lookup pictureFolder ["d.txt"%string] = Some (File [x34] plain)
  /\ lookupIn (fst (cleanupJunk "2026-01-02" "Picture" (fun _ => Some "2026-01-01"%string)
                      (fun _ => true) (Some pictureFolder))) ["d.txt"%string]
     = Some (File [x34] plain).
Proof.
  split; [reflexivity|].
  apply (cleanupJunk_keeps_other_files "2026-01-02" "Picture"
           (fun _ => Some "2026-01-01"%string) (fun _ => true) pictureFolder
           ["d.txt"%string] [x34] plain); reflexivity.
Defined.

Lemma cleanupJunk_removes_the_junk_witness :
  lookup pictureFolder ["b.env"%string] = Some (File [x32] plain)
  /\ lookupIn (fst (cleanupJunk "2026-01-02" "Picture" (fun _ => Some "2026-01-01"%string)
                      (fun _ => true) (Some pictureFolder))) ["b.env"%string]
     = None.
Proof.
  split; [reflexivity|].
  apply (cleanupJunk_removes_the_junk "2026-01-02" "Picture"
           (fun _ => Some "2026-01-01"%string) (fun _ => true) pictureFolder
           ["b.env"%string] [x32] plain);
    [reflexivity | reflexivity | reflexivity | discriminate].
Defined.
